(** * The arboreal block map of VDO: tree zones, rebuild, super block

    A shallow embedding of the parts of
      - [vdo/base/blockMapTree.c]         (tree zone, generation flush protocol),
      - [vdo/base/referenceCountRebuild.c] (leaf sweep of the rebuild),
      - [vdo/superBlockCodec.c]            (super block decoding),
      - [uds/masterIndexOps.c]             (master index restore driver)
    that the properties below are about.

    Conventions.
      - A [uint8_t] generation is a [Z] in [0, 256); every increment is
        written with its wrap-around ([mod 256]).  A [uint32_t] dirty page
        count wraps at [2^32], a [uint64_t] block count at [2^64].
      - Pointers to tree pages, pool entries and data_vios are indices into
        total stores ([page_id -> tree_page.t], ...): a C pointer always
        designates an object.
      - The zone is single threaded and every handler runs to completion,
        so a handler is a function on the zone state.  Calls that leave the
        file (the read-only notifier, the recovery journal, metadata I/O)
        are recorded, in order, in the [trace] of the zone.
      - [ASSERT] returns an error code instead of terminating the process
        (exit_on_assertion_failure is off). *)

From Stdlib Require Import ZArith List Bool Lia Arith.
Import ListNotations.

Open Scope Z_scope.

(** ** Status codes *)

(** The [int] results that the code names.  [error_code n] stands for every
    other value an [int] result can take. *)
Inductive status : Type :=
| VDO_SUCCESS
| VDO_NO_SPACE
| VDO_READ_ONLY
| VDO_BAD_MAPPING
| VDO_SHUTTING_DOWN
| VDO_UNSUPPORTED_VERSION
| VDO_CHECKSUM_MISMATCH
| UDS_ASSERTION_FAILED
| UDS_END_OF_FILE
| UDS_CORRUPT_COMPONENT
| UDS_BUFFER_ERROR
| error_code (n : Z).

Definition UDS_SUCCESS : status := VDO_SUCCESS.

Definition status_eq_dec (a b : status) : {a = b} + {a <> b}.
Proof. decide equality. apply Z.eq_dec. Defined.

Definition status_eqb (a b : status) : bool :=
  if status_eq_dec a b then true else false.

(** [ASSERT(expr, ...)] of permassert.h. *)
Definition ASSERT (expr : bool) : status :=
  if expr then UDS_SUCCESS else UDS_ASSERTION_FAILED.

(** ** Identifiers and small types *)

Definition page_id := nat.
Definition entry_id := nat.
Definition data_vio_id := nat.

Definition PhysicalBlockNumber := Z.
Definition ZERO_BLOCK : PhysicalBlockNumber := 0.

Definition uint8 (x : Z) : Z := x mod 256.
Definition uint32 (x : Z) : Z := x mod 2 ^ 32.
Definition uint64 (x : Z) : Z := x mod 2 ^ 64.

Definition option_page_eqb (a : option page_id) (p : page_id) : bool :=
  match a with
  | Some q => Nat.eqb q p
  | None => false
  end.

(** Modelled from the spec: numUtils.h is not under src/.  The
    "cyclic_in_range(low, x, high, modulus)" primitive: [value] lies in
    the cyclic interval from [lower] to [upper], both ends included. *)
Definition in_cyclic_range (lower value upper modulus : Z) : bool :=
  let value := if value <? lower then value + modulus else value in
  let upper := if upper <? lower then upper + modulus else upper in
  value <=? upper.

(** ** Tree pages *)

(** The 4-bit mapping state of a block map entry: unmapped, uncompressed,
    or one of the compressed slots. *)
Inductive BlockMappingState : Type :=
| MAPPING_STATE_UNMAPPED
| MAPPING_STATE_UNCOMPRESSED
| MAPPING_STATE_COMPRESSED (slot : Z).

Module data_location.
Record t : Type := mk {
  pbn : PhysicalBlockNumber;
  state : BlockMappingState
}.
End data_location.

(** Modelled from the spec: blockMappingState.h and blockMapEntry.h are not
    under src/.  A location is mapped unless its state is UNMAPPED, and
    compressed when its state is one of the compressed slots.  Entries are
    kept unpacked: [pack_pbn(pbn, state)] is the pair and
    [unpack_block_map_entry] reads it back. *)
Definition is_mapped_location (l : data_location.t) : bool :=
  match data_location.state l with
  | MAPPING_STATE_UNMAPPED => false
  | _ => true
  end.

Definition is_compressed (s : BlockMappingState) : bool :=
  match s with
  | MAPPING_STATE_COMPRESSED _ => true
  | _ => false
  end.

Definition pack_pbn (pbn : PhysicalBlockNumber) (s : BlockMappingState)
  : data_location.t := data_location.mk pbn s.

Module block_map_page.
(** The header fields the code reads, and the entries. *)
Record t : Type := mk {
  pbn : PhysicalBlockNumber;
  initialized : bool;
  entries : list data_location.t
}.

Definition set_entries (v : list data_location.t) (p : t) : t :=
  mk (pbn p) (initialized p) v.
End block_map_page.

(** [unpack_block_map_entry(&page->entries[slot])]. *)
Definition unpack_block_map_entry (page : block_map_page.t) (slot : nat)
  : data_location.t :=
  nth slot (block_map_page.entries page)
      (data_location.mk ZERO_BLOCK MAPPING_STATE_UNMAPPED).

Module tree_page.
Record t : Type := mk {
  generation : Z;
  writing_generation : Z;
  writing : bool;
  recovery_lock : Z;
  writing_recovery_lock : Z;
  page_buffer : block_map_page.t
}.

Definition set_generation (v : Z) (p : t) : t :=
  mk v (writing_generation p) (writing p) (recovery_lock p)
     (writing_recovery_lock p) (page_buffer p).

Definition set_writing (v : bool) (p : t) : t :=
  mk (generation p) (writing_generation p) v (recovery_lock p)
     (writing_recovery_lock p) (page_buffer p).

(** The four assignments of write_page. *)
Definition start_writing (buf : block_map_page.t) (p : t) : t :=
  mk (generation p) (generation p) true 0 (recovery_lock p) buf.
End tree_page.

(** ** External calls recorded in the trace *)

Inductive event : Type :=
| enter_read_only_mode (result : status)
| check_for_drain_complete
| release_recovery_journal_block_reference (lock : Z)
| notify_waiter (page : page_id) (context_generation : Z)
| launchWriteMetadataVIO (entry : entry_id) (page : page_id)
| launchWriteMetadataVIOWithFlush (entry : entry_id) (page : page_id)
                                  (flush_before : bool)
| launchReadMetadataVIO (entry : entry_id) (data_vio : data_vio_id)
| setCompletionResult (data_vio : data_vio_id) (result : status).

Definition is_write_launch (ev : event) : bool :=
  match ev with
  | launchWriteMetadataVIO _ _ => true
  | launchWriteMetadataVIOWithFlush _ _ _ => true
  | _ => false
  end.

(** ** The VIO pool *)

(** What can wait for a pool entry: a tree page (callback
    write_page_callback) or a data_vio loading a page (callback
    load_page). *)
Inductive pool_waiter : Type :=
| page_waiter (p : page_id)
| load_waiter (d : data_vio_id).

Module vio_pool.
(** Modelled from the spec: vioPool.c is not under src/.  A bounded set
    of entries; [available] are the free ones, [waiting] the FIFO of
    waiters queued while none was free, [busy_count] the entries checked
    out. *)
Record t : Type := mk {
  available : list entry_id;
  waiting : list pool_waiter;
  busy_count : Z
}.
End vio_pool.

(** A pool entry: [parent] is the page being written with it, [buffer] the
    copy of the page that goes to disk. *)
Module vio_pool_entry.
Record t : Type := mk {
  parent : page_id;
  buffer : block_map_page.t
}.
End vio_pool_entry.

(** ** Data_vios and their tree locks *)

Module tree_lock.
Record t : Type := mk {
  height : Z;
  key : Z;
  locked : bool;
  waiters : list data_vio_id
}.
End tree_lock.

Module data_vio.
(** [is_read] is what isReadDataVIO answers. *)
Record t : Type := mk {
  is_read : bool;
  treeLock : tree_lock.t
}.
End data_vio.

(** ** The tree zone *)

(** [loading_pages] is the int_map from lock keys to lock holders; [pages],
    [entries] and [data_vios] are the objects the zone's pointers reach. *)
Record block_map_tree_zone : Type := mk_zone {
  generation : Z;
  oldest_generation : Z;
  dirty_page_counts : Z -> Z;
  flusher : option page_id;
  flush_waiters : list page_id;
  active_lookups : Z;
  vio_pool : vio_pool.t;
  loading_pages : list (Z * data_vio_id);
  pages : page_id -> tree_page.t;
  entries : entry_id -> vio_pool_entry.t;
  data_vios : data_vio_id -> data_vio.t;
  trace : list event
}.

Definition with_generation (v : Z) (z : block_map_tree_zone)
  : block_map_tree_zone :=
  mk_zone v (oldest_generation z) (dirty_page_counts z) (flusher z)
          (flush_waiters z) (active_lookups z) (vio_pool z) (loading_pages
          z) (pages z) (entries z) (data_vios z) (trace z).

Definition with_oldest_generation (v : Z) (z : block_map_tree_zone)
  : block_map_tree_zone :=
  mk_zone (generation z) v (dirty_page_counts z) (flusher z)
          (flush_waiters z) (active_lookups z) (vio_pool z) (loading_pages
          z) (pages z) (entries z) (data_vios z) (trace z).

Definition with_dirty_page_counts (v : Z -> Z) (z : block_map_tree_zone)
  : block_map_tree_zone :=
  mk_zone (generation z) (oldest_generation z) v (flusher z)
          (flush_waiters z) (active_lookups z) (vio_pool z) (loading_pages
          z) (pages z) (entries z) (data_vios z) (trace z).

Definition with_flusher (v : option page_id) (z : block_map_tree_zone)
  : block_map_tree_zone :=
  mk_zone (generation z) (oldest_generation z) (dirty_page_counts z)
          v (flush_waiters z) (active_lookups z) (vio_pool z) (loading_pages
          z) (pages z) (entries z) (data_vios z) (trace z).

Definition with_flush_waiters (v : list page_id) (z : block_map_tree_zone)
  : block_map_tree_zone :=
  mk_zone (generation z) (oldest_generation z) (dirty_page_counts z)
          (flusher z) v (active_lookups z) (vio_pool z) (loading_pages z)
          (pages z) (entries z) (data_vios z) (trace z).

Definition with_active_lookups (v : Z) (z : block_map_tree_zone)
  : block_map_tree_zone :=
  mk_zone (generation z) (oldest_generation z) (dirty_page_counts z)
          (flusher z) (flush_waiters z) v (vio_pool z) (loading_pages z)
          (pages z) (entries z) (data_vios z) (trace z).

Definition with_vio_pool (v : vio_pool.t) (z : block_map_tree_zone)
  : block_map_tree_zone :=
  mk_zone (generation z) (oldest_generation z) (dirty_page_counts z)
          (flusher z) (flush_waiters z) (active_lookups z) v (loading_pages
          z) (pages z) (entries z) (data_vios z) (trace z).

Definition with_loading_pages (v : list (Z * data_vio_id)) (z : block_map_tree_zone)
  : block_map_tree_zone :=
  mk_zone (generation z) (oldest_generation z) (dirty_page_counts z)
          (flusher z) (flush_waiters z) (active_lookups z) (vio_pool z) v
          (pages z) (entries z) (data_vios z) (trace z).

Definition with_pages (v : page_id -> tree_page.t) (z : block_map_tree_zone)
  : block_map_tree_zone :=
  mk_zone (generation z) (oldest_generation z) (dirty_page_counts z)
          (flusher z) (flush_waiters z) (active_lookups z) (vio_pool z)
          (loading_pages z) v (entries z) (data_vios z) (trace z).

Definition with_entries (v : entry_id -> vio_pool_entry.t) (z : block_map_tree_zone)
  : block_map_tree_zone :=
  mk_zone (generation z) (oldest_generation z) (dirty_page_counts z)
          (flusher z) (flush_waiters z) (active_lookups z) (vio_pool z)
          (loading_pages z) (pages z) v (data_vios z) (trace z).

Definition with_data_vios (v : data_vio_id -> data_vio.t) (z : block_map_tree_zone)
  : block_map_tree_zone :=
  mk_zone (generation z) (oldest_generation z) (dirty_page_counts z)
          (flusher z) (flush_waiters z) (active_lookups z) (vio_pool z)
          (loading_pages z) (pages z) (entries z) v (trace z).

Definition emit (ev : event) (z : block_map_tree_zone) : block_map_tree_zone :=
  mk_zone (generation z) (oldest_generation z) (dirty_page_counts z)
          (flusher z) (flush_waiters z) (active_lookups z) (vio_pool z)
          (loading_pages z) (pages z) (entries z) (data_vios z) (trace z ++
          [ev]).

(** Pointwise update of a total store. *)
Definition upd {A : Type} (f : nat -> A) (i : nat) (v : A) : nat -> A :=
  fun j => if Nat.eqb j i then v else f j.

Definition updZ {A : Type} (f : Z -> A) (i : Z) (v : A) : Z -> A :=
  fun j => if Z.eqb j i then v else f j.

Definition update_page (p : page_id) (f : tree_page.t -> tree_page.t)
           (z : block_map_tree_zone) :=
  with_pages (upd (pages z) p (f (pages z p))) z.

(** [is_waiting(&page->waiter)]: the page's waiter is linked on a queue.
    A tree page's waiter is only ever put on the zone's flush_waiters or
    on the pool's waiting queue. *)
Definition pool_waiter_is_page (p : page_id) (w : pool_waiter) : bool :=
  match w with
  | page_waiter q => Nat.eqb q p
  | load_waiter _ => false
  end.

Definition is_waiting (p : page_id) (z : block_map_tree_zone) : bool :=
  existsb (Nat.eqb p) (flush_waiters z)
  || existsb (pool_waiter_is_page p) (vio_pool.waiting (vio_pool z)).

Definition has_waiters {A : Type} (q : list A) : bool :=
  match q with
  | [] => false
  | _ :: _ => true
  end.

(** ** blockMapTree.c: read-only mode and the generation clock *)

(** The [while (has_waiters(...)) dequeue_next_waiter(...)] loop: one
    waiter leaves the queue per iteration. *)
Fixpoint dequeue_all_flush_waiters (q : list page_id) : list page_id :=
  match q with
  | [] => []
  | _ :: rest => dequeue_all_flush_waiters rest
  end.

Definition enter_zone_read_only_mode (result : status)
           (z : block_map_tree_zone) : block_map_tree_zone :=
  let z := emit (enter_read_only_mode result) z in
  let z := with_flush_waiters (dequeue_all_flush_waiters (flush_waiters z)) z in
  emit check_for_drain_complete z.

Definition is_not_older (a b : Z) (z : block_map_tree_zone)
  : bool * block_map_tree_zone :=
  let result :=
    ASSERT (in_cyclic_range (oldest_generation z) a (generation z) (2 ^ 8)
            && in_cyclic_range (oldest_generation z) b (generation z) (2 ^ 8)) in
  if negb (status_eqb result VDO_SUCCESS) then
    (true, enter_zone_read_only_mode result z)
  else
    (in_cyclic_range b a (generation z) (2 ^ 8), z).

(** The loop of release_generation.  [oldest_generation] is a [uint8_t]:
    the increment wraps.  The loop runs at most 255 times (lemma
    [roll_oldest_generation_exit]); [n] bounds the iterations. *)
Fixpoint roll_oldest_generation (n : nat) (z : block_map_tree_zone)
  : block_map_tree_zone :=
  match n with
  | O => z
  | S n =>
      if (dirty_page_counts z (oldest_generation z) =? 0)
         && negb (oldest_generation z =? generation z)
      then roll_oldest_generation n
             (with_oldest_generation (uint8 (oldest_generation z + 1)) z)
      else z
  end.

Definition release_generation (generation : Z) (z : block_map_tree_zone)
  : block_map_tree_zone :=
  let result := ASSERT (0 <? dirty_page_counts z generation) in
  if negb (status_eqb result VDO_SUCCESS) then
    enter_zone_read_only_mode result z
  else
    let z := with_dirty_page_counts
               (updZ (dirty_page_counts z) generation
                     (uint32 (dirty_page_counts z generation - 1))) z in
    roll_oldest_generation 256 z.

Definition set_generation (page : page_id) (new_generation : Z)
           (decrement_old : bool) (z : block_map_tree_zone)
  : block_map_tree_zone :=
  let old_generation := tree_page.generation (pages z page) in
  if decrement_old && (old_generation =? new_generation) then z
  else
    let z := update_page page (tree_page.set_generation new_generation) z in
    let new_count := uint32 (dirty_page_counts z new_generation + 1) in
    let z := with_dirty_page_counts
               (updZ (dirty_page_counts z) new_generation new_count) z in
    let result := ASSERT (negb (new_count =? 0)) in
    if negb (status_eqb result VDO_SUCCESS) then
      enter_zone_read_only_mode result z
    else if decrement_old then release_generation old_generation z
    else z.

Definition attempt_increment (z : block_map_tree_zone)
  : bool * block_map_tree_zone :=
  let generation' := uint8 (generation z + 1) in
  if oldest_generation z =? generation' then (false, z)
  else (true, with_generation generation' z).

(** ** blockMapTree.c: the write pipeline *)

(** Modelled from the spec: blockMapPage.h is not under src/.
    [mark_block_map_page_initialized(page, initialized)] sets the flag of
    the page and returns a boolean.  The comment of write_initialized_page
    ("write a page which has been written at least once"), which
    write_page calls directly when the result is false, fixes its sense:
    the result is true when the flag changed. *)
Definition mark_block_map_page_initialized (page : block_map_page.t)
           (initialized : bool) : bool * block_map_page.t :=
  if Bool.eqb initialized (block_map_page.initialized page) then (false, page)
  else (true, block_map_page.mk (block_map_page.pbn page) initialized
                               (block_map_page.entries page)).

(** Modelled from the spec: waitQueue.c is not under src/.  A waiter is on
    at most one queue; [enqueue_waiter] fails on a waiter that is already
    linked, and appends otherwise. *)
Definition enqueue_flush_waiter (page : page_id) (z : block_map_tree_zone)
  : status * block_map_tree_zone :=
  let result := ASSERT (negb (is_waiting page z)) in
  if negb (status_eqb result VDO_SUCCESS) then (result, z)
  else (VDO_SUCCESS, with_flush_waiters (flush_waiters z ++ [page]) z).

Definition enqueue_pool_waiter (w : pool_waiter) (z : block_map_tree_zone)
  : status * block_map_tree_zone :=
  let linked :=
    match w with
    | page_waiter p => is_waiting p z
    | load_waiter _ => false
    end in
  let result := ASSERT (negb linked) in
  if negb (status_eqb result VDO_SUCCESS) then (result, z)
  else
    let pool := vio_pool z in
    (VDO_SUCCESS,
     with_vio_pool (vio_pool.mk (vio_pool.available pool)
                                (vio_pool.waiting pool ++ [w])
                                (vio_pool.busy_count pool)) z).

(** write_initialized_page: the copy in the entry is marked initialized and
    written; the write carries a flush iff the page is the flusher. *)
Definition write_initialized_page (entry : entry_id)
           (z : block_map_tree_zone) : block_map_tree_zone :=
  let e := entries z entry in
  let tree_page := vio_pool_entry.parent e in
  let page := snd (mark_block_map_page_initialized (vio_pool_entry.buffer e) true) in
  let z := with_entries (upd (entries z) entry
                             (vio_pool_entry.mk tree_page page)) z in
  emit (launchWriteMetadataVIOWithFlush entry tree_page
          (option_page_eqb (flusher z) tree_page)) z.

(** The second half of write_page, from [entry->parent = tree_page] on. *)
Definition launch_page_write (tree_page : page_id) (entry : entry_id)
           (z : block_map_tree_zone) : block_map_tree_zone :=
  let buffer := tree_page.page_buffer (pages z tree_page) in
  let z := with_entries (upd (entries z) entry
                             (vio_pool_entry.mk tree_page buffer)) z in
  let '(changed, page) := mark_block_map_page_initialized buffer true in
  let z := update_page tree_page (tree_page.start_writing page) z in
  if negb changed then write_initialized_page entry z
  else emit (launchWriteMetadataVIO entry tree_page) z.

(** load_page, the callback of a data_vio waiting to read a tree page. *)
Definition load_page (d : data_vio_id) (entry : entry_id)
           (z : block_map_tree_zone) : block_map_tree_zone :=
  emit (launchReadMetadataVIO entry d) z.

(** write_page, enqueue_page, acquire_vio and return_to_pool call one
    another through the pool.  Modelled from the spec: vioPool.c is not
    under src/.  acquire_vio_from_pool runs the waiter's callback at once
    with a free entry when there is one, and queues the waiter otherwise;
    return_vio_to_pool hands the entry to the first queued waiter by
    running its callback, and frees the entry when no one waits.  [n]
    bounds the depth of the calls; [None] means the bound was too small.
    [tree_zone_fuel] below is always enough. *)
Fixpoint write_page (n : nat) (tree_page : page_id) (entry : entry_id)
         (z : block_map_tree_zone) {struct n} : option block_map_tree_zone :=
  match n with
  | O => None
  | S n =>
      let '(requeue, z) :=
        if negb (option_page_eqb (flusher z) tree_page)
        then is_not_older (tree_page.generation (pages z tree_page))
                          (generation z) z
        else (false, z) in
      if requeue then
        match enqueue_page n tree_page z with
        | Some z => return_to_pool n entry z
        | None => None
        end
      else Some (launch_page_write tree_page entry z)
  end

with enqueue_page (n : nat) (page : page_id) (z : block_map_tree_zone)
     {struct n} : option block_map_tree_zone :=
  match n with
  | O => None
  | S n =>
      let '(incremented, z1) :=
        match flusher z with
        | None => attempt_increment z
        | Some _ => (false, z)
        end in
      if incremented then acquire_vio n page (with_flusher (Some page) z1)
      else
        let '(result, z) := enqueue_flush_waiter page z1 in
        if negb (status_eqb result VDO_SUCCESS)
        then Some (enter_zone_read_only_mode result z)
        else Some z
  end

with acquire_vio (n : nat) (page : page_id) (z : block_map_tree_zone)
     {struct n} : option block_map_tree_zone :=
  match n with
  | O => None
  | S n =>
      (* acquire_vio_from_pool *)
      let pool := vio_pool z in
      match vio_pool.available pool with
      | entry :: rest =>
          write_page n page entry
            (with_vio_pool (vio_pool.mk rest (vio_pool.waiting pool)
                                        (vio_pool.busy_count pool + 1)) z)
      | [] =>
          let '(result, z) := enqueue_pool_waiter (page_waiter page) z in
          if negb (status_eqb result VDO_SUCCESS)
          then Some (enter_zone_read_only_mode result z)
          else Some z
      end
  end

with return_to_pool (n : nat) (entry : entry_id) (z : block_map_tree_zone)
     {struct n} : option block_map_tree_zone :=
  match n with
  | O => None
  | S n =>
      (* return_vio_to_pool *)
      let pool := vio_pool z in
      let returned :=
        match vio_pool.waiting pool with
        | w :: rest =>
            let z := with_vio_pool (vio_pool.mk (vio_pool.available pool) rest
                                                (vio_pool.busy_count pool)) z in
            match w with
            | page_waiter p => write_page n p entry z
            | load_waiter d => Some (load_page d entry z)
            end
        | [] =>
            Some (with_vio_pool
                    (vio_pool.mk (entry :: vio_pool.available pool) []
                                 (vio_pool.busy_count pool - 1)) z)
        end in
      match returned with
      | Some z => Some (emit check_for_drain_complete z)
      | None => None
      end
  end.

(** A depth that the calls above never exceed. *)
Definition tree_zone_measure (z : block_map_tree_zone) : nat :=
  2 * length (vio_pool.waiting (vio_pool z))
  + match flusher z with None => 2 | Some _ => 0 end.

Definition tree_zone_fuel (z : block_map_tree_zone) : nat :=
  tree_zone_measure z + 6.

Definition write_page_if_not_dirtied (n : nat) (page : page_id)
           (context_generation : Z) (z : block_map_tree_zone)
  : option block_map_tree_zone :=
  if tree_page.generation (pages z page) =? context_generation
  then acquire_vio n page z
  else enqueue_page n page z.

(** Modelled from the spec: waitQueue.c is not under src/.
    [notify_all_waiters(queue, callback, context)] takes every waiter off
    the queue and then runs the callback on each, in queue order; waiters
    the callback enqueues again are not notified in this round. *)
Fixpoint notify_each_waiter (n : nat) (waiters : list page_id)
         (context_generation : Z) (z : block_map_tree_zone)
  : option block_map_tree_zone :=
  match waiters with
  | [] => Some z
  | w :: rest =>
      match write_page_if_not_dirtied n w context_generation
              (emit (notify_waiter w context_generation) z) with
      | Some z => notify_each_waiter n rest context_generation z
      | None => None
      end
  end.

Definition notify_all_flush_waiters (n : nat) (context_generation : Z)
           (z : block_map_tree_zone) : option block_map_tree_zone :=
  notify_each_waiter n (flush_waiters z) context_generation
                     (with_flush_waiters [] z).

(** ** blockMapTree.c: completion of a page write *)

(** The end of finish_page_write, from [if (dirty)] on. *)
Definition finish_page_write_tail (n : nat) (dirty : bool) (page : page_id)
           (entry : entry_id) (z : block_map_tree_zone)
  : option block_map_tree_zone :=
  if dirty then
    match enqueue_page n page z with
    | Some z => return_to_pool n entry z
    | None => None
    end
  else
    let '(incremented, z) :=
      match flusher z with
      | None => if has_waiters (flush_waiters z) then attempt_increment z
                else (false, z)
      | Some _ => (false, z)
      end in
    if incremented then
      match flush_waiters z with
      | w :: rest =>
          (* dequeue_next_waiter *)
          write_page n w entry
                     (with_flusher (Some w) (with_flush_waiters rest z))
      | [] => return_to_pool n entry z
      end
    else return_to_pool n entry z.

Definition finish_page_write (n : nat) (entry : entry_id)
           (z : block_map_tree_zone) : option block_map_tree_zone :=
  let page := vio_pool_entry.parent (entries z entry) in
  let z := emit (release_recovery_journal_block_reference
                   (tree_page.writing_recovery_lock (pages z page))) z in
  let dirty :=
    negb (tree_page.writing_generation (pages z page)
          =? tree_page.generation (pages z page)) in
  let z := release_generation (tree_page.writing_generation (pages z page)) z in
  let z := update_page page (tree_page.set_writing false) z in
  if option_page_eqb (flusher z) page then
    match notify_all_flush_waiters
            n (tree_page.writing_generation (pages z page)) z with
    | None => None
    | Some z =>
        let '(incremented, z) :=
          if dirty then attempt_increment z else (false, z) in
        if incremented then write_page n page entry z
        else finish_page_write_tail n dirty page entry (with_flusher None z)
    end
  else finish_page_write_tail n dirty page entry z.

Definition handle_write_error (n : nat) (result : status) (entry : entry_id)
           (z : block_map_tree_zone) : option block_map_tree_zone :=
  return_to_pool n entry (enter_zone_read_only_mode result z).

(** ** blockMapTree.c: dirty intake *)

(** The loop of write_dirty_pages_callback; [expired] is the ring, chopped
    from its head, and [generation] the local variable read from the zone
    before the loop. *)
Fixpoint write_dirty_pages (n : nat) (generation : Z) (expired : list page_id)
         (z : block_map_tree_zone) : option block_map_tree_zone :=
  match expired with
  | [] => Some z
  | page :: expired =>
      let result := ASSERT (negb (is_waiting page z)) in
      if negb (status_eqb result VDO_SUCCESS) then
        write_dirty_pages n generation expired
                          (enter_zone_read_only_mode result z)
      else
        let z := set_generation page generation false z in
        if negb (tree_page.writing (pages z page)) then
          match enqueue_page n page z with
          | Some z => write_dirty_pages n generation expired z
          | None => None
          end
        else write_dirty_pages n generation expired z
  end.

Definition write_dirty_pages_callback (n : nat) (expired : list page_id)
           (z : block_map_tree_zone) : option block_map_tree_zone :=
  let generation := generation z in
  write_dirty_pages n generation expired z.

Definition write_tree_page (n : nat) (page : page_id)
           (z : block_map_tree_zone) : option block_map_tree_zone :=
  let waiting := is_waiting page z in
  if waiting && option_page_eqb (flusher z) page then Some z
  else
    let z := set_generation page (generation z) waiting z in
    if waiting || tree_page.writing (pages z page) then Some z
    else enqueue_page n page z.

(** The zone has entered read-only mode at some point of its trace. *)
Definition is_enter_read_only (ev : event) : bool :=
  match ev with
  | enter_read_only_mode _ => true
  | _ => false
  end.

Definition read_only (z : block_map_tree_zone) : bool :=
  existsb is_enter_read_only (trace z).

Definition is_notify (ev : event) : bool :=
  match ev with
  | notify_waiter _ _ => true
  | _ => false
  end.

(** ** blockMapTree.c: aborting a lookup *)

Definition update_data_vio (d : data_vio_id) (f : data_vio.t -> data_vio.t)
           (z : block_map_tree_zone) : block_map_tree_zone :=
  with_data_vios (upd (data_vios z) d (f (data_vios z d))) z.

Definition update_tree_lock (f : tree_lock.t -> tree_lock.t) (d : data_vio.t)
  : data_vio.t :=
  data_vio.mk (data_vio.is_read d) (f (data_vio.treeLock d)).

(** [int_map_remove(zone->loading_pages, key)]. *)
Fixpoint int_map_remove (m : list (Z * data_vio_id)) (key : Z)
  : list (Z * data_vio_id) :=
  match m with
  | [] => []
  | (k, v) :: rest =>
      if k =? key then int_map_remove rest key
      else (k, v) :: int_map_remove rest key
  end.

Definition release_page_lock (d : data_vio_id) (z : block_map_tree_zone)
  : block_map_tree_zone :=
  let lock := data_vio.treeLock (data_vios z d) in
  let z := with_loading_pages
             (int_map_remove (loading_pages z) (tree_lock.key lock)) z in
  update_data_vio d
    (update_tree_lock (fun l => tree_lock.mk (tree_lock.height l)
                                             (tree_lock.key l) false
                                             (tree_lock.waiters l))) z.

Definition finish_lookup (d : data_vio_id) (result : status)
           (z : block_map_tree_zone) : block_map_tree_zone :=
  let z := update_data_vio d
             (update_tree_lock (fun l => tree_lock.mk 0 (tree_lock.key l)
                                                      (tree_lock.locked l)
                                                      (tree_lock.waiters l))) z in
  let z := with_active_lookups (active_lookups z - 1) z in
  emit (setCompletionResult d result) z.

(** The result abort_lookup_for_waiter hands to finish_lookup. *)
Definition abort_result_for_waiter (is_read : bool) (result : status)
  : status :=
  if is_read then
    if status_eqb result VDO_NO_SPACE then VDO_SUCCESS else result
  else if negb (status_eqb result VDO_NO_SPACE) then VDO_READ_ONLY
  else result.

Definition abort_lookup_for_waiter (waiter : data_vio_id) (context : status)
           (z : block_map_tree_zone) : block_map_tree_zone :=
  let result := context in
  finish_lookup waiter
    (abort_result_for_waiter (data_vio.is_read (data_vios z waiter)) result) z.

(** Modelled from the spec: waitQueue.c is not under src/ (see
    [notify_each_waiter]); here the queue is the lock's and the callback
    abort_lookup_for_waiter. *)
Definition notify_all_lock_waiters (d : data_vio_id) (context : status)
           (z : block_map_tree_zone) : block_map_tree_zone :=
  let waiters := tree_lock.waiters (data_vio.treeLock (data_vios z d)) in
  let z := update_data_vio d
             (update_tree_lock (fun l => tree_lock.mk (tree_lock.height l)
                                                      (tree_lock.key l)
                                                      (tree_lock.locked l) [])) z in
  fold_left (fun z w => abort_lookup_for_waiter w context z) waiters z.

Definition abort_lookup (d : data_vio_id) (result : status)
           (z : block_map_tree_zone) : block_map_tree_zone :=
  let z := if negb (status_eqb result VDO_NO_SPACE)
           then enter_zone_read_only_mode result z else z in
  let z := if tree_lock.locked (data_vio.treeLock (data_vios z d))
           then notify_all_lock_waiters d result (release_page_lock d z)
           else z in
  finish_lookup d result z.

(** ** blockMapTree.c: the PBN of a leaf page *)

Module block_map.
(** [forest root height page_index] is get_tree_page_by_index. *)
Record t : Type := mk {
  flat_page_count : Z;
  root_count : Z;
  forest : Z -> Z -> Z -> tree_page.t
}.
End block_map.

Section page_pbn.
(** constants.h and blockMapEntry.h are not under src/: the origin of
    the flat pages, the entries of a page, and the validity check of a
    location are parameters.  Page numbers and counts are unsigned and
    root_count is not zero, so that [/] and [mod] are the divisions of
    C; below flat_page_count the sum stays in range. *)
Variable BLOCK_MAP_FLAT_PAGE_ORIGIN : Z.
Variable BLOCK_MAP_ENTRIES_PER_PAGE : Z.
Variable is_valid_location : data_location.t -> bool.

Definition find_block_map_page_pbn (map : block_map.t) (page_number : Z)
  : PhysicalBlockNumber :=
  if page_number <? block_map.flat_page_count map then
    BLOCK_MAP_FLAT_PAGE_ORIGIN + page_number
  else
    let root_index := page_number mod block_map.root_count map in
    let page_index :=
      (page_number - block_map.flat_page_count map)
      / block_map.root_count map in
    let slot := page_index mod BLOCK_MAP_ENTRIES_PER_PAGE in
    let page_index := page_index / BLOCK_MAP_ENTRIES_PER_PAGE in
    let tree_page := block_map.forest map root_index 1 page_index in
    let page := tree_page.page_buffer tree_page in
    if negb (block_map_page.initialized page) then ZERO_BLOCK
    else
      let mapping := unpack_block_map_entry page (Z.to_nat slot) in
      if negb (is_valid_location mapping)
         || is_compressed (data_location.state mapping)
      then ZERO_BLOCK
      else data_location.pbn mapping.
End page_pbn.

(** ** referenceCountRebuild.c: reference counts from a leaf page *)

Module BlockMapSlot.
Record t : Type := mk {
  pbn : PhysicalBlockNumber;
  slot : nat
}.
End BlockMapSlot.

(** A page completion of the page cache, as the rebuild uses it:
    [page] is what dereferenceWritableVDOPage returns ([None] for NULL) and
    [write_requested] what requestVDOPageWrite sets. *)
Module vdo_page_completion.
Record t : Type := mk {
  page : option block_map_page.t;
  write_requested : bool
}.
End vdo_page_completion.

Definition unpackBlockMapEntry := unpack_block_map_entry.
Definition isMappedLocation := is_mapped_location.
Definition packPBN := pack_pbn.
Definition isBlockMapPageInitialized := block_map_page.initialized.
Definition getBlockMapPagePBN := block_map_page.pbn.

(** [page->entries[slot] = v]; the slot is below the size of the array. *)
Fixpoint set_entry (entries : list data_location.t) (slot : nat)
         (v : data_location.t) : list data_location.t :=
  match entries, slot with
  | [], _ => []
  | _ :: rest, O => v :: rest
  | e :: rest, S k => e :: set_entry rest k v
  end.

(** [page->entries[slot] = packPBN(ZERO_BLOCK, MAPPING_STATE_UNMAPPED);
    requestVDOPageWrite(completion);] *)
Definition remove_entry (slot : nat) (page : block_map_page.t)
  : block_map_page.t :=
  block_map_page.set_entries
    (set_entry (block_map_page.entries page) slot
               (packPBN ZERO_BLOCK MAPPING_STATE_UNMAPPED)) page.

Section rebuild.
(** constants.h, blockMapEntry.h and the slab depot are not under src/:
    the number of entries of a page, the validity check of a location
    and the depot (its state, its range check and its reference count
    adjustment for a DATA_INCREMENT) are parameters. *)
Variable BLOCK_MAP_ENTRIES_PER_PAGE : nat.
Variable isValidLocation : data_location.t -> bool.
Variable slab_depot : Type.
Variable isPhysicalDataBlock : slab_depot -> PhysicalBlockNumber -> bool.
Variable adjustReferenceCountForRebuild :
  slab_depot -> PhysicalBlockNumber -> status * slab_depot.

Record rebuild_completion : Type := mk_rebuild {
  depot : slab_depot;
  logicalBlocksUsed : Z;
  lastSlot : BlockMapSlot.t
}.

(** The state the two loops work on: the page, whether its write was
    requested, the depot and [*logicalBlocksUsed]. *)
Record page_sweep : Type := mk_sweep {
  sweep_page : block_map_page.t;
  sweep_write_requested : bool;
  sweep_depot : slab_depot;
  sweep_logicalBlocksUsed : Z
}.

Definition sweep_remove (slot : nat) (s : page_sweep) : page_sweep :=
  mk_sweep (remove_entry slot (sweep_page s)) true (sweep_depot s)
           (sweep_logicalBlocksUsed s).

(** The first loop: [count] iterations are left, [slot] is the loop
    variable. *)
Fixpoint remove_bogus_entries (count : nat) (slot : nat) (s : page_sweep)
  : page_sweep :=
  match count with
  | O => s
  | S count =>
      let mapping := unpackBlockMapEntry (sweep_page s) slot in
      let s := if isMappedLocation mapping then sweep_remove slot s else s in
      remove_bogus_entries count (S slot) s
  end.

(** One iteration of the second loop. *)
Definition inform_depot_of_entry (slot : nat) (s : page_sweep) : page_sweep :=
  let mapping := unpackBlockMapEntry (sweep_page s) slot in
  if negb (isValidLocation mapping) then sweep_remove slot s
  else if negb (isMappedLocation mapping) then s
  else
    let s := mk_sweep (sweep_page s) (sweep_write_requested s) (sweep_depot s)
                      (uint64 (sweep_logicalBlocksUsed s + 1)) in
    if data_location.pbn mapping =? ZERO_BLOCK then s
    else if negb (isPhysicalDataBlock (sweep_depot s)
                                      (data_location.pbn mapping))
    then sweep_remove slot s
    else
      let '(result, depot) :=
        adjustReferenceCountForRebuild (sweep_depot s)
                                       (data_location.pbn mapping) in
      let s := mk_sweep (sweep_page s) (sweep_write_requested s) depot
                        (sweep_logicalBlocksUsed s) in
      if negb (status_eqb result VDO_SUCCESS) then sweep_remove slot s
      else s.

Fixpoint inform_depot (count : nat) (slot : nat) (s : page_sweep)
  : page_sweep :=
  match count with
  | O => s
  | S count => inform_depot count (S slot) (inform_depot_of_entry slot s)
  end.

Definition rebuildReferenceCountsFromPage (rebuild : rebuild_completion)
           (completion : vdo_page_completion.t)
  : status * rebuild_completion * vdo_page_completion.t :=
  match vdo_page_completion.page completion with
  | None => (ASSERT false, rebuild, completion)
  | Some page =>
      if negb (isBlockMapPageInitialized page) then
        (VDO_SUCCESS, rebuild, completion)
      else
        let s := mk_sweep page (vdo_page_completion.write_requested completion)
                          (depot rebuild) (logicalBlocksUsed rebuild) in
        let s :=
          if getBlockMapPagePBN page =? BlockMapSlot.pbn (lastSlot rebuild)
          then
            let first := BlockMapSlot.slot (lastSlot rebuild) in
            remove_bogus_entries (BLOCK_MAP_ENTRIES_PER_PAGE - first) first s
          else s in
        let s := inform_depot BLOCK_MAP_ENTRIES_PER_PAGE 0 s in
        (VDO_SUCCESS,
         mk_rebuild (sweep_depot s) (sweep_logicalBlocksUsed s)
                    (lastSlot rebuild),
         vdo_page_completion.mk (Some (sweep_page s))
                                (sweep_write_requested s))
  end.

(** The entries of a page that the accounting pass counts. *)
Definition counts_as_used (l : data_location.t) : bool :=
  isValidLocation l && isMappedLocation l.

Definition count_used (l : list data_location.t) : Z :=
  Z.of_nat (length (filter counts_as_used l)).

Definition entries_of (s : page_sweep) : list data_location.t :=
  block_map_page.entries (sweep_page s).
End rebuild.

Definition unmapped_entry : data_location.t :=
  packPBN ZERO_BLOCK MAPPING_STATE_UNMAPPED.

(** What the first loop of the rebuild does to one entry. *)
Definition without_mapping (e : data_location.t) : data_location.t :=
  if isMappedLocation e then unmapped_entry else e.

(** An entry after the second loop: as it was, or removed. *)
Definition kept_or_removed (e e' : data_location.t) : Prop :=
  e' = e \/ e' = unmapped_entry.

(** ** superBlockCodec.c: decoding the super block *)

Definition byte := Z.

Module buffer.
(** Modelled from the spec: buffer.c is not under src/.  A buffer is a
    byte array of [length] bytes with two cursors: the content is
    [data[start .. end_)]; reading advances [start], writing advances
    [end_]. *)
Record t : Type := mk {
  data : list byte;
  start : Z;
  end_ : Z;
  length : Z
}.
End buffer.

(** Modelled from the spec: buffer.c is not under src/.  The operations
    of a buffer that the codec calls: the bytes left to read, the bytes
    already read, the room left to write. *)
Definition content_length (b : buffer.t) : Z := buffer.end_ b - buffer.start b.

Definition uncompacted_amount (b : buffer.t) : Z := buffer.start b.

Definition available_space (b : buffer.t) : Z := buffer.length b - buffer.end_ b.

(** Modelled from the spec: buffer.c is not under src/.  [clear_buffer]
    makes the whole array the content: "reset the block buffer to start
    decoding the entire first sector". *)
Definition clear_buffer (b : buffer.t) : buffer.t :=
  buffer.mk (buffer.data b) 0 (buffer.length b) (buffer.length b).

(** Modelled from the spec: buffer.c is not under src/.  The end of the
    content moves to [e], which must lie within the array. *)
Definition reset_buffer_end (b : buffer.t) (e : Z) : status * buffer.t :=
  if buffer.length b <? e then (UDS_BUFFER_ERROR, b)
  else
    (UDS_SUCCESS,
     buffer.mk (buffer.data b) (Z.min (buffer.start b) e) e (buffer.length b)).

(** Modelled from the spec: buffer.c is not under src/.  The content,
    from the read cursor on; compaction moves it to the front of the
    array; put_bytes appends bytes after the content, compacting first if
    the room at the end is too small; put_buffer moves [len] bytes of
    content from [source] to [target]. *)
Definition get_buffer_contents (b : buffer.t) : list byte :=
  skipn (Z.to_nat (buffer.start b)) (buffer.data b).

Definition compact_buffer (b : buffer.t) : buffer.t :=
  buffer.mk (firstn (Z.to_nat (content_length b)) (get_buffer_contents b)
             ++ skipn (Z.to_nat (content_length b)) (buffer.data b))
            0 (content_length b) (buffer.length b).

Definition put_bytes (b : buffer.t) (len : Z) (bytes : list byte)
  : status * buffer.t :=
  let b := if len <=? available_space b then b else compact_buffer b in
  if available_space b <? len then (UDS_BUFFER_ERROR, b)
  else
    (UDS_SUCCESS,
     buffer.mk (firstn (Z.to_nat (buffer.end_ b)) (buffer.data b)
                ++ firstn (Z.to_nat len) bytes
                ++ skipn (Z.to_nat (buffer.end_ b + len)) (buffer.data b))
               (buffer.start b) (buffer.end_ b + len) (buffer.length b)).

Definition put_buffer (target source : buffer.t) (len : Z)
  : status * buffer.t * buffer.t :=
  if content_length source <? len then (UDS_BUFFER_ERROR, target, source)
  else
    let '(result, target) := put_bytes target len (get_buffer_contents source) in
    if negb (status_eqb result UDS_SUCCESS) then (result, target, source)
    else
      (UDS_SUCCESS, target,
       buffer.mk (buffer.data source) (buffer.start source + len)
                 (buffer.end_ source) (buffer.length source)).

(** The little-endian value of a run of bytes. *)
Fixpoint le_value (bytes : list byte) : Z :=
  match bytes with
  | [] => 0
  | b :: rest => b + 256 * le_value rest
  end.

(** Modelled from the spec: buffer.c is not under src/.  Reads four
    bytes of content as a little-endian number. *)
Definition get_uint32_le_from_buffer (b : buffer.t) : status * buffer.t * Z :=
  if content_length b <? 4 then (UDS_BUFFER_ERROR, b, 0)
  else
    (UDS_SUCCESS,
     buffer.mk (buffer.data b) (buffer.start b + 4) (buffer.end_ b)
               (buffer.length b),
     le_value (firstn 4 (get_buffer_contents b))).

Module header.
Record t : Type := mk {
  id : Z;
  major_version : Z;
  minor_version : Z;
  size : Z
}.
End header.

(** [block_buffer] wraps the first sector of the [encoded_super_block]
    array, so the array is the data of that buffer. *)
Module super_block_codec.
Record t : Type := mk {
  component_buffer : buffer.t;
  block_buffer : buffer.t
}.

Definition encoded_super_block (c : t) : list byte :=
  buffer.data (block_buffer c).
End super_block_codec.

(** [sizeof(crc32_checksum_t)], a 32-bit checksum. *)
Definition CHECKSUM_SIZE : Z := 4.

Section super_block.
(** header.c, checksum.h and the component ids are not under src/: the
    id of the super block, the size and byte layout of an encoded
    header, the header validation and the CRC-32 are parameters. *)
Variable SUPER_BLOCK : Z.
Variable ENCODED_HEADER_SIZE : Z.
Variable unpack_header : list byte -> header.t.
Variable validate_header : header.t -> header.t -> bool -> status.
Variable INITIAL_CHECKSUM : Z.
Variable update_crc32 : Z -> list byte -> Z.

Definition SUPER_BLOCK_FIXED_SIZE : Z := ENCODED_HEADER_SIZE + CHECKSUM_SIZE.

Definition SUPER_BLOCK_HEADER_12_0 : header.t :=
  header.mk SUPER_BLOCK 12 0 (SUPER_BLOCK_FIXED_SIZE - ENCODED_HEADER_SIZE).

(** Modelled from the spec: header.c is not under src/.  The header is
    the first [ENCODED_HEADER_SIZE] bytes of the content. *)
Definition decode_header (b : buffer.t) : status * buffer.t * header.t :=
  if content_length b <? ENCODED_HEADER_SIZE then
    (UDS_BUFFER_ERROR, b, header.mk 0 0 0 0)
  else
    (VDO_SUCCESS,
     buffer.mk (buffer.data b) (buffer.start b + ENCODED_HEADER_SIZE)
               (buffer.end_ b) (buffer.length b),
     unpack_header (firstn (Z.to_nat ENCODED_HEADER_SIZE)
                           (get_buffer_contents b))).

Definition decode_super_block (codec : super_block_codec.t)
  : status * super_block_codec.t :=
  let with_block b :=
    super_block_codec.mk (super_block_codec.component_buffer codec) b in
  let buffer := clear_buffer (super_block_codec.block_buffer codec) in
  let '(result, buffer, header) := decode_header buffer in
  if negb (status_eqb result VDO_SUCCESS) then (result, with_block buffer)
  else
  let result := validate_header SUPER_BLOCK_HEADER_12_0 header false in
  if negb (status_eqb result VDO_SUCCESS) then (result, with_block buffer)
  else
  if content_length buffer <? header.size header then
    (VDO_UNSUPPORTED_VERSION, with_block buffer)
  else
  let '(result, buffer) :=
    reset_buffer_end buffer (uncompacted_amount buffer + header.size header) in
  if negb (status_eqb result VDO_SUCCESS) then (result, with_block buffer)
  else
  let component_data_size := uint64 (content_length buffer - CHECKSUM_SIZE) in
  let '(result, component_buffer, buffer) :=
    put_buffer (super_block_codec.component_buffer codec) buffer
               component_data_size in
  let codec' := super_block_codec.mk component_buffer buffer in
  if negb (status_eqb result VDO_SUCCESS) then (result, codec')
  else
  let checksum :=
    update_crc32 INITIAL_CHECKSUM
                 (firstn (Z.to_nat (uncompacted_amount buffer))
                         (super_block_codec.encoded_super_block codec')) in
  let '(result, buffer, saved_checksum) := get_uint32_le_from_buffer buffer in
  let codec' := super_block_codec.mk component_buffer buffer in
  if negb (status_eqb result VDO_SUCCESS) then (result, codec')
  else
  let result := ASSERT (content_length buffer =? 0) in
  if negb (status_eqb result VDO_SUCCESS) then (result, codec')
  else
    (if negb (checksum =? saved_checksum) then VDO_CHECKSUM_MISMATCH
     else VDO_SUCCESS, codec').
End super_block.

(** Modelled from the spec: header.c is not under src/.  validate_header
    compares a decoded header with the header that is expected, and a
    header with the wrong id, version or size is a version mismatch,
    VDO_UNSUPPORTED_VERSION.  The size of the expected header is the
    least size a header may give (see SUPER_BLOCK_HEADER_12_0: "the
    minimum size, if the super block contains no components"); with
    [exact_size] it is the only one. *)
Definition validate_header (expected actual : header.t) (exact_size : bool)
  : status :=
  if (header.id expected =? header.id actual)
     && (header.major_version expected =? header.major_version actual)
     && (header.minor_version expected =? header.minor_version actual)
     && (header.size expected <=? header.size actual)
     && (negb exact_size || (header.size actual <=? header.size expected))
  then VDO_SUCCESS else VDO_UNSUPPORTED_VERSION.

(** ** masterIndexOps.c: restoring the master index *)

Section master_index_restore.
(** The master index, the saved delta lists, the buffered readers and
    the allocator are not under src/.  [master_index] is the state of
    the index being restored.  A reader is the sequence of what
    successive read_saved_delta_list calls get from it: the result, and
    the record and bytes left in [dlsi] and in the scratch buffer
    [dl_data]; an exhausted reader answers UDS_END_OF_FILE. *)
Variable master_index : Type.
Variable delta_list_save_info : Type.
Variable DELTA_LIST_MAX_BYTE_COUNT : Z.
Variable ALLOCATE : Z -> status.
Variable start_restoring_master_index :
  master_index -> nat -> status * master_index.
Variable restore_delta_list_to_master_index :
  master_index -> delta_list_save_info -> list byte -> status * master_index.
Variable is_restoring_master_index_done : master_index -> bool.
Variable abort_restoring_master_index : master_index -> master_index.

Definition saved_delta_list : Type :=
  (status * delta_list_save_info * list byte)%type.

Definition buffered_reader : Type := list saved_delta_list.

(** How the inner [for (;;)] loop is left: by its [break], or by a
    [return] from the function. *)
Inductive loop_exit : Type :=
| loop_break (mi : master_index)
| loop_return (result : status) (mi : master_index).

(** The [for (;;)] loop over one reader; every iteration consumes one
    answer of the reader. *)
Fixpoint restore_zone (reader : buffered_reader) (mi : master_index)
  : loop_exit :=
  match reader with
  | [] => loop_break mi
  | (result, dlsi, dl_data) :: rest =>
      if status_eqb result UDS_END_OF_FILE then loop_break mi
      else if negb (status_eqb result UDS_SUCCESS) then
        loop_return result (abort_restoring_master_index mi)
      else
        let '(result, mi) :=
          restore_delta_list_to_master_index mi dlsi dl_data in
        if negb (status_eqb result UDS_SUCCESS) then
          loop_return result (abort_restoring_master_index mi)
        else restore_zone rest mi
  end.

(** The [for (z = 0; z < num_readers; z++)] loop. *)
Fixpoint restore_zones (readers : list buffered_reader) (mi : master_index)
  : loop_exit :=
  match readers with
  | [] => loop_break mi
  | reader :: readers =>
      match restore_zone reader mi with
      | loop_break mi => restore_zones readers mi
      | loop_return result mi => loop_return result mi
      end
  end.

Definition restore_master_index_body (buffered_readers : list buffered_reader)
           (mi : master_index) : status * master_index :=
  let '(result, mi) :=
    start_restoring_master_index mi (List.length buffered_readers) in
  if negb (status_eqb result UDS_SUCCESS) then (result, mi)
  else
    match restore_zones buffered_readers mi with
    | loop_return result mi => (result, mi)
    | loop_break mi =>
        if negb (is_restoring_master_index_done mi) then
          (UDS_CORRUPT_COMPONENT, abort_restoring_master_index mi)
        else (UDS_SUCCESS, mi)
    end.

Definition restore_master_index (buffered_readers : list buffered_reader)
           (mi : master_index) : status * master_index :=
  let result := ALLOCATE DELTA_LIST_MAX_BYTE_COUNT in
  if negb (status_eqb result UDS_SUCCESS) then (result, mi)
  else restore_master_index_body buffered_readers mi.

(** What the restore driver is said to do, as a relation: [restores rs mi
    out] when reading the readers [rs] in order, and restoring every
    record read before the end of file of its reader, leads from [mi] to
    [out]. *)
Inductive restores_zone : buffered_reader -> master_index -> loop_exit -> Prop :=
| zone_exhausted mi :
    restores_zone [] mi (loop_break mi)
| zone_end_of_file dlsi dl_data rest mi :
    restores_zone ((UDS_END_OF_FILE, dlsi, dl_data) :: rest) mi (loop_break mi)
| zone_read_error result dlsi dl_data rest mi :
    result <> UDS_END_OF_FILE -> result <> UDS_SUCCESS ->
    restores_zone ((result, dlsi, dl_data) :: rest) mi
                  (loop_return result (abort_restoring_master_index mi))
| zone_restore_error dlsi dl_data rest mi result mi' :
    restore_delta_list_to_master_index mi dlsi dl_data = (result, mi') ->
    result <> UDS_SUCCESS ->
    restores_zone ((UDS_SUCCESS, dlsi, dl_data) :: rest) mi
                  (loop_return result (abort_restoring_master_index mi'))
| zone_next dlsi dl_data rest mi mi' out :
    restore_delta_list_to_master_index mi dlsi dl_data = (UDS_SUCCESS, mi') ->
    restores_zone rest mi' out ->
    restores_zone ((UDS_SUCCESS, dlsi, dl_data) :: rest) mi out.

Inductive restores : list buffered_reader -> master_index -> loop_exit -> Prop :=
| restores_done mi :
    restores [] mi (loop_break mi)
| restores_failed reader readers mi result mi' :
    restores_zone reader mi (loop_return result mi') ->
    restores (reader :: readers) mi (loop_return result mi')
| restores_next reader readers mi mi' out :
    restores_zone reader mi (loop_break mi') ->
    restores readers mi' out ->
    restores (reader :: readers) mi out.
End master_index_restore.

(** ** Concrete states *)

(** A zone as initialize_tree_zone leaves it, with a pool of two entries;
    every page is idle, initialized and clean. *)
Definition idle_page : tree_page.t :=
  tree_page.mk 0 0 false 0 0 (block_map_page.mk 7 true []).

Definition fresh_zone : block_map_tree_zone :=
  mk_zone 0 0 (fun _ => 0) None [] 0 (vio_pool.mk [0%nat; 1%nat] [] 0) []
          (fun _ => idle_page)
          (fun _ => vio_pool_entry.mk 0%nat (block_map_page.mk 0 false []))
          (fun _ => data_vio.mk false (tree_lock.mk 0 0 false []))
          [].

(** Generation 2 is current, and the only dirty page counted is one of
    generation 0, the oldest. *)
Definition zone_one_dirty_page : block_map_tree_zone :=
  with_generation 2 (with_dirty_page_counts (updZ (fun _ => 0) 0 1) fresh_zone).

(** Data_vio 0 holds its page lock; data_vio 1, a read, and data_vio 2, a
    write, wait for it. *)
Definition zone_with_lock_waiters : block_map_tree_zone :=
  with_active_lookups 3
    (with_loading_pages [(5, 0%nat)]
       (with_data_vios
          (fun d =>
             match d with
             | O => data_vio.mk false (tree_lock.mk 2 5 true [1%nat; 2%nat])
             | S O => data_vio.mk true (tree_lock.mk 2 5 false [])
             | _ => data_vio.mk false (tree_lock.mk 2 5 false [])
             end)
          fresh_zone)).

(** A master index that counts the delta lists restored into it and is
    done at two; its abort resets the count.  A delta list is the number it
    carries, and list 13 cannot be restored. *)
Definition counting_start (mi : nat) (num_readers : nat) : status * nat :=
  (UDS_SUCCESS, O).

Definition counting_restore (mi : nat) (dlsi : Z) (dl_data : list byte)
  : status * nat :=
  if dlsi =? 13 then (UDS_CORRUPT_COMPONENT, mi) else (UDS_SUCCESS, S mi).

Definition counting_done (mi : nat) : bool := Nat.eqb mi 2.

Definition counting_abort (mi : nat) : nat := O.

Definition two_zone_readers : list (list (status * Z * list byte)) :=
  [[(UDS_SUCCESS, 1, [1; 2])]; [(UDS_SUCCESS, 2, []); (UDS_END_OF_FILE, 0, [])]].

(** ** Invariants of the write pipeline *)

(** Where a page that was handed to the write pipeline is afterwards: on
    a queue, in a write, or dropped because the zone went read-only. *)
Definition page_settled (p : page_id) (z : block_map_tree_zone) : Prop :=
  is_waiting p z = true
  \/ tree_page.writing (pages z p) = true
  \/ read_only z = true.

(** What write_page, enqueue_page, acquire_vio and return_to_pool leave
    alone, from the state [z] they start in to the state [z'] they end in.
    [arg] is the page they are called for, if any. *)
Record write_path_frame (arg : option page_id) (z z' : block_map_tree_zone)
  : Prop := mk_frame {
  frame_counts : dirty_page_counts z' = dirty_page_counts z;
  frame_oldest : oldest_generation z' = oldest_generation z;
  frame_generation :
    forall q, tree_page.generation (pages z' q)
              = tree_page.generation (pages z q);
  frame_writing :
    forall q, tree_page.writing (pages z q) = true ->
              tree_page.writing (pages z' q) = true;
  frame_trace :
    exists evs, trace z' = trace z ++ evs
                /\ Forall (fun ev => is_notify ev = false) evs;
  frame_flusher :
    forall f, flusher z = Some f -> flusher z' = Some f;
  frame_settled :
    forall q, is_waiting q z = true -> page_settled q z';
  frame_waiting :
    forall q, is_waiting q z' = true ->
              is_waiting q z = true \/ arg = Some q
}.

(** ** What finish_page_write does for the flusher *)

(** The zone when finish_page_write, called for [entry] with parent [p],
    reaches its test [zone->flusher == page]: the journal reference is
    released, the generation of the write is released, and the page is no
    longer writing. *)
Definition after_write_release (entry : entry_id) (z : block_map_tree_zone)
  : block_map_tree_zone :=
  let p := vio_pool_entry.parent (entries z entry) in
  update_page p (tree_page.set_writing false)
    (release_generation
       (tree_page.writing_generation (pages z p))
       (emit (release_recovery_journal_block_reference
                (tree_page.writing_recovery_lock (pages z p))) z)).

(** The page was dirtied again while it was being written. *)
Definition redirtied (entry : entry_id) (z : block_map_tree_zone) : bool :=
  let p := vio_pool_entry.parent (entries z entry) in
  negb (tree_page.writing_generation (pages z p)
        =? tree_page.generation (pages z p)).

(** [flusher_completion n entry z]: finish_page_write, run on [z] for the
    entry of the flusher [p],
      - notifies every page that is on flush_waiters at that point through
        write_page_if_not_dirtied, in queue order, with the generation [p]
        was written at as the context generation ([z2] is the zone after
        the notifications, [evs] what they added to the trace);
      - then, if [p] was dirtied again and attempt_increment succeeds,
        ends by writing [p] again with the same entry: the zone it returns
        is [launch_page_write p entry] of the incremented zone, in which
        [p] is still the flusher and the pool is as the notifications left
        it (the entry was not returned);
      - otherwise clears the flusher and goes on with the rest of the
        function. *)
Definition flusher_completion (n : nat) (entry : entry_id)
           (z : block_map_tree_zone) : Prop :=
  let p := vio_pool_entry.parent (entries z entry) in
  let written_at := tree_page.writing_generation (pages z p) in
  let z1 := after_write_release entry z in
  exists z2 evs,
    notify_all_flush_waiters n written_at z1 = Some z2
    /\ trace z2 = trace z1 ++ evs
    /\ filter is_notify evs
       = map (fun w => notify_waiter w written_at) (flush_waiters z1)
    /\ flusher z2 = Some p
    /\ (if redirtied entry z && fst (attempt_increment z2)
        then
          let z3 := launch_page_write p entry (snd (attempt_increment z2)) in
          finish_page_write n entry z = Some z3
          /\ generation z3 = uint8 (generation z2 + 1)
          /\ flusher z3 = Some p
          /\ vio_pool z3 = vio_pool z2
          /\ vio_pool_entry.parent (entries z3 entry) = p
          /\ tree_page.writing (pages z3 p) = true
          /\ exists ev, trace z3 = trace z2 ++ [ev]
                        /\ is_write_launch ev = true
        else
          finish_page_write n entry z
          = finish_page_write_tail n (redirtied entry z) p entry
                                   (with_flusher None z2))
    /\ exists z', finish_page_write n entry z = Some z'.

(** ** Concrete runs *)

Definition and_then (o : option block_map_tree_zone)
           (f : block_map_tree_zone -> option block_map_tree_zone)
  : option block_map_tree_zone :=
  match o with
  | Some z => f z
  | None => None
  end.

Definition zone_of (o : option block_map_tree_zone) : block_map_tree_zone :=
  match o with
  | Some z => z
  | None => fresh_zone
  end.

(** Page 4 expired, became the flusher and is being written with entry 0;
    it then expired again, which stamped it with the next generation while
    the write was in flight. *)
Definition zone_flusher_redirtied : block_map_tree_zone :=
  zone_of (and_then (write_dirty_pages_callback 10 [4%nat] fresh_zone)
                    (write_dirty_pages_callback 10 [4%nat])).

(** A zone whose pool has the single entry 0 (replace_tree_zone_vio_pool
    with a pool size of 1). *)
Definition single_entry_zone : block_map_tree_zone :=
  with_vio_pool (vio_pool.mk [0%nat] [] 0) fresh_zone.

(** Pages 4, 5 and 6 expire together; the write of page 4, the flusher,
    completes; the write of page 5 that follows with the same entry fails
    with error 5. *)
Definition write_error_after_flush : option block_map_tree_zone :=
  and_then
    (and_then (write_dirty_pages_callback 20 [4%nat; 5%nat; 6%nat]
                                          single_entry_zone)
              (finish_page_write 20 0%nat))
    (handle_write_error 20 (error_code 5) 0%nat).

(** A leaf of four entries, the last leaf of its map, whose logical space
    ends before slot 2: slot 2 carries a stray mapping. *)
Definition stray_leaf : block_map_page.t :=
  block_map_page.mk 9 true
    [data_location.mk 20 MAPPING_STATE_UNCOMPRESSED;
     data_location.mk 0 MAPPING_STATE_UNMAPPED;
     data_location.mk 21 MAPPING_STATE_UNCOMPRESSED;
     data_location.mk 0 MAPPING_STATE_UNMAPPED].

(** A depot that is a list of the PBNs whose reference count was
    incremented; its data blocks are the PBNs from 16 on. *)
Definition listed_depot_is_data_block (depot : list Z) (pbn : Z) : bool :=
  16 <=? pbn.

Definition listed_depot_adjust (depot : list Z) (pbn : Z)
  : status * list Z := (VDO_SUCCESS, pbn :: depot).

(** Every location counts as valid. *)
Definition any_location_valid (l : data_location.t) : bool := true.

(** A header of four one-byte fields, and the sum of the bytes as a
    stand-in for the CRC-32. *)
Definition small_unpack_header (bytes : list byte) : header.t :=
  header.mk (nth 0 bytes 0) (nth 1 bytes 0) (nth 2 bytes 0) (nth 3 bytes 0).

Definition byte_sum (crc : Z) (bytes : list byte) : Z :=
  uint32 (fold_left Z.add bytes crc).

(** A sector of 16 bytes: header (id 9, version 12.0, size 6), payload
    [1; 2], checksum 30, and padding. *)
Definition small_codec : super_block_codec.t :=
  super_block_codec.mk
    (buffer.mk (repeat 0 8) 0 0 8)
    (buffer.mk [9; 12; 0; 6; 1; 2; 30; 0; 0; 0; 0; 0; 0; 0; 0; 0] 0 0 16).

From Stdlib Require Import Permutation.

(** ** The tracked generations of a zone *)

(** The generations are [uint8_t] values, and every generation that has
    dirty pages counted lies in the cyclic range from oldest_generation to
    generation. *)
Definition tracked_generations (z : block_map_tree_zone) : Prop :=
  0 <= generation z < 256
  /\ 0 <= oldest_generation z < 256
  /\ forall g, 0 <= g < 256 ->
               dirty_page_counts z g <> 0 ->
               in_cyclic_range (oldest_generation z) g (generation z) (2 ^ 8)
               = true.

(** A generation that is tracked, together with the invariant. *)
Definition tracked_with (g : Z) (z : block_map_tree_zone) : Prop :=
  tracked_generations z
  /\ 0 <= g < 256
  /\ in_cyclic_range (oldest_generation z) g (generation z) (2 ^ 8) = true.

(** ** The entries of the VIO pool *)

(** The pool entry that an event of the trace sends to the disk. *)
Definition launched_entry (ev : event) : list entry_id :=
  match ev with
  | launchWriteMetadataVIO e _ => [e]
  | launchWriteMetadataVIOWithFlush e _ _ => [e]
  | launchReadMetadataVIO e _ => [e]
  | _ => []
  end.

Definition entries_in_flight (evs : list event) : list entry_id :=
  flat_map launched_entry evs.

(** From [z] to [z'] the entries [given] were handed in by the caller, and
    every entry is accounted for: the entries free in [z'] and those sent
    to the disk on the way are the entries free in [z] and the ones handed
    in.  The pool's count of busy entries follows. *)
Definition pool_step (given : list entry_id) (z z' : block_map_tree_zone)
  : Prop :=
  exists evs,
    trace z' = trace z ++ evs
    /\ Permutation (vio_pool.available (vio_pool z') ++ entries_in_flight evs)
                   (given ++ vio_pool.available (vio_pool z))
    /\ vio_pool.busy_count (vio_pool z')
       + Z.of_nat (length (vio_pool.available (vio_pool z')))
       = vio_pool.busy_count (vio_pool z)
         + Z.of_nat (length (vio_pool.available (vio_pool z))).

(** ** The lookups of a zone *)

(** The launch of the callback of a data_vio whose lookup is over. *)
Definition is_completion (ev : event) : bool :=
  match ev with
  | setCompletionResult _ _ => true
  | _ => false
  end.

Definition completions (z : block_map_tree_zone) : Z :=
  Z.of_nat (length (filter is_completion (trace z))).

(** Every key of loading_pages has one holder, and the lock of the holder
    is locked and carries the key. *)
Definition lock_table_ok (z : block_map_tree_zone) : Prop :=
  NoDup (map fst (loading_pages z))
  /\ forall k h,
      In (k, h) (loading_pages z) ->
      tree_lock.locked (data_vio.treeLock (data_vios z h)) = true
      /\ tree_lock.key (data_vio.treeLock (data_vios z h)) = k.

(** ** referenceCountRebuild.c: what the sweep of a leaf page guarantees *)

Section rebuild_repair.
Variable isValidLocation : data_location.t -> bool.
Variable slab_depot : Type.
Variable isPhysicalDataBlock : slab_depot -> PhysicalBlockNumber -> bool.
Variable adjustReferenceCountForRebuild :
  slab_depot -> PhysicalBlockNumber -> status * slab_depot.

(** An entry [e] and what the rebuild left of it, [e']: the entry itself
    or the unmapped entry; and if [e'] is still mapped, [e] was valid and
    either maps the zero block or a data block of the depot whose
    reference count could be adjusted. *)
Definition entry_repaired (e e' : data_location.t) : Prop :=
  kept_or_removed e e'
  /\ (isMappedLocation e' = true ->
      e' = e
      /\ isValidLocation e = true
      /\ (data_location.pbn e = ZERO_BLOCK
          \/ exists depot,
              isPhysicalDataBlock depot (data_location.pbn e) = true
              /\ fst (adjustReferenceCountForRebuild
                        depot (data_location.pbn e)) = VDO_SUCCESS)).
End rebuild_repair.

(** ** referenceCountRebuild.c: fetching the leaf pages *)

(** The calls of the driver that leave the file, in order:
    getVDOPageAsync for a leaf at [pbn], releaseVDOPageCompletion,
    completeCompletion of the rebuild completion (the rebuild ends with
    its saved result), and invokeCallback of the sub-task completion,
    whose callback is flushBlockMapUpdates (the rebuild ends by flushing
    the block map). *)
Inductive rebuild_event : Type :=
| getVDOPageAsync (pbn : PhysicalBlockNumber)
| releaseVDOPageCompletion
| completeCompletion
| flushBlockMapUpdates.

Definition ends_rebuild (ev : rebuild_event) : bool :=
  match ev with
  | completeCompletion => true
  | flushBlockMapUpdates => true
  | _ => false
  end.

Section rebuild_driver.
(** As in the section [rebuild]; [findBlockMapPagePBN] is
    findBlockMapPagePBN(rebuild->blockMap, .) and [entryCount] is
    rebuild->blockMap->entryCount.  The rebuild reads the interior tree
    pages only, which it does not change. *)
Variable BLOCK_MAP_ENTRIES_PER_PAGE : nat.
Variable isValidLocation : data_location.t -> bool.
Variable slab_depot : Type.
Variable isPhysicalDataBlock : slab_depot -> PhysicalBlockNumber -> bool.
Variable adjustReferenceCountForRebuild :
  slab_depot -> PhysicalBlockNumber -> status * slab_depot.
Variable findBlockMapPagePBN : Z -> PhysicalBlockNumber.
Variable entryCount : Z.

(** The fields of struct rebuild_completion that the driver uses;
    [counts] holds the depot, [*logicalBlocksUsed] and lastSlot.  The
    PageCount fields are [uint32_t].  [completion_result] is
    completion.result. *)
Record rebuild_state : Type := mk_rebuild_state {
  counts : rebuild_completion slab_depot;
  aborted : bool;
  launching : bool;
  pageToFetch : Z;
  leafPages : Z;
  outstanding : Z;
  pageCount : Z;
  completion_result : status;
  rebuild_trace : list rebuild_event
}.

Definition with_counts (v : rebuild_completion slab_depot)
           (r : rebuild_state) : rebuild_state :=
  mk_rebuild_state v (aborted r) (launching r) (pageToFetch r) (leafPages r)
                   (outstanding r) (pageCount r) (completion_result r)
                   (rebuild_trace r).

Definition with_launching (v : bool) (r : rebuild_state) : rebuild_state :=
  mk_rebuild_state (counts r) (aborted r) v (pageToFetch r) (leafPages r)
                   (outstanding r) (pageCount r) (completion_result r)
                   (rebuild_trace r).

Definition with_pageToFetch (v : Z) (r : rebuild_state) : rebuild_state :=
  mk_rebuild_state (counts r) (aborted r) (launching r) v (leafPages r)
                   (outstanding r) (pageCount r) (completion_result r)
                   (rebuild_trace r).

Definition with_outstanding (v : Z) (r : rebuild_state) : rebuild_state :=
  mk_rebuild_state (counts r) (aborted r) (launching r) (pageToFetch r)
                   (leafPages r) v (pageCount r) (completion_result r)
                   (rebuild_trace r).

Definition rebuild_emit (ev : rebuild_event) (r : rebuild_state)
  : rebuild_state :=
  mk_rebuild_state (counts r) (aborted r) (launching r) (pageToFetch r)
                   (leafPages r) (outstanding r) (pageCount r)
                   (completion_result r) (rebuild_trace r ++ [ev]).

(** Modelled from the spec: completion.c is not under src/.
    setCompletionResult keeps the first error: the result is stored
    only while the completion's result is still VDO_SUCCESS. *)
Definition abortRebuild (result : status) (r : rebuild_state)
  : rebuild_state :=
  mk_rebuild_state (counts r) true (launching r) (pageToFetch r)
                   (leafPages r) (outstanding r) (pageCount r)
                   (if status_eqb (completion_result r) VDO_SUCCESS
                    then result else completion_result r)
                   (rebuild_trace r).

Definition finishIfDone (r : rebuild_state) : bool * rebuild_state :=
  if launching r || (0 <? outstanding r) then (false, r)
  else if aborted r then (true, rebuild_emit completeCompletion r)
  else if pageToFetch r <? leafPages r then (false, r)
  else (true, rebuild_emit flushBlockMapUpdates r).

Definition handlePageLoadError (result : status) (r : rebuild_state)
  : rebuild_state :=
  let r := with_outstanding (uint32 (outstanding r - 1)) r in
  let r := abortRebuild result r in
  let r := rebuild_emit releaseVDOPageCompletion r in
  snd (finishIfDone r).

(** The loop of fetchPage; [n] bounds its iterations, and [None] means
    the bound was too small. *)
Fixpoint fetchPage (n : nat) (r : rebuild_state) : option rebuild_state :=
  if pageToFetch r <? leafPages r then
    match n with
    | O => None
    | S n =>
        let pbn := findBlockMapPagePBN (pageToFetch r) in
        let r := with_pageToFetch (uint32 (pageToFetch r + 1)) r in
        if pbn =? ZERO_BLOCK then fetchPage n r
        else if negb (isPhysicalDataBlock (depot _ (counts r)) pbn) then
          let r := abortRebuild VDO_BAD_MAPPING r in
          let '(done, r) := finishIfDone r in
          if done then Some r else fetchPage n r
        else
          let r := with_outstanding (uint32 (outstanding r + 1)) r in
          Some (rebuild_emit (getVDOPageAsync pbn) r)
    end
  else Some r.

(** pageLoaded for the page completion [completion]; the completion is
    returned as the sweep of the page leaves it. *)
Definition pageLoaded (n : nat) (completion : vdo_page_completion.t)
           (r : rebuild_state)
  : option (rebuild_state * vdo_page_completion.t) :=
  let r := with_outstanding (uint32 (outstanding r - 1)) r in
  let '(result, counts', completion) :=
    rebuildReferenceCountsFromPage
      BLOCK_MAP_ENTRIES_PER_PAGE isValidLocation slab_depot
      isPhysicalDataBlock adjustReferenceCountForRebuild
      (counts r) completion in
  let r := with_counts counts' r in
  let r := if negb (status_eqb result VDO_SUCCESS)
           then abortRebuild result r else r in
  let r := rebuild_emit releaseVDOPageCompletion r in
  let '(done, r) := finishIfDone r in
  if done then Some (r, completion)
  else
    match fetchPage n r with
    | Some r => Some (r, completion)
    | None => None
    end.

(** The [for] loop of rebuildFromLeaves, [i] iterations left. *)
Fixpoint launch_pages (n : nat) (i : nat) (r : rebuild_state)
  : option rebuild_state :=
  match i with
  | O => Some r
  | S i =>
      match fetchPage n r with
      | Some r => launch_pages n i r
      | None => None
      end
  end.

Definition rebuildFromLeaves (n : nat) (r : rebuild_state)
  : option rebuild_state :=
  let r :=
    with_counts
      (mk_rebuild _ (depot _ (counts r)) 0
         (BlockMapSlot.mk
            (findBlockMapPagePBN (uint32 (leafPages r - 1)))
            (Z.to_nat (entryCount mod Z.of_nat BLOCK_MAP_ENTRIES_PER_PAGE))))
      r in
  let r := with_launching true r in
  match launch_pages n (Z.to_nat (pageCount r)) r with
  | Some r => Some (snd (finishIfDone (with_launching false r)))
  | None => None
  end.

(** How often the rebuild was ended. *)
Definition times_ended (r : rebuild_state) : nat :=
  length (filter ends_rebuild (rebuild_trace r)).

(** The pages requested from the page cache. *)
Definition requested_page (ev : rebuild_event) : list PhysicalBlockNumber :=
  match ev with
  | getVDOPageAsync pbn => [pbn]
  | _ => []
  end.

(** The state of the driver between two callbacks: the page counts are
    [uint32_t] values, no more than pageCount loads are outstanding,
    every page completion is in use as long as leaves remain and the
    rebuild has not been aborted, and the rebuild has been ended once if
    no load is outstanding and not at all otherwise. *)
Definition rebuild_in_progress (r : rebuild_state) : Prop :=
  launching r = false
  /\ 0 <= pageToFetch r <= leafPages r
  /\ leafPages r < 2 ^ 32
  /\ 0 <= outstanding r <= pageCount r
  /\ pageCount r < 2 ^ 32
  /\ (aborted r = false -> pageToFetch r < leafPages r ->
      outstanding r = pageCount r)
  /\ times_ended r = (if outstanding r =? 0 then 1%nat else 0%nat).
End rebuild_driver.

(** A map of three leaves, of which only the first is allocated. *)
Definition sparse_leaves (page_number : Z) : PhysicalBlockNumber :=
  if page_number =? 0 then 20 else ZERO_BLOCK.

(** A map of three allocated leaves. *)
Definition dense_leaves (page_number : Z) : PhysicalBlockNumber :=
  20 + page_number.

(** A rebuild of three leaves with [page_count] page completions, before
    rebuildFromLeaves. *)
Definition rebuild_start (page_count : Z) : rebuild_state (list Z) :=
  mk_rebuild_state _ (mk_rebuild _ [] 0 (BlockMapSlot.mk 0 0))
                   false false 0 3 0 page_count VDO_SUCCESS [].

(** The same rebuild with two page completions, after rebuildFromLeaves:
    the leaves 0 and 1 are being loaded. *)
Definition rebuild_two_loading : rebuild_state (list Z) :=
  mk_rebuild_state _ (mk_rebuild _ [] 0 (BlockMapSlot.mk 22 2))
                   false false 2 3 2 2 VDO_SUCCESS
                   [getVDOPageAsync 20; getVDOPageAsync 21].

(** A rebuild with a single page completion, which is loading leaf 0;
    the leaves 1 and 2 are not allocated. *)
Definition rebuild_one_loading : rebuild_state (list Z) :=
  mk_rebuild_state _ (mk_rebuild _ [] 0 (BlockMapSlot.mk 0 2))
                   false false 1 3 1 1 VDO_SUCCESS [getVDOPageAsync 20].

(** The last of three leaves of four entries, all of them mapped. *)
Definition full_leaf : block_map_page.t :=
  block_map_page.mk 22 true
    [data_location.mk 30 MAPPING_STATE_UNCOMPRESSED;
     data_location.mk 31 MAPPING_STATE_UNCOMPRESSED;
     data_location.mk 32 MAPPING_STATE_UNCOMPRESSED;
     data_location.mk 33 MAPPING_STATE_UNCOMPRESSED].

(** The rebuild of three leaves of four entries each and a logical space
    of twelve entries, after rebuildFromLeaves. *)
Definition rebuild_full_last_leaf : rebuild_state (list Z) :=
  mk_rebuild_state _ (mk_rebuild _ [] 0 (BlockMapSlot.mk 22 0))
                   false false 2 3 2 2 VDO_SUCCESS
                   [getVDOPageAsync 20; getVDOPageAsync 21].

(** ** superBlockCodec.c: encoding the super block *)

(** The [n] low bytes of [v], least significant first. *)
Fixpoint le_bytes (n : nat) (v : Z) : list byte :=
  match n with
  | O => []
  | S n => v mod 256 :: le_bytes n (v / 256)
  end.

(** Modelled from the spec: buffer.c is not under src/.  Appends the four
    bytes of a 32-bit number to the content, least significant first. *)
Definition put_uint32_le_into_buffer (b : buffer.t) (v : Z)
  : status * buffer.t :=
  put_bytes b 4 (le_bytes 4 v).

Section super_block_encode.
(** As in the section [super_block]; [pack_header] is the byte layout
    that encode_header writes. *)
Variable SUPER_BLOCK : Z.
Variable ENCODED_HEADER_SIZE : Z.
Variable pack_header : header.t -> list byte.
Variable INITIAL_CHECKSUM : Z.
Variable update_crc32 : Z -> list byte -> Z.

(** Modelled from the spec: header.c is not under src/.  The encoded
    header is appended to the content of the buffer. *)
Definition encode_header (h : header.t) (b : buffer.t)
  : status * buffer.t :=
  put_bytes b ENCODED_HEADER_SIZE (pack_header h).

Definition encode_super_block (codec : super_block_codec.t)
  : status * super_block_codec.t :=
  let with_block b :=
    super_block_codec.mk (super_block_codec.component_buffer codec) b in
  let template := SUPER_BLOCK_HEADER_12_0 SUPER_BLOCK ENCODED_HEADER_SIZE in
  let buffer := super_block_codec.block_buffer codec in
  let '(result, buffer) := reset_buffer_end buffer 0 in
  if negb (status_eqb result VDO_SUCCESS) then (result, with_block buffer)
  else
  let component_data_size :=
    content_length (super_block_codec.component_buffer codec) in
  let header :=
    header.mk (header.id template) (header.major_version template)
              (header.minor_version template)
              (uint64 (header.size template + component_data_size)) in
  let '(result, buffer) := encode_header header buffer in
  if negb (status_eqb result UDS_SUCCESS) then (result, with_block buffer)
  else
  let '(result, buffer) :=
    put_bytes buffer component_data_size
              (get_buffer_contents
                 (super_block_codec.component_buffer codec)) in
  if negb (status_eqb result UDS_SUCCESS) then (result, with_block buffer)
  else
  let checksum :=
    update_crc32 INITIAL_CHECKSUM
                 (firstn (Z.to_nat (content_length buffer))
                         (buffer.data buffer)) in
  let '(result, buffer) := put_uint32_le_into_buffer buffer checksum in
  if negb (status_eqb result UDS_SUCCESS) then (result, with_block buffer)
  else (UDS_SUCCESS, with_block buffer).
End super_block_encode.

(** A buffer whose cursors lie within its array. *)
Definition buffer_ok (b : buffer.t) : Prop :=
  0 <= buffer.start b <= buffer.end_ b
  /\ buffer.end_ b <= buffer.length b
  /\ Z.of_nat (length (buffer.data b)) = buffer.length b.

(** The content of a buffer. *)
Definition buffer_content (b : buffer.t) : list byte :=
  firstn (Z.to_nat (content_length b)) (get_buffer_contents b).

(** The layout that [small_unpack_header] reads. *)
Definition small_pack_header (h : header.t) : list byte :=
  [header.id h; header.major_version h; header.minor_version h;
   header.size h].

(** A codec with the component data [1; 2; 3] and a sector of 16 bytes. *)
Definition small_codec_to_encode : super_block_codec.t :=
  super_block_codec.mk
    (buffer.mk [1; 2; 3; 0; 0; 0; 0; 0] 0 3 8)
    (buffer.mk (repeat 0 16) 0 0 16).

(** A codec with an empty component buffer, about to decode [sector]. *)
Definition small_codec_to_decode (sector : list byte) : super_block_codec.t :=
  super_block_codec.mk (buffer.mk (repeat 0 8) 0 0 8)
                       (buffer.mk sector 0 0 16).

(** A header layout over 8-bit bytes, of the sixteen bytes that the
    encoded header takes in the sector: id, major version, minor version
    and size, four bytes each, least significant first. *)
Definition le_pack_header (h : header.t) : list byte :=
  le_bytes 4 (header.id h) ++ le_bytes 4 (header.major_version h)
  ++ le_bytes 4 (header.minor_version h) ++ le_bytes 4 (header.size h).

Definition le_unpack_header (bytes : list byte) : header.t :=
  header.mk (le_value (firstn 4 bytes))
            (le_value (firstn 4 (skipn 4 bytes)))
            (le_value (firstn 4 (skipn 8 bytes)))
            (le_value (firstn 4 (skipn 12 bytes))).

(** A value that a byte of the program can hold. *)
Definition is_byte (b : byte) : bool := (0 <=? b) && (b <? 256).

(** A codec with the component data [1; 2; 3] and a sector of 32 bytes. *)
Definition le_codec_to_encode : super_block_codec.t :=
  super_block_codec.mk
    (buffer.mk [1; 2; 3; 0; 0; 0; 0; 0] 0 3 8)
    (buffer.mk (repeat 0 32) 0 0 32).

(** ** masterIndexOps.c: the index component *)

Section master_index_component.
(** As in the section [master_index_restore].  zone.h, errors.h and
    indexComponent.c are not under src/: MAX_ZONES, the error code
    UDS_BAD_STATE and get_buffered_reader_for_portal (for the portal
    being read: the result and the reader of a zone) are parameters.
    logErrorWithStringError returns the error code it is given. *)
Variable master_index : Type.
Variable delta_list_save_info : Type.
Variable DELTA_LIST_MAX_BYTE_COUNT : Z.
Variable ALLOCATE : Z -> status.
Variable start_restoring_master_index :
  master_index -> nat -> status * master_index.
Variable restore_delta_list_to_master_index :
  master_index -> delta_list_save_info -> list byte -> status * master_index.
Variable is_restoring_master_index_done : master_index -> bool.
Variable abort_restoring_master_index : master_index -> master_index.
Variable MAX_ZONES : Z.
Variable UDS_BAD_STATE : status.
Variable get_buffered_reader_for_portal :
  nat -> status * buffered_reader delta_list_save_info.

(** The loop that fills [readers]: [count] zones are left, [z] is the
    loop variable.  [inl] is the [return] out of the loop. *)
Fixpoint get_readers (count : nat) (z : nat)
  : status + list (buffered_reader delta_list_save_info) :=
  match count with
  | O => inr []
  | S count =>
      let '(result, reader) := get_buffered_reader_for_portal z in
      if negb (status_eqb result UDS_SUCCESS) then inl result
      else
        match get_readers count (S z) with
        | inl result => inl result
        | inr readers => inr (reader :: readers)
        end
  end.

(** [num_zones] is portal->zones. *)
Definition read_master_index (num_zones : Z) (mi : master_index)
  : status * master_index :=
  if MAX_ZONES <? num_zones then (UDS_BAD_STATE, mi)
  else
    match get_readers (Z.to_nat num_zones) 0 with
    | inl result => (result, mi)
    | inr readers =>
        restore_master_index
          master_index delta_list_save_info DELTA_LIST_MAX_BYTE_COUNT
          ALLOCATE start_restoring_master_index
          restore_delta_list_to_master_index
          is_restoring_master_index_done abort_restoring_master_index
          readers mi
    end.

(** masterIndex005.c and masterIndex006.c are not under src/: whether
    the configuration is sparse, the two size computations (for that
    configuration: the result and the number of bytes) and
    sizeof(struct delta_list_save_info) are parameters. *)
Variable uses_sparse : bool.
Variable compute_master_index_save_bytes005 : status * Z.
Variable compute_master_index_save_bytes006 : status * Z.
Variable SIZEOF_DELTA_LIST_SAVE_INFO : Z.

(** [block_count] is the value of [*block_count] before the call; the
    sizes are 64-bit. *)
Definition compute_master_index_save_blocks (block_size : Z)
           (block_count : Z) : status * Z :=
  let '(result, num_bytes) :=
    if uses_sparse then compute_master_index_save_bytes006
    else compute_master_index_save_bytes005 in
  if negb (status_eqb result UDS_SUCCESS) then (result, block_count)
  else
    let num_bytes := uint64 (num_bytes + SIZEOF_DELTA_LIST_SAVE_INFO) in
    (UDS_SUCCESS,
     uint64 (uint64 (uint64 (num_bytes + block_size) - 1) / block_size
             + MAX_ZONES)).
End master_index_component.

(** The readers of a portal of two zones, with the records of
    [two_zone_readers]. *)
Definition two_zone_portal (z : nat) : status * list (status * Z * list byte) :=
  (UDS_SUCCESS, nth z two_zone_readers []).

(** A portal whose zone 1 cannot be read. *)
Definition broken_portal (z : nat) : status * list (status * Z * list byte) :=
  match z with
  | O => (UDS_SUCCESS, nth 0 two_zone_readers [])
  | _ => (error_code 5, [])
  end.

(** ** vioRead.c: the read path of a data_vio *)

(** The calls of the read path that leave the file, in order. *)
Inductive read_event : Type :=
| completeDataVIO
| applyPartialWrite
| launch_write_data_vio
| zeroDataVIO
| readDataVIO
| get_mapped_block_async
| find_block_map_slot_async
| launchLogicalCallback
| releaseLogicalBlockLock
| vioDoneCallback.

(** The callbacks that the read path registers on the completion. *)
Inductive read_callback : Type :=
| callback_completeDataVIO
| callback_modify_for_partial_write
| callback_read_block
| callback_read_block_mapping
| callback_release_logical_lock.

Inductive async_operation : Type :=
| READ_DATA
| GET_MAPPED_BLOCK
| FIND_BLOCK_MAP_SLOT.

Module read_vio.
(** The fields of the data_vio, its vio and its completion that the
    read path uses. *)
Record t : Type := mk {
  result : status;
  callback : read_callback;
  operation : Z;
  isPartialWrite : bool;
  mapped_pbn : PhysicalBlockNumber;
  physical : PhysicalBlockNumber;
  lastAsyncOperation : async_operation;
  calls : list read_event
}.

Definition call (ev : read_event) (d : t) : t :=
  mk (result d) (callback d) (operation d) (isPartialWrite d)
     (mapped_pbn d) (physical d) (lastAsyncOperation d) (calls d ++ [ev]).

Definition set_callback (v : read_callback) (d : t) : t :=
  mk (result d) v (operation d) (isPartialWrite d) (mapped_pbn d)
     (physical d) (lastAsyncOperation d) (calls d).

Definition set_lastAsyncOperation (v : async_operation) (d : t) : t :=
  mk (result d) (callback d) (operation d) (isPartialWrite d)
     (mapped_pbn d) (physical d) v (calls d).

(** What the operations the data_vio waits for leave in it when they
    finish: the result of the completion and, for the lookup of the
    mapping, the mapped block. *)
Definition finished (r : status) (d : t) : t :=
  mk r (callback d) (operation d) (isPartialWrite d) (mapped_pbn d)
     (physical d) (lastAsyncOperation d) (calls d).

Definition mapped (r : status) (pbn : PhysicalBlockNumber) (d : t) : t :=
  mk r (callback d) (operation d) (isPartialWrite d) pbn (physical d)
     (lastAsyncOperation d) (calls d).
End read_vio.

Section vio_read.
(** vio.h is not under src/: the operation bits are parameters. *)
Variable VIO_READ : Z.
Variable VIO_WRITE : Z.
Variable VIO_READ_WRITE_MASK : Z.

(** Modelled from the spec: vio.h is not under src/.  A vio is a read
    when the read/write bits of its operation are [VIO_READ]. *)
Definition isReadVIO (d : read_vio.t) : bool :=
  Z.land (read_vio.operation d) VIO_READ_WRITE_MASK =? VIO_READ.

Definition modify_for_partial_write (d : read_vio.t) : read_vio.t :=
  if negb (status_eqb (read_vio.result d) VDO_SUCCESS) then
    read_vio.call completeDataVIO d
  else
    let d := read_vio.call applyPartialWrite d in
    let d :=
      read_vio.mk
        (read_vio.result d) (read_vio.callback d)
        (Z.lor VIO_WRITE
               (Z.land (read_vio.operation d) (Z.lnot VIO_READ_WRITE_MASK)))
        true (read_vio.mapped_pbn d) (read_vio.physical d)
        (read_vio.lastAsyncOperation d) (read_vio.calls d) in
    read_vio.call launch_write_data_vio d.

(** invoke_callback(completion) as read_block calls it: the callback is
    one of the two that read_block has just set, completeDataVIO or
    modify_for_partial_write, and it runs at once.  (The other
    callbacks are registered and run elsewhere, see [run_callback]; for
    them nothing is run here.) *)
Definition invoke_callback (d : read_vio.t) : read_vio.t :=
  match read_vio.callback d with
  | callback_completeDataVIO => read_vio.call completeDataVIO d
  | callback_modify_for_partial_write => modify_for_partial_write d
  | _ => d
  end.

Definition read_block (d : read_vio.t) : read_vio.t :=
  if negb (status_eqb (read_vio.result d) VDO_SUCCESS) then
    read_vio.call completeDataVIO d
  else
    let d :=
      read_vio.set_callback
        (if isReadVIO d then callback_completeDataVIO
         else callback_modify_for_partial_write) d in
    if read_vio.mapped_pbn d =? ZERO_BLOCK then
      invoke_callback (read_vio.call zeroDataVIO d)
    else
      let d :=
        read_vio.mk
          (read_vio.result d) (read_vio.callback d) (read_vio.operation d)
          (read_vio.isPartialWrite d) (read_vio.mapped_pbn d)
          (read_vio.mapped_pbn d) READ_DATA (read_vio.calls d) in
      read_vio.call readDataVIO d.

Definition read_block_mapping (d : read_vio.t) : read_vio.t :=
  if negb (status_eqb (read_vio.result d) VDO_SUCCESS) then
    read_vio.call completeDataVIO d
  else
    let d := read_vio.set_callback callback_read_block d in
    let d := read_vio.set_lastAsyncOperation GET_MAPPED_BLOCK d in
    read_vio.call get_mapped_block_async d.

Definition launch_read_data_vio (d : read_vio.t) : read_vio.t :=
  let d := read_vio.set_lastAsyncOperation FIND_BLOCK_MAP_SLOT d in
  read_vio.call find_block_map_slot_async
                (read_vio.set_callback callback_read_block_mapping d).

Definition release_logical_lock (d : read_vio.t) : read_vio.t :=
  read_vio.call vioDoneCallback (read_vio.call releaseLogicalBlockLock d).

Definition cleanup_read_data_vio (d : read_vio.t) : read_vio.t :=
  read_vio.call launchLogicalCallback
                (read_vio.set_callback callback_release_logical_lock d).

(** The callback registered on the completion, run when the operation
    the data_vio waits for has finished. *)
Definition run_callback (d : read_vio.t) : read_vio.t :=
  match read_vio.callback d with
  | callback_completeDataVIO => read_vio.call completeDataVIO d
  | callback_modify_for_partial_write => modify_for_partial_write d
  | callback_read_block => read_block d
  | callback_read_block_mapping => read_block_mapping d
  | callback_release_logical_lock => release_logical_lock d
  end.
End vio_read.

(** A data_vio doing a partial write (operation bits: write with two
    flag bits set) that is about to read its block, which is unmapped. *)
Definition partial_write_of_unmapped_block : read_vio.t :=
  read_vio.mk VDO_SUCCESS callback_read_block (3 + 8 + 16) false ZERO_BLOCK 0
              GET_MAPPED_BLOCK [].

(** A data_vio that is a read (operation bits: read with one flag bit
    set). *)
Definition plain_read : read_vio.t :=
  read_vio.mk VDO_SUCCESS callback_completeDataVIO (1 + 8) false ZERO_BLOCK 0
              FIND_BLOCK_MAP_SLOT [].

(** ** blockMapTree.c: looking up the PBN of a leaf page *)

(** A [struct block_map_tree_slot]: the index of a page within its level
    of a tree, and the slot of that page with the PBN the slot leads to. *)
Module block_map_tree_slot.
Record t : Type := mk {
  pageIndex : Z;
  blockMapSlot : BlockMapSlot.t
}.

Definition set_pbn (pbn : PhysicalBlockNumber) (s : t) : t :=
  mk (pageIndex s)
     (BlockMapSlot.mk pbn (BlockMapSlot.slot (blockMapSlot s))).
End block_map_tree_slot.

Inductive block_map_page_validity : Type :=
| BLOCK_MAP_PAGE_VALID
| BLOCK_MAP_PAGE_INVALID
| BLOCK_MAP_PAGE_BAD.

(** The tree zone, with what a lookup keeps beside the fields of
    [tree_lock.t]: the [treeSlots] of every data_vio's lock, by height,
    and the data_vios for which allocate_data_block was called, in the
    order of the calls. *)
Record lookup_zone : Type := mk_lookup {
  tree_zone : block_map_tree_zone;
  treeSlots : data_vio_id -> Z -> block_map_tree_slot.t;
  allocating : list data_vio_id
}.

Definition with_tree_zone (z : block_map_tree_zone) (s : lookup_zone)
  : lookup_zone :=
  mk_lookup z (treeSlots s) (allocating s).

Definition set_tree_slot (d : data_vio_id) (height : Z)
           (slot : block_map_tree_slot.t) (s : lookup_zone) : lookup_zone :=
  mk_lookup (tree_zone s)
            (upd (treeSlots s) d (updZ (treeSlots s d) height slot))
            (allocating s).

Definition lock_of (d : data_vio_id) (s : lookup_zone) : tree_lock.t :=
  data_vio.treeLock (data_vios (tree_zone s) d).

(** [lock->height = h]. *)
Definition set_lock_height (h : Z) (d : data_vio_id) (s : lookup_zone)
  : lookup_zone :=
  with_tree_zone
    (update_data_vio d
       (update_tree_lock (fun l => tree_lock.mk h (tree_lock.key l)
                                                (tree_lock.locked l)
                                                (tree_lock.waiters l)))
       (tree_zone s)) s.

Definition set_page_buffer (buf : block_map_page.t) (p : tree_page.t)
  : tree_page.t :=
  tree_page.mk (tree_page.generation p) (tree_page.writing_generation p)
               (tree_page.writing p) (tree_page.recovery_lock p)
               (tree_page.writing_recovery_lock p) buf.

(** [int_map_get(map, key)]. *)
Fixpoint int_map_get (m : list (Z * data_vio_id)) (key : Z)
  : option data_vio_id :=
  match m with
  | [] => None
  | (k, v) :: rest => if k =? key then Some v else int_map_get rest key
  end.

Definition is_load_waiter (d : data_vio_id) (w : pool_waiter) : bool :=
  match w with
  | page_waiter _ => false
  | load_waiter d' => Nat.eqb d' d
  end.

(** The waiter of a data_vio is linked when the data_vio is queued for a
    pool entry or waits for the holder of a page lock. *)
Definition data_vio_is_waiting (d : data_vio_id) (z : block_map_tree_zone)
  : bool :=
  existsb (is_load_waiter d) (vio_pool.waiting (vio_pool z))
  || existsb (fun kv => existsb (Nat.eqb d)
                          (tree_lock.waiters
                             (data_vio.treeLock (data_vios z (snd kv)))))
             (loading_pages z).

(** Modelled from the spec: dataVIO.h and waitQueue.c are not under src/.
    enqueueDataVIO puts the data_vio at the end of the queue, and fails
    on a waiter that is already linked (see [enqueue_flush_waiter]). *)
Definition enqueueDataVIO (holder d : data_vio_id) (z : block_map_tree_zone)
  : status * block_map_tree_zone :=
  let result := ASSERT (negb (data_vio_is_waiting d z)) in
  if negb (status_eqb result VDO_SUCCESS) then (result, z)
  else
    (VDO_SUCCESS,
     update_data_vio holder
       (update_tree_lock
          (fun l => tree_lock.mk (tree_lock.height l) (tree_lock.key l)
                                 (tree_lock.locked l)
                                 (tree_lock.waiters l ++ [d]))) z).

(** acquire_vio_from_pool for a data_vio whose waiter callback is
    load_page (see [acquire_vio] for the pool). *)
Definition acquire_vio_for_load (d : data_vio_id) (z : block_map_tree_zone)
  : status * block_map_tree_zone :=
  let pool := vio_pool z in
  match vio_pool.available pool with
  | entry :: rest =>
      (VDO_SUCCESS,
       load_page d entry
         (with_vio_pool (vio_pool.mk rest (vio_pool.waiting pool)
                                     (vio_pool.busy_count pool + 1)) z))
  | [] => enqueue_pool_waiter (load_waiter d) z
  end.

(** return_vio_to_pool alone, as finish_block_map_page_load and
    handle_io_error call it: what [return_to_pool] does before its
    check_for_drain_complete.  [n] bounds the calls of the write
    pipeline, as there. *)
Definition return_vio_to_pool (n : nat) (entry : entry_id)
           (z : block_map_tree_zone) : option block_map_tree_zone :=
  let pool := vio_pool z in
  match vio_pool.waiting pool with
  | w :: rest =>
      let z := with_vio_pool (vio_pool.mk (vio_pool.available pool) rest
                                          (vio_pool.busy_count pool)) z in
      match w with
      | page_waiter p => write_page n p entry z
      | load_waiter d => Some (load_page d entry z)
      end
  | [] =>
      Some (with_vio_pool
              (vio_pool.mk (entry :: vio_pool.available pool) []
                           (vio_pool.busy_count pool - 1)) z)
  end.

Section tree_lookup.
(** constants.h, blockMapEntry.h, blockMapPage.c, forest.c, intMap.c,
    slabDepot.c and dataVIO.h are not under src/; what the lookup takes
    from them is a parameter.  [BLOCK_MAP_TREE_HEIGHT] is a Height, a
    [uint8_t]; [page_key root_index height page_index slot] is the
    64-bit key that the union [page_key] makes of a page descriptor;
    [int_map_grow m] is what int_map_put answers when it has to add a
    key to [m]; [validate_block_map_page] and [format_block_map_page]
    are taken with the nonce of the block map; [is_draining],
    [flat_page_count], [root_count] and the forest are those of the
    zone's block map; [rootIndex] is the root index of the lock of a
    data_vio, which the lookup never changes. *)
Variable BLOCK_MAP_TREE_HEIGHT : Z.
Variable BLOCK_MAP_ENTRIES_PER_PAGE : Z.
Variable is_valid_location : data_location.t -> bool.
Variable is_physical_data_block : PhysicalBlockNumber -> bool.
Variable page_key : Z -> Z -> Z -> nat -> Z.
Variable int_map_grow : list (Z * data_vio_id) -> status.
Variable validate_block_map_page :
  block_map_page.t -> PhysicalBlockNumber -> block_map_page_validity.
Variable format_block_map_page :
  PhysicalBlockNumber -> bool -> block_map_page.t.
Variable is_draining : bool.
Variable flat_page_count : Z.
Variable root_count : Z.
Variable get_tree_page_by_index : Z -> Z -> Z -> page_id.
Variable rootIndex : data_vio_id -> Z.
Variable isWriteDataVIO : data_vio_id -> bool.
Variable isTrimDataVIO : data_vio_id -> bool.

(** Modelled from the spec: intMap.c is not under src/.  int_map_put
    with [update] false leaves a key that is mapped alone and hands
    back the value it has; a new key is added when the map can take
    it. *)
Definition int_map_put (m : list (Z * data_vio_id)) (key : Z)
           (v : data_vio_id)
  : status * option data_vio_id * list (Z * data_vio_id) :=
  match int_map_get m key with
  | Some holder => (VDO_SUCCESS, Some holder, m)
  | None =>
      let result := int_map_grow m in
      if negb (status_eqb result VDO_SUCCESS) then (result, None, m)
      else (VDO_SUCCESS, None, m ++ [(key, v)])
  end.

Definition get_tree_page (d : data_vio_id) (s : lookup_zone) : page_id :=
  let lock := lock_of d s in
  get_tree_page_by_index
    (rootIndex d) (tree_lock.height lock)
    (block_map_tree_slot.pageIndex (treeSlots s d (tree_lock.height lock))).

Definition copy_valid_page (buffer : block_map_page.t)
           (pbn : PhysicalBlockNumber) (page : block_map_page.t)
  : bool * block_map_page.t :=
  let loaded := buffer in
  match validate_block_map_page loaded pbn with
  | BLOCK_MAP_PAGE_VALID => (true, loaded)
  | _ => (false, page)
  end.

Definition is_invalid_tree_entry (mapping : data_location.t) (height : Z)
  : bool :=
  if negb (is_valid_location mapping)
     || is_compressed (data_location.state mapping)
     || (is_mapped_location mapping
         && (data_location.pbn mapping =? ZERO_BLOCK))
  then true
  else if height =? BLOCK_MAP_TREE_HEIGHT then false
  else negb (is_physical_data_block (data_location.pbn mapping)).

Definition finish (d : data_vio_id) (result : status) (s : lookup_zone)
  : lookup_zone :=
  with_tree_zone (finish_lookup d result (tree_zone s)) s.

Definition abort_load (d : data_vio_id) (result : status)
           (s : lookup_zone) : lookup_zone :=
  with_tree_zone (abort_lookup d result (tree_zone s)) s.

(** abort_allocation first sets the callback of the completion to the
    one the lock carries, which finish_lookup launches in any case. *)
Definition abort_allocation (d : data_vio_id) (result : status)
           (s : lookup_zone) : lookup_zone :=
  with_tree_zone (abort_lookup d result (tree_zone s)) s.

Definition attempt_page_lock (d : data_vio_id) (s : lookup_zone)
  : status * lookup_zone :=
  let lock := lock_of d s in
  let height := tree_lock.height lock in
  let tree_slot := treeSlots s d height in
  let key :=
    page_key (rootIndex d) height
             (block_map_tree_slot.pageIndex tree_slot)
             (BlockMapSlot.slot
                (block_map_tree_slot.blockMapSlot tree_slot)) in
  let z :=
    update_data_vio d
      (update_tree_lock (fun l => tree_lock.mk (tree_lock.height l) key
                                               (tree_lock.locked l)
                                               (tree_lock.waiters l)))
      (tree_zone s) in
  let '(result, lock_holder, m) := int_map_put (loading_pages z) key d in
  if negb (status_eqb result VDO_SUCCESS) then (result, with_tree_zone z s)
  else
    let z := with_loading_pages m z in
    match lock_holder with
    | None =>
        (VDO_SUCCESS,
         with_tree_zone
           (update_data_vio d
              (update_tree_lock
                 (fun l => tree_lock.mk (tree_lock.height l)
                                        (tree_lock.key l) true
                                        (tree_lock.waiters l))) z) s)
    | Some holder =>
        let '(result, z) := enqueueDataVIO holder d z in
        (result, with_tree_zone z s)
    end.

Definition load_block_map_page (d : data_vio_id) (s : lookup_zone)
  : lookup_zone :=
  let '(result, s) := attempt_page_lock d s in
  if negb (status_eqb result VDO_SUCCESS) then abort_load d result s
  else if tree_lock.locked (lock_of d s) then
    let '(result, z) := acquire_vio_for_load d (tree_zone s) in
    let s := with_tree_zone z s in
    if negb (status_eqb result VDO_SUCCESS) then abort_load d result s
    else s
  else s.

Definition allocate_block_map_page (d : data_vio_id) (s : lookup_zone)
  : lookup_zone :=
  if negb (isWriteDataVIO d) || isTrimDataVIO d
  then finish d VDO_SUCCESS s
  else
    let '(result, s) := attempt_page_lock d s in
    if negb (status_eqb result VDO_SUCCESS)
    then abort_allocation d result s
    else if negb (tree_lock.locked (lock_of d s)) then s
    else mk_lookup (tree_zone s) (treeSlots s) (allocating s ++ [d]).

(** [page] is the tree page whose buffer the caller passes. *)
Definition continue_with_loaded_page (d : data_vio_id) (page : page_id)
           (s : lookup_zone) : lookup_zone :=
  let lock := lock_of d s in
  let slot := treeSlots s d (tree_lock.height lock) in
  let mapping :=
    unpack_block_map_entry
      (tree_page.page_buffer (pages (tree_zone s) page))
      (BlockMapSlot.slot (block_map_tree_slot.blockMapSlot slot)) in
  if is_invalid_tree_entry mapping (tree_lock.height lock)
  then abort_load d VDO_BAD_MAPPING s
  else if negb (is_mapped_location mapping)
  then allocate_block_map_page d s
  else
    let below := tree_lock.height lock - 1 in
    let s :=
      set_tree_slot d below
        (block_map_tree_slot.set_pbn (data_location.pbn mapping)
                                     (treeSlots s d below)) s in
    if tree_lock.height lock =? 1 then finish d VDO_SUCCESS s
    else load_block_map_page d s.

Definition continue_load_for_waiter (page : page_id) (s : lookup_zone)
           (waiter : data_vio_id) : lookup_zone :=
  let s := set_lock_height
             (uint8 (tree_lock.height (lock_of waiter s) - 1)) waiter s in
  continue_with_loaded_page waiter page s.

(** Modelled from the spec: waitQueue.c is not under src/ (see
    [notify_each_waiter]); here the queue is the lock's and the
    callback continue_load_for_waiter. *)
Definition notify_all_load_waiters (d : data_vio_id) (page : page_id)
           (s : lookup_zone) : lookup_zone :=
  let waiters := tree_lock.waiters (lock_of d s) in
  let z :=
    update_data_vio d
      (update_tree_lock (fun l => tree_lock.mk (tree_lock.height l)
                                               (tree_lock.key l)
                                               (tree_lock.locked l) []))
      (tree_zone s) in
  fold_left (continue_load_for_waiter page) waiters (with_tree_zone z s).

(** finish_block_map_page_load for the pool entry [entry] whose parent
    is the data_vio [d]; [n] bounds the calls of return_vio_to_pool. *)
Definition finish_block_map_page_load (n : nat) (entry : entry_id)
           (d : data_vio_id) (s : lookup_zone) : option lookup_zone :=
  let s := set_lock_height (uint8 (tree_lock.height (lock_of d s) - 1))
                           d s in
  let pbn :=
    BlockMapSlot.pbn
      (block_map_tree_slot.blockMapSlot
         (treeSlots s d (tree_lock.height (lock_of d s)))) in
  let tree_page := get_tree_page d s in
  let z := tree_zone s in
  let '(valid, page) :=
    copy_valid_page (vio_pool_entry.buffer (entries z entry)) pbn
                    (tree_page.page_buffer (pages z tree_page)) in
  let page := if negb valid then format_block_map_page pbn false
              else page in
  let z := update_page tree_page (set_page_buffer page) z in
  match return_vio_to_pool n entry z with
  | None => None
  | Some z =>
      let s := with_tree_zone (release_page_lock d z) s in
      let s := notify_all_load_waiters d tree_page s in
      Some (continue_with_loaded_page d tree_page s)
  end.

(** handle_io_error for the pool entry [entry] whose parent is [d] and
    whose read ended with [result]. *)
Definition handle_io_error (n : nat) (entry : entry_id) (d : data_vio_id)
           (result : status) (s : lookup_zone) : option lookup_zone :=
  match return_vio_to_pool n entry (tree_zone s) with
  | None => None
  | Some z => Some (abort_load d result (with_tree_zone z s))
  end.

(** The loop of lookup_block_map_pbn, with [levels] heights still to
    visit: the local [tree_slot], the page last looked at ([None] for
    NULL) and the state when the loop is left. *)
Fixpoint find_loaded_page (levels : nat) (d : data_vio_id)
         (tree_slot : block_map_tree_slot.t) (page : option page_id)
         (s : lookup_zone)
  : block_map_tree_slot.t * option page_id * lookup_zone :=
  match levels with
  | O => (tree_slot, page, s)
  | S levels =>
      let height := tree_lock.height (lock_of d s) in
      let s := set_tree_slot d height tree_slot s in
      let page := get_tree_page d s in
      let pbn :=
        getBlockMapPagePBN
          (tree_page.page_buffer (pages (tree_zone s) page)) in
      if negb (pbn =? ZERO_BLOCK) then
        (tree_slot, Some page,
         set_tree_slot d height
           (block_map_tree_slot.set_pbn pbn (treeSlots s d height)) s)
      else
        let tree_slot :=
          block_map_tree_slot.mk
            (block_map_tree_slot.pageIndex tree_slot
             / BLOCK_MAP_ENTRIES_PER_PAGE)
            (BlockMapSlot.mk
               (BlockMapSlot.pbn
                  (block_map_tree_slot.blockMapSlot tree_slot))
               (Z.to_nat (block_map_tree_slot.pageIndex tree_slot
                          mod BLOCK_MAP_ENTRIES_PER_PAGE))) in
        find_loaded_page levels d tree_slot (Some page)
                         (set_lock_height (uint8 (height + 1)) d s)
  end.

(** lookup_block_map_pbn.  The loop runs for the heights from 1 to
    BLOCK_MAP_TREE_HEIGHT; [None] is the dereference of the NULL page
    that is left when there is no height to visit. *)
Definition lookup_block_map_pbn (d : data_vio_id) (s : lookup_zone)
  : option lookup_zone :=
  let z := tree_zone s in
  let s := with_tree_zone
             (with_active_lookups (active_lookups z + 1) z) s in
  if is_draining then Some (finish d VDO_SHUTTING_DOWN s)
  else
    let page_index :=
      uint32 (block_map_tree_slot.pageIndex (treeSlots s d 0)
              - flat_page_count)
      / root_count in
    let tree_slot :=
      block_map_tree_slot.mk
        (page_index / BLOCK_MAP_ENTRIES_PER_PAGE)
        (BlockMapSlot.mk
           0 (Z.to_nat (page_index mod BLOCK_MAP_ENTRIES_PER_PAGE))) in
    let s := set_lock_height 1 d s in
    let '(tree_slot, page, s) :=
      find_loaded_page (Z.to_nat BLOCK_MAP_TREE_HEIGHT) d tree_slot None
                       s in
    match page with
    | None => None
    | Some page =>
        let height := tree_lock.height (lock_of d s) in
        let mapping :=
          unpack_block_map_entry
            (tree_page.page_buffer (pages (tree_zone s) page))
            (BlockMapSlot.slot
               (block_map_tree_slot.blockMapSlot tree_slot)) in
        if is_invalid_tree_entry mapping height
        then Some (abort_load d VDO_BAD_MAPPING s)
        else if negb (is_mapped_location mapping)
        then Some (allocate_block_map_page d s)
        else
          let s :=
            set_tree_slot d (height - 1)
              (block_map_tree_slot.set_pbn (data_location.pbn mapping)
                                           (treeSlots s d (height - 1)))
              s in
          if height =? 1 then Some (finish d VDO_SUCCESS s)
          else Some (load_block_map_page d s)
    end.
End tree_lookup.

(** The tree slot of the page index [page_index] at [height], with
    [entries_per_page] entries to the page: the index of the page among
    the pages of that height, and the slot of the page that leads on
    down; the PBN is not known yet. *)
Definition tree_slot_at (entries_per_page page_index height : Z)
  : block_map_tree_slot.t :=
  block_map_tree_slot.mk
    (page_index / entries_per_page ^ height)
    (BlockMapSlot.mk
       0 (Z.to_nat ((page_index / entries_per_page ^ (height - 1))
                    mod entries_per_page))).

(** ** A small tree *)

(** A tree of height 2 with four entries to the page and one root, in a
    map without flat pages.  Tree page [10 * height + index] is page
    [index] of [height].  The root, tree page 20, is in memory at PBN
    100: its slot 0 leads to the page at PBN 50, its slot 1 is unmapped,
    and its slot 2 maps the zero block.  Data_vio [d] looks for leaf page
    [d], and data_vio 4 is the only write.  The data blocks are the PBNs
    from 16 on. *)
Definition small_tree_page (root height index : Z) : page_id :=
  Z.to_nat (10 * height + index).

Definition small_root_page : tree_page.t :=
  tree_page.mk 0 0 false 0 0
    (block_map_page.mk 100 true
       [data_location.mk 50 MAPPING_STATE_UNCOMPRESSED;
        data_location.mk 0 MAPPING_STATE_UNMAPPED;
        data_location.mk 0 MAPPING_STATE_UNCOMPRESSED]).

Definition unloaded_page : tree_page.t :=
  tree_page.mk 0 0 false 0 0 (block_map_page.mk 0 false []).

(** The page at PBN 50 once it is in memory: its slot 0 leads to the
    leaf page at PBN 60. *)
Definition small_interior_page : tree_page.t :=
  tree_page.mk 0 0 false 0 0
    (block_map_page.mk 50 true
       [data_location.mk 60 MAPPING_STATE_UNCOMPRESSED;
        data_location.mk 0 MAPPING_STATE_UNMAPPED]).

Definition small_page_key (root_index height page_index : Z) (slot : nat)
  : Z :=
  root_index + 2 ^ 8 * height + 2 ^ 16 * page_index
  + 2 ^ 48 * Z.of_nat slot.

Definition small_is_data_block (pbn : PhysicalBlockNumber) : bool :=
  16 <=? pbn.

Definition small_validate (page : block_map_page.t)
           (pbn : PhysicalBlockNumber) : block_map_page_validity :=
  if block_map_page.pbn page =? pbn then BLOCK_MAP_PAGE_VALID
  else BLOCK_MAP_PAGE_BAD.

Definition small_format (pbn : PhysicalBlockNumber) (initialized : bool)
  : block_map_page.t :=
  block_map_page.mk pbn initialized (repeat unmapped_entry 4).

Definition small_slots (d : data_vio_id) (height : Z)
  : block_map_tree_slot.t :=
  block_map_tree_slot.mk (if height =? 0 then Z.of_nat d else 0)
                         (BlockMapSlot.mk 0 0).

Definition small_tree : lookup_zone :=
  mk_lookup
    (with_pages (fun p => if Nat.eqb p 20 then small_root_page
                          else unloaded_page) fresh_zone)
    small_slots [].

(** The same tree with page 0 of height 1 in memory. *)
Definition small_tree_loaded : lookup_zone :=
  mk_lookup
    (with_pages (fun p => if Nat.eqb p 20 then small_root_page
                          else if Nat.eqb p 10 then small_interior_page
                          else unloaded_page) fresh_zone)
    small_slots [].

Definition small_block_map : block_map.t :=
  block_map.mk 0 1
    (fun root height index =>
       pages (tree_zone small_tree_loaded)
             (small_tree_page root height index)).

Definition small_lookup : data_vio_id -> lookup_zone -> option lookup_zone :=
  lookup_block_map_pbn
    2 4 any_location_valid small_is_data_block small_page_key
    (fun _ => VDO_SUCCESS) false 0 1 small_tree_page (fun _ => 0)
    (fun d => Nat.eqb d 4) (fun _ => false).

Definition small_finish_load
  : nat -> entry_id -> data_vio_id -> lookup_zone -> option lookup_zone :=
  finish_block_map_page_load
    2 any_location_valid small_is_data_block small_page_key
    (fun _ => VDO_SUCCESS) small_validate small_format small_tree_page
    (fun _ => 0) (fun d => Nat.eqb d 4) (fun _ => false).

Definition small_attempt_page_lock
  : data_vio_id -> lookup_zone -> status * lookup_zone :=
  attempt_page_lock small_page_key (fun _ => VDO_SUCCESS) (fun _ => 0).

(** * Properties *)

(** ** Basic facts *)

Lemma status_eqb_eq a b : status_eqb a b = true <-> a = b.
Proof. unfold status_eqb. destruct (status_eq_dec a b); split; congruence. Qed.

Lemma status_eqb_neq a b : status_eqb a b = false <-> a <> b.
Proof. unfold status_eqb. destruct (status_eq_dec a b); split; congruence. Qed.

Lemma status_eqb_refl a : status_eqb a a = true.
Proof. apply status_eqb_eq. reflexivity. Qed.

Lemma option_page_eqb_true a p : option_page_eqb a p = true <-> a = Some p.
Proof.
  destruct a as [q|]; simpl; [rewrite Nat.eqb_eq|]; split; congruence.
Qed.

Lemma option_page_eqb_refl p : option_page_eqb (Some p) p = true.
Proof. apply option_page_eqb_true. reflexivity. Qed.

Lemma uint8_range x : 0 <= uint8 x < 256.
Proof. unfold uint8. apply Z.mod_pos_bound. lia. Qed.

Lemma uint32_range x : 0 <= uint32 x < 2 ^ 32.
Proof. unfold uint32. apply Z.mod_pos_bound. lia. Qed.

(** ** The generation clock *)

Lemma generation_arith g o :
  0 <= g < 256 -> 0 <= o < 256 ->
  (o = (g + 1) mod 256 <-> (g - o + 1) mod 256 = 0)
  /\ (o = (g + 1) mod 256 <-> (g - o) mod 256 = 255).
Proof.
  intros Hg Ho. split; split; intros H;
    Z.to_euclidean_division_equations; lia.
Qed.

(** C2.  In a zone whose generations are [uint8_t] values,
    attempt_increment returns true, and then advances the zone's
    generation by one (modulo 256) and changes nothing else, exactly when
    oldest_generation differs from generation + 1 (modulo 256); it returns
    false, leaving the zone as it is, exactly when
    (generation - oldest_generation + 1) mod 256 = 0, that is when all 256
    generations are in flight. *)
Theorem attempt_increment_succeeds_iff (z : block_map_tree_zone) :
  0 <= generation z < 256 ->
  0 <= oldest_generation z < 256 ->
  (fst (attempt_increment z) = true
   <-> oldest_generation z <> uint8 (generation z + 1))
  /\ (fst (attempt_increment z) = false
      <-> (generation z - oldest_generation z + 1) mod 256 = 0)
  /\ (fst (attempt_increment z) = false
      <-> (generation z - oldest_generation z) mod 256 = 255)
  /\ (fst (attempt_increment z) = true ->
      snd (attempt_increment z) = with_generation (uint8 (generation z + 1)) z)
  /\ (fst (attempt_increment z) = false -> snd (attempt_increment z) = z).
Proof.
  intros Hg Ho.
  destruct (generation_arith _ _ Hg Ho) as [A B].
  unfold attempt_increment, uint8.
  destruct (Z.eqb_spec (oldest_generation z) ((generation z + 1) mod 256))
    as [E|E]; simpl.
  - repeat split; try congruence; intros _; [apply A | apply B]; exact E.
  - repeat split; try congruence; intros H; exfalso; apply E;
      [apply A | apply B]; exact H.
Qed.

Lemma attempt_increment_succeeds_iff_witness :
  fst (attempt_increment (with_generation 255 fresh_zone)) = false
  <-> (255 - 0 + 1) mod 256 = 0.
Proof.
  apply (attempt_increment_succeeds_iff (with_generation 255 fresh_zone));
    simpl; lia.
Defined.

(** The loop of release_generation leaves through its condition: 256
    iterations are never used up. *)
Lemma roll_oldest_generation_exit (n : nat) (z : block_map_tree_zone) :
  0 <= generation z < 256 ->
  0 <= oldest_generation z < 256 ->
  (generation z - oldest_generation z) mod 256 < Z.of_nat n ->
  let z' := roll_oldest_generation n z in
  ((dirty_page_counts z' (oldest_generation z') =? 0)
   && negb (oldest_generation z' =? generation z')) = false
  /\ generation z' = generation z
  /\ dirty_page_counts z' = dirty_page_counts z
  /\ 0 <= oldest_generation z' < 256.
Proof.
  revert z. induction n as [|n IH]; intros z Hg Ho Hd.
  - exfalso. assert (0 <= (generation z - oldest_generation z) mod 256)
      by (apply Z.mod_pos_bound; lia). lia.
  - simpl.
    destruct ((dirty_page_counts z (oldest_generation z) =? 0)
              && negb (oldest_generation z =? generation z)) eqn:C.
    + apply andb_prop in C. destruct C as [_ C].
      apply negb_true_iff, Z.eqb_neq in C.
      specialize (IH (with_oldest_generation
                        (uint8 (oldest_generation z + 1)) z)).
      simpl in IH. apply IH; [exact Hg | apply uint8_range |].
      unfold uint8. Z.to_euclidean_division_equations. lia.
    + simpl. rewrite C. repeat split; lia.
Qed.

Lemma roll_oldest_generation_trace (n : nat) (z : block_map_tree_zone) :
  trace (roll_oldest_generation n z) = trace z.
Proof.
  revert z. induction n as [|n IH]; intros z; simpl; [reflexivity|].
  destruct (_ && _); [rewrite IH|]; reflexivity.
Qed.

(** C9.  After a call of release_generation that does not enter read-only
    mode (the bucket released was not empty), either oldest_generation
    equals generation or the bucket of oldest_generation is not empty: the
    oldest generation has been advanced past every empty bucket. *)
Theorem release_generation_oldest_not_empty
        (g : Z) (z : block_map_tree_zone) :
  0 <= generation z < 256 ->
  0 <= oldest_generation z < 256 ->
  (forall k, 0 <= dirty_page_counts z k) ->
  0 < dirty_page_counts z g ->
  read_only (release_generation g z) = read_only z
  /\ (oldest_generation (release_generation g z)
      = generation (release_generation g z)
      \/ 0 < dirty_page_counts (release_generation g z)
                               (oldest_generation (release_generation g z))).
Proof.
  intros Hg Ho Hc Hpos. unfold release_generation.
  assert ((0 <? dirty_page_counts z g) = true) as -> by (apply Z.ltb_lt; lia).
  cbn [ASSERT UDS_SUCCESS]. rewrite status_eqb_refl. cbn [negb].
  set (z1 := with_dirty_page_counts _ z).
  destruct (roll_oldest_generation_exit 256 z1) as (E & G & D & R);
    try exact Hg; try exact Ho.
  { change (generation z1) with (generation z).
    change (oldest_generation z1) with (oldest_generation z).
    assert (H := Z.mod_pos_bound (generation z - oldest_generation z) 256).
    lia. }
  split.
  - unfold read_only. rewrite roll_oldest_generation_trace. reflexivity.
  - apply andb_false_iff in E. destruct E as [E|E].
    + right. apply Z.eqb_neq in E.
      assert (0 <= dirty_page_counts (roll_oldest_generation 256 z1)
                     (oldest_generation (roll_oldest_generation 256 z1))).
      { rewrite D. subst z1. cbn [dirty_page_counts with_dirty_page_counts].
        unfold updZ.
        destruct (_ =? g); [apply uint32_range | apply Hc]. }
      lia.
    + left. apply negb_false_iff, Z.eqb_eq in E. exact E.
Qed.

Lemma release_generation_oldest_not_empty_witness :
  read_only (release_generation 0 zone_one_dirty_page)
  = read_only zone_one_dirty_page
  /\ (oldest_generation (release_generation 0 zone_one_dirty_page)
      = generation (release_generation 0 zone_one_dirty_page)
      \/ 0 < dirty_page_counts
               (release_generation 0 zone_one_dirty_page)
               (oldest_generation (release_generation 0 zone_one_dirty_page))).
Proof.
  apply (release_generation_oldest_not_empty 0 zone_one_dirty_page).
  - simpl. lia.
  - simpl. lia.
  - intros k. simpl. unfold updZ. destruct (k =? 0); lia.
  - simpl. unfold updZ. simpl. lia.
Defined.

(** ** Aborting a lookup *)

Lemma trace_finish_lookup d r z :
  trace (finish_lookup d r z) = trace z ++ [setCompletionResult d r].
Proof. reflexivity. Qed.

Lemma data_vio_is_read_finish_lookup d r z w :
  data_vio.is_read (data_vios (finish_lookup d r z) w)
  = data_vio.is_read (data_vios z w).
Proof.
  unfold finish_lookup, update_data_vio, upd. simpl.
  destruct (Nat.eqb w d) eqn:E; [|reflexivity].
  apply Nat.eqb_eq in E. subst. reflexivity.
Qed.

Lemma data_vio_is_read_abort_for_waiter w r z a :
  data_vio.is_read (data_vios (abort_lookup_for_waiter w r z) a)
  = data_vio.is_read (data_vios z a).
Proof. apply data_vio_is_read_finish_lookup. Qed.

Lemma trace_abort_for_waiter w r z :
  trace (abort_lookup_for_waiter w r z)
  = trace z ++ [setCompletionResult
                  w (abort_result_for_waiter
                       (data_vio.is_read (data_vios z w)) r)].
Proof. reflexivity. Qed.

(** The waiters of a lock are notified in queue order, each with the
    translation of the one result. *)
Lemma trace_notify_waiters (r : status) (waiters : list data_vio_id)
      (z : block_map_tree_zone) :
  trace (fold_left (fun z w => abort_lookup_for_waiter w r z) waiters z)
  = trace z
    ++ map (fun w => setCompletionResult
                       w (abort_result_for_waiter
                            (data_vio.is_read (data_vios z w)) r))
           waiters.
Proof.
  revert z. induction waiters as [|w ws IH]; intros z; simpl.
  - rewrite app_nil_r. reflexivity.
  - cbn [fold_left map].
    rewrite IH, trace_abort_for_waiter, <- app_assoc. cbn [app].
    do 2 f_equal. apply map_ext. intros a.
    rewrite data_vio_is_read_abort_for_waiter. reflexivity.
Qed.

(** C5.  When a lookup that holds its page lock aborts with result [r],
    what happens after the zone's own reaction to [r] (entering read-only
    mode unless [r] is VDO_NO_SPACE) is: every waiter of the lock, in
    queue order, finishes with [r] translated for it, and then the
    aborting lookup finishes with [r] itself.  The translation gives a
    read waiter VDO_SUCCESS for VDO_NO_SPACE and [r] otherwise, and any
    other waiter VDO_READ_ONLY for every [r] but VDO_NO_SPACE, which it
    keeps. *)
Theorem abort_lookup_translates_for_waiters
        (d : data_vio_id) (r : status) (z : block_map_tree_zone) :
  tree_lock.locked (data_vio.treeLock (data_vios z d)) = true ->
  trace (abort_lookup d r z)
  = trace (if negb (status_eqb r VDO_NO_SPACE)
           then enter_zone_read_only_mode r z else z)
    ++ map (fun w => setCompletionResult
                       w (abort_result_for_waiter
                            (data_vio.is_read (data_vios z w)) r))
           (tree_lock.waiters (data_vio.treeLock (data_vios z d)))
    ++ [setCompletionResult d r]
  /\ (forall is_read,
         abort_result_for_waiter is_read VDO_NO_SPACE
         = if is_read then VDO_SUCCESS else VDO_NO_SPACE)
  /\ (forall is_read r',
         r' <> VDO_NO_SPACE ->
         abort_result_for_waiter is_read r'
         = if is_read then r' else VDO_READ_ONLY).
Proof.
  intros L. split; [|split].
  - unfold abort_lookup.
    set (z1 := if negb (status_eqb r VDO_NO_SPACE)
               then enter_zone_read_only_mode r z else z).
    assert (data_vios z1 = data_vios z) as D
        by (subst z1; destruct (negb _); reflexivity).
    rewrite D, L. rewrite trace_finish_lookup.
    unfold notify_all_lock_waiters.
    rewrite trace_notify_waiters. rewrite <- app_assoc. f_equal.
    f_equal.
    + unfold release_page_lock, update_data_vio, upd. simpl. rewrite D.
      rewrite Nat.eqb_refl. simpl.
      apply map_ext. intros w.
      destruct (Nat.eqb w d) eqn:E; [|reflexivity].
      apply Nat.eqb_eq in E. subst. reflexivity.
  - intros []; reflexivity.
  - intros [] r' H; unfold abort_result_for_waiter;
      apply status_eqb_neq in H; rewrite H; reflexivity.
Qed.

Lemma abort_lookup_translates_for_waiters_witness :
  trace (abort_lookup 0%nat VDO_BAD_MAPPING zone_with_lock_waiters)
  = [enter_read_only_mode VDO_BAD_MAPPING; check_for_drain_complete;
     setCompletionResult 1%nat VDO_BAD_MAPPING;
     setCompletionResult 2%nat VDO_READ_ONLY;
     setCompletionResult 0%nat VDO_BAD_MAPPING].
Proof.
  destruct (abort_lookup_translates_for_waiters
              0%nat VDO_BAD_MAPPING zone_with_lock_waiters) as [T _].
  - reflexivity.
  - rewrite T. reflexivity.
Defined.

(** ** The PBN of a leaf page *)

(** C10.  For a page number below flat_page_count,
    find_block_map_page_pbn returns BLOCK_MAP_FLAT_PAGE_ORIGIN plus the
    page number, whatever the forest holds.  For any other page number it
    looks at the height-1 page of root (page_number mod root_count) that
    covers it and at that page's entry for it: it returns ZERO_BLOCK when
    the page is not initialized, or the entry is not a valid location, or
    the entry is compressed, and the entry's PBN otherwise. *)
Theorem find_block_map_page_pbn_cases
        (BLOCK_MAP_FLAT_PAGE_ORIGIN BLOCK_MAP_ENTRIES_PER_PAGE : Z)
        (is_valid_location : data_location.t -> bool)
        (map : block_map.t) (page_number : Z) :
  let pbn := find_block_map_page_pbn BLOCK_MAP_FLAT_PAGE_ORIGIN
                                     BLOCK_MAP_ENTRIES_PER_PAGE
                                     is_valid_location map page_number in
  let page_index :=
    (page_number - block_map.flat_page_count map) / block_map.root_count map in
  let page :=
    tree_page.page_buffer
      (block_map.forest map (page_number mod block_map.root_count map) 1
                        (page_index / BLOCK_MAP_ENTRIES_PER_PAGE)) in
  let mapping :=
    unpack_block_map_entry
      page (Z.to_nat (page_index mod BLOCK_MAP_ENTRIES_PER_PAGE)) in
  if page_number <? block_map.flat_page_count map
  then pbn = BLOCK_MAP_FLAT_PAGE_ORIGIN + page_number
  else
    if negb (block_map_page.initialized page)
       || negb (is_valid_location mapping)
       || is_compressed (data_location.state mapping)
    then pbn = ZERO_BLOCK
    else pbn = data_location.pbn mapping.
Proof.
  cbv zeta. unfold find_block_map_page_pbn.
  destruct (page_number <? block_map.flat_page_count map); [reflexivity|].
  destruct (block_map_page.initialized _); cbn [negb orb]; [|reflexivity].
  destruct (negb (is_valid_location _) || is_compressed _); reflexivity.
Qed.

(** ** Restoring the master index *)

Section master_index_restore_properties.
Variable master_index : Type.
Variable delta_list_save_info : Type.
Variable DELTA_LIST_MAX_BYTE_COUNT : Z.
Variable ALLOCATE : Z -> status.
Variable start_restoring_master_index :
  master_index -> nat -> status * master_index.
Variable restore_delta_list_to_master_index :
  master_index -> delta_list_save_info -> list byte -> status * master_index.
Variable is_restoring_master_index_done : master_index -> bool.
Variable abort_restoring_master_index : master_index -> master_index.

Abbreviation restore_zone :=
  (restore_zone master_index delta_list_save_info
                restore_delta_list_to_master_index
                abort_restoring_master_index).
Abbreviation restore_zones :=
  (restore_zones master_index delta_list_save_info
                 restore_delta_list_to_master_index
                 abort_restoring_master_index).
Abbreviation restores_zone :=
  (restores_zone master_index delta_list_save_info
                 restore_delta_list_to_master_index
                 abort_restoring_master_index).
Abbreviation restores :=
  (restores master_index delta_list_save_info
            restore_delta_list_to_master_index
            abort_restoring_master_index).

(** The loop over one reader does what [restores_zone] says. *)
Lemma restore_zone_restores reader mi :
  restores_zone reader mi (restore_zone reader mi).
Proof.
  revert mi. induction reader as [|[[result dlsi] dl_data] rest IH];
    intros mi; cbn [restore_zone].
  - constructor.
  - destruct (status_eqb result UDS_END_OF_FILE) eqn:E.
    + apply status_eqb_eq in E. subst. constructor.
    + apply status_eqb_neq in E.
      destruct (status_eqb result UDS_SUCCESS) eqn:S; cbn [negb].
      * apply status_eqb_eq in S. subst.
        destruct (restore_delta_list_to_master_index mi dlsi dl_data)
          as [r mi'] eqn:R.
        destruct (status_eqb r UDS_SUCCESS) eqn:S'; cbn [negb].
        -- apply status_eqb_eq in S'. subst.
           eapply zone_next; [exact R | apply IH].
        -- apply status_eqb_neq in S'.
           eapply zone_restore_error; eassumption.
      * apply status_eqb_neq in S. constructor; assumption.
Qed.

Lemma restore_zones_restores readers mi :
  restores readers mi (restore_zones readers mi).
Proof.
  revert mi. induction readers as [|reader readers IH]; intros mi;
    cbn [restore_zones].
  - constructor.
  - destruct (restore_zone reader mi) as [mi'|r mi'] eqn:Z.
    + eapply restores_next; [rewrite <- Z; apply restore_zone_restores|].
      apply IH.
    + apply restores_failed. rewrite <- Z. apply restore_zone_restores.
Qed.

(** A [return] out of the loops carries an error, and leaves an
    aborted restore. *)
Lemma restores_zone_return reader mi result mi' :
  restores_zone reader mi (loop_return _ result mi') ->
  result <> UDS_SUCCESS
  /\ exists mi0, mi' = abort_restoring_master_index mi0.
Proof.
  intros H. remember (loop_return _ result mi') as out eqn:E.
  induction H; try discriminate.
  - inversion E; subst. eauto.
  - inversion E; subst. eauto.
  - auto.
Qed.

Lemma restores_return readers mi result mi' :
  restores readers mi (loop_return _ result mi') ->
  result <> UDS_SUCCESS
  /\ exists mi0, mi' = abort_restoring_master_index mi0.
Proof.
  intros H. remember (loop_return _ result mi') as out eqn:E.
  induction H; try discriminate.
  - inversion E; subst. eapply restores_zone_return; eassumption.
  - auto.
Qed.

(** C8.  Once the scratch buffer of DELTA_LIST_MAX_BYTE_COUNT bytes is
    allocated and the header section is read (start_restoring_master_index
    succeeds), restore_master_index goes through the zones in order and,
    in each, restores the delta lists read until the reader answers
    UDS_END_OF_FILE ([restores]).  A read that fails otherwise, or a
    delta list that cannot be restored, ends the restore: the index is
    left by abort_restoring_master_index and that error is returned.
    When all zones are read and the restore is not complete, the index is
    aborted too and the result is UDS_CORRUPT_COMPONENT; when it is
    complete the result is UDS_SUCCESS. *)
Theorem restore_master_index_outcome
        (buffered_readers : list (buffered_reader delta_list_save_info))
        (mi mi1 : master_index) :
  ALLOCATE DELTA_LIST_MAX_BYTE_COUNT = UDS_SUCCESS ->
  start_restoring_master_index mi (List.length buffered_readers)
  = (UDS_SUCCESS, mi1) ->
  exists out,
    restores buffered_readers mi1 out
    /\ match out with
       | loop_return _ result mi' =>
           result <> UDS_SUCCESS
           /\ (exists mi0, mi' = abort_restoring_master_index mi0)
           /\ restore_master_index
                master_index delta_list_save_info DELTA_LIST_MAX_BYTE_COUNT
                ALLOCATE start_restoring_master_index
                restore_delta_list_to_master_index
                is_restoring_master_index_done
                abort_restoring_master_index buffered_readers mi
              = (result, mi')
       | loop_break _ mi' =>
           restore_master_index
             master_index delta_list_save_info DELTA_LIST_MAX_BYTE_COUNT
             ALLOCATE start_restoring_master_index
             restore_delta_list_to_master_index
             is_restoring_master_index_done
             abort_restoring_master_index buffered_readers mi
           = if is_restoring_master_index_done mi'
             then (UDS_SUCCESS, mi')
             else (UDS_CORRUPT_COMPONENT, abort_restoring_master_index mi')
       end.
Proof.
  intros A S. exists (restore_zones buffered_readers mi1).
  split; [apply restore_zones_restores|].
  unfold restore_master_index, restore_master_index_body.
  rewrite A, S. rewrite status_eqb_refl. cbn [negb].
  destruct (restore_zones buffered_readers mi1) as [mi'|r mi'] eqn:Z.
  - destruct (is_restoring_master_index_done mi'); reflexivity.
  - assert (R := restore_zones_restores buffered_readers mi1).
    rewrite Z in R. apply restores_return in R. destruct R as [R1 R2].
    repeat split; auto.
Qed.

(** The two ways to fail before any delta list is read: the error is
    returned and nothing is aborted. *)
Lemma restore_master_index_early_failure
      (buffered_readers : list (buffered_reader delta_list_save_info)) mi :
  (ALLOCATE DELTA_LIST_MAX_BYTE_COUNT <> UDS_SUCCESS ->
   restore_master_index
     master_index delta_list_save_info DELTA_LIST_MAX_BYTE_COUNT
     ALLOCATE start_restoring_master_index
     restore_delta_list_to_master_index is_restoring_master_index_done
     abort_restoring_master_index buffered_readers mi
   = (ALLOCATE DELTA_LIST_MAX_BYTE_COUNT, mi))
  /\ (ALLOCATE DELTA_LIST_MAX_BYTE_COUNT = UDS_SUCCESS ->
      fst (start_restoring_master_index mi (List.length buffered_readers))
      <> UDS_SUCCESS ->
      restore_master_index
        master_index delta_list_save_info DELTA_LIST_MAX_BYTE_COUNT
        ALLOCATE start_restoring_master_index
        restore_delta_list_to_master_index is_restoring_master_index_done
        abort_restoring_master_index buffered_readers mi
      = start_restoring_master_index mi (List.length buffered_readers)).
Proof.
  unfold restore_master_index, restore_master_index_body. split.
  - intros H. apply status_eqb_neq in H. rewrite H. reflexivity.
  - intros A H. rewrite A, status_eqb_refl. cbn [negb].
    destruct (start_restoring_master_index mi (length buffered_readers))
      as [r mi1].
    apply status_eqb_neq in H. cbn [fst] in H. rewrite H. reflexivity.
Qed.
End master_index_restore_properties.

Lemma restore_master_index_outcome_witness :
  exists out,
    restores nat Z counting_restore counting_abort two_zone_readers 0%nat out
    /\ match out with
       | loop_return _ result mi' =>
           result <> UDS_SUCCESS
           /\ (exists mi0, mi' = counting_abort mi0)
           /\ restore_master_index nat Z 100 (fun _ => UDS_SUCCESS)
                counting_start counting_restore counting_done counting_abort
                two_zone_readers 7%nat
              = (result, mi')
       | loop_break _ mi' =>
           restore_master_index nat Z 100 (fun _ => UDS_SUCCESS)
             counting_start counting_restore counting_done counting_abort
             two_zone_readers 7%nat
           = if counting_done mi' then (UDS_SUCCESS, mi')
             else (UDS_CORRUPT_COMPONENT, counting_abort mi')
       end.
Proof.
  apply (restore_master_index_outcome
           nat Z 100 (fun _ => UDS_SUCCESS) counting_start
           counting_restore counting_done counting_abort
           two_zone_readers 7%nat 0%nat); reflexivity.
Defined.

(** ** Rebuilding reference counts from a leaf page *)

Lemma uint64_succ x : uint64 (uint64 x + 1) = uint64 (x + 1).
Proof. unfold uint64. rewrite Zplus_mod_idemp_l. reflexivity. Qed.

Lemma nth_middle_entry (l1 l2 : list data_location.t) e d :
  nth (length l1) (l1 ++ e :: l2) d = e.
Proof. induction l1; simpl; auto. Qed.

Lemma set_entry_middle (l1 l2 : list data_location.t) e v :
  set_entry (l1 ++ e :: l2) (length l1) v = l1 ++ v :: l2.
Proof. induction l1; simpl; [reflexivity|]. rewrite IHl1. reflexivity. Qed.

Section rebuild_properties.
Variable BLOCK_MAP_ENTRIES_PER_PAGE : nat.
Variable isValidLocation : data_location.t -> bool.
Variable slab_depot : Type.
Variable isPhysicalDataBlock : slab_depot -> PhysicalBlockNumber -> bool.
Variable adjustReferenceCountForRebuild :
  slab_depot -> PhysicalBlockNumber -> status * slab_depot.

Abbreviation sweep := (page_sweep slab_depot).
Abbreviation remove_bogus := (remove_bogus_entries slab_depot).
Abbreviation inform_entry :=
  (inform_depot_of_entry isValidLocation slab_depot isPhysicalDataBlock
                         adjustReferenceCountForRebuild).
Abbreviation inform :=
  (inform_depot isValidLocation slab_depot isPhysicalDataBlock
                adjustReferenceCountForRebuild).
Abbreviation used := (counts_as_used isValidLocation).

Abbreviation entries_of := (entries_of slab_depot).
Abbreviation used_count := (count_used isValidLocation).

Lemma without_mapping_not_used e : used (without_mapping e) = false.
Proof.
  unfold counts_as_used, without_mapping.
  destruct (isMappedLocation e) eqn:M.
  - apply andb_false_r.
  - rewrite M. apply andb_false_r.
Qed.

Lemma remove_bogus_entries_spec (l2 l1 : list data_location.t) (s : sweep) :
  entries_of s = l1 ++ l2 ->
  let s' := remove_bogus (length l2) (length l1) s in
  entries_of s' = l1 ++ map without_mapping l2
  /\ sweep_write_requested _ s'
     = sweep_write_requested _ s || existsb isMappedLocation l2
  /\ sweep_logicalBlocksUsed _ s' = sweep_logicalBlocksUsed _ s
  /\ sweep_depot _ s' = sweep_depot _ s
  /\ block_map_page.pbn (sweep_page _ s') = block_map_page.pbn (sweep_page _ s).
Proof.
  revert l1 s. induction l2 as [|e l2 IH]; intros l1 s E; cbn zeta.
  - cbn [length remove_bogus_entries map existsb].
    rewrite orb_false_r. auto.
  - cbn [length remove_bogus_entries map existsb].
    unfold unpackBlockMapEntry, unpack_block_map_entry.
    fold (entries_of s). rewrite E, nth_middle_entry.
    set (s1 := if isMappedLocation e then sweep_remove _ (length l1) s else s).
    assert (entries_of s1 = (l1 ++ [without_mapping e]) ++ l2) as E1.
    { subst s1. unfold without_mapping.
      destruct (isMappedLocation e); rewrite <- app_assoc; cbn [app].
      - unfold entries_of, sweep_remove, remove_entry. cbn.
        fold (entries_of s). rewrite E. apply set_entry_middle.
      - exact E. }
    specialize (IH (l1 ++ [without_mapping e]) s1 E1).
    rewrite length_app in IH. cbn [length] in IH.
    rewrite Nat.add_1_r in IH. cbn zeta in IH.
    destruct IH as (A & B & C & D & F).
    rewrite A, B, C, D, F. rewrite <- app_assoc. cbn [app].
    subst s1. destruct (isMappedLocation e); cbn;
      repeat split; auto.
    + rewrite orb_true_r. reflexivity.
Qed.

Lemma inform_depot_of_entry_spec (l1 l2 : list data_location.t) e (s : sweep) :
  entries_of s = l1 ++ e :: l2 ->
  let s' := inform_entry (length l1) s in
  (exists e', entries_of s' = l1 ++ e' :: l2 /\ kept_or_removed e e')
  /\ sweep_logicalBlocksUsed _ s'
     = (if used e then uint64 (sweep_logicalBlocksUsed _ s + 1)
        else sweep_logicalBlocksUsed _ s)
  /\ (sweep_write_requested _ s = true -> sweep_write_requested _ s' = true).
Proof.
  intros E. cbn zeta. unfold inform_depot_of_entry, counts_as_used.
  unfold unpackBlockMapEntry, unpack_block_map_entry.
  fold (entries_of s). rewrite E, nth_middle_entry.
  assert (entries_of (sweep_remove _ (length l1) s)
          = l1 ++ unmapped_entry :: l2) as R.
  { unfold entries_of, sweep_remove, remove_entry. cbn.
    fold (entries_of s). rewrite E. apply set_entry_middle. }
  destruct (isValidLocation e); cbn [negb andb].
  - destruct (isMappedLocation e); cbn [negb].
    + destruct (data_location.pbn e =? ZERO_BLOCK).
      * split; [exists e; split; [exact E | left; reflexivity]|].
        split; auto.
      * cbn [sweep_depot].
        destruct (isPhysicalDataBlock (sweep_depot _ s) (data_location.pbn e));
          cbn [negb].
        -- destruct (adjustReferenceCountForRebuild _ _) as [r dep].
           destruct (status_eqb r VDO_SUCCESS); cbn [negb].
           ++ split; [exists e; split; [exact E | left; reflexivity]|].
              split; auto.
           ++ split; [exists unmapped_entry; split; [| right; reflexivity]|].
              ** unfold entries_of, sweep_remove, remove_entry. cbn.
                 fold (entries_of s). rewrite E. apply set_entry_middle.
              ** split; auto.
        -- split; [exists unmapped_entry; split; [| right; reflexivity]|].
           ++ unfold entries_of, sweep_remove, remove_entry. cbn.
              fold (entries_of s). rewrite E. apply set_entry_middle.
           ++ split; auto.
    + split; [exists e; split; [exact E | left; reflexivity]|].
      split; auto.
  - split; [exists unmapped_entry; split; [exact R | right; reflexivity]|].
    split; auto.
Qed.

Lemma inform_depot_spec (l2 l1 : list data_location.t) (s : sweep) :
  entries_of s = l1 ++ l2 ->
  0 <= sweep_logicalBlocksUsed _ s < 2 ^ 64 ->
  let s' := inform (length l2) (length l1) s in
  (exists l2', entries_of s' = l1 ++ l2' /\ Forall2 kept_or_removed l2 l2')
  /\ sweep_logicalBlocksUsed _ s'
     = uint64 (sweep_logicalBlocksUsed _ s + used_count l2)
  /\ (sweep_write_requested _ s = true -> sweep_write_requested _ s' = true).
Proof.
  revert l1 s. induction l2 as [|e l2 IH]; intros l1 s E R; cbn zeta.
  - cbn [length inform_depot]. split; [|split; auto].
    + exists []. split; [exact E | constructor].
    + unfold count_used. cbn. rewrite Z.add_0_r.
      unfold uint64. rewrite Z.mod_small; auto.
  - cbn [length inform_depot].
    destruct (inform_depot_of_entry_spec l1 l2 e s E) as ([e' [E' K]] & L & W).
    set (s1 := inform_entry (length l1) s) in *.
    assert (entries_of s1 = (l1 ++ [e']) ++ l2) as E1
        by (rewrite <- app_assoc; exact E').
    assert (0 <= sweep_logicalBlocksUsed _ s1 < 2 ^ 64) as R1.
    { rewrite L. destruct (used e); [|exact R].
      unfold uint64. apply Z.mod_pos_bound. lia. }
    specialize (IH (l1 ++ [e']) s1 E1 R1).
    rewrite length_app in IH. cbn [length] in IH.
    rewrite Nat.add_1_r in IH. cbn zeta in IH.
    destruct IH as ([l2' [A F]] & B & C).
    split; [|split].
    + exists (e' :: l2'). rewrite A, <- app_assoc. split; [reflexivity|].
      constructor; assumption.
    + rewrite B, L. unfold count_used. cbn [filter].
      destruct (used e); cbn [length]; [|reflexivity].
      rewrite Nat2Z.inj_succ. unfold uint64.
      rewrite Zplus_mod_idemp_l. f_equal. lia.
    + auto.
Qed.
Lemma count_used_without_mapping l :
  used_count (map without_mapping l) = 0.
Proof.
  unfold count_used.
  induction l as [|e l IH]; cbn [map filter]; [reflexivity|].
  rewrite without_mapping_not_used. exact IH.
Qed.

Lemma count_used_app l1 l2 :
  used_count (l1 ++ l2) = used_count l1 + used_count l2.
Proof.
  unfold count_used.
  rewrite filter_app, length_app. lia.
Qed.

Lemma kept_or_removed_nth l l' i d :
  Forall2 kept_or_removed l l' ->
  (i < length l)%nat ->
  kept_or_removed (nth i l d) (nth i l' d).
Proof.
  intros F. revert i. induction F as [|e e' l l' K F IH]; intros i H.
  - cbn in H. lia.
  - destruct i as [|i]; cbn [nth]; [exact K|]. apply IH. cbn in H. lia.
Qed.

(** C6.  During rebuild, on an initialized leaf page whose PBN is
    lastSlot.pbn, every slot from lastSlot.slot on that carries a mapped
    entry ends as (ZERO_BLOCK, MAPPING_STATE_UNMAPPED) with a write of the
    page requested, and the accounting pass adds to *logicalBlocksUsed
    only the valid mapped entries of the slots below lastSlot.slot: no
    slot from lastSlot.slot on contributes. *)
Theorem rebuild_removes_mappings_beyond_last_slot
        (rebuild : rebuild_completion slab_depot)
        (completion : vdo_page_completion.t) (page : block_map_page.t) :
  vdo_page_completion.page completion = Some page ->
  isBlockMapPageInitialized page = true ->
  getBlockMapPagePBN page = BlockMapSlot.pbn (lastSlot _ rebuild) ->
  length (block_map_page.entries page) = BLOCK_MAP_ENTRIES_PER_PAGE ->
  (BlockMapSlot.slot (lastSlot _ rebuild) <= BLOCK_MAP_ENTRIES_PER_PAGE)%nat ->
  0 <= logicalBlocksUsed _ rebuild < 2 ^ 64 ->
  exists rebuild' page' write_requested,
    rebuildReferenceCountsFromPage
      BLOCK_MAP_ENTRIES_PER_PAGE isValidLocation slab_depot
      isPhysicalDataBlock adjustReferenceCountForRebuild rebuild completion
    = (VDO_SUCCESS, rebuild',
       vdo_page_completion.mk (Some page') write_requested)
    /\ (forall slot,
           (BlockMapSlot.slot (lastSlot _ rebuild) <= slot
            < BLOCK_MAP_ENTRIES_PER_PAGE)%nat ->
           isMappedLocation (unpackBlockMapEntry page slot) = true ->
           unpackBlockMapEntry page' slot
           = packPBN ZERO_BLOCK MAPPING_STATE_UNMAPPED
           /\ write_requested = true)
    /\ logicalBlocksUsed _ rebuild'
       = uint64 (logicalBlocksUsed _ rebuild
                 + used_count
                     (firstn (BlockMapSlot.slot (lastSlot _ rebuild))
                             (block_map_page.entries page))).
Proof.
  intros P I B L F R.
  set (first := BlockMapSlot.slot (lastSlot _ rebuild)) in *.
  set (l1 := firstn first (block_map_page.entries page)).
  set (l2 := skipn first (block_map_page.entries page)).
  assert (block_map_page.entries page = l1 ++ l2) as E
      by (symmetry; apply firstn_skipn).
  assert (length l1 = first) as L1
      by (subst l1; rewrite length_firstn; lia).
  assert (length l2 = (BLOCK_MAP_ENTRIES_PER_PAGE - first)%nat) as L2
      by (subst l2; rewrite length_skipn; lia).
  unfold rebuildReferenceCountsFromPage. rewrite P, I. cbn [negb].
  apply Z.eqb_eq in B. rewrite B. fold first.
  set (s0 := mk_sweep _ page _ _ _).
  destruct (remove_bogus_entries_spec l2 l1 s0 E) as (E1 & W1 & U1 & D1 & _).
  rewrite L1, L2 in *. cbn zeta in *.
  set (s1 := remove_bogus_entries _ _ first s0) in *.
  assert (length (l1 ++ map without_mapping l2) = BLOCK_MAP_ENTRIES_PER_PAGE)
    as LN by (rewrite length_app, length_map; lia).
  assert (0 <= sweep_logicalBlocksUsed _ s1 < 2 ^ 64) as R1
      by (rewrite U1; exact R).
  destruct (inform_depot_spec (l1 ++ map without_mapping l2) [] s1 E1 R1)
    as ([l' [E2 K]] & U2 & W2).
  rewrite LN in *. cbn [length app] in *. cbn zeta in *.
  set (s2 := inform_depot _ _ _ _ _ 0 s1) in *.
  eexists _, (sweep_page _ s2), _. split; [reflexivity|]. split.
  - intros slot [S1 S2] M.
    assert (nth slot (l1 ++ map without_mapping l2) unmapped_entry
            = unmapped_entry) as N1.
    { rewrite app_nth2 by lia. rewrite L1.
      change unmapped_entry with (without_mapping unmapped_entry) at 1.
      rewrite map_nth. unfold without_mapping at 1.
      unfold unpackBlockMapEntry, unpack_block_map_entry in M.
      rewrite E, app_nth2, L1 in M by lia.
      change (data_location.mk ZERO_BLOCK MAPPING_STATE_UNMAPPED)
        with unmapped_entry in M.
      rewrite M. reflexivity. }
    split.
    + unfold unpackBlockMapEntry, unpack_block_map_entry.
      fold (entries_of s2). rewrite E2.
      change (data_location.mk ZERO_BLOCK MAPPING_STATE_UNMAPPED)
        with unmapped_entry.
      change (packPBN ZERO_BLOCK MAPPING_STATE_UNMAPPED) with unmapped_entry.
      destruct (kept_or_removed_nth _ _ slot unmapped_entry K) as [H|H].
      * rewrite LN. lia.
      * rewrite H. exact N1.
      * exact H.
    + apply W2. rewrite W1. apply orb_true_iff. right.
      apply existsb_exists.
      exists (nth (slot - first) l2 unmapped_entry). split.
      * apply nth_In. lia.
      * unfold unpackBlockMapEntry, unpack_block_map_entry in M.
        rewrite E, app_nth2, L1 in M by lia. exact M.
  - cbn [logicalBlocksUsed]. rewrite U2, U1.
    rewrite count_used_app, count_used_without_mapping, Z.add_0_r.
    reflexivity.
Qed.
End rebuild_properties.

Lemma rebuild_removes_mappings_beyond_last_slot_witness :
  exists rebuild' page' write_requested,
    rebuildReferenceCountsFromPage
      4 any_location_valid (list Z) listed_depot_is_data_block
      listed_depot_adjust (mk_rebuild _ [] 0 (BlockMapSlot.mk 9 2))
      (vdo_page_completion.mk (Some stray_leaf) false)
    = (VDO_SUCCESS, rebuild',
       vdo_page_completion.mk (Some page') write_requested)
    /\ (forall slot,
           (2 <= slot < 4)%nat ->
           isMappedLocation (unpackBlockMapEntry stray_leaf slot) = true ->
           unpackBlockMapEntry page' slot
           = packPBN ZERO_BLOCK MAPPING_STATE_UNMAPPED
           /\ write_requested = true)
    /\ logicalBlocksUsed _ rebuild'
       = uint64 (0 + count_used any_location_valid
                       (firstn 2 (block_map_page.entries stray_leaf))).
Proof.
  apply (rebuild_removes_mappings_beyond_last_slot
           4 any_location_valid (list Z) listed_depot_is_data_block
           listed_depot_adjust (mk_rebuild _ [] 0 (BlockMapSlot.mk 9 2))
           (vdo_page_completion.mk (Some stray_leaf) false) stray_leaf).
  - reflexivity.
  - reflexivity.
  - reflexivity.
  - reflexivity.
  - simpl. lia.
  - simpl. lia.
Defined.

(** The stray mapping of slot 2 is removed and not counted; the mapping of
    slot 0 is counted and its block referenced. *)
Example rebuild_stray_leaf :
  rebuildReferenceCountsFromPage
    4 any_location_valid (list Z) listed_depot_is_data_block
    listed_depot_adjust (mk_rebuild _ [] 0 (BlockMapSlot.mk 9 2))
    (vdo_page_completion.mk (Some stray_leaf) false)
  = (VDO_SUCCESS,
     mk_rebuild _ [20] 1 (BlockMapSlot.mk 9 2),
     vdo_page_completion.mk
       (Some (block_map_page.mk 9 true
                [data_location.mk 20 MAPPING_STATE_UNCOMPRESSED;
                 unmapped_entry; unmapped_entry; unmapped_entry]))
       true).
Proof. reflexivity. Qed.

(** ** Decoding the super block *)

(** put_bytes succeeds when the content and the new bytes fit in the
    buffer, compacting it if need be. *)
Lemma put_bytes_succeeds (b : buffer.t) (len : Z) (bytes : list byte) :
  0 <= buffer.start b ->
  len <= buffer.length b - content_length b ->
  exists b', put_bytes b len bytes = (UDS_SUCCESS, b').
Proof.
  intros Hs Hr. unfold put_bytes.
  destruct (len <=? available_space b) eqn:A.
  - apply Z.leb_le in A.
    assert ((available_space b <? len) = false) as -> by (apply Z.ltb_ge; lia).
    eauto.
  - assert ((available_space (compact_buffer b) <? len) = false) as ->.
    { apply Z.ltb_ge. unfold available_space, compact_buffer. cbn. lia. }
    eauto.
Qed.

(** validate_header has two verdicts. *)
Lemma validate_header_verdict (expected actual : header.t) (exact_size : bool) :
  validate_header expected actual exact_size = VDO_SUCCESS
  \/ validate_header expected actual exact_size = VDO_UNSUPPORTED_VERSION.
Proof.
  unfold validate_header. destruct (_ && _); [left | right]; reflexivity.
Qed.

Section super_block_properties.
Variable SUPER_BLOCK : Z.
Variable ENCODED_HEADER_SIZE : Z.
Variable unpack_header : list byte -> header.t.
Variable INITIAL_CHECKSUM : Z.
Variable update_crc32 : Z -> list byte -> Z.

Abbreviation template :=
  (SUPER_BLOCK_HEADER_12_0 SUPER_BLOCK ENCODED_HEADER_SIZE).

(** A header that does not validate is rejected with the verdict of
    the validation, whichever it is, before its size is looked at. *)
Lemma decode_super_block_invalid_header
      (validation : header.t -> header.t -> bool -> status)
      (codec : super_block_codec.t) :
  let sector := super_block_codec.block_buffer codec in
  let h := unpack_header (firstn (Z.to_nat ENCODED_HEADER_SIZE)
                                 (buffer.data sector)) in
  0 <= ENCODED_HEADER_SIZE <= buffer.length sector ->
  validation template h false <> VDO_SUCCESS ->
  fst (decode_super_block SUPER_BLOCK ENCODED_HEADER_SIZE unpack_header
                          validation INITIAL_CHECKSUM update_crc32 codec)
  = validation template h false.
Proof.
  cbv zeta. intros Hh Hv.
  unfold decode_super_block, decode_header, clear_buffer, content_length,
    get_buffer_contents.
  cbn [buffer.start buffer.end_ buffer.length buffer.data].
  rewrite Z.sub_0_r.
  assert ((buffer.length (super_block_codec.block_buffer codec)
           <? ENCODED_HEADER_SIZE) = false) as -> by (apply Z.ltb_ge; lia).
  cbn [skipn Z.to_nat]. rewrite status_eqb_refl. cbn [negb].
  apply status_eqb_neq in Hv. rewrite Hv. reflexivity.
Qed.

Abbreviation decode :=
  (decode_super_block SUPER_BLOCK ENCODED_HEADER_SIZE unpack_header
                      validate_header INITIAL_CHECKSUM update_crc32).

(** C7.  Let the sector hold a whole encoded header, and let [h] be the
    header decoded from it.  (a) Whenever the size field of [h] exceeds
    the bytes that remain in the sector after the header,
    decode_super_block returns VDO_UNSUPPORTED_VERSION: so does
    validate_header, which runs first, for a header that is not the
    12.0 header, and so does the test of the size for one that is.
    (b) When [h] validates against the 12.0 template and its payload and
    checksum fit in the sector (and the component buffer has room for
    the payload), decode_super_block returns VDO_CHECKSUM_MISMATCH
    exactly when the CRC-32 of all the bytes before the stored checksum
    differs from the stored checksum, and VDO_SUCCESS otherwise. *)
Theorem decode_super_block_result (codec : super_block_codec.t) :
  let sector := super_block_codec.block_buffer codec in
  let h := unpack_header (firstn (Z.to_nat ENCODED_HEADER_SIZE)
                                 (buffer.data sector)) in
  let remaining := buffer.length sector - ENCODED_HEADER_SIZE in
  0 <= ENCODED_HEADER_SIZE <= buffer.length sector ->
  buffer.length sector < 2 ^ 64 ->
  (remaining < header.size h ->
   fst (decode codec) = VDO_UNSUPPORTED_VERSION)
  /\ (validate_header template h false = VDO_SUCCESS ->
      CHECKSUM_SIZE <= header.size h <= remaining ->
      let component := super_block_codec.component_buffer codec in
      0 <= buffer.start component ->
      header.size h - CHECKSUM_SIZE
      <= buffer.length component - content_length component ->
      let checksum_at := ENCODED_HEADER_SIZE + header.size h - CHECKSUM_SIZE in
      fst (decode codec)
      = if update_crc32 INITIAL_CHECKSUM
                        (firstn (Z.to_nat checksum_at) (buffer.data sector))
           =? le_value (firstn 4 (skipn (Z.to_nat checksum_at)
                                        (buffer.data sector)))
        then VDO_SUCCESS else VDO_CHECKSUM_MISMATCH).
Proof.
  cbv zeta. intros Hh Hl.
  unfold decode_super_block, decode_header, clear_buffer, content_length,
    get_buffer_contents. cbn [buffer.start buffer.end_ buffer.length buffer.data].
  rewrite Z.sub_0_r.
  assert ((buffer.length (super_block_codec.block_buffer codec)
           <? ENCODED_HEADER_SIZE) = false) as -> by (apply Z.ltb_ge; lia).
  cbn [skipn Z.to_nat]. rewrite status_eqb_refl. cbn [negb].
  cbn [buffer.start buffer.end_ buffer.length buffer.data].
  rewrite Z.add_0_l.
  set (h := unpack_header _).
  split.
  - intros Hs.
    destruct (validate_header_verdict template h false) as [Hv|Hv];
      rewrite Hv.
    + rewrite status_eqb_refl. cbn [negb].
      assert ((buffer.length (super_block_codec.block_buffer codec)
               - ENCODED_HEADER_SIZE <? header.size h) = true) as ->
          by (apply Z.ltb_lt; lia).
      reflexivity.
    + reflexivity.
  - intros Hv [Hs1 Hs2] Hc Hr. rewrite Hv, status_eqb_refl. cbn [negb].
    assert ((buffer.length (super_block_codec.block_buffer codec)
             - ENCODED_HEADER_SIZE <? header.size h) = false) as ->
        by (apply Z.ltb_ge; lia).
    unfold reset_buffer_end, uncompacted_amount.
    cbn [buffer.start buffer.end_ buffer.length buffer.data].
    assert ((buffer.length (super_block_codec.block_buffer codec)
             <? ENCODED_HEADER_SIZE + header.size h) = false) as ->
        by (apply Z.ltb_ge; lia).
    unfold UDS_SUCCESS. rewrite status_eqb_refl. cbn [negb].
    unfold content_length.
    cbn [buffer.start buffer.end_ buffer.length buffer.data].
    unfold CHECKSUM_SIZE in *.
    rewrite Z.min_l by lia.
    replace (ENCODED_HEADER_SIZE + header.size h - ENCODED_HEADER_SIZE)
      with (header.size h) by lia.
    assert (uint64 (header.size h - 4) = header.size h - 4) as ->
        by (unfold uint64; apply Z.mod_small; lia).
    unfold put_buffer, content_length.
    cbn [buffer.start buffer.end_ buffer.length buffer.data].
    replace (ENCODED_HEADER_SIZE + header.size h - ENCODED_HEADER_SIZE)
      with (header.size h) by lia.
    assert ((header.size h <? header.size h - 4) = false) as ->
        by (apply Z.ltb_ge; lia).
    match goal with
    | |- context [put_bytes ?b ?l ?bs] =>
        destruct (put_bytes_succeeds b l bs Hc Hr) as [component' ->]
    end.
    rewrite status_eqb_refl. cbn [negb].
    unfold get_uint32_le_from_buffer, content_length, get_buffer_contents,
      super_block_codec.encoded_super_block.
    cbn [buffer.start buffer.end_ buffer.length buffer.data
         super_block_codec.block_buffer].
    assert ((ENCODED_HEADER_SIZE + header.size h
             - (ENCODED_HEADER_SIZE + (header.size h - 4)) <? 4) = false)
      as -> by (apply Z.ltb_ge; lia).
    rewrite status_eqb_refl. cbn [negb].
    cbn [buffer.start buffer.end_ buffer.length buffer.data].
    replace (ENCODED_HEADER_SIZE + header.size h
             - (ENCODED_HEADER_SIZE + (header.size h - 4) + 4)) with 0 by lia.
    change (0 =? 0) with true. cbn [ASSERT]. unfold UDS_SUCCESS.
    rewrite status_eqb_refl.
    cbn [negb fst].
    replace (ENCODED_HEADER_SIZE + (header.size h - 4))
      with (ENCODED_HEADER_SIZE + header.size h - 4) by lia.
    destruct (_ =? _); reflexivity.
Qed.
End super_block_properties.

Lemma decode_super_block_result_witness :
  let sector := super_block_codec.block_buffer small_codec in
  let h := small_unpack_header (firstn (Z.to_nat 4) (buffer.data sector)) in
  let remaining := buffer.length sector - 4 in
  (remaining < header.size h ->
   fst (decode_super_block 9 4 small_unpack_header validate_header
                           0 byte_sum small_codec)
   = VDO_UNSUPPORTED_VERSION)
  /\ (validate_header (SUPER_BLOCK_HEADER_12_0 9 4) h false = VDO_SUCCESS ->
      CHECKSUM_SIZE <= header.size h <= remaining ->
      let component := super_block_codec.component_buffer small_codec in
      0 <= buffer.start component ->
      header.size h - CHECKSUM_SIZE
      <= buffer.length component - content_length component ->
      let checksum_at := 4 + header.size h - CHECKSUM_SIZE in
      fst (decode_super_block 9 4 small_unpack_header validate_header
                              0 byte_sum small_codec)
      = if byte_sum 0 (firstn (Z.to_nat checksum_at) (buffer.data sector))
           =? le_value (firstn 4 (skipn (Z.to_nat checksum_at)
                                        (buffer.data sector)))
        then VDO_SUCCESS else VDO_CHECKSUM_MISMATCH).
Proof.
  apply (decode_super_block_result 9 4 small_unpack_header 0 byte_sum
                                   small_codec).
  - simpl. lia.
  - simpl. lia.
Defined.

(** A sector whose header is not the 12.0 header and gives a size beyond
    the sector, and one with the 12.0 header and such a size: both are an
    unsupported version. *)
Example decode_oversized_headers :
  fst (decode_super_block
         9 4 small_unpack_header validate_header 0 byte_sum
         (super_block_codec.mk
            (buffer.mk (repeat 0 8) 0 0 8)
            (buffer.mk [8; 11; 0; 99; 1; 2; 30; 0; 0; 0; 0; 0; 0; 0; 0; 0]
                       0 0 16)))
  = VDO_UNSUPPORTED_VERSION
  /\ fst (decode_super_block
            9 4 small_unpack_header validate_header 0 byte_sum
            (super_block_codec.mk
               (buffer.mk (repeat 0 8) 0 0 8)
               (buffer.mk [9; 12; 0; 99; 1; 2; 30; 0; 0; 0; 0; 0; 0; 0; 0; 0]
                          0 0 16)))
     = VDO_UNSUPPORTED_VERSION.
Proof. split; reflexivity. Qed.

(** The small sector decodes; with one payload byte changed its checksum
    no longer matches; with a size field that exceeds the sector it is an
    unsupported version. *)
Example decode_small_codec :
  fst (decode_super_block 9 4 small_unpack_header validate_header
                          0 byte_sum small_codec) = VDO_SUCCESS
  /\ fst (decode_super_block
            9 4 small_unpack_header validate_header 0 byte_sum
            (super_block_codec.mk
               (buffer.mk (repeat 0 8) 0 0 8)
               (buffer.mk [9; 12; 0; 6; 1; 3; 30; 0; 0; 0; 0; 0; 0; 0; 0; 0]
                          0 0 16)))
     = VDO_CHECKSUM_MISMATCH
  /\ fst (decode_super_block
            9 4 small_unpack_header validate_header 0 byte_sum
            (super_block_codec.mk
               (buffer.mk (repeat 0 8) 0 0 8)
               (buffer.mk [9; 12; 0; 13; 1; 2; 30; 0; 0; 0; 0; 0; 0; 0; 0; 0]
                          0 0 16)))
     = VDO_UNSUPPORTED_VERSION.
Proof. repeat split. Qed.

(** ** The write pipeline: termination and what it preserves *)

Lemma is_waiting_iff p z :
  is_waiting p z = true
  <-> In p (flush_waiters z)
      \/ In (page_waiter p) (vio_pool.waiting (vio_pool z)).
Proof.
  unfold is_waiting. rewrite orb_true_iff, !existsb_exists. split.
  - intros [[q [H E]]|[w [H E]]].
    + apply Nat.eqb_eq in E. subst. auto.
    + destruct w as [q|d]; simpl in E; [|discriminate].
      apply Nat.eqb_eq in E. subst. auto.
  - intros [H|H].
    + left. exists p. split; [exact H | apply Nat.eqb_refl].
    + right. exists (page_waiter p). split; [exact H | apply Nat.eqb_refl].
Qed.

Lemma read_only_app z z' evs :
  trace z' = trace z ++ evs -> read_only z = true -> read_only z' = true.
Proof.
  unfold read_only. intros -> H. rewrite existsb_app, H. reflexivity.
Qed.

Lemma read_only_enter r z : read_only (enter_zone_read_only_mode r z) = true.
Proof.
  unfold read_only, enter_zone_read_only_mode. cbn.
  rewrite !existsb_app. cbn. rewrite orb_true_r. reflexivity.
Qed.

Lemma dequeue_all_flush_waiters_nil q : dequeue_all_flush_waiters q = [].
Proof. induction q; simpl; auto. Qed.

Lemma frame_refl arg z : write_path_frame arg z z.
Proof.
  constructor; auto.
  - exists []. rewrite app_nil_r. auto.
  - intros q H. left. exact H.
Qed.

Lemma page_settled_frame arg z z' q :
  write_path_frame arg z z' -> page_settled q z -> page_settled q z'.
Proof.
  intros F [H|[H|H]].
  - apply (frame_settled _ _ _ F). exact H.
  - right. left. apply (frame_writing _ _ _ F). exact H.
  - right. right. destruct (frame_trace _ _ _ F) as [evs [T _]].
    eapply read_only_app; eassumption.
Qed.

Lemma frame_trans arg z1 z2 z3 :
  write_path_frame arg z1 z2 -> write_path_frame arg z2 z3 ->
  write_path_frame arg z1 z3.
Proof.
  intros A B. constructor.
  - rewrite (frame_counts _ _ _ B). apply (frame_counts _ _ _ A).
  - rewrite (frame_oldest _ _ _ B). apply (frame_oldest _ _ _ A).
  - intros q. rewrite (frame_generation _ _ _ B). apply (frame_generation _ _ _ A).
  - intros q H. apply (frame_writing _ _ _ B), (frame_writing _ _ _ A), H.
  - destruct (frame_trace _ _ _ A) as [e1 [T1 N1]].
    destruct (frame_trace _ _ _ B) as [e2 [T2 N2]].
    exists (e1 ++ e2). rewrite T2, T1, app_assoc. split; [reflexivity|].
    apply Forall_app. auto.
  - intros f H. apply (frame_flusher _ _ _ B), (frame_flusher _ _ _ A), H.
  - intros q H. eapply page_settled_frame; [exact B|].
    apply (frame_settled _ _ _ A). exact H.
  - intros q H. destruct (frame_waiting _ _ _ B q H) as [H'|H']; [|auto].
    apply (frame_waiting _ _ _ A q H').
Qed.

Lemma frame_weaken z z' p : write_path_frame None z z' -> write_path_frame p z z'.
Proof.
  intros F. constructor; try apply F.
  intros q H. destruct (frame_waiting _ _ _ F q H) as [H'|H']; [auto|discriminate].
Qed.

(** The measure that bounds the depth of the pipeline's calls. *)
Lemma frame_enter_read_only arg r z :
  write_path_frame arg z (enter_zone_read_only_mode r z)
  /\ tree_zone_measure (enter_zone_read_only_mode r z) = tree_zone_measure z.
Proof.
  split; [|reflexivity]. constructor; try reflexivity; auto.
  - exists [enter_read_only_mode r; check_for_drain_complete].
    unfold enter_zone_read_only_mode. cbn. rewrite <- app_assoc.
    split; [reflexivity|]. repeat constructor.
  - intros q _. right. right. apply read_only_enter.
  - intros q H. left. apply is_waiting_iff in H. apply is_waiting_iff.
    unfold enter_zone_read_only_mode in H. cbn in H.
    rewrite dequeue_all_flush_waiters_nil in H.
    destruct H as [[]|H]. right. exact H.
Qed.

Lemma frame_is_not_older arg a b z :
  write_path_frame arg z (snd (is_not_older a b z))
  /\ tree_zone_measure (snd (is_not_older a b z)) = tree_zone_measure z
  /\ flusher (snd (is_not_older a b z)) = flusher z
  /\ vio_pool (snd (is_not_older a b z)) = vio_pool z.
Proof.
  unfold is_not_older. destruct (negb _); cbn [snd].
  - destruct (frame_enter_read_only arg (ASSERT
       (in_cyclic_range (oldest_generation z) a (generation z) (2 ^ 8) &&
        in_cyclic_range (oldest_generation z) b (generation z) (2 ^ 8))) z).
    auto.
  - split; [apply frame_refl | auto].
Qed.

Lemma frame_attempt_increment arg z :
  write_path_frame arg z (snd (attempt_increment z))
  /\ tree_zone_measure (snd (attempt_increment z)) = tree_zone_measure z
  /\ flusher (snd (attempt_increment z)) = flusher z
  /\ vio_pool (snd (attempt_increment z)) = vio_pool z
  /\ flush_waiters (snd (attempt_increment z)) = flush_waiters z.
Proof.
  unfold attempt_increment. destruct (_ =? _); cbn [snd].
  - split; [apply frame_refl | auto].
  - split; [|auto]. constructor; auto.
    + exists []. cbn. rewrite app_nil_r. auto.
    + intros q H. left. exact H.
Qed.

Lemma frame_launch_page_write p e z :
  write_path_frame (Some p) z (launch_page_write p e z)
  /\ tree_zone_measure (launch_page_write p e z) = tree_zone_measure z
  /\ tree_page.writing (pages (launch_page_write p e z) p) = true.
Proof.
  unfold launch_page_write.
  destruct (mark_block_map_page_initialized _ true) as [changed page].
  assert (forall q b, tree_page.generation
                        (upd (pages z) p (tree_page.start_writing b (pages z p)) q)
                      = tree_page.generation (pages z q)) as G.
  { intros q b. unfold upd. destruct (Nat.eqb q p) eqn:E; [|reflexivity].
    apply Nat.eqb_eq in E. subst. reflexivity. }
  assert (forall q b, tree_page.writing (pages z q) = true ->
                      tree_page.writing
                        (upd (pages z) p (tree_page.start_writing b (pages z p)) q)
                      = true) as W.
  { intros q b H. unfold upd. destruct (Nat.eqb q p); [reflexivity | exact H]. }
  assert (forall b, tree_page.writing
                      (upd (pages z) p (tree_page.start_writing b (pages z p)) p)
                    = true) as Wp.
  { intros b. unfold upd. rewrite Nat.eqb_refl. reflexivity. }
  destruct (negb changed).
  - split; [|split; [reflexivity | apply Wp]].
    constructor; try reflexivity; auto.
    + intros q. apply G.
    + intros q. apply W.
    + eexists [_]. cbn. split; [reflexivity|]. repeat constructor.
    + intros q H. left. exact H.
  - split; [|split; [reflexivity | apply Wp]].
    constructor; try reflexivity; auto.
    + intros q. apply G.
    + intros q. apply W.
    + eexists [_]. cbn. split; [reflexivity|]. repeat constructor.
    + intros q H. left. exact H.
Qed.

Lemma frame_same_queues arg z z' evs :
  dirty_page_counts z' = dirty_page_counts z ->
  oldest_generation z' = oldest_generation z ->
  pages z' = pages z ->
  trace z' = trace z ++ evs ->
  Forall (fun ev => is_notify ev = false) evs ->
  flusher z' = flusher z ->
  flush_waiters z' = flush_waiters z ->
  vio_pool.waiting (vio_pool z') = vio_pool.waiting (vio_pool z) ->
  write_path_frame arg z z'.
Proof.
  intros C O P T N F W V.
  assert (forall q, is_waiting q z' = is_waiting q z) as I
      by (intros q; unfold is_waiting; rewrite W, V; reflexivity).
  constructor; auto.
  - intros q. rewrite P. reflexivity.
  - intros q. rewrite P. auto.
  - eauto.
  - intros f. rewrite F. auto.
  - intros q H. left. rewrite I. exact H.
  - intros q H. left. rewrite <- I. exact H.
Qed.

Lemma measure_same z z' :
  flusher z' = flusher z ->
  vio_pool.waiting (vio_pool z') = vio_pool.waiting (vio_pool z) ->
  tree_zone_measure z' = tree_zone_measure z.
Proof. unfold tree_zone_measure. intros -> ->. reflexivity. Qed.

(** Queueing a page on flush_waiters, as enqueue_page does it. *)
Lemma frame_enqueue_flush_waiter p z :
  let z' :=
    if negb (status_eqb (fst (enqueue_flush_waiter p z)) VDO_SUCCESS)
    then enter_zone_read_only_mode (fst (enqueue_flush_waiter p z))
                                   (snd (enqueue_flush_waiter p z))
    else snd (enqueue_flush_waiter p z) in
  write_path_frame (Some p) z z'
  /\ tree_zone_measure z' = tree_zone_measure z
  /\ page_settled p z'.
Proof.
  cbn zeta. unfold enqueue_flush_waiter.
  destruct (negb (status_eqb (ASSERT (negb (is_waiting p z))) VDO_SUCCESS))
    eqn:E; cbn [fst snd].
  - rewrite E. destruct (frame_enter_read_only (Some p) (ASSERT (negb (is_waiting p z))) z)
      as [F M].
    split; [exact F|]. split; [exact M|].
    right. right. apply read_only_enter.
  - rewrite status_eqb_refl. cbn [negb]. split; [|split].
    + constructor; try reflexivity; auto.
      * exists []. cbn. rewrite app_nil_r. auto.
      * intros q H. left. apply is_waiting_iff in H. apply is_waiting_iff.
        cbn. destruct H as [H|H]; [left; apply in_or_app; auto | auto].
      * intros q H. apply is_waiting_iff in H. cbn in H.
        destruct H as [H|H].
        -- apply in_app_or in H. destruct H as [H|[H|[]]].
           ++ left. apply is_waiting_iff. auto.
           ++ right. subst. reflexivity.
        -- left. apply is_waiting_iff. auto.
    + reflexivity.
    + left. apply is_waiting_iff. left. cbn. apply in_or_app. right.
      left. reflexivity.
Qed.

(** Queueing a page on the pool, as acquire_vio does it when no entry is
    free. *)
Lemma frame_enqueue_pool_waiter p z :
  let z' :=
    if negb (status_eqb (fst (enqueue_pool_waiter (page_waiter p) z)) VDO_SUCCESS)
    then enter_zone_read_only_mode
           (fst (enqueue_pool_waiter (page_waiter p) z))
           (snd (enqueue_pool_waiter (page_waiter p) z))
    else snd (enqueue_pool_waiter (page_waiter p) z) in
  write_path_frame (Some p) z z'
  /\ (tree_zone_measure z' <= tree_zone_measure z + 2)%nat
  /\ page_settled p z'.
Proof.
  cbn zeta. unfold enqueue_pool_waiter.
  destruct (negb (status_eqb (ASSERT (negb (is_waiting p z))) VDO_SUCCESS))
    eqn:E; cbn [fst snd].
  - rewrite E. destruct (frame_enter_read_only (Some p) (ASSERT (negb (is_waiting p z))) z)
      as [F M].
    split; [exact F|]. split; [lia|].
    right. right. apply read_only_enter.
  - rewrite status_eqb_refl. cbn [negb]. split; [|split].
    + constructor; try reflexivity; auto.
      * exists []. cbn. rewrite app_nil_r. auto.
      * intros q H. left. apply is_waiting_iff in H. apply is_waiting_iff.
        cbn. destruct H as [H|H]; [auto | right; apply in_or_app; auto].
      * intros q H. apply is_waiting_iff in H. cbn in H.
        destruct H as [H|H].
        -- left. apply is_waiting_iff. auto.
        -- apply in_app_or in H. destruct H as [H|[H|[]]].
           ++ left. apply is_waiting_iff. auto.
           ++ right. congruence.
    + unfold tree_zone_measure. cbn. rewrite length_app. cbn. lia.
    + left. apply is_waiting_iff. right. cbn. apply in_or_app. right.
      left. reflexivity.
Qed.

(** write_page for the flusher writes at once. *)
Lemma write_page_flusher n p e z :
  flusher z = Some p ->
  write_page (S n) p e z = Some (launch_page_write p e z).
Proof.
  intros F. cbn [write_page]. rewrite F, option_page_eqb_refl. reflexivity.
Qed.

Lemma frame_take_entry arg z rest busy :
  write_path_frame arg z
    (with_vio_pool (vio_pool.mk rest (vio_pool.waiting (vio_pool z)) busy) z).
Proof.
  apply (frame_same_queues arg z _ []); try reflexivity.
  - cbn. rewrite app_nil_r. reflexivity.
  - constructor.
Qed.

Lemma frame_emit arg ev z :
  is_notify ev = false -> write_path_frame arg z (emit ev z).
Proof.
  intros N. apply (frame_same_queues arg z _ [ev]); try reflexivity.
  repeat constructor. exact N.
Qed.

(** The pipeline terminates within [tree_zone_measure] calls, and keeps to
    its frame. *)
Lemma write_pipeline_total (n : nat) :
  (forall z p e,
      (tree_zone_measure z + 4 <= n)%nat ->
      exists z', write_page n p e z = Some z'
                 /\ (tree_zone_measure z' <= tree_zone_measure z)%nat
                 /\ write_path_frame (Some p) z z'
                 /\ page_settled p z')
  /\ (forall z p,
         (3 <= n)%nat ->
         exists z', enqueue_page n p z = Some z'
                    /\ (tree_zone_measure z' <= tree_zone_measure z)%nat
                    /\ write_path_frame (Some p) z z'
                    /\ page_settled p z')
  /\ (forall z p,
         flusher z = Some p -> (2 <= n)%nat ->
         exists z', acquire_vio n p z = Some z'
                    /\ (tree_zone_measure z' <= tree_zone_measure z + 2)%nat
                    /\ write_path_frame (Some p) z z'
                    /\ page_settled p z')
  /\ (forall z p,
         (tree_zone_measure z + 5 <= n)%nat ->
         exists z', acquire_vio n p z = Some z'
                    /\ (tree_zone_measure z' <= tree_zone_measure z + 2)%nat
                    /\ write_path_frame (Some p) z z'
                    /\ page_settled p z')
  /\ (forall z e,
         (tree_zone_measure z + 3 <= n)%nat ->
         exists z', return_to_pool n e z = Some z'
                    /\ (tree_zone_measure z' <= tree_zone_measure z)%nat
                    /\ write_path_frame None z z').
Proof.
  induction n as [|n (IHw & IHe & IHs & IHa & IHr)].
  { repeat split; intros; lia. }
  repeat split.
  - (* write_page *)
    intros z p e Hn. cbn [write_page].
    destruct (option_page_eqb (flusher z) p) eqn:Fl; cbn [negb].
    + destruct (frame_launch_page_write p e z) as (F & M & W).
      eexists. split; [reflexivity|]. split; [lia|]. split; [exact F|].
      right. left. exact W.
    + destruct (frame_is_not_older
                  (Some p) (tree_page.generation (pages z p)) (generation z) z)
        as (F1 & M1 & _ & _).
      destruct (is_not_older _ _ z) as [requeue z1]. cbn [snd] in *.
      destruct requeue.
      * destruct (IHe z1 p) as (z2 & E2 & M2 & F2 & S2); [lia|].
        rewrite E2.
        destruct (IHr z2 e) as (z3 & E3 & M3 & F3); [lia|].
        rewrite E3. eexists. split; [reflexivity|]. split; [lia|].
        split.
        -- eapply frame_trans; [exact F1|].
           eapply frame_trans; [exact F2 | apply frame_weaken; exact F3].
        -- eapply page_settled_frame; eassumption.
      * destruct (frame_launch_page_write p e z1) as (F & M & W).
        eexists. split; [reflexivity|]. split; [lia|]. split.
        -- eapply frame_trans; eassumption.
        -- right. left. exact W.
  - (* enqueue_page *)
    intros z p Hn. cbn [enqueue_page].
    assert (forall z1,
               write_path_frame (Some p) z z1 ->
               tree_zone_measure z1 = tree_zone_measure z ->
               exists z',
                 (let '(result, z0) := enqueue_flush_waiter p z1 in
                  if negb (status_eqb result VDO_SUCCESS)
                  then Some (enter_zone_read_only_mode result z0)
                  else Some z0) = Some z'
                 /\ (tree_zone_measure z' <= tree_zone_measure z)%nat
                 /\ write_path_frame (Some p) z z'
                 /\ page_settled p z') as Q.
    { intros z1 F1 M1.
      destruct (frame_enqueue_flush_waiter p z1) as (F & M & S).
      destruct (enqueue_flush_waiter p z1) as [result z0]. cbn [fst snd] in *.
      destruct (negb (status_eqb result VDO_SUCCESS));
        (eexists; split; [reflexivity|]; split; [lia|]; split;
         [eapply frame_trans; eassumption | exact S]). }
    destruct (flusher z) as [f|] eqn:Fl.
    + apply Q; [apply frame_refl | reflexivity].
    + destruct (frame_attempt_increment (Some p) z) as (F1 & M1 & Fl1 & P1 & _).
      destruct (attempt_increment z) as [incremented z1]. cbn [snd] in *.
      destruct incremented.
      * destruct (IHs (with_flusher (Some p) z1) p) as (z2 & E2 & M2 & F2 & S2);
          [reflexivity | lia |].
        rewrite E2. eexists. split; [reflexivity|].
        assert (tree_zone_measure (with_flusher (Some p) z1) + 2
                = tree_zone_measure z)%nat as M0.
        { rewrite <- M1. unfold tree_zone_measure. cbn. rewrite Fl1, Fl. lia. }
        split; [lia|]. split; [|exact S2].
        eapply frame_trans; [exact F1|].
        eapply frame_trans; [|exact F2].
        constructor; try reflexivity; auto.
        -- exists []. cbn. rewrite app_nil_r. auto.
        -- intros f. rewrite Fl1, Fl. discriminate.
        -- intros q H. left. exact H.
      * apply Q; [exact F1 | exact M1].
  - (* acquire_vio for the flusher *)
    intros z p Fl Hn. cbn [acquire_vio].
    destruct (vio_pool.available (vio_pool z)) as [|entry rest].
    + destruct (frame_enqueue_pool_waiter p z) as (F & M & S).
      destruct (enqueue_pool_waiter (page_waiter p) z) as [result z0].
      cbn [fst snd] in *.
      destruct (negb (status_eqb result VDO_SUCCESS)); eauto 6.
    + destruct n as [|n]; [lia|].
      rewrite write_page_flusher by exact Fl.
      set (z1 := with_vio_pool _ z).
      destruct (frame_launch_page_write p entry z1) as (F & M & W).
      eexists. split; [reflexivity|]. split.
      * rewrite M. subst z1. unfold tree_zone_measure. cbn. lia.
      * split; [|right; left; exact W].
        eapply frame_trans; [apply frame_take_entry | exact F].
  - (* acquire_vio *)
    intros z p Hn. cbn [acquire_vio].
    destruct (vio_pool.available (vio_pool z)) as [|entry rest].
    + destruct (frame_enqueue_pool_waiter p z) as (F & M & S).
      destruct (enqueue_pool_waiter (page_waiter p) z) as [result z0].
      cbn [fst snd] in *.
      destruct (negb (status_eqb result VDO_SUCCESS)); eauto 6.
    + set (z1 := with_vio_pool _ z).
      destruct (IHw z1 p entry) as (z2 & E2 & M2 & F2 & S2).
      { subst z1. unfold tree_zone_measure in *. cbn. lia. }
      rewrite E2. eexists. split; [reflexivity|]. split.
      * subst z1. unfold tree_zone_measure in *. cbn in *. lia.
      * split; [|exact S2].
        eapply frame_trans; [apply frame_take_entry | exact F2].
  - (* return_to_pool *)
    intros z e Hn. cbn [return_to_pool].
    destruct (vio_pool.waiting (vio_pool z)) as [|w rest] eqn:Wq.
    + eexists. split; [reflexivity|]. split.
      * unfold tree_zone_measure. cbn. rewrite Wq. cbn. lia.
      * eapply frame_trans; [|apply frame_emit; reflexivity].
        apply (frame_same_queues None z _ []); try reflexivity.
        -- cbn. rewrite app_nil_r. reflexivity.
        -- constructor.
        -- cbn. rewrite Wq. reflexivity.
    + set (z1 := with_vio_pool _ z).
      assert (tree_zone_measure z1 + 2 = tree_zone_measure z)%nat as M1.
      { subst z1. unfold tree_zone_measure. cbn. rewrite Wq. cbn. lia. }
      assert (forall q, is_waiting q z1 = true -> is_waiting q z = true) as I1.
      { intros q H. apply is_waiting_iff in H. apply is_waiting_iff.
        subst z1. cbn in H. rewrite Wq. destruct H; [auto | right; right; auto]. }
      destruct w as [p|d].
      * destruct (IHw z1 p e) as (z2 & E2 & M2 & F2 & S2); [lia|].
        rewrite E2. eexists. split; [reflexivity|]. split.
        -- unfold tree_zone_measure in *. cbn in *. lia.
        -- eapply frame_trans; [|apply frame_emit; reflexivity].
           constructor.
           ++ apply (frame_counts _ _ _ F2).
           ++ apply (frame_oldest _ _ _ F2).
           ++ apply (frame_generation _ _ _ F2).
           ++ apply (frame_writing _ _ _ F2).
           ++ apply (frame_trace _ _ _ F2).
           ++ apply (frame_flusher _ _ _ F2).
           ++ intros q H. apply is_waiting_iff in H. rewrite Wq in H.
              destruct H as [H|[H|H]].
              ** apply (frame_settled _ _ _ F2). apply is_waiting_iff.
                 left. exact H.
              ** inversion H. subst. exact S2.
              ** apply (frame_settled _ _ _ F2). apply is_waiting_iff.
                 right. exact H.
           ++ intros q H. left.
              destruct (frame_waiting _ _ _ F2 q H) as [H'|H'].
              ** apply I1. exact H'.
              ** inversion H'. subst. apply is_waiting_iff. right.
                 rewrite Wq. left. reflexivity.
      * eexists. split; [reflexivity|]. split.
        -- unfold tree_zone_measure in *. cbn in *. lia.
        -- eapply frame_trans; [|apply frame_emit; reflexivity].
           eapply frame_trans; [|apply frame_emit; reflexivity].
           constructor; try reflexivity; auto.
           ++ exists []. cbn. rewrite app_nil_r. auto.
           ++ intros q H. left. apply is_waiting_iff in H.
              apply is_waiting_iff. subst z1. cbn. rewrite Wq in H.
              destruct H as [H|[H|H]]; [auto | discriminate | auto].
Qed.

(** ** Dirty intake *)

Lemma is_waiting_enter_read_only q r z :
  is_waiting q (enter_zone_read_only_mode r z) = true -> is_waiting q z = true.
Proof.
  intros H. apply is_waiting_iff in H. apply is_waiting_iff.
  unfold enter_zone_read_only_mode in H. cbn in H.
  rewrite dequeue_all_flush_waiters_nil in H. destruct H as [[]|H]. auto.
Qed.

(** set_generation without the decrement: the page is stamped, the bucket
    of the new generation grows by one, and the zone may go read-only. *)
Lemma set_generation_stamps p g z :
  let z' := set_generation p g false z in
  tree_page.generation (pages z' p) = g
  /\ (forall q, q <> p -> pages z' q = pages z q)
  /\ tree_page.writing (pages z' p) = tree_page.writing (pages z p)
  /\ (forall k, dirty_page_counts z' k
                = if k =? g then uint32 (dirty_page_counts z g + 1)
                  else dirty_page_counts z k)
  /\ tree_zone_measure z' = tree_zone_measure z
  /\ (forall q, is_waiting q z' = true -> is_waiting q z = true)
  /\ (forall q, page_settled q z -> page_settled q z').
Proof.
  cbn zeta. unfold set_generation. cbn [andb].
  set (z1 := with_dirty_page_counts _ (update_page p _ z)).
  assert (tree_page.generation (pages z1 p) = g) as G.
  { subst z1. cbn. unfold upd. rewrite Nat.eqb_refl. reflexivity. }
  assert (forall q, q <> p -> pages z1 q = pages z q) as P.
  { intros q H. subst z1. cbn. unfold upd.
    apply Nat.eqb_neq in H. rewrite H. reflexivity. }
  assert (tree_page.writing (pages z1 p) = tree_page.writing (pages z p)) as W.
  { subst z1. cbn. unfold upd. rewrite Nat.eqb_refl. reflexivity. }
  assert (forall q, tree_page.writing (pages z1 q) = tree_page.writing (pages z q))
    as W'.
  { intros q. destruct (Nat.eq_dec q p) as [->|N]; [exact W|].
    rewrite P by exact N. reflexivity. }
  assert (forall k, dirty_page_counts z1 k
                    = if k =? g then uint32 (dirty_page_counts z g + 1)
                      else dirty_page_counts z k) as C.
  { intros k. subst z1. cbn. unfold updZ. reflexivity. }
  assert (forall q, page_settled q z -> page_settled q z1) as S.
  { intros q [H|[H|H]]; [left; exact H | right; left | right; right; exact H].
    rewrite W'. exact H. }
  assert (forall q, is_waiting q z1 = is_waiting q z) as I by reflexivity.
  destruct (negb (status_eqb (ASSERT _) VDO_SUCCESS)).
  - repeat split; auto.
    + intros q H. rewrite <- I. apply is_waiting_enter_read_only in H. exact H.
    + intros q _. right. right. apply read_only_enter.
  - repeat split; auto.
Qed.

Lemma uint32_add_succ c k :
  uint32 (uint32 (c + 1) + Z.of_nat k) = uint32 (c + Z.of_nat (S k)).
Proof.
  unfold uint32. rewrite Zplus_mod_idemp_l. f_equal. lia.
Qed.

(** The loop of write_dirty_pages_callback, for any value [g] of its local
    variable. *)
Lemma write_dirty_pages_stamps (n : nat) (g : Z) (expired : list page_id) :
  forall z,
    NoDup expired ->
    (forall p, In p expired -> is_waiting p z = false) ->
    (tree_zone_fuel z <= n)%nat ->
    0 <= dirty_page_counts z g < 2 ^ 32 ->
    exists z',
      write_dirty_pages n g expired z = Some z'
      /\ (forall p, In p expired -> tree_page.generation (pages z' p) = g)
      /\ (forall k, dirty_page_counts z' k
                    = if k =? g
                      then uint32 (dirty_page_counts z g
                                   + Z.of_nat (length expired))
                      else dirty_page_counts z k)
      /\ (forall q, page_settled q z -> page_settled q z')
      /\ (forall p, In p expired -> page_settled p z')
      /\ (forall q, ~ In q expired ->
                    tree_page.generation (pages z' q)
                    = tree_page.generation (pages z q)).
Proof.
  unfold tree_zone_fuel.
  induction expired as [|p rest IH]; intros z D NW Hn R.
  - exists z. cbn. split; [reflexivity|]. split; [intros p []|].
    split; [|split; [auto | split; [intros p [] | auto]]].
    intros k. destruct (Z.eqb_spec k g) as [->|_]; [|reflexivity].
    rewrite Z.add_0_r. unfold uint32. rewrite Z.mod_small; auto.
  - inversion D as [|? ? Np D']. subst. cbn [write_dirty_pages].
    rewrite (NW p) by (left; reflexivity). cbn [negb ASSERT].
    unfold UDS_SUCCESS. rewrite status_eqb_refl. cbn [negb].
    destruct (set_generation_stamps p g z) as (G1 & P1 & W1 & C1 & M1 & I1 & S1).
    cbn zeta in *. set (z1 := set_generation p g false z) in *.
    assert (exists z2,
               (if negb (tree_page.writing (pages z1 p))
                then enqueue_page n p z1 else Some z1) = Some z2
               /\ (tree_zone_measure z2 <= tree_zone_measure z1)%nat
               /\ write_path_frame (Some p) z1 z2
               /\ page_settled p z2) as (z2 & E2 & M2 & F2 & S2).
    { destruct (tree_page.writing (pages z1 p)) eqn:Wp; cbn [negb].
      - exists z1. split; [reflexivity|]. split; [lia|].
        split; [apply frame_refl | right; left; exact Wp].
      - destruct (write_pipeline_total n) as (_ & He & _).
        apply He. lia. }
    assert (forall q, In q rest -> is_waiting q z2 = false) as NW2.
    { intros q Hq. destruct (is_waiting q z2) eqn:Wq; [|reflexivity].
      destruct (frame_waiting _ _ _ F2 q Wq) as [H|H].
      - apply I1 in H. rewrite NW in H by (right; exact Hq). discriminate.
      - injection H as H. rewrite <- H in Hq. contradiction. }
    assert (0 <= dirty_page_counts z2 g < 2 ^ 32) as R2.
    { rewrite (frame_counts _ _ _ F2), C1, Z.eqb_refl. apply uint32_range. }
    destruct (IH z2 D' NW2) as (z' & E' & G' & C' & S' & T' & K');
      [lia | exact R2 |].
    exists z'. split.
    { destruct (negb (tree_page.writing (pages z1 p))).
      - rewrite E2. exact E'.
      - injection E2 as E3. rewrite E3. exact E'. }
    split; [|split; [|split; [|split]]].
    + intros q [<-|Hq]; [|apply G'; exact Hq].
      rewrite K' by exact Np. rewrite (frame_generation _ _ _ F2). exact G1.
    + intros k. rewrite C'. rewrite (frame_counts _ _ _ F2), !C1.
      rewrite Z.eqb_refl.
      destruct (k =? g); [apply uint32_add_succ | reflexivity].
    + intros q H. apply S'. eapply page_settled_frame; [exact F2|].
      apply S1. exact H.
    + intros q [<-|Hq]; [apply S'; exact S2 | apply T'; exact Hq].
    + intros q Hq. rewrite K' by (intros H; apply Hq; right; exact H).
      rewrite (frame_generation _ _ _ F2). rewrite P1; [reflexivity|].
      intros ->. apply Hq. left. reflexivity.
Qed.

(** ** Completion of the flusher's write *)

Lemma filter_not_notify evs :
  Forall (fun ev => is_notify ev = false) evs -> filter is_notify evs = [].
Proof.
  induction 1 as [|ev evs H _ IH]; cbn; [reflexivity|]. rewrite H. exact IH.
Qed.

(** Each waiter is notified once, in order, and the flusher stays. *)
Lemma notify_each_waiter_spec (n : nat) (g : Z) (f : page_id)
      (waiters : list page_id) :
  forall z,
    flusher z = Some f ->
    (tree_zone_measure z + 2 * length waiters + 5 <= n)%nat ->
    exists z' evs,
      notify_each_waiter n waiters g z = Some z'
      /\ trace z' = trace z ++ evs
      /\ filter is_notify evs = map (fun w => notify_waiter w g) waiters
      /\ flusher z' = Some f
      /\ (tree_zone_measure z' <= tree_zone_measure z + 2 * length waiters)%nat.
Proof.
  induction waiters as [|w rest IH]; intros z Fl Hn.
  - exists z, []. cbn. rewrite app_nil_r. repeat split; auto. lia.
  - cbn [notify_each_waiter length] in *.
    set (z0 := emit (notify_waiter w g) z).
    assert (exists z1,
               write_page_if_not_dirtied n w g z0 = Some z1
               /\ (tree_zone_measure z1 <= tree_zone_measure z + 2)%nat
               /\ write_path_frame (Some w) z0 z1) as (z1 & E1 & M1 & F1).
    { unfold write_page_if_not_dirtied.
      destruct (write_pipeline_total n) as (_ & He & _ & Ha & _).
      destruct (_ =? g).
      - destruct (Ha z0 w) as (z1 & E & M & F & _).
        + subst z0. unfold tree_zone_measure in *. cbn. lia.
        + exists z1. split; [exact E|]. split; [|exact F].
          subst z0. unfold tree_zone_measure in *. cbn in *. lia.
      - destruct (He z0 w) as (z1 & E & M & F & _); [lia|].
        exists z1. split; [exact E|]. split; [|exact F].
        subst z0. unfold tree_zone_measure in *. cbn in *. lia. }
    rewrite E1.
    destruct (IH z1) as (z' & evs & E' & T' & N' & Fl' & M').
    { apply (frame_flusher _ _ _ F1). exact Fl. }
    { lia. }
    destruct (frame_trace _ _ _ F1) as (evs1 & T1 & N1).
    exists z', ([notify_waiter w g] ++ evs1 ++ evs).
    split; [exact E'|]. split; [|split; [|split; [exact Fl' | lia]]].
    + rewrite T', T1. subst z0. cbn. rewrite <- !app_assoc. reflexivity.
    + cbn. rewrite filter_app, (filter_not_notify _ N1), N'. reflexivity.
Qed.

Lemma after_write_release_facts entry z :
  flusher (after_write_release entry z) = flusher z
  /\ tree_zone_measure (after_write_release entry z) = tree_zone_measure z
  /\ (length (flush_waiters (after_write_release entry z))
      <= length (flush_waiters z))%nat
  /\ (forall q, tree_page.writing_generation
                  (pages (after_write_release entry z) q)
                = tree_page.writing_generation (pages z q)).
Proof.
  unfold after_write_release.
  set (p := vio_pool_entry.parent (entries z entry)).
  set (z0 := emit _ z).
  assert (forall g,
             flusher (release_generation g z0) = flusher z
             /\ vio_pool (release_generation g z0) = vio_pool z
             /\ (length (flush_waiters (release_generation g z0))
                 <= length (flush_waiters z))%nat
             /\ pages (release_generation g z0) = pages z) as R.
  { intros g. unfold release_generation.
    destruct (negb (status_eqb (ASSERT _) VDO_SUCCESS)).
    - cbn. rewrite dequeue_all_flush_waiters_nil. cbn. repeat split; lia.
    - set (y := with_dirty_page_counts _ z0).
      assert (forall k x, flusher (roll_oldest_generation k x) = flusher x
                          /\ vio_pool (roll_oldest_generation k x) = vio_pool x
                          /\ flush_waiters (roll_oldest_generation k x)
                             = flush_waiters x
                          /\ pages (roll_oldest_generation k x) = pages x) as K.
      { induction k as [|k IHk]; intros x; cbn [roll_oldest_generation]; auto.
        destruct (_ && _); auto.
        destruct (IHk (with_oldest_generation
                         (uint8 (oldest_generation x + 1)) x))
          as (A & B & C & D).
        rewrite A, B, C, D. auto. }
      destruct (K 256%nat y) as (A & B & C & D).
      rewrite A, B, C, D. subst y z0. cbn. repeat split; lia. }
  destruct (R (tree_page.writing_generation (pages z p))) as (A & B & C & D).
  repeat split.
  - cbn. exact A.
  - unfold tree_zone_measure. cbn. rewrite A, B. reflexivity.
  - cbn. exact C.
  - intros q. cbn. rewrite D. unfold upd.
    destruct (Nat.eqb q p) eqn:E; [|reflexivity].
    apply Nat.eqb_eq in E. subst q. reflexivity.
Qed.

Lemma finish_page_write_tail_total n dirty p e z :
  (tree_zone_measure z + 4 <= n)%nat ->
  exists z', finish_page_write_tail n dirty p e z = Some z'.
Proof.
  intros Hn. unfold finish_page_write_tail.
  destruct (write_pipeline_total n) as (Hw & He & _ & _ & Hr).
  destruct dirty.
  - destruct (He z p) as (z1 & E1 & M1 & _); [lia|]. rewrite E1.
    destruct (Hr z1 e) as (z2 & E2 & _); [lia|]. eauto.
  - assert (forall z1, tree_zone_measure z1 = tree_zone_measure z ->
                       exists z', return_to_pool n e z1 = Some z') as R.
    { intros z1 M. destruct (Hr z1 e) as (z2 & E2 & _); [lia|]. eauto. }
    destruct (flusher z) as [f|] eqn:Fl; [apply R; reflexivity|].
    destruct (has_waiters (flush_waiters z)); [|apply R; reflexivity].
    destruct (frame_attempt_increment None z) as (_ & M1 & Fl1 & P1 & W1).
    destruct (attempt_increment z) as [incremented z1]. cbn [snd] in *.
    destruct incremented; [|apply R; exact M1].
    destruct (flush_waiters z1) as [|w rest]; [apply R; exact M1|].
    destruct (Hw (with_flusher (Some w) (with_flush_waiters rest z1)) w e)
      as (z2 & E2 & _); [|eauto].
    unfold tree_zone_measure in *. cbn. rewrite Fl1, Fl in M1. lia.
Qed.

Lemma launch_page_write_facts p e z :
  generation (launch_page_write p e z) = generation z
  /\ flusher (launch_page_write p e z) = flusher z
  /\ vio_pool (launch_page_write p e z) = vio_pool z
  /\ vio_pool_entry.parent (entries (launch_page_write p e z) e) = p
  /\ exists ev, trace (launch_page_write p e z) = trace z ++ [ev]
                /\ is_write_launch ev = true.
Proof.
  unfold launch_page_write.
  destruct (mark_block_map_page_initialized _ true) as [changed page].
  destruct (negb changed); cbn; unfold upd; rewrite Nat.eqb_refl;
    repeat split; eauto.
Qed.

Lemma finish_page_write_unfold n entry z :
  finish_page_write n entry z
  = let p := vio_pool_entry.parent (entries z entry) in
    let z1 := after_write_release entry z in
    if option_page_eqb (flusher z1) p then
      match notify_all_flush_waiters
              n (tree_page.writing_generation (pages z1 p)) z1 with
      | None => None
      | Some z2 =>
          let '(incremented, z3) :=
            if redirtied entry z then attempt_increment z2 else (false, z2) in
          if incremented then write_page n p entry z3
          else finish_page_write_tail n (redirtied entry z) p entry
                                      (with_flusher None z3)
      end
    else finish_page_write_tail n (redirtied entry z) p entry z1.
Proof. reflexivity. Qed.

(** C1.  In finish_page_write, when the completed page is the current
    flusher, the zone first notifies every member of flush_waiters via
    write_page_if_not_dirtied, with the page's writing_generation as the
    context generation; then, if the page was dirtied again during the
    write (writing_generation differs from generation) and
    attempt_increment succeeds, the page is written again at once with the
    same pool entry, which is not returned to the pool; otherwise the
    flusher is cleared. *)
Theorem finish_page_write_flusher (n : nat) (entry : entry_id)
        (z : block_map_tree_zone) :
  flusher z = Some (vio_pool_entry.parent (entries z entry)) ->
  (tree_zone_measure z + 2 * length (flush_waiters z) + 6 <= n)%nat ->
  flusher_completion n entry z.
Proof.
  intros Fl Hn. unfold flusher_completion.
  set (p := vio_pool_entry.parent (entries z entry)) in *.
  set (z1 := after_write_release entry z).
  destruct (after_write_release_facts entry z) as (Fl1 & M1 & L1 & G1).
  fold z1 in Fl1, M1, L1, G1.
  destruct (notify_each_waiter_spec
              n (tree_page.writing_generation (pages z p)) p
              (flush_waiters z1) (with_flush_waiters [] z1))
    as (z2 & evs & E2 & T2 & N2 & Fl2 & M2).
  { change (flusher z1 = Some p). rewrite Fl1. exact Fl. }
  { change (tree_zone_measure (with_flush_waiters [] z1))
      with (tree_zone_measure z1). lia. }
  change (tree_zone_measure (with_flush_waiters [] z1))
    with (tree_zone_measure z1) in M2.
  exists z2, evs. split; [exact E2|]. split; [exact T2|].
  split; [exact N2|]. split; [exact Fl2|].
  assert (finish_page_write n entry z
          = let '(incremented, z3) :=
              if redirtied entry z then attempt_increment z2 else (false, z2) in
            if incremented then write_page n p entry z3
            else finish_page_write_tail n (redirtied entry z) p entry
                                        (with_flusher None z3)) as U.
  { rewrite finish_page_write_unfold. cbv zeta.
    change (after_write_release entry z) with z1.
    change (vio_pool_entry.parent (entries z entry)) with p.
    rewrite Fl1, Fl, option_page_eqb_refl.
    rewrite G1. unfold notify_all_flush_waiters. rewrite E2. reflexivity. }
  destruct (frame_attempt_increment None z2) as (_ & M3 & Fl3 & P3 & _).
  assert (fst (attempt_increment z2) = false -> snd (attempt_increment z2) = z2)
    as Same.
  { unfold attempt_increment. destruct (_ =? _); cbn; [reflexivity|discriminate]. }
  assert (generation (snd (attempt_increment z2))
          = if fst (attempt_increment z2) then uint8 (generation z2 + 1)
            else generation z2) as Gen.
  { unfold attempt_increment. destruct (_ =? _); reflexivity. }
  assert (trace (snd (attempt_increment z2)) = trace z2) as Tr
      by (unfold attempt_increment; destruct (_ =? _); reflexivity).
  destruct (redirtied entry z) eqn:D; cbn [andb].
  - destruct (attempt_increment z2) as [incremented z3]. cbn [fst snd] in *.
    destruct incremented.
    + destruct n as [|n]; [lia|].
      rewrite write_page_flusher in U by (rewrite Fl3; exact Fl2).
      destruct (launch_page_write_facts p entry z3) as (A & B & C & E & ev & T & W).
      destruct (frame_launch_page_write p entry z3) as (_ & _ & Wr).
      split.
      * split; [exact U|]. split; [rewrite A; exact Gen|].
        split; [rewrite B, Fl3; exact Fl2|]. split; [rewrite C; exact P3|].
        split; [exact E|]. split; [exact Wr|].
        exists ev. split; [|exact W].
        rewrite T. f_equal. exact Tr.
      * eauto.
    + rewrite (Same eq_refl) in U. split; [exact U|].
      rewrite U. apply finish_page_write_tail_total.
      unfold tree_zone_measure in *. cbn. rewrite Fl2 in M2. lia.
  - split; [exact U|]. rewrite U. apply finish_page_write_tail_total.
    unfold tree_zone_measure in *. cbn. rewrite Fl2 in M2. lia.
Qed.

Lemma finish_page_write_flusher_witness :
  flusher_completion 10 0%nat zone_flusher_redirtied.
Proof.
  apply (finish_page_write_flusher 10 0%nat zone_flusher_redirtied).
  - reflexivity.
  - vm_compute. lia.
Defined.

(** C3, as the code has it.  When the dirty-lists expiry callback delivers
    a batch of distinct pages, none of them already waiting, every page of
    the batch is stamped with the generation the zone had when the callback
    was entered: set_generation(page, that generation, false) adds one to
    the dirty page count of that generation for each page, and no other
    count changes.  Each page of the batch is afterwards on a queue or
    being written, unless the zone went read-only. *)
Theorem write_dirty_pages_callback_stamps (n : nat) (expired : list page_id)
        (z : block_map_tree_zone) :
  NoDup expired ->
  (forall p, In p expired -> is_waiting p z = false) ->
  (tree_zone_fuel z <= n)%nat ->
  0 <= dirty_page_counts z (generation z) < 2 ^ 32 ->
  exists z',
    write_dirty_pages_callback n expired z = Some z'
    /\ (forall p, In p expired ->
                  tree_page.generation (pages z' p) = generation z)
    /\ (forall k, dirty_page_counts z' k
                  = if k =? generation z
                    then uint32 (dirty_page_counts z (generation z)
                                 + Z.of_nat (length expired))
                    else dirty_page_counts z k)
    /\ (forall p, In p expired -> page_settled p z').
Proof.
  intros D W Hn R. unfold write_dirty_pages_callback.
  destruct (write_dirty_pages_stamps n (generation z) expired z D W Hn R)
    as (z' & E & G & C & _ & S & _).
  exists z'. auto.
Qed.

Lemma write_dirty_pages_callback_stamps_witness :
  exists z',
    write_dirty_pages_callback 10 [1%nat; 2%nat] fresh_zone = Some z'
    /\ (forall p, In p [1%nat; 2%nat] ->
                  tree_page.generation (pages z' p) = generation fresh_zone)
    /\ (forall k, dirty_page_counts z' k
                  = if k =? generation fresh_zone
                    then uint32 (dirty_page_counts fresh_zone
                                                   (generation fresh_zone)
                                 + Z.of_nat (length [1%nat; 2%nat]))
                    else dirty_page_counts fresh_zone k)
    /\ (forall p, In p [1%nat; 2%nat] -> page_settled p z').
Proof.
  apply (write_dirty_pages_callback_stamps 10 [1%nat; 2%nat] fresh_zone).
  - repeat constructor; simpl; intuition discriminate.
  - intros p _. reflexivity.
  - vm_compute. lia.
  - simpl. lia.
Defined.

(** The loop handles a batch page after page. *)
Lemma write_dirty_pages_app (n : nat) (g : Z) (l1 l2 : list page_id)
      (z : block_map_tree_zone) :
  write_dirty_pages n g (l1 ++ l2) z
  = and_then (write_dirty_pages n g l1 z) (write_dirty_pages n g l2).
Proof.
  revert z. induction l1 as [|p l1 IH]; intros z;
    cbn [app write_dirty_pages and_then]; [reflexivity|].
  destruct (negb (status_eqb _ VDO_SUCCESS)); [apply IH|].
  destruct (negb (tree_page.writing _)); [|apply IH].
  destruct (enqueue_page n p _); [apply IH | reflexivity].
Qed.

(** C3 as stated fails: when pages 1 and 2 expire together in a fresh
    zone, handling page 1 makes it the flusher and advances the zone's
    generation to 1; page 2, handled next, is stamped with generation 0,
    and it is the count of generation 0, not of generation 1, that grows. *)
Lemma write_dirty_pages_callback_stamp_not_current :
  option_map generation (write_dirty_pages_callback 10 [1%nat] fresh_zone)
  = Some 1
  /\ write_dirty_pages_callback 10 ([1%nat] ++ [2%nat]) fresh_zone
     = and_then (write_dirty_pages_callback 10 [1%nat] fresh_zone)
                (write_dirty_pages 10 (generation fresh_zone) [2%nat])
  /\ option_map (fun z => (generation z,
                           tree_page.generation (pages z 2%nat),
                           dirty_page_counts z 0, dirty_page_counts z 1))
                (write_dirty_pages_callback 10 [1%nat; 2%nat] fresh_zone)
     = Some (1, 0, 2, 0).
Proof.
  split; [vm_compute; reflexivity|].
  split; [|vm_compute; reflexivity].
  exact (write_dirty_pages_app 10 (generation fresh_zone) [1%nat] [2%nat]
                               fresh_zone).
Qed.

(** What enter_zone_read_only_mode does itself: it notifies the
    read-only notifier, takes every waiter off flush_waiters without
    writing any of them (it launches no write and leaves the queue empty)
    and checks for drain completion; it touches neither the VIO pool nor
    its waiters, nor the pages.  write_page does not test for read-only
    mode: called afterwards for the flusher, it launches its write all
    the same. *)
Lemma enter_zone_read_only_mode_drops_flush_waiters
        (result : status) (z : block_map_tree_zone) :
  flush_waiters (enter_zone_read_only_mode result z) = []
  /\ trace (enter_zone_read_only_mode result z)
     = trace z ++ [enter_read_only_mode result; check_for_drain_complete]
  /\ read_only (enter_zone_read_only_mode result z) = true
  /\ vio_pool (enter_zone_read_only_mode result z) = vio_pool z
  /\ pages (enter_zone_read_only_mode result z) = pages z
  /\ flusher (enter_zone_read_only_mode result z) = flusher z
  /\ forall n p e,
      flusher z = Some p ->
      exists z' ev,
        write_page (S n) p e (enter_zone_read_only_mode result z) = Some z'
        /\ is_write_launch ev = true
        /\ trace z'
           = trace z ++ [enter_read_only_mode result; check_for_drain_complete;
                         ev].
Proof.
  assert (trace (enter_zone_read_only_mode result z)
          = trace z ++ [enter_read_only_mode result; check_for_drain_complete])
    as T.
  { unfold enter_zone_read_only_mode. cbn. rewrite <- app_assoc. reflexivity. }
  repeat split.
  - apply dequeue_all_flush_waiters_nil.
  - exact T.
  - apply read_only_enter.
  - intros n p e Fl.
    rewrite write_page_flusher by exact Fl.
    destruct (launch_page_write_facts p e (enter_zone_read_only_mode result z))
      as (_ & _ & _ & _ & ev & Tr & W).
    eexists _, ev. split; [reflexivity|]. split; [exact W|].
    rewrite Tr, T, <- app_assoc. reflexivity.
Qed.

Lemma enter_zone_read_only_mode_drops_flush_waiters_witness :
  exists z' ev,
    write_page 1 4%nat 0%nat
               (enter_zone_read_only_mode VDO_BAD_MAPPING zone_flusher_redirtied)
    = Some z'
    /\ is_write_launch ev = true
    /\ trace z'
       = trace zone_flusher_redirtied
         ++ [enter_read_only_mode VDO_BAD_MAPPING; check_for_drain_complete; ev].
Proof.
  apply (enter_zone_read_only_mode_drops_flush_waiters
           VDO_BAD_MAPPING zone_flusher_redirtied).
  reflexivity.
Defined.

(** C4.  A write is launched after enter_zone_read_only_mode has fired,
    against the claim and against the comment of
    enter_zone_read_only_mode ("we are in read-only mode, so we won't
    ever write any page out").  With a pool of one entry, pages 4, 5 and 6
    expire together and the flusher's write completes, which queues 5 and
    6 on the pool and writes 5; when that write fails, handle_write_error
    enters read-only mode and returns the entry to the pool, which hands
    it to page 6, whose write_page launches a write: the events of the
    zone, in order. *)
Theorem write_launched_after_read_only :
  option_map trace write_error_after_flush
  = Some [launchWriteMetadataVIOWithFlush 0%nat 4%nat true;
          release_recovery_journal_block_reference 0;
          notify_waiter 5%nat 0; notify_waiter 6%nat 0;
          launchWriteMetadataVIOWithFlush 0%nat 5%nat false;
          check_for_drain_complete;
          enter_read_only_mode (error_code 5);
          check_for_drain_complete;
          launchWriteMetadataVIOWithFlush 0%nat 6%nat false;
          check_for_drain_complete].
Proof. vm_compute. reflexivity. Qed.

(** The flusher dirtied again during its write is written again with the
    same entry, under a new flush; entry 1 stays in the pool. *)
Example redirtied_flusher_is_rewritten :
  option_map (fun z => (trace z, generation z, oldest_generation z,
                        flusher z, vio_pool.available (vio_pool z)))
             (finish_page_write 10 0%nat zone_flusher_redirtied)
  = Some ([launchWriteMetadataVIOWithFlush 0%nat 4%nat true;
           release_recovery_journal_block_reference 0;
           launchWriteMetadataVIOWithFlush 0%nat 4%nat true],
          2, 1, Some 4%nat, [1%nat]).
Proof. reflexivity. Qed.

(** * Further properties *)

(** ** Generations *)

Lemma in_cyclic_range_iff lower value upper :
  0 <= lower < 256 -> 0 <= value < 256 -> 0 <= upper < 256 ->
  in_cyclic_range lower value upper (2 ^ 8) = true
  <-> (value - lower) mod 256 <= (upper - lower) mod 256.
Proof.
  intros Hl Hv Hu. unfold in_cyclic_range. change (2 ^ 8) with 256.
  destruct (Z.ltb_spec value lower); destruct (Z.ltb_spec upper lower);
    rewrite Z.leb_le; split; intros H1;
    Z.to_euclidean_division_equations; lia.
Qed.

Lemma tracked_generations_same z z' :
  generation z' = generation z ->
  oldest_generation z' = oldest_generation z ->
  dirty_page_counts z' = dirty_page_counts z ->
  tracked_generations z -> tracked_generations z'.
Proof.
  unfold tracked_generations. intros -> -> ->. auto.
Qed.

Lemma tracked_enter_read_only r z :
  tracked_generations z -> tracked_generations (enter_zone_read_only_mode r z).
Proof. apply tracked_generations_same; reflexivity. Qed.

(** One step of the loop of release_generation. *)
Lemma tracked_roll_step z :
  tracked_generations z ->
  dirty_page_counts z (oldest_generation z) = 0 ->
  oldest_generation z <> generation z ->
  tracked_generations
    (with_oldest_generation (uint8 (oldest_generation z + 1)) z).
Proof.
  intros (Hg & Ho & T) C N. split; [exact Hg|]. split; [apply uint8_range|].
  cbn. intros g Rg Cg.
  assert (g <> oldest_generation z) as Ng by congruence.
  specialize (T g Rg Cg).
  apply in_cyclic_range_iff in T; try assumption.
  apply in_cyclic_range_iff; try assumption; [apply uint8_range|].
  unfold uint8. Z.to_euclidean_division_equations. lia.
Qed.

Lemma tracked_roll_oldest_generation n z :
  tracked_generations z -> tracked_generations (roll_oldest_generation n z).
Proof.
  revert z. induction n as [|n IH]; intros z T; cbn; [exact T|].
  destruct (Z.eqb_spec (dirty_page_counts z (oldest_generation z)) 0)
    as [C|C]; cbn [andb]; [|exact T].
  destruct (Z.eqb_spec (oldest_generation z) (generation z)) as [E|E];
    cbn [negb]; [exact T|].
  apply IH, tracked_roll_step; assumption.
Qed.

Lemma tracked_with_counts z g v :
  tracked_generations z ->
  (v <> 0 ->
   0 <= g < 256 ->
   in_cyclic_range (oldest_generation z) g (generation z) (2 ^ 8) = true) ->
  tracked_generations
    (with_dirty_page_counts (updZ (dirty_page_counts z) g v) z).
Proof.
  intros (Hg & Ho & T) V. split; [exact Hg|]. split; [exact Ho|].
  cbn. unfold updZ. intros k Rk Ck.
  destruct (Z.eqb_spec k g) as [->|N]; [apply V; assumption | apply T; assumption].
Qed.

Lemma tracked_release_generation g z :
  tracked_generations z -> tracked_generations (release_generation g z).
Proof.
  intros T. unfold release_generation.
  destruct (negb (status_eqb (ASSERT _) VDO_SUCCESS)) eqn:A.
  - apply tracked_enter_read_only. exact T.
  - apply tracked_roll_oldest_generation, tracked_with_counts; [exact T|].
    intros V Rg. destruct T as (_ & _ & T). apply T; [exact Rg|].
    intros C. rewrite C in A. cbn in A. discriminate.
Qed.

(** attempt_increment widens the range of the tracked generations. *)
Lemma in_range_attempt_increment g z :
  0 <= generation z < 256 -> 0 <= oldest_generation z < 256 ->
  0 <= g < 256 ->
  in_cyclic_range (oldest_generation z) g (generation z) (2 ^ 8) = true ->
  in_cyclic_range (oldest_generation (snd (attempt_increment z))) g
                  (generation (snd (attempt_increment z))) (2 ^ 8) = true.
Proof.
  intros Hg Ho Rg H. unfold attempt_increment.
  destruct (Z.eqb_spec (oldest_generation z) (uint8 (generation z + 1)))
    as [E|E]; cbn; [exact H|].
  apply in_cyclic_range_iff in H; try assumption.
  apply in_cyclic_range_iff; try assumption; [apply uint8_range|].
  unfold uint8 in *. Z.to_euclidean_division_equations. lia.
Qed.

Lemma tracked_attempt_increment z :
  tracked_generations z -> tracked_generations (snd (attempt_increment z)).
Proof.
  intros (Hg & Ho & T). split; [|split].
  - unfold attempt_increment. destruct (_ =? _); cbn;
      [exact Hg | apply uint8_range].
  - unfold attempt_increment. destruct (_ =? _); cbn; exact Ho.
  - intros g Rg C.
    assert (dirty_page_counts (snd (attempt_increment z)) = dirty_page_counts z)
      as Cs by (unfold attempt_increment; destruct (_ =? _); reflexivity).
    rewrite Cs in C. apply in_range_attempt_increment; auto.
Qed.

(** Stamping a page with a tracked generation. *)
Lemma tracked_set_generation p g d z :
  tracked_generations z ->
  0 <= g < 256 ->
  in_cyclic_range (oldest_generation z) g (generation z) (2 ^ 8) = true ->
  tracked_generations (set_generation p g d z).
Proof.
  intros T Rg I. unfold set_generation.
  destruct (d && _); [exact T|].
  set (z1 := with_dirty_page_counts _ _).
  assert (tracked_generations z1) as T1.
  { subst z1.
    apply (tracked_with_counts
             (update_page p (tree_page.set_generation g) z)); [|auto].
    revert T. apply tracked_generations_same; reflexivity. }
  destruct (negb (status_eqb (ASSERT _) VDO_SUCCESS)).
  - apply tracked_enter_read_only. exact T1.
  - destruct d; [apply tracked_release_generation|]; exact T1.
Qed.

(** ** Invariants of the zone through the write path *)

(** A property of the zone that the primitive steps of the write path
    keep is kept by the whole path: the pipeline, the notification of the
    flush waiters, and the completion of a write.  The path launches no
    callback of a data_vio, so that the property need not hold across
    one. *)
Section zone_invariant.
Variable P : block_map_tree_zone -> Prop.

Hypothesis P_read_only :
  forall r z, P z -> P (enter_zone_read_only_mode r z).
Hypothesis P_increment : forall z, P z -> P (snd (attempt_increment z)).
Hypothesis P_flusher : forall f z, P z -> P (with_flusher f z).
Hypothesis P_flush_waiters : forall q z, P z -> P (with_flush_waiters q z).
Hypothesis P_vio_pool : forall pool z, P z -> P (with_vio_pool pool z).
Hypothesis P_emit :
  forall ev z, is_completion ev = false -> P z -> P (emit ev z).
Hypothesis P_launch : forall p e z, P z -> P (launch_page_write p e z).

Lemma invariant_is_not_older a b z : P z -> P (snd (is_not_older a b z)).
Proof.
  intros H. unfold is_not_older. destruct (negb _); cbn [snd]; auto.
Qed.

Lemma invariant_enqueue_flush_waiter p z :
  P z ->
  P (if negb (status_eqb (fst (enqueue_flush_waiter p z)) VDO_SUCCESS)
     then enter_zone_read_only_mode (fst (enqueue_flush_waiter p z))
                                    (snd (enqueue_flush_waiter p z))
     else snd (enqueue_flush_waiter p z)).
Proof.
  intros H. unfold enqueue_flush_waiter.
  destruct (negb (status_eqb (ASSERT _) VDO_SUCCESS)) eqn:E; cbn [fst snd].
  - rewrite E. auto.
  - rewrite status_eqb_refl. cbn [negb]. auto.
Qed.

Lemma invariant_enqueue_pool_waiter w z :
  P z ->
  P (if negb (status_eqb (fst (enqueue_pool_waiter w z)) VDO_SUCCESS)
     then enter_zone_read_only_mode (fst (enqueue_pool_waiter w z))
                                    (snd (enqueue_pool_waiter w z))
     else snd (enqueue_pool_waiter w z)).
Proof.
  intros H. unfold enqueue_pool_waiter.
  destruct (negb (status_eqb (ASSERT _) VDO_SUCCESS)) eqn:E; cbn [fst snd].
  - rewrite E. auto.
  - rewrite status_eqb_refl. cbn [negb]. auto.
Qed.

Lemma invariant_pipeline (n : nat) :
  (forall p e z z', P z -> write_page n p e z = Some z' -> P z')
  /\ (forall p z z', P z -> enqueue_page n p z = Some z' -> P z')
  /\ (forall p z z', P z -> acquire_vio n p z = Some z' -> P z')
  /\ (forall e z z', P z -> return_to_pool n e z = Some z' -> P z').
Proof.
  induction n as [|n (IHw & IHe & IHa & IHr)].
  { repeat split; intros; discriminate. }
  repeat split.
  - intros p e z z' H. cbn [write_page].
    assert (P (snd (if negb (option_page_eqb (flusher z) p)
                    then is_not_older (tree_page.generation (pages z p))
                                      (generation z) z
                    else (false, z)))) as H1.
    { destruct (negb _); [apply invariant_is_not_older|]; exact H. }
    destruct (if negb (option_page_eqb (flusher z) p) then _ else _)
      as [requeue z1].
    cbn [snd] in H1. destruct requeue.
    + destruct (enqueue_page n p z1) as [z2|] eqn:E2; [|discriminate].
      intros E3. eapply IHr; [|exact E3]. eapply IHe; eassumption.
    + intros E. injection E as <-. auto.
  - intros p z z' H. cbn [enqueue_page].
    assert (P (snd (match flusher z with
                    | None => attempt_increment z
                    | Some _ => (false, z)
                    end))) as H1.
    { destruct (flusher z); [exact H | auto]. }
    destruct (match flusher z with None => _ | Some _ => _ end)
      as [incremented z1].
    cbn [snd] in H1. destruct incremented.
    + intros E. eapply IHa; [|exact E]. auto.
    + assert (H2 := invariant_enqueue_flush_waiter p z1 H1).
      destruct (enqueue_flush_waiter p z1) as [result z2].
      cbn [fst snd] in H2.
      destruct (negb (status_eqb result VDO_SUCCESS));
        intros E; injection E as <-; exact H2.
  - intros p z z' H. cbn [acquire_vio].
    destruct (vio_pool.available (vio_pool z)) as [|entry rest].
    + assert (H2 := invariant_enqueue_pool_waiter (page_waiter p) z H).
      destruct (enqueue_pool_waiter (page_waiter p) z) as [result z2].
      cbn [fst snd] in H2.
      destruct (negb (status_eqb result VDO_SUCCESS));
        intros E; injection E as <-; exact H2.
    + intros E. eapply IHw; [|exact E]. auto.
  - intros e z z' H. cbn [return_to_pool].
    destruct (vio_pool.waiting (vio_pool z)) as [|w rest].
    + intros E. injection E as <-. auto.
    + destruct w as [p|d].
      * destruct (write_page n p e _) as [z2|] eqn:E2; [|discriminate].
        intros E. injection E as <-. apply P_emit; [reflexivity|].
        eapply IHw; [|exact E2]. auto.
      * intros E. injection E as <-. unfold load_page. auto.
Qed.

Lemma invariant_return_vio_to_pool n e z z' :
  P z -> return_vio_to_pool n e z = Some z' -> P z'.
Proof.
  destruct (invariant_pipeline n) as (Hw & _).
  intros H. unfold return_vio_to_pool.
  destruct (vio_pool.waiting (vio_pool z)) as [|w rest].
  - intros E. injection E as <-. auto.
  - destruct w as [p|d].
    + apply Hw. auto.
    + intros E. injection E as <-. unfold load_page. auto.
Qed.

Lemma invariant_notify_each_waiter n g waiters :
  forall z z',
    P z -> notify_each_waiter n waiters g z = Some z' -> P z'.
Proof.
  destruct (invariant_pipeline n) as (_ & He & Ha & _).
  induction waiters as [|w rest IH]; intros z z' H; cbn [notify_each_waiter].
  - intros E. injection E as <-. exact H.
  - destruct (write_page_if_not_dirtied n w g _) as [z1|] eqn:E1;
      [|discriminate].
    apply IH. unfold write_page_if_not_dirtied in E1.
    destruct (_ =? g) in E1; [eapply Ha | eapply He]; try exact E1; auto.
Qed.

Lemma invariant_finish_page_write_tail n dirty p e z z' :
  P z -> finish_page_write_tail n dirty p e z = Some z' -> P z'.
Proof.
  destruct (invariant_pipeline n) as (Hw & He & _ & Hr).
  intros H. unfold finish_page_write_tail. destruct dirty.
  - destruct (enqueue_page n p z) as [z1|] eqn:E1; [|discriminate].
    apply Hr. eapply He; eassumption.
  - assert (P (snd (match flusher z with
                    | None => if has_waiters (flush_waiters z)
                              then attempt_increment z else (false, z)
                    | Some _ => (false, z)
                    end))) as H1.
    { destruct (flusher z); [exact H|].
      destruct (has_waiters _); [auto | exact H]. }
    destruct (match flusher z with None => _ | Some _ => _ end)
      as [incremented z1].
    cbn [snd] in H1. destruct incremented; [|apply Hr; exact H1].
    destruct (flush_waiters z1) as [|w rest]; [apply Hr; exact H1|].
    apply Hw. auto.
Qed.

Hypothesis P_release : forall g z, P z -> P (release_generation g z).
Hypothesis P_pages :
  forall p v z, P z -> P (update_page p (tree_page.set_writing v) z).

Lemma invariant_finish_page_write n e z z' :
  P z -> finish_page_write n e z = Some z' -> P z'.
Proof.
  intros H. rewrite finish_page_write_unfold. cbv zeta.
  assert (P (after_write_release e z)) as H1.
  { unfold after_write_release. auto. }
  destruct (option_page_eqb _ _).
  - destruct (notify_all_flush_waiters n _ _) as [z2|] eqn:E2;
      [|discriminate].
    assert (P z2) as H2.
    { unfold notify_all_flush_waiters in E2.
      eapply invariant_notify_each_waiter; [|exact E2]. auto. }
    assert (P (snd (if redirtied e z then attempt_increment z2
                    else (false, z2)))) as H3.
    { destruct (redirtied e z); [auto | exact H2]. }
    destruct (if redirtied e z then _ else _) as [incremented z3].
    cbn [snd] in H3. destruct incremented.
    + destruct (invariant_pipeline n) as (Hw & _). apply Hw. exact H3.
    + apply invariant_finish_page_write_tail. auto.
  - apply invariant_finish_page_write_tail. exact H1.
Qed.

Lemma invariant_handle_write_error n r e z z' :
  P z -> handle_write_error n r e z = Some z' -> P z'.
Proof.
  intros H. unfold handle_write_error.
  destruct (invariant_pipeline n) as (_ & _ & _ & Hr). apply Hr. auto.
Qed.
End zone_invariant.

(** ** Termination of the handlers *)

Lemma finish_page_write_total n entry z :
  (tree_zone_measure z + 2 * length (flush_waiters z) + 6 <= n)%nat ->
  exists z', finish_page_write n entry z = Some z'.
Proof.
  intros Hn. rewrite finish_page_write_unfold. cbv zeta.
  set (p := vio_pool_entry.parent (entries z entry)).
  set (z1 := after_write_release entry z).
  destruct (after_write_release_facts entry z) as (Fl1 & M1 & L1 & G1).
  fold z1 in Fl1, M1, L1, G1.
  destruct (option_page_eqb (flusher z1) p) eqn:Fl.
  - apply option_page_eqb_true in Fl.
    destruct (notify_each_waiter_spec
                n (tree_page.writing_generation (pages z1 p)) p
                (flush_waiters z1) (with_flush_waiters [] z1))
      as (z2 & evs & E2 & T2 & N2 & Fl2 & M2).
    { exact Fl. }
    { change (tree_zone_measure (with_flush_waiters [] z1))
        with (tree_zone_measure z1). lia. }
    change (tree_zone_measure (with_flush_waiters [] z1))
      with (tree_zone_measure z1) in M2.
    unfold notify_all_flush_waiters. rewrite E2.
    destruct (frame_attempt_increment None z2) as (_ & M3 & Fl3 & _).
    assert (forall z3, tree_zone_measure z3 = tree_zone_measure z2 ->
                       flusher z3 = Some p ->
                       exists z',
                         finish_page_write_tail n (redirtied entry z) p entry
                                                (with_flusher None z3)
                         = Some z') as Tail.
    { intros z3 M F. apply finish_page_write_tail_total.
      unfold tree_zone_measure in *. cbn. rewrite F in M. rewrite Fl2 in M.
      lia. }
    destruct (redirtied entry z).
    + destruct (attempt_increment z2) as [incremented z3]. cbn [snd] in *.
      destruct incremented.
      * destruct n as [|n]; [lia|].
        rewrite write_page_flusher by (rewrite Fl3; exact Fl2). eauto.
      * apply Tail; [exact M3 | rewrite Fl3; exact Fl2].
    + apply Tail; [reflexivity | exact Fl2].
  - apply finish_page_write_tail_total. lia.
Qed.

Lemma handle_write_error_total n r entry z :
  (tree_zone_fuel z <= n)%nat ->
  exists z', handle_write_error n r entry z = Some z'.
Proof.
  unfold tree_zone_fuel, handle_write_error. intros Hn.
  destruct (write_pipeline_total n) as (_ & _ & _ & _ & Hr).
  destruct (Hr (enter_zone_read_only_mode r z) entry) as (z' & E & _);
    [|eauto].
  change (tree_zone_measure (enter_zone_read_only_mode r z))
    with (tree_zone_measure z). lia.
Qed.

Lemma set_generation_measure p g d z :
  tree_zone_measure (set_generation p g d z) = tree_zone_measure z.
Proof.
  assert (forall n z0, tree_zone_measure (roll_oldest_generation n z0)
                       = tree_zone_measure z0) as R.
  { induction n as [|n IH]; intros z0; cbn [roll_oldest_generation];
      [reflexivity|].
    destruct (_ && _); [rewrite IH|]; reflexivity. }
  assert (forall k z0, tree_zone_measure (release_generation k z0)
                       = tree_zone_measure z0) as Rg.
  { intros k z0. unfold release_generation. destruct (negb _);
      [reflexivity | rewrite R; reflexivity]. }
  unfold set_generation. destruct (d && _); [reflexivity|].
  destruct (negb _); [reflexivity|].
  destruct d; [rewrite Rg|]; reflexivity.
Qed.

Lemma write_dirty_pages_total n g expired :
  forall z,
    (tree_zone_fuel z <= n)%nat ->
    exists z', write_dirty_pages n g expired z = Some z'
               /\ (tree_zone_measure z' <= tree_zone_measure z)%nat.
Proof.
  unfold tree_zone_fuel.
  induction expired as [|p rest IH]; intros z Hn; cbn [write_dirty_pages].
  - eauto.
  - destruct (negb (status_eqb (ASSERT _) VDO_SUCCESS)).
    + destruct (IH (enter_zone_read_only_mode
                      (ASSERT (negb (is_waiting p z))) z))
        as (z' & E' & M'); [exact Hn|].
      exists z'. split; [exact E' | exact M'].
    + assert (M1 := set_generation_measure p g false z).
      set (z1 := set_generation p g false z) in *.
      destruct (negb (tree_page.writing (pages z1 p))).
      * destruct (write_pipeline_total n) as (_ & He & _).
        destruct (He z1 p) as (z2 & E2 & M2 & _); [lia|]. rewrite E2.
        destruct (IH z2) as (z' & E' & M'); [lia|].
        exists z'. split; [exact E' | lia].
      * destruct (IH z1) as (z' & E' & M'); [lia|].
        exists z'. split; [exact E' | lia].
Qed.

Lemma write_tree_page_total n p z :
  (tree_zone_fuel z <= n)%nat ->
  exists z', write_tree_page n p z = Some z'.
Proof.
  unfold tree_zone_fuel, write_tree_page. intros Hn.
  destruct (is_waiting p z && option_page_eqb (flusher z) p); [eauto|].
  destruct (is_waiting p z || _); [eauto|].
  destruct (write_pipeline_total n) as (_ & He & _).
  destruct (He (set_generation p (generation z) (is_waiting p z) z) p)
    as (z' & E & _); [lia | eauto].
Qed.

(** ** The tracked generations are an invariant of the zone *)

Lemma tracked_launch_page_write p e z :
  tracked_generations z -> tracked_generations (launch_page_write p e z).
Proof.
  apply tracked_generations_same; unfold launch_page_write;
    destruct (mark_block_map_page_initialized _ true) as [changed page];
    destruct (negb changed); reflexivity.
Qed.


Lemma tracked_with_same g z z' :
  generation z' = generation z ->
  oldest_generation z' = oldest_generation z ->
  dirty_page_counts z' = dirty_page_counts z ->
  tracked_with g z -> tracked_with g z'.
Proof.
  unfold tracked_with, tracked_generations. intros -> -> ->. auto.
Qed.

Lemma tracked_with_attempt_increment g z :
  tracked_with g z -> tracked_with g (snd (attempt_increment z)).
Proof.
  intros (T & Rg & I). split; [apply tracked_attempt_increment; exact T|].
  split; [exact Rg|]. destruct T as (Hg & Ho & _).
  apply in_range_attempt_increment; assumption.
Qed.

Lemma tracked_with_pipeline g n :
  (forall p e z z', tracked_with g z -> write_page n p e z = Some z' ->
                    tracked_with g z')
  /\ (forall p z z', tracked_with g z -> enqueue_page n p z = Some z' ->
                     tracked_with g z')
  /\ (forall p z z', tracked_with g z -> acquire_vio n p z = Some z' ->
                     tracked_with g z')
  /\ (forall e z z', tracked_with g z -> return_to_pool n e z = Some z' ->
                     tracked_with g z').
Proof.
  apply (invariant_pipeline (tracked_with g)).
  - intros r z. apply tracked_with_same; reflexivity.
  - apply tracked_with_attempt_increment.
  - intros f z. apply tracked_with_same; reflexivity.
  - intros q z. apply tracked_with_same; reflexivity.
  - intros pool z. apply tracked_with_same; reflexivity.
  - intros ev z _. apply tracked_with_same; reflexivity.
  - intros p e z. apply tracked_with_same; unfold launch_page_write;
      destruct (mark_block_map_page_initialized _ true) as [changed page];
      destruct (negb changed); reflexivity.
Qed.

Lemma tracked_with_set_generation p g z :
  tracked_with g z -> tracked_with g (set_generation p g false z).
Proof.
  intros (T & Rg & I). split; [apply tracked_set_generation; assumption|].
  split; [exact Rg|]. unfold set_generation. cbn [andb].
  destruct (negb _); exact I.
Qed.

Lemma tracked_with_write_dirty_pages n g expired :
  forall z z',
    tracked_with g z -> write_dirty_pages n g expired z = Some z' ->
    tracked_with g z'.
Proof.
  destruct (tracked_with_pipeline g n) as (_ & He & _).
  induction expired as [|p rest IH]; intros z z' T; cbn [write_dirty_pages].
  - intros E. injection E as <-. exact T.
  - destruct (negb (status_eqb (ASSERT _) VDO_SUCCESS)).
    + apply IH. revert T. apply tracked_with_same; reflexivity.
    + assert (T1 := tracked_with_set_generation p g z T).
      set (z1 := set_generation p g false z) in *.
      destruct (negb (tree_page.writing (pages z1 p))).
      * destruct (enqueue_page n p z1) as [z2|] eqn:E2; [|discriminate].
        apply IH. eapply He; eassumption.
      * apply IH. exact T1.
Qed.

(** X1.  Completing a page write keeps the generation clock consistent:
    if both generations of the zone are [uint8_t] values and every
    generation with a non-zero dirty page count lies in the cyclic range
    from oldest_generation to generation, then finish_page_write returns,
    and the same holds of the zone it leaves, whether the page was the
    flusher or not and whether it was dirtied again or not. *)
Theorem finish_page_write_keeps_tracked_generations
        (n : nat) (entry : entry_id) (z : block_map_tree_zone) :
  tracked_generations z ->
  (tree_zone_measure z + 2 * length (flush_waiters z) + 6 <= n)%nat ->
  exists z', finish_page_write n entry z = Some z'
             /\ tracked_generations z'.
Proof.
  intros T Hn. destruct (finish_page_write_total n entry z Hn) as (z' & E).
  exists z'. split; [exact E|].
  revert T E. apply (invariant_finish_page_write tracked_generations).
  - apply tracked_enter_read_only.
  - apply tracked_attempt_increment.
  - intros f z0. apply tracked_generations_same; reflexivity.
  - intros q z0. apply tracked_generations_same; reflexivity.
  - intros pool z0. apply tracked_generations_same; reflexivity.
  - intros ev z0 _. apply tracked_generations_same; reflexivity.
  - apply tracked_launch_page_write.
  - apply tracked_release_generation.
  - intros p v z0. apply tracked_generations_same; reflexivity.
Qed.

Lemma finish_page_write_keeps_tracked_generations_witness :
  exists z', finish_page_write 10 0%nat zone_flusher_redirtied = Some z'
             /\ tracked_generations z'.
Proof.
  apply (finish_page_write_keeps_tracked_generations
           10 0%nat zone_flusher_redirtied).
  - split; [vm_compute; intuition discriminate|].
    split; [vm_compute; intuition discriminate|].
    intros g Rg C.
    change (dirty_page_counts zone_flusher_redirtied g)
      with (updZ (updZ (fun _ => 0) 0 1) 1 1 g) in C.
    unfold updZ in C.
    destruct (Z.eqb_spec g 1) as [->|N1]; [reflexivity|].
    destruct (Z.eqb_spec g 0) as [->|N0]; [reflexivity | congruence].
  - vm_compute. lia.
Defined.

(** X2.  The dirty intake keeps the generation clock consistent: under the
    same invariant, write_dirty_pages_callback returns for any batch
    (pages already waiting included, which send the zone read-only) and
    the invariant holds of the zone it leaves, although the generation may
    advance while the batch is still being stamped with the old one. *)
Theorem write_dirty_pages_callback_keeps_tracked_generations
        (n : nat) (expired : list page_id) (z : block_map_tree_zone) :
  tracked_generations z ->
  (tree_zone_fuel z <= n)%nat ->
  exists z', write_dirty_pages_callback n expired z = Some z'
             /\ tracked_generations z'.
Proof.
  intros T Hn. unfold write_dirty_pages_callback.
  destruct (write_dirty_pages_total n (generation z) expired z Hn)
    as (z' & E & _).
  exists z'. split; [exact E|].
  apply (tracked_with_write_dirty_pages n (generation z) expired z z');
    [|exact E].
  split; [exact T|]. destruct T as (Hg & Ho & _). split; [exact Hg|].
  apply in_cyclic_range_iff; try assumption. lia.
Qed.

Lemma write_dirty_pages_callback_keeps_tracked_generations_witness :
  exists z',
    write_dirty_pages_callback 10 [4%nat; 5%nat; 4%nat] zone_one_dirty_page
    = Some z'
    /\ tracked_generations z'.
Proof.
  apply (write_dirty_pages_callback_keeps_tracked_generations
           10 [4%nat; 5%nat; 4%nat] zone_one_dirty_page).
  - split; [simpl; lia|]. split; [simpl; lia|].
    intros g Rg C. simpl in C. unfold updZ in C.
    destruct (Z.eqb_spec g 0) as [->|N0]; [reflexivity | congruence].
  - vm_compute. lia.
Defined.

(** ** write_tree_page *)

Lemma roll_oldest_generation_fields n z :
  exists o, roll_oldest_generation n z = with_oldest_generation o z.
Proof.
  revert z. induction n as [|n IH]; intros z; cbn [roll_oldest_generation].
  - exists (oldest_generation z). destruct z; reflexivity.
  - destruct (_ && _).
    + destruct (IH (with_oldest_generation (uint8 (oldest_generation z + 1)) z))
        as [o E].
      exists o. rewrite E. reflexivity.
    + exists (oldest_generation z). destruct z; reflexivity.
Qed.

(** What release_generation leaves alone. *)
Lemma release_generation_facts g z :
  let z' := release_generation g z in
  pages z' = pages z
  /\ flusher z' = flusher z
  /\ generation z' = generation z
  /\ vio_pool z' = vio_pool z
  /\ (forall q, is_waiting q z' = true -> is_waiting q z = true)
  /\ (forall q, page_settled q z -> page_settled q z').
Proof.
  cbn zeta. unfold release_generation. destruct (negb _).
  - repeat split; try reflexivity.
    + intros q. apply is_waiting_enter_read_only.
    + intros q _. right. right. apply read_only_enter.
  - destruct (roll_oldest_generation_fields
                256 (with_dirty_page_counts
                       (updZ (dirty_page_counts z) g
                             (uint32 (dirty_page_counts z g - 1))) z))
      as [o ->].
    repeat split; auto.
Qed.

(** set_generation, with or without the decrement: the page carries the
    new generation, and nothing else about the pages or the queues
    changes, unless the zone goes read-only. *)
Lemma set_generation_facts p g d z :
  let z' := set_generation p g d z in
  tree_page.generation (pages z' p) = g
  /\ (forall q, q <> p -> pages z' q = pages z q)
  /\ (forall q, tree_page.writing (pages z' q) = tree_page.writing (pages z q))
  /\ flusher z' = flusher z
  /\ generation z' = generation z
  /\ (forall q, is_waiting q z' = true -> is_waiting q z = true)
  /\ (forall q, page_settled q z -> page_settled q z').
Proof.
  cbn zeta. unfold set_generation.
  destruct d; cbn [andb].
  - destruct (Z.eqb_spec (tree_page.generation (pages z p)) g) as [E|E].
    { repeat split; auto. }
    set (z1 := with_dirty_page_counts _ (update_page p _ z)).
    assert (tree_page.generation (pages z1 p) = g) as G.
    { subst z1. cbn. unfold upd. rewrite Nat.eqb_refl. reflexivity. }
    assert (forall q, q <> p -> pages z1 q = pages z q) as Pq.
    { intros q H. subst z1. cbn. unfold upd.
      apply Nat.eqb_neq in H. rewrite H. reflexivity. }
    assert (forall q, tree_page.writing (pages z1 q)
                      = tree_page.writing (pages z q)) as W.
    { intros q. subst z1. cbn. unfold upd.
      destruct (Nat.eqb_spec q p) as [->|_]; reflexivity. }
    assert (forall q, page_settled q z -> page_settled q z1) as S.
    { intros q [H|[H|H]]; [left; exact H | right; left | right; right; exact H].
      rewrite W. exact H. }
    assert (forall q, is_waiting q z1 = is_waiting q z) as I1 by reflexivity.
    destruct (negb (status_eqb (ASSERT _) VDO_SUCCESS)).
    + repeat split; auto.
      * intros q H. rewrite <- I1. apply is_waiting_enter_read_only in H.
        exact H.
      * intros q _. right. right. apply read_only_enter.
    + destruct (release_generation_facts (tree_page.generation (pages z p)) z1)
        as (A & B & C & _ & I & T).
      cbn zeta in *. rewrite A.
      split; [exact G|]. split; [exact Pq|]. split; [exact W|].
      split; [rewrite B; reflexivity|]. split; [rewrite C; reflexivity|].
      split.
      * intros q H. rewrite <- I1. apply I. exact H.
      * intros q H. apply T, S, H.
  - destruct (set_generation_stamps p g z) as (G & Pq & W & _ & _ & I & S).
    cbn zeta in *. unfold set_generation in *. cbn [andb] in *.
    repeat split; auto.
    + intros q. destruct (Nat.eq_dec q p) as [->|N]; [exact W|].
      rewrite Pq by exact N. reflexivity.
    + destruct (negb _); reflexivity.
    + destruct (negb _); reflexivity.
Qed.

(** set_generation does not touch the queues, unless the zone goes
    read-only. *)
Lemma set_generation_queues p g d z :
  let z' := set_generation p g d z in
  flusher z' = flusher z /\ vio_pool z' = vio_pool z
  /\ flush_waiters z' = flush_waiters z
  \/ read_only z' = true.
Proof.
  cbn zeta. unfold set_generation.
  destruct (d && (_ =? _)); [left; auto|].
  destruct (negb (status_eqb (ASSERT (negb (_ =? 0))) VDO_SUCCESS));
    [right; apply read_only_enter|].
  destruct d; [|left; auto].
  unfold release_generation.
  destruct (negb (status_eqb (ASSERT (0 <? _)) VDO_SUCCESS));
    [right; apply read_only_enter|].
  match goal with
  | |- context [roll_oldest_generation 256 ?y] =>
      destruct (roll_oldest_generation_fields 256 y) as [o ->]
  end.
  left. auto.
Qed.

(** X3.  write_tree_page leaves a waiting flusher alone (the zone is
    unchanged); any other page carries the zone's current generation
    afterwards.  In both cases the page ends up queued, or in a write, or
    the zone is read-only, and the generation clock stays consistent. *)
Theorem write_tree_page_stamps_and_settles
        (n : nat) (p : page_id) (z : block_map_tree_zone) :
  tracked_generations z ->
  (tree_zone_fuel z <= n)%nat ->
  exists z',
    write_tree_page n p z = Some z'
    /\ (if is_waiting p z && option_page_eqb (flusher z) p
        then z' = z
        else tree_page.generation (pages z' p) = generation z)
    /\ (is_waiting p z = true \/ tree_page.writing (pages z p) = true ->
        flusher z' = flusher z /\ vio_pool z' = vio_pool z
        /\ flush_waiters z' = flush_waiters z \/ read_only z' = true)
    /\ page_settled p z'
    /\ tracked_generations z'.
Proof.
  intros T Hn. unfold write_tree_page, tree_zone_fuel in *.
  destruct (is_waiting p z && option_page_eqb (flusher z) p) eqn:WF.
  { exists z. split; [reflexivity|]. split; [reflexivity|].
    apply andb_prop in WF. destruct WF as [W _].
    split; [auto|]. split; [left; exact W | exact T]. }
  destruct (set_generation_facts p (generation z) (is_waiting p z) z)
    as (G & Pq & W & Fl & Gen & I & S).
  assert (M := set_generation_measure p (generation z) (is_waiting p z) z).
  assert (tracked_generations
            (set_generation p (generation z) (is_waiting p z) z)) as T1.
  { apply tracked_set_generation; [exact T | apply T |].
    destruct T as (Hg & Ho & _). apply in_cyclic_range_iff; try assumption.
    lia. }
  cbn zeta in *.
  set (z1 := set_generation p (generation z) (is_waiting p z) z) in *.
  assert (Q := set_generation_queues p (generation z) (is_waiting p z) z).
  cbn zeta in Q. fold z1 in Q.
  destruct (is_waiting p z) eqn:Wt; cbn [orb].
  { exists z1. split; [reflexivity|]. split; [exact G|].
    split; [intros _; exact Q|]. split; [|exact T1].
    apply S. left. exact Wt. }
  destruct (tree_page.writing (pages z1 p)) eqn:Wr.
  { exists z1. split; [reflexivity|]. split; [exact G|].
    split; [intros _; exact Q|]. split; [|exact T1].
    right. left. exact Wr. }
  destruct (write_pipeline_total n) as (_ & He & _).
  destruct (He z1 p) as (z' & E & _ & F & St); [lia|].
  exists z'. split; [exact E|].
  split; [rewrite (frame_generation _ _ _ F); exact G|].
  split.
  { intros [H|H]; [discriminate|]. rewrite <- W, Wr in H. discriminate. }
  split; [exact St|].
  destruct (invariant_pipeline tracked_generations) with (n := n)
    as (_ & Hi & _).
  - apply tracked_enter_read_only.
  - apply tracked_attempt_increment.
  - intros f z0. apply tracked_generations_same; reflexivity.
  - intros q z0. apply tracked_generations_same; reflexivity.
  - intros pool z0. apply tracked_generations_same; reflexivity.
  - intros ev z0 _. apply tracked_generations_same; reflexivity.
  - apply tracked_launch_page_write.
  - eapply Hi; eassumption.
Qed.

Lemma write_tree_page_stamps_and_settles_witness :
  exists z',
    write_tree_page 10 4%nat zone_flusher_redirtied = Some z'
    /\ (if is_waiting 4%nat zone_flusher_redirtied
           && option_page_eqb (flusher zone_flusher_redirtied) 4%nat
        then z' = zone_flusher_redirtied
        else tree_page.generation (pages z' 4%nat)
             = generation zone_flusher_redirtied)
    /\ (is_waiting 4%nat zone_flusher_redirtied = true
        \/ tree_page.writing (pages zone_flusher_redirtied 4%nat) = true ->
        flusher z' = flusher zone_flusher_redirtied
        /\ vio_pool z' = vio_pool zone_flusher_redirtied
        /\ flush_waiters z' = flush_waiters zone_flusher_redirtied
        \/ read_only z' = true)
    /\ page_settled 4%nat z'
    /\ tracked_generations z'.
Proof.
  apply (write_tree_page_stamps_and_settles 10 4%nat zone_flusher_redirtied).
  - split; [vm_compute; intuition discriminate|].
    split; [vm_compute; intuition discriminate|].
    intros g Rg C.
    change (dirty_page_counts zone_flusher_redirtied g)
      with (updZ (updZ (fun _ => 0) 0 1) 1 1 g) in C.
    unfold updZ in C.
    destruct (Z.eqb_spec g 1) as [->|N1]; [reflexivity|].
    destruct (Z.eqb_spec g 0) as [->|N0]; [reflexivity | congruence].
  - vm_compute. lia.
Defined.

(** ** The pool entries are conserved *)

Lemma pool_step_same z z' evs :
  trace z' = trace z ++ evs ->
  entries_in_flight evs = [] ->
  vio_pool z' = vio_pool z ->
  pool_step [] z z'.
Proof.
  intros T F V. exists evs. rewrite T, F, V, app_nil_r. auto.
Qed.

Lemma pool_step_refl z : pool_step [] z z.
Proof. apply (pool_step_same z z []); auto using app_nil_r. Qed.

Lemma pool_step_trans g1 g2 z1 z2 z3 :
  pool_step g1 z1 z2 -> pool_step g2 z2 z3 -> pool_step (g1 ++ g2) z1 z3.
Proof.
  intros (e1 & T1 & P1 & B1) (e2 & T2 & P2 & B2).
  exists (e1 ++ e2). split; [rewrite T2, T1, app_assoc; reflexivity|].
  split; [|lia].
  unfold entries_in_flight in *. rewrite flat_map_app.
  set (a3 := vio_pool.available (vio_pool z3)) in *.
  set (a2 := vio_pool.available (vio_pool z2)) in *.
  set (a1 := vio_pool.available (vio_pool z1)) in *.
  set (f1 := flat_map launched_entry e1) in *.
  set (f2 := flat_map launched_entry e2) in *.
  rewrite (Permutation_app_comm f1 f2), app_assoc.
  rewrite P2. rewrite <- app_assoc, P1.
  rewrite !app_assoc. apply Permutation_app_tail, Permutation_app_comm.
Qed.

Lemma pool_step_enter_read_only r z :
  pool_step [] z (enter_zone_read_only_mode r z).
Proof.
  apply (pool_step_same _ _ [enter_read_only_mode r; check_for_drain_complete]);
    try reflexivity.
  unfold enter_zone_read_only_mode. cbn. rewrite <- app_assoc. reflexivity.
Qed.

Lemma pool_step_emit ev z :
  launched_entry ev = [] -> pool_step [] z (emit ev z).
Proof.
  intros H. apply (pool_step_same _ _ [ev]); try reflexivity.
  cbn. rewrite H. reflexivity.
Qed.

Lemma pool_step_attempt_increment z :
  pool_step [] z (snd (attempt_increment z)).
Proof.
  unfold attempt_increment. destruct (_ =? _); cbn [snd];
    [apply pool_step_refl|].
  apply (pool_step_same _ _ []); auto using app_nil_r.
Qed.

Lemma pool_step_launch p e z : pool_step [e] z (launch_page_write p e z).
Proof.
  unfold launch_page_write.
  destruct (mark_block_map_page_initialized _ true) as [changed page].
  destruct (negb changed); eexists [_]; cbn;
    (split; [reflexivity|]); (split; [|reflexivity]);
    apply Permutation_sym, Permutation_cons_append.
Qed.

Lemma pool_step_is_not_older a b z : pool_step [] z (snd (is_not_older a b z)).
Proof.
  unfold is_not_older. destruct (negb _); cbn [snd];
    [apply pool_step_enter_read_only | apply pool_step_refl].
Qed.

Lemma pool_step_pipeline (n : nat) :
  (forall p e z z', write_page n p e z = Some z' -> pool_step [e] z z')
  /\ (forall p z z', enqueue_page n p z = Some z' -> pool_step [] z z')
  /\ (forall p z z', acquire_vio n p z = Some z' -> pool_step [] z z')
  /\ (forall e z z', return_to_pool n e z = Some z' -> pool_step [e] z z').
Proof.
  induction n as [|n (IHw & IHe & IHa & IHr)].
  { repeat split; intros; discriminate. }
  repeat split.
  - intros p e z z'. cbn [write_page].
    assert (pool_step [] z
              (snd (if negb (option_page_eqb (flusher z) p)
                    then is_not_older (tree_page.generation (pages z p))
                                      (generation z) z
                    else (false, z)))) as H1.
    { destruct (negb _); [apply pool_step_is_not_older | apply pool_step_refl]. }
    destruct (if negb (option_page_eqb (flusher z) p) then _ else _)
      as [requeue z1].
    cbn [snd] in H1. destruct requeue.
    + destruct (enqueue_page n p z1) as [z2|] eqn:E2; [|discriminate].
      intros E3.
      apply (pool_step_trans [] [e] z z1 z'); [exact H1|].
      apply (pool_step_trans [] [e] z1 z2 z'); [eapply IHe; eassumption|].
      eapply IHr; eassumption.
    + intros E. injection E as <-.
      apply (pool_step_trans [] [e] z z1 _); [exact H1|].
      apply pool_step_launch.
  - intros p z z'. cbn [enqueue_page].
    assert (pool_step [] z
              (snd (match flusher z with
                    | None => attempt_increment z
                    | Some _ => (false, z)
                    end))) as H1.
    { destruct (flusher z);
        [apply pool_step_refl | apply pool_step_attempt_increment]. }
    destruct (match flusher z with None => _ | Some _ => _ end)
      as [incremented z1].
    cbn [snd] in H1. destruct incremented.
    + intros E. apply (pool_step_trans [] [] z z1 z'); [exact H1|].
      apply (pool_step_trans [] [] z1 (with_flusher (Some p) z1) z').
      * apply (pool_step_same _ _ []); auto using app_nil_r.
      * eapply IHa; eassumption.
    + unfold enqueue_flush_waiter.
      destruct (negb (status_eqb (ASSERT _) VDO_SUCCESS)) eqn:A.
      * rewrite A. intros E. injection E as <-.
        apply (pool_step_trans [] [] z z1 _); [exact H1|].
        apply pool_step_enter_read_only.
      * rewrite status_eqb_refl. cbn [negb]. intros E. injection E as <-.
        apply (pool_step_trans [] [] z z1 _); [exact H1|].
        apply (pool_step_same _ _ []); auto using app_nil_r.
  - intros p z z'. cbn [acquire_vio].
    destruct (vio_pool.available (vio_pool z)) as [|entry rest] eqn:Av.
    + unfold enqueue_pool_waiter.
      destruct (negb (status_eqb (ASSERT _) VDO_SUCCESS)) eqn:A.
      * rewrite A. intros E. injection E as <-.
        apply pool_step_enter_read_only.
      * rewrite status_eqb_refl. cbn [negb]. intros E. injection E as <-.
        exists []. cbn. rewrite Av, app_nil_r. auto.
    + intros E. apply IHw in E. destruct E as (evs & T & Pm & B).
      exists evs. cbn in T, Pm, B. rewrite Av. split; [exact T|].
      split; [exact Pm|]. cbn [length]. lia.
  - intros e z z'. cbn [return_to_pool].
    destruct (vio_pool.waiting (vio_pool z)) as [|w rest].
    + intros E. injection E as <-. exists [check_for_drain_complete].
      cbn. split; [reflexivity|]. rewrite app_nil_r.
      split; [reflexivity | lia].
    + destruct w as [p|d].
      * destruct (write_page n p e _) as [z2|] eqn:E2; [|discriminate].
        intros E. injection E as <-.
        apply (pool_step_trans [e] [] z z2 _);
          [|apply pool_step_emit; reflexivity].
        apply IHw in E2. exact E2.
      * intros E. injection E as <-.
        exists [launchReadMetadataVIO e d; check_for_drain_complete].
        unfold load_page. cbn. rewrite <- app_assoc.
        split; [reflexivity|]. split; [|reflexivity].
        apply Permutation_sym, Permutation_cons_append.
Qed.

Lemma pool_step_notify_each_waiter n g waiters :
  forall z z',
    notify_each_waiter n waiters g z = Some z' -> pool_step [] z z'.
Proof.
  destruct (pool_step_pipeline n) as (_ & He & Ha & _).
  induction waiters as [|w rest IH]; intros z z'; cbn [notify_each_waiter].
  - intros E. injection E as <-. apply pool_step_refl.
  - destruct (write_page_if_not_dirtied n w g _) as [z1|] eqn:E1;
      [|discriminate].
    intros E. apply IH in E.
    apply (pool_step_trans [] [] z (emit (notify_waiter w g) z) z');
      [apply pool_step_emit; reflexivity|].
    apply (pool_step_trans [] [] _ z1 z'); [|exact E].
    unfold write_page_if_not_dirtied in E1.
    destruct (_ =? g) in E1; [eapply Ha | eapply He]; exact E1.
Qed.

Lemma pool_step_finish_page_write_tail n dirty p e z z' :
  finish_page_write_tail n dirty p e z = Some z' -> pool_step [e] z z'.
Proof.
  destruct (pool_step_pipeline n) as (Hw & He & _ & Hr).
  unfold finish_page_write_tail. destruct dirty.
  - destruct (enqueue_page n p z) as [z1|] eqn:E1; [|discriminate].
    intros E. apply (pool_step_trans [] [e] z z1 z'); eauto.
  - assert (pool_step [] z
              (snd (match flusher z with
                    | None => if has_waiters (flush_waiters z)
                              then attempt_increment z else (false, z)
                    | Some _ => (false, z)
                    end))) as H1.
    { destruct (flusher z); [apply pool_step_refl|].
      destruct (has_waiters _);
        [apply pool_step_attempt_increment | apply pool_step_refl]. }
    destruct (match flusher z with None => _ | Some _ => _ end)
      as [incremented z1].
    cbn [snd] in H1.
    assert (forall z2, return_to_pool n e z1 = Some z2 -> pool_step [e] z z2)
      as R.
    { intros z2 E. apply (pool_step_trans [] [e] z z1 z2); eauto. }
    destruct incremented; [|apply R].
    destruct (flush_waiters z1) as [|w rest]; [apply R|].
    intros E. apply (pool_step_trans [] [e] z z1 z'); [exact H1|].
    apply (pool_step_trans
             [] [e] z1 (with_flusher (Some w) (with_flush_waiters rest z1)) z');
      [|eapply Hw; exact E].
    apply (pool_step_same _ _ []); auto using app_nil_r.
Qed.

Lemma pool_step_release_generation g z :
  pool_step [] z (release_generation g z).
Proof.
  unfold release_generation. destruct (negb _);
    [apply pool_step_enter_read_only|].
  match goal with
  | |- context [roll_oldest_generation 256 ?y] =>
      destruct (roll_oldest_generation_fields 256 y) as [o ->]
  end.
  apply (pool_step_same _ _ []); auto using app_nil_r.
Qed.

Lemma pool_step_finish_page_write n e z z' :
  finish_page_write n e z = Some z' -> pool_step [e] z z'.
Proof.
  rewrite finish_page_write_unfold. cbv zeta.
  assert (pool_step [] z (after_write_release e z)) as H1.
  { unfold after_write_release.
    set (p := vio_pool_entry.parent (entries z e)).
    set (z0 := emit (release_recovery_journal_block_reference
                       (tree_page.writing_recovery_lock (pages z p))) z).
    apply (pool_step_trans [] [] z z0 _);
      [apply pool_step_emit; reflexivity|].
    apply (pool_step_trans
             [] [] z0
             (release_generation (tree_page.writing_generation (pages z p)) z0)
             _); [apply pool_step_release_generation|].
    apply (pool_step_same _ _ []); auto using app_nil_r. }
  set (z1 := after_write_release e z) in *.
  destruct (option_page_eqb _ _).
  - destruct (notify_all_flush_waiters n _ _) as [z2|] eqn:E2;
      [|discriminate].
    assert (pool_step [] z z2) as H2.
    { unfold notify_all_flush_waiters in E2.
      apply pool_step_notify_each_waiter in E2.
      apply (pool_step_trans [] [] z z1 z2); [exact H1|].
      apply (pool_step_trans [] [] z1 (with_flush_waiters [] z1) z2);
        [|exact E2].
      apply (pool_step_same _ _ []); auto using app_nil_r. }
    assert (pool_step [] z
              (snd (if redirtied e z then attempt_increment z2
                    else (false, z2)))) as H3.
    { destruct (redirtied e z); [|exact H2].
      apply (pool_step_trans [] [] z z2 _);
        [exact H2 | apply pool_step_attempt_increment]. }
    destruct (if redirtied e z then _ else _) as [incremented z3].
    cbn [snd] in H3. destruct incremented.
    + destruct (pool_step_pipeline n) as (Hw & _).
      intros E. apply (pool_step_trans [] [e] z z3 z'); eauto.
    + intros E. apply pool_step_finish_page_write_tail in E.
      apply (pool_step_trans [] [e] z z3 z'); [exact H3|].
      apply (pool_step_trans [] [e] z3 (with_flusher None z3) z'); [|exact E].
      apply (pool_step_same _ _ []); auto using app_nil_r.
  - intros E. apply pool_step_finish_page_write_tail in E.
    apply (pool_step_trans [] [e] z z1 z'); assumption.
Qed.

(** X4.  Completing a page write never loses or duplicates a pool entry.
    finish_page_write returns, and the entries free in the pool afterwards
    together with the entries of the reads and writes it launched are
    exactly the entries that were free before and the entry of the
    completed write; the pool's busy count moves with the free list. *)
Theorem finish_page_write_conserves_pool_entries
        (n : nat) (entry : entry_id) (z : block_map_tree_zone) :
  (tree_zone_measure z + 2 * length (flush_waiters z) + 6 <= n)%nat ->
  exists z' evs,
    finish_page_write n entry z = Some z'
    /\ trace z' = trace z ++ evs
    /\ Permutation (vio_pool.available (vio_pool z') ++ entries_in_flight evs)
                   (entry :: vio_pool.available (vio_pool z))
    /\ vio_pool.busy_count (vio_pool z')
       + Z.of_nat (length (vio_pool.available (vio_pool z')))
       = vio_pool.busy_count (vio_pool z)
         + Z.of_nat (length (vio_pool.available (vio_pool z))).
Proof.
  intros Hn. destruct (finish_page_write_total n entry z Hn) as (z' & E).
  destruct (pool_step_finish_page_write n entry z z' E) as (evs & T & Pm & B).
  exists z', evs. auto.
Qed.

Lemma finish_page_write_conserves_pool_entries_witness :
  exists z' evs,
    finish_page_write 10 0%nat zone_flusher_redirtied = Some z'
    /\ trace z' = trace zone_flusher_redirtied ++ evs
    /\ Permutation (vio_pool.available (vio_pool z') ++ entries_in_flight evs)
                   (0%nat :: vio_pool.available
                               (vio_pool zone_flusher_redirtied))
    /\ vio_pool.busy_count (vio_pool z')
       + Z.of_nat (length (vio_pool.available (vio_pool z')))
       = vio_pool.busy_count (vio_pool zone_flusher_redirtied)
         + Z.of_nat (length (vio_pool.available
                               (vio_pool zone_flusher_redirtied))).
Proof.
  apply (finish_page_write_conserves_pool_entries
           10 0%nat zone_flusher_redirtied).
  vm_compute. lia.
Defined.

(** X5.  A failed page write sends the zone read-only and hands the pool
    entry on (it is free again, or carries the I/O of the next waiter),
    but it neither clears the writing flag of any page nor releases a
    generation: the dirty page counts and oldest_generation are left as
    they were. *)
Theorem handle_write_error_keeps_page_writing
        (n : nat) (result : status) (entry : entry_id)
        (z : block_map_tree_zone) :
  (tree_zone_fuel z <= n)%nat ->
  exists z' evs,
    handle_write_error n result entry z = Some z'
    /\ read_only z' = true
    /\ dirty_page_counts z' = dirty_page_counts z
    /\ oldest_generation z' = oldest_generation z
    /\ (forall q, tree_page.writing (pages z q) = true ->
                  tree_page.writing (pages z' q) = true)
    /\ trace z' = trace z ++ evs
    /\ Permutation (vio_pool.available (vio_pool z') ++ entries_in_flight evs)
                   (entry :: vio_pool.available (vio_pool z)).
Proof.
  unfold tree_zone_fuel, handle_write_error. intros Hn.
  destruct (write_pipeline_total n) as (_ & _ & _ & _ & Hr).
  destruct (Hr (enter_zone_read_only_mode result z) entry) as (z' & E & _ & F).
  { change (tree_zone_measure (enter_zone_read_only_mode result z))
      with (tree_zone_measure z). lia. }
  destruct (pool_step_pipeline n) as (_ & _ & _ & Hp).
  assert (pool_step [entry] z z') as (evs & T & Pm & _).
  { apply (pool_step_trans [] [entry] z (enter_zone_read_only_mode result z) z');
      [apply pool_step_enter_read_only | eapply Hp; exact E]. }
  exists z', evs. split; [exact E|]. split.
  { destruct (frame_trace _ _ _ F) as (evs' & T' & _).
    eapply read_only_app; [exact T' | apply read_only_enter]. }
  split; [apply (frame_counts _ _ _ F)|].
  split; [apply (frame_oldest _ _ _ F)|].
  split; [apply (frame_writing _ _ _ F)|].
  split; [exact T | exact Pm].
Qed.

Lemma handle_write_error_keeps_page_writing_witness :
  exists z' evs,
    handle_write_error 10 (error_code 5) 0%nat zone_flusher_redirtied
    = Some z'
    /\ read_only z' = true
    /\ dirty_page_counts z' = dirty_page_counts zone_flusher_redirtied
    /\ oldest_generation z' = oldest_generation zone_flusher_redirtied
    /\ (forall q, tree_page.writing (pages zone_flusher_redirtied q) = true ->
                  tree_page.writing (pages z' q) = true)
    /\ trace z' = trace zone_flusher_redirtied ++ evs
    /\ Permutation (vio_pool.available (vio_pool z') ++ entries_in_flight evs)
                   (0%nat :: vio_pool.available
                               (vio_pool zone_flusher_redirtied)).
Proof.
  apply (handle_write_error_keeps_page_writing
           10 (error_code 5) 0%nat zone_flusher_redirtied).
  vm_compute. lia.
Defined.

(** ** Which pages are written *)

(** X6.  write_page writes a page that is not the flusher only if its
    generation is strictly older than the zone's: a page stamped with the
    current generation is not written but goes through enqueue_page again,
    and the pool entry is handed on by return_to_pool; a page of an older
    tracked generation is written at once. *)
Theorem write_page_writes_older_generations_only
        (n : nat) (p : page_id) (e : entry_id) (z : block_map_tree_zone) :
  0 <= generation z < 256 ->
  0 <= oldest_generation z < 256 ->
  0 <= tree_page.generation (pages z p) < 256 ->
  in_cyclic_range (oldest_generation z) (tree_page.generation (pages z p))
                  (generation z) (2 ^ 8) = true ->
  flusher z <> Some p ->
  write_page (S n) p e z
  = if tree_page.generation (pages z p) =? generation z
    then match enqueue_page n p z with
         | Some z1 => return_to_pool n e z1
         | None => None
         end
    else Some (launch_page_write p e z).
Proof.
  intros Hg Ho Hp I Fl. cbn [write_page].
  destruct (option_page_eqb (flusher z) p) eqn:F.
  { apply option_page_eqb_true in F. contradiction. }
  cbn [negb]. unfold is_not_older. rewrite I.
  assert (in_cyclic_range (oldest_generation z) (generation z) (generation z)
                          (2 ^ 8) = true) as ->.
  { apply in_cyclic_range_iff; try assumption. lia. }
  cbn [andb ASSERT UDS_SUCCESS]. rewrite status_eqb_refl. cbn [negb].
  destruct (Z.eqb_spec (tree_page.generation (pages z p)) (generation z))
    as [E|E].
  - assert (in_cyclic_range (generation z) (tree_page.generation (pages z p))
                            (generation z) (2 ^ 8) = true) as ->; [|reflexivity].
    apply in_cyclic_range_iff; try assumption. rewrite E. lia.
  - assert (in_cyclic_range (generation z) (tree_page.generation (pages z p))
                            (generation z) (2 ^ 8) = false) as ->; [|reflexivity].
    apply not_true_is_false. intros H.
    apply in_cyclic_range_iff in H; try assumption.
    apply E. Z.to_euclidean_division_equations. lia.
Qed.

Lemma write_page_writes_older_generations_only_witness :
  write_page 5 4%nat 1%nat
             (update_page 4%nat (tree_page.set_generation 1) zone_one_dirty_page)
  = if tree_page.generation
         (pages (update_page 4%nat (tree_page.set_generation 1)
                             zone_one_dirty_page) 4%nat)
       =? generation (update_page 4%nat (tree_page.set_generation 1)
                                  zone_one_dirty_page)
    then match enqueue_page
                 4 4%nat (update_page 4%nat (tree_page.set_generation 1)
                                      zone_one_dirty_page) with
         | Some z1 => return_to_pool 4 1%nat z1
         | None => None
         end
    else Some (launch_page_write
                 4%nat 1%nat
                 (update_page 4%nat (tree_page.set_generation 1)
                              zone_one_dirty_page)).
Proof.
  apply (write_page_writes_older_generations_only
           4 4%nat 1%nat
           (update_page 4%nat (tree_page.set_generation 1) zone_one_dirty_page)).
  - simpl. lia.
  - simpl. lia.
  - simpl. lia.
  - reflexivity.
  - simpl. discriminate.
Defined.

(** ** Moving a page between generations *)

(** X7.  set_generation moves exactly one dirty page count: the bucket of
    the new generation grows by one, and with decrement_old the bucket the
    page came from shrinks by one (nothing changes when the page already
    has the new generation).  The page carries the new generation, and
    the zone does not go read-only. *)
Theorem set_generation_moves_one_count
        (p : page_id) (g : Z) (d : bool) (z : block_map_tree_zone) :
  (forall k, 0 <= dirty_page_counts z k < 2 ^ 32 - 1) ->
  (d = true -> 0 < dirty_page_counts z (tree_page.generation (pages z p))) ->
  let old := tree_page.generation (pages z p) in
  let z' := set_generation p g d z in
  (forall k, dirty_page_counts z' k
             = dirty_page_counts z k
               + (if k =? g then 1 else 0)
               - (if d && (k =? old) then 1 else 0))
  /\ tree_page.generation (pages z' p) = g
  /\ trace z' = trace z.
Proof.
  intros C Hd. cbn zeta. unfold set_generation.
  change (dirty_page_counts (update_page p (tree_page.set_generation g) z))
    with (dirty_page_counts z).
  destruct d; cbn [andb].
  - destruct (Z.eqb_spec (tree_page.generation (pages z p)) g) as [E|E].
    { split; [|auto]. intros k. rewrite E. destruct (k =? g); lia. }
    set (z1 := with_dirty_page_counts _ (update_page p _ z)).
    assert (uint32 (dirty_page_counts z g + 1) = dirty_page_counts z g + 1)
      as U.
    { unfold uint32. apply Z.mod_small. specialize (C g). lia. }
    assert (forall k, dirty_page_counts z1 k
                      = dirty_page_counts z k + (if k =? g then 1 else 0))
      as C1.
    { intros k. subst z1. cbn. unfold updZ.
      destruct (Z.eqb_spec k g) as [->|_]; [exact U | lia]. }
    assert ((uint32 (dirty_page_counts z g + 1) =? 0) = false) as ->.
    { apply Z.eqb_neq. rewrite U. specialize (C g). lia. }
    cbn [negb ASSERT UDS_SUCCESS]. rewrite status_eqb_refl. cbn [negb].
    unfold release_generation.
    set (old := tree_page.generation (pages z p)) in *.
    assert (dirty_page_counts z1 old = dirty_page_counts z old) as Co.
    { rewrite C1. apply Z.eqb_neq in E. rewrite E. lia. }
    assert ((0 <? dirty_page_counts z1 old) = true) as ->.
    { apply Z.ltb_lt. rewrite Co. apply Hd. reflexivity. }
    cbn [negb ASSERT UDS_SUCCESS]. rewrite status_eqb_refl. cbn [negb].
    match goal with
    | |- context [roll_oldest_generation 256 ?y] =>
        destruct (roll_oldest_generation_fields 256 y) as [o ->]
    end.
    cbn. split; [|split; [|reflexivity]].
    + intros k.
      change (updZ (dirty_page_counts z) g (uint32 (dirty_page_counts z g + 1)))
        with (dirty_page_counts z1).
      unfold updZ.
      destruct (Z.eqb_spec k old) as [->|N].
      * rewrite Co. apply Z.eqb_neq in E. rewrite E.
        unfold uint32. rewrite Z.mod_small; [lia|].
        specialize (C old). specialize (Hd eq_refl). lia.
      * rewrite C1. lia.
    + unfold upd. rewrite Nat.eqb_refl. reflexivity.
  - assert (uint32 (dirty_page_counts z g + 1) = dirty_page_counts z g + 1)
      as U.
    { unfold uint32. apply Z.mod_small. specialize (C g). lia. }
    assert ((uint32 (dirty_page_counts z g + 1) =? 0) = false) as ->.
    { apply Z.eqb_neq. rewrite U. specialize (C g). lia. }
    cbn [negb ASSERT UDS_SUCCESS]. rewrite status_eqb_refl. cbn [negb].
    cbn. split; [|split; [|reflexivity]].
    + intros k. unfold updZ.
      destruct (Z.eqb_spec k g) as [->|_]; [rewrite U|]; lia.
    + unfold upd. rewrite Nat.eqb_refl. reflexivity.
Qed.

Lemma set_generation_moves_one_count_witness :
  (forall k, dirty_page_counts (set_generation 4%nat 2 true zone_one_dirty_page) k
             = dirty_page_counts zone_one_dirty_page k
               + (if k =? 2 then 1 else 0)
               - (if true && (k =? tree_page.generation
                                     (pages zone_one_dirty_page 4%nat))
                  then 1 else 0))
  /\ tree_page.generation
       (pages (set_generation 4%nat 2 true zone_one_dirty_page) 4%nat) = 2
  /\ trace (set_generation 4%nat 2 true zone_one_dirty_page)
     = trace zone_one_dirty_page.
Proof.
  apply (set_generation_moves_one_count 4%nat 2 true zone_one_dirty_page).
  - intros k. simpl. unfold updZ. destruct (k =? 0); lia.
  - intros _. simpl. unfold updZ. simpl. lia.
Defined.

(** ** What aborting a lookup leaves behind *)

Lemma int_map_remove_spec m key k v :
  In (k, v) (int_map_remove m key) <-> k <> key /\ In (k, v) m.
Proof.
  induction m as [|[k0 v0] rest IH]; cbn [int_map_remove].
  - cbn. tauto.
  - destruct (Z.eqb_spec k0 key) as [E|E].
    + rewrite IH. cbn. split; [tauto|]. intros [N [H|H]]; [|tauto].
      injection H as <- <-. contradiction.
    + cbn. rewrite IH. split.
      * intros [H|H]; [|tauto]. injection H as <- <-. tauto.
      * tauto.
Qed.

(** finish_lookup on one data_vio after another. *)
Lemma finish_each_lookup (f : block_map_tree_zone -> data_vio_id -> status)
      (waiters : list data_vio_id) :
  forall z,
    let z' := fold_left (fun z w => finish_lookup w (f z w) z) waiters z in
    active_lookups z' = active_lookups z - Z.of_nat (length waiters)
    /\ loading_pages z' = loading_pages z
    /\ (forall a,
           tree_lock.locked (data_vio.treeLock (data_vios z' a))
           = tree_lock.locked (data_vio.treeLock (data_vios z a))
           /\ tree_lock.waiters (data_vio.treeLock (data_vios z' a))
              = tree_lock.waiters (data_vio.treeLock (data_vios z a))
           /\ tree_lock.key (data_vio.treeLock (data_vios z' a))
              = tree_lock.key (data_vio.treeLock (data_vios z a))
           /\ (In a waiters ->
               tree_lock.height (data_vio.treeLock (data_vios z' a)) = 0)
           /\ (tree_lock.height (data_vio.treeLock (data_vios z a)) = 0 ->
               tree_lock.height (data_vio.treeLock (data_vios z' a)) = 0)).
Proof.
  induction waiters as [|w rest IH]; intros z; cbn zeta.
  - cbn. split; [lia|]. split; [reflexivity|]. intros a. tauto.
  - cbn [fold_left length].
    destruct (IH (finish_lookup w (f z w) z)) as (A & L & D).
    cbn zeta in *. rewrite A, L.
    split; [cbn; lia|]. split; [reflexivity|].
    intros a. destruct (D a) as (D1 & D2 & D3 & D4 & D5).
    assert (forall (g : tree_lock.t -> Z),
               (forall l, g (tree_lock.mk 0 (tree_lock.key l)
                                          (tree_lock.locked l)
                                          (tree_lock.waiters l)) = g l) ->
               g (data_vio.treeLock (data_vios (finish_lookup w (f z w) z) a))
               = g (data_vio.treeLock (data_vios z a))) as Same.
    { intros g Hg. cbn. unfold upd.
      destruct (Nat.eqb a w) eqn:E; [|reflexivity].
      apply Nat.eqb_eq in E. subst. cbn. apply Hg. }
    assert (forall a0, tree_lock.locked
                         (data_vio.treeLock
                            (data_vios (finish_lookup w (f z w) z) a0))
                       = tree_lock.locked (data_vio.treeLock (data_vios z a0)))
      as SL.
    { intros a0. cbn. unfold upd. destruct (Nat.eqb a0 w) eqn:E; [|reflexivity].
      apply Nat.eqb_eq in E. subst. reflexivity. }
    assert (forall a0, tree_lock.waiters
                         (data_vio.treeLock
                            (data_vios (finish_lookup w (f z w) z) a0))
                       = tree_lock.waiters (data_vio.treeLock (data_vios z a0)))
      as SW.
    { intros a0. cbn. unfold upd. destruct (Nat.eqb a0 w) eqn:E; [|reflexivity].
      apply Nat.eqb_eq in E. subst. reflexivity. }
    assert (forall a0, tree_lock.key
                         (data_vio.treeLock
                            (data_vios (finish_lookup w (f z w) z) a0))
                       = tree_lock.key (data_vio.treeLock (data_vios z a0)))
      as SK.
    { intros a0. cbn. unfold upd. destruct (Nat.eqb a0 w) eqn:E; [|reflexivity].
      apply Nat.eqb_eq in E. subst. reflexivity. }
    assert (forall a0,
               a0 = w
               \/ tree_lock.height (data_vio.treeLock (data_vios z a0)) = 0 ->
               tree_lock.height
                 (data_vio.treeLock (data_vios (finish_lookup w (f z w) z) a0))
               = 0) as SH.
    { intros a0 H. cbn. unfold upd. destruct (Nat.eqb_spec a0 w) as [->|N].
      - reflexivity.
      - destruct H as [H|H]; [contradiction | exact H]. }
    clear Same.
    rewrite D1, D2, D3, SL, SW, SK.
    split; [reflexivity|]. split; [reflexivity|]. split; [reflexivity|].
    split.
    + intros [<-|H]; [|apply D4; exact H]. apply D5, SH. left. reflexivity.
    + intros H. apply D5, SH. right. exact H.
Qed.

(** X8.  An aborted lookup that holds its page lock gives the lock up and
    finishes every lookup involved: the key of the lock is no longer in
    loading_pages and no other key is touched, the lock is unlocked with
    an empty waiter queue, the count of active lookups drops by one for
    the aborting data_vio and by one for each waiter, and each of them
    has height 0. *)
Theorem abort_lookup_releases_lock
        (d : data_vio_id) (r : status) (z : block_map_tree_zone) :
  tree_lock.locked (data_vio.treeLock (data_vios z d)) = true ->
  let lock := data_vio.treeLock (data_vios z d) in
  let z' := abort_lookup d r z in
  active_lookups z'
  = active_lookups z - 1 - Z.of_nat (length (tree_lock.waiters lock))
  /\ (forall k v, In (k, v) (loading_pages z')
                  <-> k <> tree_lock.key lock /\ In (k, v) (loading_pages z))
  /\ tree_lock.locked (data_vio.treeLock (data_vios z' d)) = false
  /\ tree_lock.waiters (data_vio.treeLock (data_vios z' d)) = []
  /\ (forall w, w = d \/ In w (tree_lock.waiters lock) ->
                tree_lock.height (data_vio.treeLock (data_vios z' w)) = 0)
  /\ (read_only z' = true <-> read_only z = true \/ r <> VDO_NO_SPACE).
Proof.
  intros L. cbn zeta. unfold abort_lookup.
  set (z1 := if negb (status_eqb r VDO_NO_SPACE)
             then enter_zone_read_only_mode r z else z).
  assert (data_vios z1 = data_vios z) as D
      by (subst z1; destruct (negb _); reflexivity).
  assert (active_lookups z1 = active_lookups z) as A
      by (subst z1; destruct (negb _); reflexivity).
  assert (loading_pages z1 = loading_pages z) as LP
      by (subst z1; destruct (negb _); reflexivity).
  assert (read_only z1 = true <-> read_only z = true \/ r <> VDO_NO_SPACE)
    as RO.
  { subst z1. destruct (status_eqb r VDO_NO_SPACE) eqn:E; cbn [negb].
    - apply status_eqb_eq in E. split; [auto|]. intros [H|H]; tauto.
    - apply status_eqb_neq in E. rewrite read_only_enter. tauto. }
  rewrite D, L.
  set (lock := data_vio.treeLock (data_vios z d)).
  unfold notify_all_lock_waiters.
  set (z2 := update_data_vio d _ (release_page_lock d z1)).
  assert (tree_lock.waiters
            (data_vio.treeLock (data_vios (release_page_lock d z1) d))
          = tree_lock.waiters lock) as W.
  { unfold release_page_lock. cbn. unfold upd. rewrite Nat.eqb_refl, D.
    reflexivity. }
  rewrite W.
  destruct (finish_each_lookup
              (fun z0 w => abort_result_for_waiter
                             (data_vio.is_read (data_vios z0 w)) r)
              (tree_lock.waiters lock) z2) as (A3 & L3 & D3).
  cbn zeta in *.
  change (fold_left (fun z0 w => abort_lookup_for_waiter w r z0)
                    (tree_lock.waiters lock) z2)
    with (fold_left
            (fun z0 w =>
               finish_lookup
                 w (abort_result_for_waiter
                      (data_vio.is_read (data_vios z0 w)) r) z0)
            (tree_lock.waiters lock) z2).
  set (z3 := fold_left _ (tree_lock.waiters lock) z2) in *.
  assert (tree_lock.locked (data_vio.treeLock (data_vios z2 d)) = false
          /\ tree_lock.waiters (data_vio.treeLock (data_vios z2 d)) = [])
    as (L2 & W2).
  { subst z2. unfold release_page_lock. cbn. unfold upd.
    rewrite !Nat.eqb_refl. auto. }
  destruct (D3 d) as (Dl & Dw & _ & _ & _).
  split; [|split; [|split; [|split; [|split]]]].
  - cbn. rewrite A3. subst z2. cbn. rewrite A. lia.
  - intros k v. cbn. rewrite L3. subst z2. cbn. rewrite LP, D.
    apply int_map_remove_spec.
  - cbn. unfold upd. rewrite Nat.eqb_refl. cbn. rewrite Dl. exact L2.
  - cbn. unfold upd. rewrite Nat.eqb_refl. cbn. rewrite Dw. exact W2.
  - intros w H. cbn. unfold upd. destruct (Nat.eqb_spec w d) as [->|N];
      [reflexivity|].
    destruct H as [H|H]; [contradiction|].
    destruct (D3 w) as (_ & _ & _ & H4 & _). apply H4. exact H.
  - unfold read_only in *. rewrite trace_finish_lookup, existsb_app.
    cbn [existsb is_enter_read_only orb]. rewrite orb_false_r.
    fold z3.
    assert (trace z3 = trace z1
                       ++ map (fun w => setCompletionResult
                                          w (abort_result_for_waiter
                                               (data_vio.is_read
                                                  (data_vios z2 w)) r))
                              (tree_lock.waiters lock)) as T.
    { subst z3. apply (trace_notify_waiters r (tree_lock.waiters lock) z2). }
    rewrite T, existsb_app.
    assert (forall ws (g : data_vio_id -> status),
               existsb is_enter_read_only
                       (map (fun w => setCompletionResult w (g w)) ws) = false)
      as N by (induction ws; intros; cbn; auto).
    rewrite N, orb_false_r. exact RO.
Qed.

Lemma abort_lookup_releases_lock_witness :
  active_lookups (abort_lookup 0%nat VDO_NO_SPACE zone_with_lock_waiters) = 0
  /\ loading_pages (abort_lookup 0%nat VDO_NO_SPACE zone_with_lock_waiters)
     = [].
Proof.
  destruct (abort_lookup_releases_lock
              0%nat VDO_NO_SPACE zone_with_lock_waiters) as (A & _).
  - reflexivity.
  - split; [rewrite A; reflexivity | reflexivity].
Defined.

(** ** The sweep of a leaf page repairs it *)

Section rebuild_repair_properties.
Variable BLOCK_MAP_ENTRIES_PER_PAGE : nat.
Variable isValidLocation : data_location.t -> bool.
Variable slab_depot : Type.
Variable isPhysicalDataBlock : slab_depot -> PhysicalBlockNumber -> bool.
Variable adjustReferenceCountForRebuild :
  slab_depot -> PhysicalBlockNumber -> status * slab_depot.

Abbreviation sweep := (page_sweep slab_depot).
Abbreviation remove_bogus := (remove_bogus_entries slab_depot).
Abbreviation inform_entry :=
  (inform_depot_of_entry isValidLocation slab_depot isPhysicalDataBlock
                         adjustReferenceCountForRebuild).
Abbreviation inform :=
  (inform_depot isValidLocation slab_depot isPhysicalDataBlock
                adjustReferenceCountForRebuild).
Abbreviation entries_of := (entries_of slab_depot).
Abbreviation repaired :=
  (entry_repaired isValidLocation slab_depot isPhysicalDataBlock
                  adjustReferenceCountForRebuild).

Lemma unmapped_entry_repaired e : repaired e unmapped_entry.
Proof. split; [right; reflexivity | discriminate]. Qed.

Lemma sweep_remove_entries (l1 l2 : list data_location.t) e (s : sweep) :
  entries_of s = l1 ++ e :: l2 ->
  entries_of (sweep_remove _ (length l1) s) = l1 ++ unmapped_entry :: l2.
Proof.
  intros E. unfold entries_of, sweep_remove, remove_entry. cbn.
  fold (entries_of s). rewrite E. apply set_entry_middle.
Qed.

(** One iteration of the second loop. *)
Lemma inform_depot_of_entry_sound
      (l1 l2 : list data_location.t) e (s : sweep) :
  entries_of s = l1 ++ e :: l2 ->
  let s' := inform_entry (length l1) s in
  (exists e', entries_of s' = l1 ++ e' :: l2
              /\ repaired e e'
              /\ (sweep_write_requested _ s' = false -> e' = e))
  /\ (sweep_write_requested _ s' = false ->
      sweep_write_requested _ s = false)
  /\ block_map_page.pbn (sweep_page _ s')
     = block_map_page.pbn (sweep_page _ s)
  /\ block_map_page.initialized (sweep_page _ s')
     = block_map_page.initialized (sweep_page _ s).
Proof.
  intros E. cbn zeta. unfold inform_depot_of_entry.
  unfold unpackBlockMapEntry, unpack_block_map_entry.
  fold (entries_of s). rewrite E, nth_middle_entry.
  assert (forall s0 : sweep,
             entries_of s0 = l1 ++ e :: l2 ->
             block_map_page.pbn (sweep_page _ s0)
             = block_map_page.pbn (sweep_page _ s) ->
             block_map_page.initialized (sweep_page _ s0)
             = block_map_page.initialized (sweep_page _ s) ->
             (exists e',
                 entries_of (sweep_remove _ (length l1) s0) = l1 ++ e' :: l2
                 /\ repaired e e'
                 /\ (sweep_write_requested
                       _ (sweep_remove _ (length l1) s0) = false -> e' = e))
             /\ (sweep_write_requested
                   _ (sweep_remove _ (length l1) s0) = false ->
                 sweep_write_requested _ s = false)
             /\ block_map_page.pbn
                  (sweep_page _ (sweep_remove _ (length l1) s0))
                = block_map_page.pbn (sweep_page _ s)
             /\ block_map_page.initialized
                  (sweep_page _ (sweep_remove _ (length l1) s0))
                = block_map_page.initialized (sweep_page _ s)) as Removed.
  { intros s0 E0 P0 I0. split; [|split; [discriminate|split]].
    - exists unmapped_entry. split; [apply (sweep_remove_entries l1 l2 e s0 E0)|].
      split; [apply unmapped_entry_repaired | discriminate].
    - exact P0.
    - exact I0. }
  assert (forall s0 : sweep,
             entries_of s0 = l1 ++ e :: l2 ->
             sweep_write_requested _ s0 = sweep_write_requested _ s ->
             block_map_page.pbn (sweep_page _ s0)
             = block_map_page.pbn (sweep_page _ s) ->
             block_map_page.initialized (sweep_page _ s0)
             = block_map_page.initialized (sweep_page _ s) ->
             (isMappedLocation e = true ->
              isValidLocation e = true
              /\ (data_location.pbn e = ZERO_BLOCK
                  \/ exists depot,
                      isPhysicalDataBlock depot (data_location.pbn e) = true
                      /\ fst (adjustReferenceCountForRebuild
                                depot (data_location.pbn e)) = VDO_SUCCESS)) ->
             (exists e', entries_of s0 = l1 ++ e' :: l2
                         /\ repaired e e'
                         /\ (sweep_write_requested _ s0 = false -> e' = e))
             /\ (sweep_write_requested _ s0 = false ->
                 sweep_write_requested _ s = false)
             /\ block_map_page.pbn (sweep_page _ s0)
                = block_map_page.pbn (sweep_page _ s)
             /\ block_map_page.initialized (sweep_page _ s0)
                = block_map_page.initialized (sweep_page _ s)) as Kept.
  { intros s0 E0 W0 P0 I0 M. split; [|split; [|split]].
    - exists e. split; [exact E0|]. split; [|auto].
      split; [left; reflexivity|]. intros Me. split; [reflexivity|].
      apply M. exact Me.
    - rewrite W0. auto.
    - exact P0.
    - exact I0. }
  destruct (isValidLocation e) eqn:V; cbn [negb];
    [|apply Removed; auto].
  destruct (isMappedLocation e) eqn:M; cbn [negb];
    [|apply Kept; auto; discriminate].
  destruct (Z.eqb_spec (data_location.pbn e) ZERO_BLOCK) as [Z0|Z0].
  { apply Kept; auto. }
  cbn [sweep_depot].
  destruct (isPhysicalDataBlock (sweep_depot _ s) (data_location.pbn e))
    eqn:D; cbn [negb]; [|apply Removed; auto].
  destruct (adjustReferenceCountForRebuild
              (sweep_depot _ s) (data_location.pbn e)) as [result depot']
    eqn:A.
  destruct (status_eqb result VDO_SUCCESS) eqn:R; cbn [negb];
    [|apply Removed; auto].
  apply Kept; auto. intros _. split; [reflexivity|]. right.
  exists (sweep_depot _ s). split; [exact D|]. rewrite A.
  apply status_eqb_eq. exact R.
Qed.

(** The second loop. *)
Lemma inform_depot_sound (l2 l1 : list data_location.t) (s : sweep) :
  entries_of s = l1 ++ l2 ->
  let s' := inform (length l2) (length l1) s in
  (exists l2', entries_of s' = l1 ++ l2'
               /\ Forall2 repaired l2 l2'
               /\ (sweep_write_requested _ s' = false -> l2' = l2))
  /\ (sweep_write_requested _ s' = false ->
      sweep_write_requested _ s = false)
  /\ block_map_page.pbn (sweep_page _ s')
     = block_map_page.pbn (sweep_page _ s)
  /\ block_map_page.initialized (sweep_page _ s')
     = block_map_page.initialized (sweep_page _ s).
Proof.
  revert l1 s. induction l2 as [|e l2 IH]; intros l1 s E; cbn zeta.
  - cbn [length inform_depot]. split; [|auto].
    exists []. split; [exact E|]. split; [constructor | auto].
  - cbn [length inform_depot].
    destruct (inform_depot_of_entry_sound l1 l2 e s E)
      as ([e' (E' & K & Same)] & W & P & I).
    cbn zeta in *. set (s1 := inform_entry (length l1) s) in *.
    assert (entries_of s1 = (l1 ++ [e']) ++ l2) as E1
        by (rewrite <- app_assoc; exact E').
    specialize (IH (l1 ++ [e']) s1 E1).
    rewrite length_app in IH. cbn [length] in IH.
    rewrite Nat.add_1_r in IH. cbn zeta in IH.
    destruct IH as ([l2' (A & F & Same')] & W' & P' & I').
    split; [|split; [auto | split; congruence]].
    exists (e' :: l2'). rewrite A, <- app_assoc.
    split; [reflexivity|]. split; [constructor; assumption|].
    intros H. rewrite Same' by exact H. rewrite Same; auto.
Qed.

Lemma remove_bogus_entries_initialized n slot (s : sweep) :
  block_map_page.initialized (sweep_page _ (remove_bogus n slot s))
  = block_map_page.initialized (sweep_page _ s).
Proof.
  revert slot s. induction n as [|n IH]; intros slot s;
    cbn [remove_bogus_entries]; [reflexivity|].
  rewrite IH. destruct (isMappedLocation _); reflexivity.
Qed.

Lemma repaired_nth l l' i d :
  Forall2 repaired l l' ->
  (i < length l)%nat ->
  repaired (nth i l d) (nth i l' d).
Proof.
  intros F. revert i. induction F as [|e e' l0 l0' K F IH]; intros i H.
  - cbn in H. lia.
  - destruct i as [|i]; cbn [nth]; [exact K|]. apply IH. cbn in H. lia.
Qed.

Lemma without_mapping_same l :
  existsb isMappedLocation l = false -> map without_mapping l = l.
Proof.
  induction l as [|e l IH]; cbn [existsb map]; [reflexivity|].
  intros H. apply orb_false_iff in H. destruct H as [M H].
  unfold without_mapping at 1. rewrite M, IH by exact H. reflexivity.
Qed.

Lemma without_mapping_not_mapped e :
  isMappedLocation (without_mapping e) = false.
Proof.
  unfold without_mapping. destruct (isMappedLocation e) eqn:M;
    [reflexivity | exact M].
Qed.

(** X9.  The sweep of an initialized leaf page only ever removes
    mappings, and what it leaves is sound: every entry of the page is
    afterwards the entry it was or (ZERO_BLOCK, MAPPING_STATE_UNMAPPED);
    an entry that is still mapped is valid, lies below lastSlot.slot if
    the page is the last one, and maps either the zero block or a data
    block of the depot whose reference count was adjusted; and a page
    whose write was not requested is exactly the page that was loaded. *)
Theorem rebuild_page_repair_is_sound
        (rebuild : rebuild_completion slab_depot)
        (completion : vdo_page_completion.t) (page : block_map_page.t) :
  vdo_page_completion.page completion = Some page ->
  isBlockMapPageInitialized page = true ->
  length (block_map_page.entries page) = BLOCK_MAP_ENTRIES_PER_PAGE ->
  (BlockMapSlot.slot (lastSlot _ rebuild) <= BLOCK_MAP_ENTRIES_PER_PAGE)%nat ->
  exists rebuild' page' write_requested,
    rebuildReferenceCountsFromPage
      BLOCK_MAP_ENTRIES_PER_PAGE isValidLocation slab_depot
      isPhysicalDataBlock adjustReferenceCountForRebuild rebuild completion
    = (VDO_SUCCESS, rebuild',
       vdo_page_completion.mk (Some page') write_requested)
    /\ getBlockMapPagePBN page' = getBlockMapPagePBN page
    /\ isBlockMapPageInitialized page' = true
    /\ length (block_map_page.entries page') = BLOCK_MAP_ENTRIES_PER_PAGE
    /\ (forall slot,
           (slot < BLOCK_MAP_ENTRIES_PER_PAGE)%nat ->
           repaired (unpackBlockMapEntry page slot)
                    (unpackBlockMapEntry page' slot)
           /\ (isMappedLocation (unpackBlockMapEntry page' slot) = true ->
               getBlockMapPagePBN page = BlockMapSlot.pbn (lastSlot _ rebuild) ->
               (slot < BlockMapSlot.slot (lastSlot _ rebuild))%nat))
    /\ (write_requested = false ->
        page' = page
        /\ vdo_page_completion.write_requested completion = false).
Proof.
  intros P I L F.
  set (first := BlockMapSlot.slot (lastSlot _ rebuild)) in *.
  unfold rebuildReferenceCountsFromPage. rewrite P, I. cbn [negb].
  set (s0 := mk_sweep _ page _ _ _).
  set (s1 := if getBlockMapPagePBN page =? BlockMapSlot.pbn (lastSlot _ rebuild)
             then remove_bogus_entries
                    _ (BLOCK_MAP_ENTRIES_PER_PAGE - first) first s0
             else s0).
  assert (exists mid,
             entries_of s1 = mid
             /\ length mid = BLOCK_MAP_ENTRIES_PER_PAGE
             /\ (forall slot,
                    (slot < BLOCK_MAP_ENTRIES_PER_PAGE)%nat ->
                    nth slot mid unmapped_entry
                    = nth slot (block_map_page.entries page) unmapped_entry
                    \/ getBlockMapPagePBN page
                       = BlockMapSlot.pbn (lastSlot _ rebuild)
                       /\ (first <= slot)%nat
                       /\ nth slot mid unmapped_entry
                          = without_mapping
                              (nth slot (block_map_page.entries page)
                                   unmapped_entry))
             /\ (forall slot,
                    getBlockMapPagePBN page
                    = BlockMapSlot.pbn (lastSlot _ rebuild) ->
                    (first <= slot < BLOCK_MAP_ENTRIES_PER_PAGE)%nat ->
                    isMappedLocation (nth slot mid unmapped_entry) = false)
             /\ (sweep_write_requested _ s1 = false ->
                 mid = block_map_page.entries page
                 /\ vdo_page_completion.write_requested completion = false)
             /\ block_map_page.pbn (sweep_page _ s1) = block_map_page.pbn page
             /\ block_map_page.initialized (sweep_page _ s1) = true)
    as (mid & E1 & LN & Mid & Beyond & W1 & P1 & I1).
  { subst s1.
    destruct (Z.eqb_spec (getBlockMapPagePBN page)
                         (BlockMapSlot.pbn (lastSlot _ rebuild))) as [B|B].
    - set (l1 := firstn first (block_map_page.entries page)).
      set (l2 := skipn first (block_map_page.entries page)).
      assert (block_map_page.entries page = l1 ++ l2) as E
          by (symmetry; apply firstn_skipn).
      assert (length l1 = first) as L1
          by (subst l1; rewrite length_firstn; lia).
      assert (length l2 = (BLOCK_MAP_ENTRIES_PER_PAGE - first)%nat) as L2
          by (subst l2; rewrite length_skipn; lia).
      destruct (remove_bogus_entries_spec slab_depot l2 l1 s0 E)
        as (E1 & W1 & _ & _ & P1).
      rewrite L1, L2 in *. cbn zeta in *.
      exists (l1 ++ map without_mapping l2).
      split; [exact E1|].
      split; [rewrite length_app, length_map; lia|].
      assert (forall slot,
                 (first <= slot)%nat ->
                 nth slot (l1 ++ map without_mapping l2) unmapped_entry
                 = without_mapping
                     (nth slot (block_map_page.entries page) unmapped_entry))
        as Rest.
      { intros slot S. rewrite E, !app_nth2 by lia.
        change unmapped_entry with (without_mapping unmapped_entry) at 1.
        rewrite map_nth. reflexivity. }
      split; [|split; [|split; [|split]]].
      + intros slot S. destruct (Nat.lt_ge_cases slot first) as [Lt|Ge].
        * left. rewrite E, !app_nth1 by lia. reflexivity.
        * right. auto.
      + intros slot _ [S _]. rewrite Rest by exact S.
        apply without_mapping_not_mapped.
      + rewrite W1. intros H. apply orb_false_iff in H. destruct H as [H1 H2].
        split; [|exact H1].
        rewrite without_mapping_same by exact H2. symmetry. exact E.
      + exact P1.
      + rewrite remove_bogus_entries_initialized. exact I.
    - exists (block_map_page.entries page).
      split; [reflexivity|]. split; [exact L|].
      split; [auto|]. split; [intros slot H; contradiction|]. auto. }
  destruct (inform_depot_sound mid [] s1 E1)
    as ([l' (E2 & K & Same)] & W2 & P2 & I2).
  rewrite LN in *. cbn [length app] in *. cbn zeta in *.
  set (s2 := inform_depot _ _ _ _ _ 0 s1) in *.
  eexists _, (sweep_page _ s2), _. split; [reflexivity|].
  split; [unfold getBlockMapPagePBN; congruence|].
  split; [unfold isBlockMapPageInitialized; congruence|].
  fold (entries_of s2). rewrite E2.
  split.
  { apply Forall2_length in K. lia. }
  split.
  - intros slot S.
    unfold unpackBlockMapEntry, unpack_block_map_entry.
    fold (entries_of s2). rewrite E2.
    change (data_location.mk ZERO_BLOCK MAPPING_STATE_UNMAPPED)
      with unmapped_entry.
    assert (R := repaired_nth mid l' slot unmapped_entry K).
    rewrite LN in R. specialize (R S).
    destruct R as [Kr Mr].
    assert (isMappedLocation (nth slot l' unmapped_entry) = true ->
            isMappedLocation (nth slot mid unmapped_entry) = true) as Mm.
    { intros H. destruct (Mr H) as (Eq & _). rewrite <- Eq. exact H. }
    split; [split|].
    + destruct Kr as [Kr|Kr]; [|right; exact Kr].
      rewrite Kr. destruct (Mid slot S) as [H|(_ & _ & H)].
      * left. exact H.
      * rewrite H. unfold without_mapping.
        destruct (isMappedLocation
                    (nth slot (block_map_page.entries page) unmapped_entry));
          [right | left]; reflexivity.
    + intros H. destruct (Mr H) as (Eq & V & D).
      destruct (Mid slot S) as [M|(B & Ge & M)].
      * rewrite <- M. auto.
      * exfalso. rewrite (Beyond slot B) in Mm by lia.
        specialize (Mm H). discriminate.
    + intros H B. destruct (Nat.lt_ge_cases slot first) as [Lt|Ge];
        [exact Lt|].
      exfalso. rewrite (Beyond slot B) in Mm by lia.
      specialize (Mm H). discriminate.
  - intros H. destruct (W1 (W2 H)) as [M C]. split; [|exact C].
    rewrite (Same H), M in E2.
    unfold entries_of in E2.
    destruct (sweep_page _ s2) as [pbn2 init2 ent2], page as [pbn0 init0 ent0].
    cbn in *. congruence.
Qed.
End rebuild_repair_properties.

Lemma rebuild_page_repair_is_sound_witness :
  exists rebuild' page' write_requested,
    rebuildReferenceCountsFromPage
      4 any_location_valid (list Z) listed_depot_is_data_block
      listed_depot_adjust (mk_rebuild _ [] 0 (BlockMapSlot.mk 9 2))
      (vdo_page_completion.mk (Some stray_leaf) false)
    = (VDO_SUCCESS, rebuild',
       vdo_page_completion.mk (Some page') write_requested)
    /\ getBlockMapPagePBN page' = getBlockMapPagePBN stray_leaf
    /\ isBlockMapPageInitialized page' = true
    /\ length (block_map_page.entries page') = 4%nat
    /\ (forall slot,
           (slot < 4)%nat ->
           entry_repaired any_location_valid (list Z)
                          listed_depot_is_data_block listed_depot_adjust
                          (unpackBlockMapEntry stray_leaf slot)
                          (unpackBlockMapEntry page' slot)
           /\ (isMappedLocation (unpackBlockMapEntry page' slot) = true ->
               getBlockMapPagePBN stray_leaf = 9 ->
               (slot < 2)%nat))
    /\ (write_requested = false ->
        page' = stray_leaf
        /\ vdo_page_completion.write_requested
             (vdo_page_completion.mk (Some stray_leaf) false) = false).
Proof.
  apply (rebuild_page_repair_is_sound
           4 any_location_valid (list Z) listed_depot_is_data_block
           listed_depot_adjust (mk_rebuild _ [] 0 (BlockMapSlot.mk 9 2))
           (vdo_page_completion.mk (Some stray_leaf) false) stray_leaf).
  - reflexivity.
  - reflexivity.
  - reflexivity.
  - simpl. lia.
Defined.

(** ** The driver of the leaf sweep *)

Section rebuild_driver_properties.
Variable BLOCK_MAP_ENTRIES_PER_PAGE : nat.
Variable isValidLocation : data_location.t -> bool.
Variable slab_depot : Type.
Variable isPhysicalDataBlock : slab_depot -> PhysicalBlockNumber -> bool.
Variable adjustReferenceCountForRebuild :
  slab_depot -> PhysicalBlockNumber -> status * slab_depot.
Variable findBlockMapPagePBN : Z -> PhysicalBlockNumber.
Variable entryCount : Z.

Abbreviation state := (rebuild_state slab_depot).
Abbreviation fetch :=
  (fetchPage slab_depot isPhysicalDataBlock findBlockMapPagePBN).
Abbreviation in_progress := (rebuild_in_progress slab_depot).

Lemma uint32_small x : 0 <= x < 2 ^ 32 -> uint32 x = x.
Proof. intros H. unfold uint32. apply Z.mod_small. exact H. Qed.

Lemma times_ended_emit ev (r : state) :
  times_ended _ (rebuild_emit _ ev r)
  = (times_ended _ r + if ends_rebuild ev then 1 else 0)%nat.
Proof.
  unfold times_ended, rebuild_emit. cbn.
  rewrite filter_app, length_app. cbn. destruct (ends_rebuild ev); reflexivity.
Qed.

(** finishIfDone does nothing while pages are being launched or loads
    are outstanding. *)
Lemma finishIfDone_busy (r : state) :
  launching _ r = true \/ 0 < outstanding _ r ->
  finishIfDone _ r = (false, r).
Proof.
  intros H. unfold finishIfDone.
  destruct (launching _ r); [reflexivity|].
  destruct H as [H|H]; [discriminate|].
  apply Z.ltb_lt in H. rewrite H. reflexivity.
Qed.

(** fetchPage, called while pages are being launched or loads are
    outstanding: it requests the next leaf that is allocated and lies
    in the depot, or runs out of leaves. *)
Lemma fetchPage_busy (n : nat) :
  forall r : state,
    launching _ r = true \/ 0 < outstanding _ r ->
    0 <= pageToFetch _ r <= leafPages _ r ->
    leafPages _ r < 2 ^ 32 ->
    0 <= outstanding _ r < 2 ^ 32 - 1 ->
    (Z.to_nat (leafPages _ r - pageToFetch _ r) <= n)%nat ->
    exists r',
      fetch n r = Some r'
      /\ launching _ r' = launching _ r
      /\ leafPages _ r' = leafPages _ r
      /\ pageCount _ r' = pageCount _ r
      /\ counts _ r' = counts _ r
      /\ pageToFetch _ r <= pageToFetch _ r' <= leafPages _ r
      /\ (aborted _ r = true -> aborted _ r' = true)
      /\ times_ended _ r' = times_ended _ r
      /\ (outstanding _ r' = outstanding _ r + 1
          /\ pageToFetch _ r < leafPages _ r
          /\ (exists pbn,
                 rebuild_trace _ r' = rebuild_trace _ r ++ [getVDOPageAsync pbn]
                 /\ pbn <> ZERO_BLOCK
                 /\ isPhysicalDataBlock (depot _ (counts _ r)) pbn = true)
          \/ outstanding _ r' = outstanding _ r
             /\ pageToFetch _ r' = leafPages _ r
             /\ rebuild_trace _ r' = rebuild_trace _ r).
Proof.
  induction n as [|n IH]; intros r B P L O Hn.
  - assert (pageToFetch _ r = leafPages _ r) as E by lia.
    cbn [fetchPage]. assert ((pageToFetch _ r <? leafPages _ r) = false) as ->
        by (apply Z.ltb_ge; lia).
    exists r. split; [reflexivity|]. repeat split; auto; try lia.
  - cbn [fetchPage].
    destruct (Z.ltb_spec (pageToFetch _ r) (leafPages _ r)) as [Lt|Ge].
    2:{ exists r. split; [reflexivity|]. repeat split; auto; try lia.
        right. repeat split; lia. }
    rewrite (uint32_small (pageToFetch _ r + 1)) by lia.
    set (r1 := with_pageToFetch _ (pageToFetch _ r + 1) r).
    assert (forall r2 : state,
               launching _ r2 = launching _ r ->
               leafPages _ r2 = leafPages _ r ->
               pageCount _ r2 = pageCount _ r ->
               counts _ r2 = counts _ r ->
               pageToFetch _ r2 = pageToFetch _ r + 1 ->
               outstanding _ r2 = outstanding _ r ->
               (aborted _ r = true -> aborted _ r2 = true) ->
               rebuild_trace _ r2 = rebuild_trace _ r ->
               exists r',
                 fetch n r2 = Some r'
                 /\ launching _ r' = launching _ r
                 /\ leafPages _ r' = leafPages _ r
                 /\ pageCount _ r' = pageCount _ r
                 /\ counts _ r' = counts _ r
                 /\ pageToFetch _ r <= pageToFetch _ r' <= leafPages _ r
                 /\ (aborted _ r = true -> aborted _ r' = true)
                 /\ times_ended _ r' = times_ended _ r
                 /\ (outstanding _ r' = outstanding _ r + 1
                     /\ pageToFetch _ r < leafPages _ r
                     /\ (exists pbn,
                            rebuild_trace _ r'
                            = rebuild_trace _ r ++ [getVDOPageAsync pbn]
                            /\ pbn <> ZERO_BLOCK
                            /\ isPhysicalDataBlock (depot _ (counts _ r)) pbn
                               = true)
                     \/ outstanding _ r' = outstanding _ r
                        /\ pageToFetch _ r' = leafPages _ r
                        /\ rebuild_trace _ r' = rebuild_trace _ r)) as Next.
    { intros r2 A1 A2 A3 A4 A5 A6 A7 A8.
      destruct (IH r2) as (r' & E & B1 & B2 & B3 & B4 & B5 & B6 & B7 & B8).
      - rewrite A1, A6. exact B.
      - lia.
      - lia.
      - lia.
      - lia.
      - exists r'. split; [exact E|].
        rewrite B1, B2, B3, B4, A1, A2, A3, A4.
        split; [reflexivity|]. split; [reflexivity|].
        split; [reflexivity|]. split; [reflexivity|].
        split; [lia|]. split; [auto|].
        split.
        { rewrite B7. unfold times_ended. rewrite A8. reflexivity. }
        rewrite A2, A4, A6, A8 in B8. destruct B8 as [(C1 & C2 & C3)|C]; [left|right; exact C].
        split; [exact C1|]. split; [exact Lt|]. exact C3. }
    destruct (Z.eqb_spec (findBlockMapPagePBN (pageToFetch _ r)) ZERO_BLOCK)
      as [Z0|Z0].
    { apply Next; auto. }
    change (depot _ (counts _ r1)) with (depot _ (counts _ r)).
    destruct (isPhysicalDataBlock
                (depot _ (counts _ r))
                (findBlockMapPagePBN (pageToFetch _ r))) eqn:D; cbn [negb].
    + rewrite (uint32_small (outstanding _ r1 + 1))
        by (change (outstanding _ r1) with (outstanding _ r); lia).
      eexists. split; [reflexivity|]. cbn.
      repeat split; auto; try lia.
      * unfold times_ended. rewrite filter_app, length_app. cbn. lia.
      * left. split; [reflexivity|]. split; [exact Lt|].
        exists (findBlockMapPagePBN (pageToFetch _ r)). auto.
    + rewrite finishIfDone_busy by exact B.
      apply Next; auto.
Qed.

Abbreviation requested_ok r :=
  (Forall (fun pbn => pbn <> ZERO_BLOCK
                      /\ isPhysicalDataBlock (depot _ (counts _ r)) pbn = true)).

(** The [for] loop of rebuildFromLeaves. *)
Lemma launch_pages_spec (n : nat) (i : nat) :
  forall r : state,
    launching _ r = true ->
    0 <= pageToFetch _ r <= leafPages _ r ->
    leafPages _ r < 2 ^ 32 ->
    0 <= outstanding _ r ->
    outstanding _ r + Z.of_nat i < 2 ^ 32 ->
    (Z.to_nat (leafPages _ r - pageToFetch _ r) <= n)%nat ->
    exists r' evs,
      launch_pages _ isPhysicalDataBlock findBlockMapPagePBN n i r = Some r'
      /\ launching _ r' = true
      /\ leafPages _ r' = leafPages _ r
      /\ pageCount _ r' = pageCount _ r
      /\ counts _ r' = counts _ r
      /\ pageToFetch _ r <= pageToFetch _ r' <= leafPages _ r
      /\ outstanding _ r <= outstanding _ r' <= outstanding _ r + Z.of_nat i
      /\ (pageToFetch _ r' < leafPages _ r ->
          outstanding _ r' = outstanding _ r + Z.of_nat i)
      /\ (aborted _ r = true -> aborted _ r' = true)
      /\ times_ended _ r' = times_ended _ r
      /\ rebuild_trace _ r' = rebuild_trace _ r ++ evs
      /\ Z.of_nat (length (flat_map requested_page evs))
         = outstanding _ r' - outstanding _ r
      /\ requested_ok r (flat_map requested_page evs).
Proof.
  induction i as [|i IH]; intros r La P L O Oi Hn.
  - exists r, []. cbn [launch_pages flat_map length]. rewrite app_nil_r.
    repeat split; auto; try lia.
  - cbn [launch_pages].
    destruct (fetchPage_busy n r) as (r1 & E & A1 & A2 & A3 & A4 & A5 & A6 & A7 & A8);
      auto; try lia.
    rewrite E.
    assert (outstanding _ r <= outstanding _ r1 <= outstanding _ r + 1) as O1
        by (destruct A8 as [(C & _)|(C & _)]; lia).
    destruct (IH r1) as (r' & evs & E' & B1 & B2 & B3 & B4 & B5 & B6 & B7
                         & B8 & B9 & B10 & B11 & B12);
      try lia.
    { rewrite A1. exact La. }
    exists r'.
    destruct A8 as [(C1 & C2 & pbn & C3 & C4 & C5)|(C1 & C2 & C3)].
    + exists (getVDOPageAsync pbn :: evs). split; [exact E'|].
      rewrite B2, B3, B4, A2, A3, A4.
      split; [exact B1|]. split; [reflexivity|]. split; [reflexivity|].
      split; [reflexivity|]. split; [lia|]. split; [lia|].
      split; [intros H; rewrite B7; lia|]. split; [auto|].
      split; [congruence|].
      split; [rewrite B10, C3, <- app_assoc; reflexivity|].
      cbn [flat_map requested_page app length].
      split; [lia|]. constructor; [auto|].
      rewrite A4 in B12. exact B12.
    + exists evs. split; [exact E'|].
      rewrite B2, B3, B4, A2, A3, A4.
      split; [exact B1|]. split; [reflexivity|]. split; [reflexivity|].
      split; [reflexivity|]. split; [lia|]. split; [lia|].
      split; [intros H; lia|]. split; [auto|].
      split; [congruence|].
      split; [rewrite B10, C3; reflexivity|].
      split; [lia|]. rewrite A4 in B12. exact B12.
Qed.

(** X10.  rebuildFromLeaves requests at most pageCount leaves, each an
    allocated leaf that lies in the depot, and leaves the driver in
    order: every page completion is in use unless the leaves ran out or
    the rebuild was aborted, and the rebuild is ended at once, exactly
    once, when no load was launched. *)
Theorem rebuildFromLeaves_starts_the_sweep (n : nat) (r : state) :
  outstanding _ r = 0 ->
  pageToFetch _ r = 0 ->
  times_ended _ r = 0%nat ->
  0 <= leafPages _ r < 2 ^ 32 ->
  1 <= pageCount _ r < 2 ^ 32 ->
  (Z.to_nat (leafPages _ r) <= n)%nat ->
  exists r' evs,
    rebuildFromLeaves BLOCK_MAP_ENTRIES_PER_PAGE slab_depot
                      isPhysicalDataBlock findBlockMapPagePBN entryCount n r
    = Some r'
    /\ in_progress r'
    /\ leafPages _ r' = leafPages _ r
    /\ pageCount _ r' = pageCount _ r
    /\ logicalBlocksUsed _ (counts _ r') = 0
    /\ rebuild_trace _ r' = rebuild_trace _ r ++ evs
    /\ Z.of_nat (length (flat_map requested_page evs)) = outstanding _ r'
    /\ requested_ok r (flat_map requested_page evs).
Proof.
  intros O P T L C Hn. unfold rebuildFromLeaves.
  set (r0 := with_launching _ true (with_counts _ _ r)).
  destruct (launch_pages_spec n (Z.to_nat (pageCount _ r)) r0)
    as (r1 & evs & E & A1 & A2 & A3 & A4 & A5 & A6 & A7 & A8 & A9 & A10
        & A11 & A12); subst r0; cbn; try lia.
  cbn in *. rewrite E.
  set (r2 := with_launching _ false r1).
  rewrite Z2Nat.id in * by lia. rewrite O, P in *.
  destruct (Z.ltb_spec 0 (outstanding _ r1)) as [Pos|Zero].
  - rewrite finishIfDone_busy by (right; exact Pos). cbn [snd].
    exists r2, evs. split; [reflexivity|]. subst r2. cbn.
    split.
    { unfold rebuild_in_progress. cbn. rewrite A2, A3.
      split; [reflexivity|]. split; [lia|]. split; [lia|].
      split; [lia|]. split; [lia|]. split; [intros _ H; apply A7; exact H|].
      unfold times_ended in *. cbn. rewrite A9, T.
      assert ((outstanding _ r1 =? 0) = false) as -> by (apply Z.eqb_neq; lia).
      reflexivity. }
    rewrite A4. cbn. repeat split; auto; lia.
  - assert (outstanding _ r1 = 0) as O1 by lia.
    assert (pageToFetch _ r1 = leafPages _ r) as P1.
    { destruct (Z.lt_ge_cases (pageToFetch _ r1) (leafPages _ r)) as [H|H];
        [apply A7 in H|]; lia. }
    assert (exists ev,
               ends_rebuild ev = true
               /\ finishIfDone _ r2 = (true, rebuild_emit _ ev r2))
      as (ev & Ev & F).
    { unfold finishIfDone. subst r2. cbn. rewrite O1. cbn.
      destruct (aborted _ r1); [exists completeCompletion; auto|].
      rewrite A2, P1, Z.ltb_irrefl. exists flushBlockMapUpdates. auto. }
    rewrite F. cbn [snd].
    exists (rebuild_emit _ ev r2), (evs ++ [ev]).
    split; [reflexivity|]. subst r2. cbn.
    split.
    { unfold rebuild_in_progress. cbn. rewrite A2, A3, O1, P1.
      split; [reflexivity|]. split; [lia|]. split; [lia|].
      split; [lia|]. split; [lia|]. split; [intros _ H; lia|].
      unfold times_ended in *. cbn. rewrite filter_app, length_app.
      rewrite A9, T. cbn. rewrite Ev. reflexivity. }
    rewrite A4. cbn. rewrite A10, <- app_assoc, flat_map_app.
    assert (flat_map requested_page [ev] = []) as ->
        by (destruct ev; cbn in *; auto; discriminate).
    rewrite app_nil_r. repeat split; auto; lia.
Qed.

Abbreviation sweep_page_counts :=
  (rebuildReferenceCountsFromPage
     BLOCK_MAP_ENTRIES_PER_PAGE isValidLocation slab_depot
     isPhysicalDataBlock adjustReferenceCountForRebuild).
Abbreviation page_loaded :=
  (pageLoaded BLOCK_MAP_ENTRIES_PER_PAGE isValidLocation slab_depot
              isPhysicalDataBlock adjustReferenceCountForRebuild
              findBlockMapPagePBN).

(** pageLoaded up to its call of finishIfDone. *)
Lemma pageLoaded_unfold n completion (r : state) :
  page_loaded n completion r
  = let r1 := with_outstanding _ (uint32 (outstanding _ r - 1)) r in
    let result := fst (fst (sweep_page_counts (counts _ r) completion)) in
    let counts' := snd (fst (sweep_page_counts (counts _ r) completion)) in
    let completion' := snd (sweep_page_counts (counts _ r) completion) in
    let r2 := with_counts _ counts' r1 in
    let r3 := if negb (status_eqb result VDO_SUCCESS)
              then abortRebuild _ result r2 else r2 in
    let r4 := rebuild_emit _ releaseVDOPageCompletion r3 in
    if fst (finishIfDone _ r4) then Some (snd (finishIfDone _ r4), completion')
    else match fetch n (snd (finishIfDone _ r4)) with
         | Some r5 => Some (r5, completion')
         | None => None
         end.
Proof.
  unfold pageLoaded. cbn zeta.
  change (counts _ (with_outstanding _ (uint32 (outstanding _ r - 1)) r))
    with (counts _ r).
  destruct (sweep_page_counts (counts _ r) completion)
    as [[result counts'] completion'].
  cbn [fst snd]. destruct (finishIfDone _ _) as [done r5]. reflexivity.
Qed.

(** X11.  With at least two page completions the sweep never comes to
    rest unfinished: when a page load completes (pageLoaded) or fails
    (handlePageLoadError), the driver is in order again afterwards.  In
    particular the rebuild is ended exactly when the last outstanding
    load has been handled, and never twice. *)
Theorem page_callbacks_keep_rebuild_in_progress
        (n : nat) (completion : vdo_page_completion.t) (result : status)
        (r : state) :
  in_progress r ->
  1 <= outstanding _ r ->
  2 <= pageCount _ r ->
  (Z.to_nat (leafPages _ r - pageToFetch _ r) <= n)%nat ->
  (exists r' completion',
      page_loaded n completion r = Some (r', completion')
      /\ in_progress r'
      /\ outstanding _ r - 1 <= outstanding _ r' <= outstanding _ r)
  /\ in_progress (handlePageLoadError _ result r)
  /\ outstanding _ (handlePageLoadError _ result r) = outstanding _ r - 1
  /\ aborted _ (handlePageLoadError _ result r) = true.
Proof.
  intros (La & P & L & O & C & Full & T) O1 C2 Hn.
  assert ((outstanding _ r =? 0) = false) as Nz by (apply Z.eqb_neq; lia).
  rewrite Nz in T.
  split.
  - rewrite pageLoaded_unfold. cbn zeta.
    rewrite (uint32_small (outstanding _ r - 1)) by lia.
    set (result' := fst (fst (sweep_page_counts (counts _ r) completion))).
    set (counts' := snd (fst (sweep_page_counts (counts _ r) completion))).
    set (completion' := snd (sweep_page_counts (counts _ r) completion)).
    set (r2 := with_counts _ counts' (with_outstanding _ (outstanding _ r - 1) r)).
    set (r3 := if negb (status_eqb result' VDO_SUCCESS)
               then abortRebuild _ result' r2 else r2).
    set (r4 := rebuild_emit _ releaseVDOPageCompletion r3).
    assert (launching _ r4 = false /\ pageToFetch _ r4 = pageToFetch _ r
            /\ leafPages _ r4 = leafPages _ r
            /\ pageCount _ r4 = pageCount _ r
            /\ outstanding _ r4 = outstanding _ r - 1
            /\ (aborted _ r = true -> aborted _ r4 = true)
            /\ (aborted _ r4 = false -> aborted _ r = false)
            /\ times_ended _ r4 = 0%nat)
      as (A1 & A2 & A3 & A4 & A5 & A6 & A7 & A8).
    { subst r4 r3 r2. destruct (negb _); cbn; repeat split; auto;
        try discriminate;
        unfold times_ended in *; cbn; rewrite filter_app, length_app, T;
        reflexivity. }
    destruct (Z.ltb_spec 0 (outstanding _ r4)) as [Pos|Zero].
    + rewrite finishIfDone_busy by (right; exact Pos). cbn [fst snd].
      destruct (fetchPage_busy n r4)
        as (r5 & E & B1 & B2 & B3 & B4 & B5 & B6 & B7 & B8);
        auto; try lia.
      rewrite E. exists r5, completion'. split; [reflexivity|].
      assert (outstanding _ r - 1 <= outstanding _ r5 <= outstanding _ r)
        as O5 by (destruct B8 as [(D & _)|(D & _)]; lia).
      split; [|exact O5].
      unfold rebuild_in_progress. rewrite B1, B2, B3, A1, A3, A4.
      split; [reflexivity|]. split; [lia|]. split; [lia|].
      split; [lia|]. split; [lia|]. split.
      * intros Ab Lt. destruct B8 as [(D1 & D2 & _)|(D1 & D2 & _)]; [|lia].
        rewrite D1, A5. rewrite <- Full; [lia| |lia].
        destruct (aborted _ r) eqn:Ar; [|reflexivity].
        rewrite B6 in Ab by (apply A6; reflexivity). discriminate.
      * rewrite B7, A8.
        assert ((outstanding _ r5 =? 0) = false) as ->; [|reflexivity].
        apply Z.eqb_neq. destruct B8 as [(D & _)|(D & _)]; lia.
    + assert (outstanding _ r = 1) as One by lia.
      assert (exists ev,
                 ends_rebuild ev = true
                 /\ (ev = flushBlockMapUpdates ->
                     leafPages _ r <= pageToFetch _ r)
                 /\ finishIfDone _ r4 = (true, rebuild_emit _ ev r4))
        as (ev & Ev & Fl & F).
      { unfold finishIfDone. rewrite A1. cbn [orb].
        assert ((0 <? outstanding _ r4) = false) as ->
            by (apply Z.ltb_ge; lia).
        destruct (aborted _ r4) eqn:Ab.
        - exists completeCompletion. split; [reflexivity|].
          split; [discriminate | reflexivity].
        - rewrite A2, A3.
          destruct (Z.ltb_spec (pageToFetch _ r) (leafPages _ r)) as [Lt|Ge].
          + exfalso. specialize (Full (A7 eq_refl) Lt). lia.
          + exists flushBlockMapUpdates. auto. }
      rewrite F. cbn [fst snd].
      exists (rebuild_emit _ ev r4), completion'. split; [reflexivity|].
      cbn [outstanding rebuild_emit]. split; [|lia].
      unfold rebuild_in_progress. cbn [launching pageToFetch leafPages
                                      outstanding pageCount aborted
                                      rebuild_emit].
      rewrite A1, A2, A3, A4, A5.
      split; [reflexivity|]. split; [lia|]. split; [lia|].
      split; [lia|]. split; [lia|]. split.
      * intros Ab Lt. exfalso. specialize (Full (A7 Ab) Lt). lia.
      * rewrite times_ended_emit, A8, Ev, One. reflexivity.
  - unfold handlePageLoadError.
    rewrite (uint32_small (outstanding _ r - 1)) by lia.
    set (r3 := rebuild_emit _ releaseVDOPageCompletion
                 (abortRebuild _ result (with_outstanding _ (outstanding _ r - 1) r))).
    assert (times_ended _ r3 = 0%nat) as T3.
    { subst r3. unfold times_ended in *. cbn.
      rewrite filter_app, length_app, T. reflexivity. }
    assert (launching _ r3 = false /\ pageToFetch _ r3 = pageToFetch _ r
            /\ leafPages _ r3 = leafPages _ r
            /\ pageCount _ r3 = pageCount _ r
            /\ outstanding _ r3 = outstanding _ r - 1
            /\ aborted _ r3 = true)
      as (A1 & A2 & A3 & A4 & A5 & A6) by (subst r3; cbn; repeat split; auto).
    destruct (Z.ltb_spec 0 (outstanding _ r - 1)) as [Pos|Zero].
    + rewrite finishIfDone_busy by (right; rewrite A5; exact Pos).
      cbn [snd]. split; [|auto].
      unfold rebuild_in_progress. rewrite A1, A2, A3, A4, A5, A6, T3.
      split; [reflexivity|]. split; [lia|]. split; [lia|].
      split; [lia|]. split; [lia|]. split; [discriminate|].
      assert ((outstanding _ r - 1 =? 0) = false) as ->; [|reflexivity].
      apply Z.eqb_neq. lia.
    + assert (finishIfDone _ r3 = (true, rebuild_emit _ completeCompletion r3))
        as F.
      { unfold finishIfDone. rewrite A1, A5, A6. cbn [orb].
        assert ((0 <? outstanding _ r - 1) = false) as ->
            by (apply Z.ltb_ge; lia).
        reflexivity. }
      rewrite F. cbn [snd].
      cbn [outstanding aborted rebuild_emit]. split; [|auto].
      unfold rebuild_in_progress.
      rewrite times_ended_emit, T3.
      cbn [launching pageToFetch leafPages outstanding pageCount aborted
           rebuild_emit].
      rewrite A1, A2, A3, A4, A5, A6.
      split; [reflexivity|]. split; [lia|]. split; [lia|].
      split; [lia|]. split; [lia|]. split; [discriminate|].
      assert ((outstanding _ r - 1 =? 0) = true) as ->; [|reflexivity].
      apply Z.eqb_eq. lia.
Qed.

(** fetchPage when none of the remaining leaves is allocated. *)
Lemma fetchPage_unallocated (n : nat) :
  forall r : state,
    0 <= pageToFetch _ r <= leafPages _ r ->
    leafPages _ r < 2 ^ 32 ->
    (forall i, pageToFetch _ r <= i < leafPages _ r ->
               findBlockMapPagePBN i = ZERO_BLOCK) ->
    (Z.to_nat (leafPages _ r - pageToFetch _ r) <= n)%nat ->
    exists r',
      fetch n r = Some r'
      /\ pageToFetch _ r' = leafPages _ r
      /\ outstanding _ r' = outstanding _ r
      /\ aborted _ r' = aborted _ r
      /\ launching _ r' = launching _ r
      /\ rebuild_trace _ r' = rebuild_trace _ r.
Proof.
  induction n as [|n IH]; intros r P L Z0 Hn; cbn [fetchPage].
  - assert ((pageToFetch _ r <? leafPages _ r) = false) as ->
        by (apply Z.ltb_ge; lia).
    exists r. repeat split; auto. lia.
  - destruct (Z.ltb_spec (pageToFetch _ r) (leafPages _ r)) as [Lt|Ge].
    2:{ exists r. repeat split; auto. lia. }
    rewrite (Z0 (pageToFetch _ r)) by lia. cbn [Z.eqb ZERO_BLOCK].
    rewrite (uint32_small (pageToFetch _ r + 1)) by lia.
    destruct (IH (with_pageToFetch _ (pageToFetch _ r + 1) r))
      as (r' & E & A); cbn; try lia.
    + intros i Hi. apply Z0. lia.
    + exists r'. split; [exact E | exact A].
Qed.

(** X12.  With a single page completion the sweep can come to rest
    without ending the rebuild.  If the only outstanding load completes
    while leaves remain, and none of the remaining leaves is allocated,
    pageLoaded tests finishIfDone before it fetches, finds leaves left,
    and then runs through them without requesting a page: no load is
    outstanding afterwards, and the rebuild has been neither completed
    nor sent on to the flush of the block map. *)
Theorem pageLoaded_can_leave_the_rebuild_unfinished
        (n : nat) (completion : vdo_page_completion.t)
        (page : block_map_page.t) (r : state) :
  launching _ r = false ->
  aborted _ r = false ->
  outstanding _ r = 1 ->
  0 <= pageToFetch _ r < leafPages _ r ->
  leafPages _ r < 2 ^ 32 ->
  vdo_page_completion.page completion = Some page ->
  (forall i, pageToFetch _ r <= i < leafPages _ r ->
             findBlockMapPagePBN i = ZERO_BLOCK) ->
  (Z.to_nat (leafPages _ r - pageToFetch _ r) <= n)%nat ->
  exists r' completion',
    page_loaded n completion r = Some (r', completion')
    /\ outstanding _ r' = 0
    /\ pageToFetch _ r' = leafPages _ r
    /\ aborted _ r' = false
    /\ launching _ r' = false
    /\ rebuild_trace _ r' = rebuild_trace _ r ++ [releaseVDOPageCompletion]
    /\ times_ended _ r' = times_ended _ r.
Proof.
  intros La Ab O P L Pg Z0 Hn. rewrite pageLoaded_unfold. cbn zeta.
  rewrite O. change (uint32 (1 - 1)) with 0.
  assert (fst (fst (sweep_page_counts (counts _ r) completion)) = VDO_SUCCESS)
    as ->.
  { unfold rebuildReferenceCountsFromPage. rewrite Pg.
    destruct (negb (isBlockMapPageInitialized page)); reflexivity. }
  rewrite status_eqb_refl. cbn [negb].
  set (r4 := rebuild_emit _ releaseVDOPageCompletion _).
  assert (finishIfDone _ r4 = (false, r4)) as ->.
  { unfold finishIfDone. subst r4. cbn. rewrite La, Ab. cbn.
    assert ((pageToFetch _ r <? leafPages _ r) = true) as ->
        by (apply Z.ltb_lt; lia).
    reflexivity. }
  cbn [fst snd].
  destruct (fetchPage_unallocated n r4) as (r' & E & A1 & A2 & A3 & A4 & A5);
    subst r4; cbn; try lia; try exact Z0.
  cbn in *. rewrite E. exists r'. eexists. split; [reflexivity|].
  repeat split; try congruence.
  unfold times_ended. rewrite A5, filter_app, length_app. cbn. lia.
Qed.

Lemma fetchPage_counts (n : nat) :
  forall r r' : state, fetch n r = Some r' -> counts _ r' = counts _ r.
Proof.
  induction n as [|n IH]; intros r r'; cbn [fetchPage].
  - destruct (_ <? _); [discriminate|]. intros E. injection E as <-.
    reflexivity.
  - destruct (_ <? _); [|intros E; injection E as <-; reflexivity].
    destruct (_ =? ZERO_BLOCK).
    { intros E. apply IH in E. exact E. }
    destruct (negb _).
    + unfold finishIfDone.
      destruct (_ || _); [intros E; apply IH in E; exact E|].
      cbn [aborted abortRebuild].
      intros E. injection E as <-. reflexivity.
    + intros E. injection E as <-. reflexivity.
Qed.

Lemma launch_pages_counts (n i : nat) :
  forall r r' : state,
    launch_pages _ isPhysicalDataBlock findBlockMapPagePBN n i r = Some r' ->
    counts _ r' = counts _ r.
Proof.
  induction i as [|i IH]; intros r r'; cbn [launch_pages].
  - intros E. injection E as <-. reflexivity.
  - destruct (fetch n r) as [r1|] eqn:E1; [|discriminate].
    intros E. apply IH in E. apply fetchPage_counts in E1. congruence.
Qed.

(** X13.  When the logical space ends exactly at the end of a leaf
    (entryCount is a multiple of the entries per page), rebuildFromLeaves
    sets lastSlot to slot 0 of the last leaf, and the sweep of that leaf
    then removes every mapping it holds: after
    rebuildReferenceCountsFromPage no entry of the last leaf is mapped,
    although all its slots lie within the logical space. *)
Theorem rebuild_unmaps_a_full_last_leaf
        (n : nat) (r r' : state) (completion : vdo_page_completion.t)
        (page : block_map_page.t) :
  (0 < BLOCK_MAP_ENTRIES_PER_PAGE)%nat ->
  entryCount mod Z.of_nat BLOCK_MAP_ENTRIES_PER_PAGE = 0 ->
  rebuildFromLeaves BLOCK_MAP_ENTRIES_PER_PAGE slab_depot
                    isPhysicalDataBlock findBlockMapPagePBN entryCount n r
  = Some r' ->
  vdo_page_completion.page completion = Some page ->
  isBlockMapPageInitialized page = true ->
  getBlockMapPagePBN page = findBlockMapPagePBN (uint32 (leafPages _ r - 1)) ->
  length (block_map_page.entries page) = BLOCK_MAP_ENTRIES_PER_PAGE ->
  exists counts' page' write_requested,
    sweep_page_counts (counts _ r') completion
    = (VDO_SUCCESS, counts',
       vdo_page_completion.mk (Some page') write_requested)
    /\ (forall slot,
           (slot < BLOCK_MAP_ENTRIES_PER_PAGE)%nat ->
           isMappedLocation (unpackBlockMapEntry page' slot) = false)
    /\ (existsb isMappedLocation (block_map_page.entries page) = true ->
        write_requested = true).
Proof.
  intros Pos Mod R Pg I B L.
  assert (lastSlot _ (counts _ r')
          = BlockMapSlot.mk
              (findBlockMapPagePBN (uint32 (leafPages _ r - 1))) 0) as LS.
  { unfold rebuildFromLeaves in R.
    destruct (launch_pages _ _ _ n _ _) as [r1|] eqn:E1; [|discriminate].
    apply launch_pages_counts in E1. injection R as <-.
    assert (counts _ (snd (finishIfDone _ (with_launching _ false r1)))
            = counts _ r1) as ->.
    { unfold finishIfDone. destruct (_ || _); [reflexivity|].
      destruct (aborted _ _); [reflexivity|].
      destruct (_ <? _); reflexivity. }
    rewrite E1. cbn. rewrite Mod. reflexivity. }
  unfold rebuildReferenceCountsFromPage. rewrite Pg, I. cbn [negb].
  rewrite LS. cbn [BlockMapSlot.pbn BlockMapSlot.slot].
  apply Z.eqb_eq in B. rewrite B. rewrite Nat.sub_0_r.
  set (s0 := mk_sweep _ page _ _ _).
  destruct (remove_bogus_entries_spec
              slab_depot (block_map_page.entries page) [] s0 eq_refl)
    as (E1 & W1 & _).
  cbn zeta in E1, W1. cbn [length app] in E1, W1. rewrite L in E1, W1.
  set (s1 := remove_bogus_entries _ BLOCK_MAP_ENTRIES_PER_PAGE 0 s0) in *.
  destruct (inform_depot_sound
              isValidLocation slab_depot isPhysicalDataBlock
              adjustReferenceCountForRebuild
              (map without_mapping (block_map_page.entries page)) [] s1 E1)
    as ([l' (E2 & K & _)] & W2 & _).
  rewrite length_map, L in *. cbn [length app] in *. cbn zeta in *.
  set (s2 := inform_depot _ _ _ _ _ 0 s1) in *.
  eexists _, (sweep_page _ s2), _. split; [reflexivity|]. split.
  - intros slot S.
    unfold unpackBlockMapEntry, unpack_block_map_entry.
    change (block_map_page.entries (sweep_page _ s2))
      with (entries_of slab_depot s2).
    rewrite E2.
    change (data_location.mk ZERO_BLOCK MAPPING_STATE_UNMAPPED)
      with unmapped_entry.
    destruct (repaired_nth
                isValidLocation slab_depot isPhysicalDataBlock
                adjustReferenceCountForRebuild _ _ slot unmapped_entry K)
      as [[Kr|Kr] _].
    + rewrite length_map. lia.
    + rewrite Kr.
      change unmapped_entry with (without_mapping unmapped_entry) at 1.
      rewrite map_nth. apply without_mapping_not_mapped.
    + rewrite Kr. reflexivity.
  - intros Ex.
    destruct (sweep_write_requested _ s2) eqn:Wr; [reflexivity|].
    rewrite (W2 eq_refl) in W1. symmetry in W1.
    apply orb_false_iff in W1. destruct W1 as [_ W1]. congruence.
Qed.
End rebuild_driver_properties.

Lemma rebuildFromLeaves_starts_the_sweep_witness :
  exists r' evs,
    rebuildFromLeaves 4 (list Z) listed_depot_is_data_block dense_leaves 10
                      3 (rebuild_start 2)
    = Some r'
    /\ rebuild_in_progress _ r'
    /\ leafPages _ r' = leafPages _ (rebuild_start 2)
    /\ pageCount _ r' = pageCount _ (rebuild_start 2)
    /\ logicalBlocksUsed _ (counts _ r') = 0
    /\ rebuild_trace _ r' = rebuild_trace _ (rebuild_start 2) ++ evs
    /\ Z.of_nat (length (flat_map requested_page evs)) = outstanding _ r'
    /\ Forall (fun pbn =>
                 pbn <> ZERO_BLOCK
                 /\ listed_depot_is_data_block
                      (depot _ (counts _ (rebuild_start 2))) pbn = true)
              (flat_map requested_page evs).
Proof.
  apply (rebuildFromLeaves_starts_the_sweep
           4 (list Z) listed_depot_is_data_block dense_leaves 10
           3 (rebuild_start 2)).
  - reflexivity.
  - reflexivity.
  - reflexivity.
  - simpl. lia.
  - simpl. lia.
  - simpl. lia.
Defined.

Lemma page_callbacks_keep_rebuild_in_progress_witness :
  (exists r' completion',
      pageLoaded 4 any_location_valid (list Z) listed_depot_is_data_block
                 listed_depot_adjust dense_leaves 3
                 (vdo_page_completion.mk (Some stray_leaf) false)
                 rebuild_two_loading
      = Some (r', completion')
      /\ rebuild_in_progress _ r'
      /\ outstanding _ rebuild_two_loading - 1 <= outstanding _ r'
         <= outstanding _ rebuild_two_loading)
  /\ rebuild_in_progress
       _ (handlePageLoadError _ (error_code 5) rebuild_two_loading)
  /\ outstanding _ (handlePageLoadError _ (error_code 5) rebuild_two_loading)
     = outstanding _ rebuild_two_loading - 1
  /\ aborted _ (handlePageLoadError _ (error_code 5) rebuild_two_loading)
     = true.
Proof.
  apply (page_callbacks_keep_rebuild_in_progress
           4 any_location_valid (list Z) listed_depot_is_data_block
           listed_depot_adjust dense_leaves 3
           (vdo_page_completion.mk (Some stray_leaf) false) (error_code 5)
           rebuild_two_loading).
  - unfold rebuild_in_progress. simpl. repeat split; try lia; reflexivity.
  - simpl. lia.
  - simpl. lia.
  - simpl. lia.
Defined.

Lemma pageLoaded_can_leave_the_rebuild_unfinished_witness :
  exists r' completion',
    pageLoaded 4 any_location_valid (list Z) listed_depot_is_data_block
               listed_depot_adjust sparse_leaves 3
               (vdo_page_completion.mk (Some stray_leaf) false)
               rebuild_one_loading
    = Some (r', completion')
    /\ outstanding _ r' = 0
    /\ pageToFetch _ r' = leafPages _ rebuild_one_loading
    /\ aborted _ r' = false
    /\ launching _ r' = false
    /\ rebuild_trace _ r'
       = rebuild_trace _ rebuild_one_loading ++ [releaseVDOPageCompletion]
    /\ times_ended _ r' = times_ended _ rebuild_one_loading.
Proof.
  apply (pageLoaded_can_leave_the_rebuild_unfinished
           4 any_location_valid (list Z) listed_depot_is_data_block
           listed_depot_adjust sparse_leaves 3
           (vdo_page_completion.mk (Some stray_leaf) false) stray_leaf
           rebuild_one_loading).
  - reflexivity.
  - reflexivity.
  - reflexivity.
  - simpl. lia.
  - simpl. lia.
  - reflexivity.
  - intros i Hi. simpl in Hi. unfold sparse_leaves.
    destruct (Z.eqb_spec i 0); [lia | reflexivity].
  - simpl. lia.
Defined.

Lemma rebuild_unmaps_a_full_last_leaf_witness :
  exists counts' page' write_requested,
    rebuildReferenceCountsFromPage
      4 any_location_valid (list Z) listed_depot_is_data_block
      listed_depot_adjust
      (counts _ rebuild_full_last_leaf)
      (vdo_page_completion.mk (Some full_leaf) false)
    = (VDO_SUCCESS, counts',
       vdo_page_completion.mk (Some page') write_requested)
    /\ (forall slot,
           (slot < 4)%nat ->
           isMappedLocation (unpackBlockMapEntry page' slot) = false)
    /\ (existsb isMappedLocation (block_map_page.entries full_leaf) = true ->
        write_requested = true).
Proof.
  apply (rebuild_unmaps_a_full_last_leaf
           4 any_location_valid (list Z) listed_depot_is_data_block
           listed_depot_adjust dense_leaves 12
           3 (rebuild_start 2)
           rebuild_full_last_leaf
           (vdo_page_completion.mk (Some full_leaf) false) full_leaf).
  - lia.
  - reflexivity.
  - reflexivity.
  - reflexivity.
  - reflexivity.
  - reflexivity.
  - reflexivity.
Defined.

(** ** Encoding the super block *)

Lemma firstn_exact {A : Type} (n : nat) (l1 l2 : list A) :
  length l1 = n -> firstn n (l1 ++ l2) = l1.
Proof.
  intros <-. rewrite firstn_app, Nat.sub_diag, firstn_all. cbn.
  apply app_nil_r.
Qed.

Lemma skipn_exact {A : Type} (n : nat) (l1 l2 : list A) :
  length l1 = n -> skipn n (l1 ++ l2) = l2.
Proof.
  intros <-. rewrite skipn_app, Nat.sub_diag, skipn_all. reflexivity.
Qed.

Lemma le_value_le_bytes (n : nat) (v : Z) :
  le_value (le_bytes n v) = v mod 256 ^ Z.of_nat n.
Proof.
  revert v. induction n as [|n IH]; intros v; cbn [le_bytes le_value].
  - cbn. rewrite Z.mod_1_r. reflexivity.
  - rewrite IH, Nat2Z.inj_succ, Z.pow_succ_r by lia.
    rewrite Z.rem_mul_r; [reflexivity | lia | apply Z.pow_pos_nonneg; lia].
Qed.

Lemma length_le_bytes (n : nat) (v : Z) : length (le_bytes n v) = n.
Proof.
  revert v. induction n as [|n IH]; intros v; cbn; [|rewrite IH]; reflexivity.
Qed.

(** put_bytes when the bytes fit after the content: they are written at
    the end of the content, and nothing else moves. *)
Lemma put_bytes_at_end (b : buffer.t) (len : Z) (bytes pre rest : list byte) :
  buffer.data b = pre ++ rest ->
  Z.of_nat (length pre) = buffer.end_ b ->
  0 <= len <= available_space b ->
  put_bytes b len bytes
  = (UDS_SUCCESS,
     buffer.mk (pre ++ firstn (Z.to_nat len) bytes ++ skipn (Z.to_nat len) rest)
               (buffer.start b) (buffer.end_ b + len) (buffer.length b)).
Proof.
  intros D E R. unfold put_bytes.
  assert ((len <=? available_space b) = true) as -> by (apply Z.leb_le; lia).
  assert ((available_space b <? len) = false) as -> by (apply Z.ltb_ge; lia).
  f_equal. f_equal. rewrite D.
  rewrite firstn_exact by lia.
  rewrite Z2Nat.inj_add, Nat.add_comm, <- skipn_skipn by lia.
  rewrite skipn_exact by lia. reflexivity.
Qed.

(** put_bytes fails when the bytes do not fit, even after compaction. *)
Lemma put_bytes_no_room (b : buffer.t) (len : Z) (bytes : list byte) :
  0 <= buffer.start b ->
  buffer.length b - content_length b < len ->
  fst (put_bytes b len bytes) = UDS_BUFFER_ERROR.
Proof.
  intros S R. unfold put_bytes.
  destruct (len <=? available_space b) eqn:A.
  - apply Z.leb_le in A. unfold available_space, content_length in *. lia.
  - assert ((available_space (compact_buffer b) <? len) = true) as ->;
      [|reflexivity].
    apply Z.ltb_lt. unfold available_space, compact_buffer. cbn. lia.
Qed.

(** The bytes of a number are 8-bit values, and the little-endian header
    layout reads back every header whose fields are 32-bit numbers. *)
Lemma le_bytes_are_bytes (n : nat) (v : Z) :
  forallb is_byte (le_bytes n v) = true.
Proof.
  revert v. induction n as [|n IH]; intros v; cbn [le_bytes forallb];
    [reflexivity|].
  rewrite IH, andb_true_r. unfold is_byte.
  assert (0 <= v mod 256 < 256) as [L U] by (apply Z.mod_pos_bound; lia).
  apply andb_true_iff. split; [apply Z.leb_le | apply Z.ltb_lt]; assumption.
Qed.

Lemma le_pack_header_bytes (h : header.t) :
  length (le_pack_header h) = 16%nat
  /\ forallb is_byte (le_pack_header h) = true.
Proof.
  unfold le_pack_header. split.
  - rewrite !length_app, !length_le_bytes. reflexivity.
  - rewrite !forallb_app, !le_bytes_are_bytes. reflexivity.
Qed.

Lemma four_fields {A : Type} (a b c d : list A) :
  length a = 4%nat -> length b = 4%nat -> length c = 4%nat ->
  length d = 4%nat ->
  firstn 4 (a ++ b ++ c ++ d) = a
  /\ firstn 4 (skipn 4 (a ++ b ++ c ++ d)) = b
  /\ firstn 4 (skipn 8 (a ++ b ++ c ++ d)) = c
  /\ firstn 4 (skipn 12 (a ++ b ++ c ++ d)) = d.
Proof.
  intros La Lb Lc Ld.
  destruct a as [|a1 [|a2 [|a3 [|a4 [|]]]]]; try discriminate.
  destruct b as [|b1 [|b2 [|b3 [|b4 [|]]]]]; try discriminate.
  destruct c as [|c1 [|c2 [|c3 [|c4 [|]]]]]; try discriminate.
  destruct d as [|d1 [|d2 [|d3 [|d4 [|]]]]]; try discriminate.
  repeat split.
Qed.

Lemma le_header_round_trip (h : header.t) :
  0 <= header.id h < 2 ^ 32 ->
  0 <= header.major_version h < 2 ^ 32 ->
  0 <= header.minor_version h < 2 ^ 32 ->
  0 <= header.size h < 2 ^ 32 ->
  le_unpack_header (le_pack_header h) = h.
Proof.
  intros Hi Hma Hmi Hs. destruct h as [i ma mi sz].
  cbn [header.id header.major_version header.minor_version header.size] in *.
  unfold le_unpack_header, le_pack_header.
  cbn [header.id header.major_version header.minor_version header.size].
  destruct (four_fields (le_bytes 4 i) (le_bytes 4 ma) (le_bytes 4 mi)
                        (le_bytes 4 sz))
    as (-> & -> & -> & ->); try apply length_le_bytes.
  rewrite !le_value_le_bytes.
  change (256 ^ Z.of_nat 4) with (2 ^ 32).
  rewrite !Z.mod_small by lia. reflexivity.
Qed.

Section super_block_round_trip.
Variable SUPER_BLOCK : Z.
Variable ENCODED_HEADER_SIZE : Z.
Variable pack_header : header.t -> list byte.
Variable unpack_header : list byte -> header.t.
Variable validate_header : header.t -> header.t -> bool -> status.
Variable INITIAL_CHECKSUM : Z.
Variable update_crc32 : Z -> list byte -> Z.

Abbreviation encode :=
  (encode_super_block SUPER_BLOCK ENCODED_HEADER_SIZE pack_header
                      INITIAL_CHECKSUM update_crc32).
Abbreviation decode :=
  (decode_super_block SUPER_BLOCK ENCODED_HEADER_SIZE unpack_header
                      validate_header INITIAL_CHECKSUM update_crc32).
Abbreviation template :=
  (SUPER_BLOCK_HEADER_12_0 SUPER_BLOCK ENCODED_HEADER_SIZE).

(** The header that encode_super_block writes for [n] bytes of
    component data. *)
Abbreviation header_for n :=
  (header.mk SUPER_BLOCK 12 0 (uint64 (CHECKSUM_SIZE + n))).

Lemma length_buffer_content (b : buffer.t) :
  buffer_ok b ->
  length (buffer_content b) = Z.to_nat (content_length b).
Proof.
  intros (S & E & L). unfold buffer_content, get_buffer_contents.
  rewrite length_firstn, length_skipn. unfold content_length. lia.
Qed.

(** What encode_super_block writes when the encoding fits. *)
Lemma encode_super_block_fits (codec : super_block_codec.t) :
  let component := super_block_codec.component_buffer codec in
  let sector := super_block_codec.block_buffer codec in
  let n := content_length component in
  let h := header_for n in
  let payload := buffer_content component in
  let crc := update_crc32 INITIAL_CHECKSUM (pack_header h ++ payload) in
  0 <= ENCODED_HEADER_SIZE ->
  length (pack_header h) = Z.to_nat ENCODED_HEADER_SIZE ->
  buffer_ok component ->
  0 <= buffer.start sector ->
  Z.of_nat (length (buffer.data sector)) = buffer.length sector ->
  ENCODED_HEADER_SIZE + n + CHECKSUM_SIZE <= buffer.length sector ->
  encode codec
  = (UDS_SUCCESS,
     super_block_codec.mk
       component
       (buffer.mk
          (pack_header h ++ payload ++ le_bytes 4 crc
           ++ skipn (Z.to_nat (ENCODED_HEADER_SIZE + n + CHECKSUM_SIZE))
                    (buffer.data sector))
          0 (ENCODED_HEADER_SIZE + n + CHECKSUM_SIZE)
          (buffer.length sector))).
Proof.
  cbv zeta. intros H0 Hp Ok Ss Sl Fit.
  assert (Lp := length_buffer_content _ Ok).
  destruct Ok as (Cs & Ce & Cl).
  set (component := super_block_codec.component_buffer codec) in *.
  set (sector := super_block_codec.block_buffer codec) in *.
  set (n := content_length component) in *.
  assert (0 <= n) as Hn by (subst n; unfold content_length; lia).
  assert (CHECKSUM_SIZE = 4) as C4 by reflexivity.
  unfold encode_super_block. fold component sector n.
  unfold reset_buffer_end.
  assert ((buffer.length sector <? 0) = false) as ->
      by (apply Z.ltb_ge; lia).
  unfold UDS_SUCCESS. rewrite status_eqb_refl. cbn [negb].
  rewrite Z.min_r by lia.
  assert (header.mk (header.id template) (header.major_version template)
                    (header.minor_version template)
                    (uint64 (header.size template + n))
          = header_for n) as ->.
  { unfold SUPER_BLOCK_HEADER_12_0, SUPER_BLOCK_FIXED_SIZE, CHECKSUM_SIZE.
    cbn [header.id header.major_version header.minor_version header.size].
    do 2 f_equal. lia. }
  set (h := header_for n) in *.
  unfold encode_header.
  rewrite (put_bytes_at_end _ ENCODED_HEADER_SIZE (pack_header h) []
                            (buffer.data sector));
    [|reflexivity|reflexivity|unfold available_space; cbn; lia].
  unfold UDS_SUCCESS. rewrite status_eqb_refl. cbn [negb].
  cbn [app buffer.start buffer.end_ buffer.length].
  rewrite firstn_all2 by lia. rewrite Z.add_0_l.
  rewrite (put_bytes_at_end _ n (get_buffer_contents component)
                            (pack_header h)
                            (skipn (Z.to_nat ENCODED_HEADER_SIZE)
                                   (buffer.data sector)));
    [|reflexivity|cbn; lia|unfold available_space; cbn; lia].
  unfold UDS_SUCCESS. rewrite status_eqb_refl. cbn [negb].
  cbn [buffer.start buffer.end_ buffer.length buffer.data].
  change (firstn (Z.to_nat n) (get_buffer_contents component))
    with (buffer_content component).
  set (payload := buffer_content component) in *.
  unfold content_length. cbn [buffer.start buffer.end_].
  rewrite Z.sub_0_r.
  assert (firstn (Z.to_nat (ENCODED_HEADER_SIZE + n))
                 (pack_header h ++ payload
                  ++ skipn (Z.to_nat n)
                           (skipn (Z.to_nat ENCODED_HEADER_SIZE)
                                  (buffer.data sector)))
          = pack_header h ++ payload) as ->.
  { rewrite app_assoc. apply firstn_exact. rewrite length_app. lia. }
  set (crc := update_crc32 INITIAL_CHECKSUM (pack_header h ++ payload)).
  unfold put_uint32_le_into_buffer.
  rewrite (put_bytes_at_end _ 4 (le_bytes 4 crc)
                            (pack_header h ++ payload)
                            (skipn (Z.to_nat n)
                                   (skipn (Z.to_nat ENCODED_HEADER_SIZE)
                                          (buffer.data sector))));
    [|cbn; rewrite app_assoc; reflexivity
     |cbn; rewrite length_app; lia
     |unfold available_space; cbn; lia].
  unfold UDS_SUCCESS. rewrite status_eqb_refl. cbn [negb].
  cbn [buffer.start buffer.end_ buffer.length].
  do 3 f_equal. rewrite <- app_assoc. do 2 f_equal.
  rewrite (firstn_all2 (n := Z.to_nat 4))
    by (rewrite length_le_bytes; reflexivity).
  f_equal. rewrite !skipn_skipn. f_equal. lia.
Qed.

(** decode_super_block on a sector that holds a header, a payload and
    the four bytes of a checksum. *)
Lemma decode_super_block_of_encoding
      (target sector : buffer.t) (hdr payload rest : list byte) (crc : Z) :
  buffer.data sector = hdr ++ payload ++ le_bytes 4 crc ++ rest ->
  Z.of_nat (length (buffer.data sector)) = buffer.length sector ->
  buffer.length sector < 2 ^ 64 ->
  0 <= ENCODED_HEADER_SIZE ->
  length hdr = Z.to_nat ENCODED_HEADER_SIZE ->
  validate_header template (unpack_header hdr) false = VDO_SUCCESS ->
  header.size (unpack_header hdr)
  = CHECKSUM_SIZE + Z.of_nat (length payload) ->
  0 <= crc < 2 ^ 32 ->
  buffer.start target = 0 ->
  buffer.end_ target = 0 ->
  Z.of_nat (length payload) <= buffer.length target ->
  exists block,
    decode (super_block_codec.mk target sector)
    = (if update_crc32 INITIAL_CHECKSUM (hdr ++ payload) =? crc
       then VDO_SUCCESS else VDO_CHECKSUM_MISMATCH,
       super_block_codec.mk
         (buffer.mk (payload ++ skipn (length payload) (buffer.data target))
                    0 (Z.of_nat (length payload)) (buffer.length target))
         block).
Proof.
  intros D Sl L64 H0 Lh V Sz Rc Ts Te Tl.
  assert (CHECKSUM_SIZE = 4) as C4 by reflexivity.
  set (n := Z.of_nat (length payload)) in *.
  assert (Z.of_nat (length (buffer.data sector))
          = ENCODED_HEADER_SIZE + n + 4 + Z.of_nat (length rest)) as Ld.
  { rewrite D, !length_app, length_le_bytes. lia. }
  set (H := ENCODED_HEADER_SIZE) in *.
  set (L := buffer.length sector) in *.
  set (b1 := buffer.mk (buffer.data sector) H L L).
  set (b2 := buffer.mk (buffer.data sector) H (H + (CHECKSUM_SIZE + n)) L).
  set (b3 := buffer.mk (buffer.data sector) (H + n)
                       (H + (CHECKSUM_SIZE + n)) L).
  set (b4 := buffer.mk (buffer.data sector) (H + n + 4)
                       (H + (CHECKSUM_SIZE + n)) L).
  set (target' := buffer.mk (payload ++ skipn (length payload)
                                              (buffer.data target))
                            0 n (buffer.length target)).
  assert (firstn (Z.to_nat H) (buffer.data sector) = hdr) as F1
      by (rewrite D; apply firstn_exact; exact Lh).
  assert (firstn (Z.to_nat n) (skipn (Z.to_nat H) (buffer.data sector))
          = payload) as F2.
  { rewrite D, skipn_exact by lia. apply firstn_exact. subst n. lia. }
  assert (firstn (Z.to_nat (H + n)) (buffer.data sector) = hdr ++ payload)
    as F3.
  { rewrite D, app_assoc. apply firstn_exact. rewrite length_app. lia. }
  assert (firstn 4 (skipn (Z.to_nat (H + n)) (buffer.data sector))
          = le_bytes 4 crc) as F4.
  { rewrite D, app_assoc, skipn_exact by (rewrite length_app; lia).
    apply firstn_exact, length_le_bytes. }
  assert (decode_header H unpack_header (clear_buffer sector)
          = (VDO_SUCCESS, b1, unpack_header hdr)) as E1.
  { unfold decode_header, clear_buffer, content_length, get_buffer_contents.
    cbn [buffer.start buffer.end_ buffer.length buffer.data].
    fold L. assert ((L - 0 <? H) = false) as -> by (apply Z.ltb_ge; lia).
    cbn [Z.to_nat skipn]. rewrite F1, Z.add_0_l. reflexivity. }
  assert (reset_buffer_end b1 (uncompacted_amount b1 + (CHECKSUM_SIZE + n))
          = (UDS_SUCCESS, b2)) as E2.
  { unfold reset_buffer_end, uncompacted_amount. subst b1 b2.
    cbn [buffer.start buffer.end_ buffer.length buffer.data].
    assert ((L <? H + (CHECKSUM_SIZE + n)) = false) as ->
        by (apply Z.ltb_ge; lia).
    rewrite Z.min_l by lia. reflexivity. }
  assert (uint64 (content_length b2 - CHECKSUM_SIZE) = n) as E2'.
  { unfold content_length. subst b2. cbn [buffer.start buffer.end_].
    unfold uint64. rewrite Z.mod_small; lia. }
  assert (put_buffer target b2 n = (UDS_SUCCESS, target', b3)) as E3.
  { unfold put_buffer. unfold content_length. subst b2.
    cbn [buffer.start buffer.end_ buffer.length buffer.data].
    assert ((H + (CHECKSUM_SIZE + n) - H <? n) = false) as ->
        by (apply Z.ltb_ge; lia).
    rewrite (put_bytes_at_end target n _ [] (buffer.data target));
      [|reflexivity|cbn; lia|unfold available_space; lia].
    unfold UDS_SUCCESS. rewrite status_eqb_refl. cbn [negb app].
    unfold get_buffer_contents. cbn [buffer.start buffer.data].
    rewrite F2, Ts, Te, Z.add_0_l. subst target' b3.
    assert (Z.to_nat n = length payload) as -> by (subst n; lia).
    reflexivity. }
  assert (firstn (Z.to_nat (uncompacted_amount b3))
                 (super_block_codec.encoded_super_block
                    (super_block_codec.mk target' b3))
          = hdr ++ payload) as E3'.
  { unfold uncompacted_amount, super_block_codec.encoded_super_block.
    subst b3. cbn [buffer.start buffer.data super_block_codec.block_buffer].
    exact F3. }
  assert (get_uint32_le_from_buffer b3 = (UDS_SUCCESS, b4, crc)) as E4.
  { unfold get_uint32_le_from_buffer, content_length, get_buffer_contents.
    subst b3 b4. cbn [buffer.start buffer.end_ buffer.length buffer.data].
    assert ((H + (CHECKSUM_SIZE + n) - (H + n) <? 4) = false) as ->
        by (apply Z.ltb_ge; lia).
    rewrite F4, le_value_le_bytes, Z.mod_small by (cbn; lia). reflexivity. }
  assert (ASSERT (content_length b4 =? 0) = VDO_SUCCESS) as E5.
  { unfold content_length. subst b4. cbn [buffer.start buffer.end_].
    assert ((H + (CHECKSUM_SIZE + n) - (H + n + 4) =? 0) = true) as ->
        by (apply Z.eqb_eq; lia).
    reflexivity. }
  assert ((content_length b1 <? CHECKSUM_SIZE + n) = false) as E1'.
  { apply Z.ltb_ge. unfold content_length. subst b1.
    cbn [buffer.start buffer.end_]. lia. }
  exists b4. unfold decode_super_block.
  cbn [super_block_codec.block_buffer super_block_codec.component_buffer].
  rewrite E1. cbv beta iota zeta.
  rewrite status_eqb_refl. cbn [negb].
  rewrite V, status_eqb_refl. cbn [negb].
  rewrite Sz, E1', E2. cbv beta iota zeta.
  unfold UDS_SUCCESS. rewrite status_eqb_refl. cbn [negb].
  rewrite E2', E3. cbv beta iota zeta.
  rewrite status_eqb_refl. cbn [negb].
  rewrite E3', E4. cbv beta iota zeta.
  unfold UDS_SUCCESS. rewrite status_eqb_refl. cbn [negb].
  rewrite E5, status_eqb_refl. cbn [negb].
  destruct (_ =? crc); reflexivity.
Qed.

(** X14.  Decoding what encode_super_block wrote gives the component
    data back.  Let [written] be the header that encode_super_block
    writes, the 12.0 header with the size of the component data and the
    checksum.  For a header layout that encodes [written] in
    ENCODED_HEADER_SIZE bytes and reads it back, a validation that
    accepts it, and a 32-bit checksum: when the header, the component
    data and the checksum fit in the sector, encode_super_block
    succeeds, and decode_super_block run on the sector it wrote, with
    an empty component buffer that has room, returns VDO_SUCCESS and
    leaves in that buffer exactly the component data that was
    encoded. *)
Theorem encode_then_decode_super_block
        (codec : super_block_codec.t) (target : buffer.t) :
  let component := super_block_codec.component_buffer codec in
  let sector := super_block_codec.block_buffer codec in
  let written :=
    header.mk SUPER_BLOCK 12 0
              (CHECKSUM_SIZE + content_length component) in
  0 <= ENCODED_HEADER_SIZE ->
  length (pack_header written) = Z.to_nat ENCODED_HEADER_SIZE ->
  unpack_header (pack_header written) = written ->
  validate_header template written false = VDO_SUCCESS ->
  (forall bytes, 0 <= update_crc32 INITIAL_CHECKSUM bytes < 2 ^ 32) ->
  buffer_ok component ->
  0 <= buffer.start sector ->
  Z.of_nat (length (buffer.data sector)) = buffer.length sector ->
  buffer.length sector < 2 ^ 64 ->
  ENCODED_HEADER_SIZE + content_length component + CHECKSUM_SIZE
  <= buffer.length sector ->
  buffer.start target = 0 ->
  buffer.end_ target = 0 ->
  content_length component <= buffer.length target ->
  exists encoded decoded,
    encode codec = (UDS_SUCCESS, encoded)
    /\ decode (super_block_codec.mk
                 target (super_block_codec.block_buffer encoded))
       = (VDO_SUCCESS, decoded)
    /\ buffer_content (super_block_codec.component_buffer decoded)
       = buffer_content component.
Proof.
  cbv zeta. intros H0 Hp Hu Hv Hc Ok Ss Sl L64 Fit Ts Te Tl.
  assert (Lp := length_buffer_content _ Ok).
  assert (CHECKSUM_SIZE = 4) as C4 by reflexivity.
  assert (0 <= content_length (super_block_codec.component_buffer codec))
    as Hn by (destruct Ok as (A & B & C); unfold content_length; lia).
  assert (uint64 (CHECKSUM_SIZE
                  + content_length
                      (super_block_codec.component_buffer codec))
          = CHECKSUM_SIZE
            + content_length (super_block_codec.component_buffer codec))
    as U.
  { unfold uint64. apply Z.mod_small. lia. }
  rewrite <- U in Hp, Hu, Hv.
  rewrite (encode_super_block_fits codec H0 Hp Ok Ss Sl Fit).
  set (n := content_length (super_block_codec.component_buffer codec)) in *.
  set (payload := buffer_content (super_block_codec.component_buffer codec))
    in *.
  set (h := header_for n) in *.
  set (crc := update_crc32 INITIAL_CHECKSUM (pack_header h ++ payload)).
  destruct (decode_super_block_of_encoding
              target
              (buffer.mk
                 (pack_header h ++ payload ++ le_bytes 4 crc
                  ++ skipn (Z.to_nat (ENCODED_HEADER_SIZE + n + CHECKSUM_SIZE))
                           (buffer.data
                              (super_block_codec.block_buffer codec)))
                 0 (ENCODED_HEADER_SIZE + n + CHECKSUM_SIZE)
                 (buffer.length (super_block_codec.block_buffer codec)))
              (pack_header h) payload
              (skipn (Z.to_nat (ENCODED_HEADER_SIZE + n + CHECKSUM_SIZE))
                     (buffer.data (super_block_codec.block_buffer codec)))
              crc) as (block & E); auto.
  - cbn [buffer.data buffer.length].
    rewrite !length_app, length_le_bytes, length_skipn, Hp. lia.
  - rewrite Hu. exact Hv.
  - rewrite Hu. subst h. cbn [header.size]. rewrite U. lia.
  - apply Hc.
  - lia.
  - eexists _, _. split; [reflexivity|].
    cbn [super_block_codec.block_buffer]. rewrite E.
    subst crc. rewrite Z.eqb_refl. split; [reflexivity|].
    cbn [super_block_codec.component_buffer].
    unfold buffer_content at 1, content_length, get_buffer_contents.
    cbn [buffer.start buffer.end_ buffer.data Z.to_nat skipn].
    rewrite Z.sub_0_r, Nat2Z.id. apply firstn_exact. reflexivity.
Qed.

(** X15.  encode_super_block never writes past the sector: it succeeds
    exactly when the header, the component data and the checksum fit in
    the block buffer, and returns UDS_BUFFER_ERROR otherwise. *)
Theorem encode_super_block_succeeds_iff_it_fits
        (codec : super_block_codec.t) :
  let component := super_block_codec.component_buffer codec in
  let sector := super_block_codec.block_buffer codec in
  0 <= ENCODED_HEADER_SIZE ->
  (forall h, length (pack_header h) = Z.to_nat ENCODED_HEADER_SIZE) ->
  buffer_ok component ->
  0 <= buffer.start sector ->
  0 <= buffer.length sector ->
  Z.of_nat (length (buffer.data sector)) = buffer.length sector ->
  (fst (encode codec) = UDS_SUCCESS
   <-> ENCODED_HEADER_SIZE + content_length component + CHECKSUM_SIZE
       <= buffer.length sector)
  /\ (fst (encode codec) = UDS_SUCCESS
      \/ fst (encode codec) = UDS_BUFFER_ERROR).
Proof.
  cbv zeta. intros H0 Hp Ok Ss S0 Sl.
  assert (CHECKSUM_SIZE = 4) as C4 by reflexivity.
  assert (0 <= content_length (super_block_codec.component_buffer codec))
    as Hn by (destruct Ok as (A & B & C); unfold content_length; lia).
  destruct (Z.le_gt_cases
              (ENCODED_HEADER_SIZE
               + content_length (super_block_codec.component_buffer codec)
               + CHECKSUM_SIZE)
              (buffer.length (super_block_codec.block_buffer codec)))
    as [Fit|Big].
  { rewrite (encode_super_block_fits codec H0 (Hp _) Ok Ss Sl Fit).
    cbn [fst]. tauto. }
  assert (fst (encode codec) = UDS_BUFFER_ERROR) as E.
  { assert (Lp := length_buffer_content _ Ok).
    set (component := super_block_codec.component_buffer codec) in *.
    set (sector := super_block_codec.block_buffer codec) in *.
    set (n := content_length component) in *.
    unfold encode_super_block. fold component sector n.
    unfold reset_buffer_end.
    assert ((buffer.length sector <? 0) = false) as ->
        by (apply Z.ltb_ge; lia).
    unfold UDS_SUCCESS. rewrite status_eqb_refl. cbn [negb].
    rewrite Z.min_r by lia.
    set (h := header.mk _ _ _ _).
    unfold encode_header.
    destruct (Z.le_gt_cases ENCODED_HEADER_SIZE (buffer.length sector))
      as [FitH|BigH].
    2:{ set (b0 := buffer.mk _ _ _ _).
        assert (X := put_bytes_no_room b0 ENCODED_HEADER_SIZE (pack_header h)).
        destruct (put_bytes b0 ENCODED_HEADER_SIZE (pack_header h))
          as [result b']. cbn [fst] in X. rewrite X.
        - reflexivity.
        - cbn. lia.
        - unfold content_length. cbn. lia. }
    rewrite (put_bytes_at_end _ ENCODED_HEADER_SIZE (pack_header h) []
                              (buffer.data sector));
      [|reflexivity|reflexivity|unfold available_space; cbn; lia].
    unfold UDS_SUCCESS. rewrite status_eqb_refl. cbn [negb].
    cbn [app buffer.start buffer.end_ buffer.length].
    rewrite firstn_all2 by (rewrite Hp; lia). rewrite Z.add_0_l.
    destruct (Z.le_gt_cases (ENCODED_HEADER_SIZE + n) (buffer.length sector))
      as [FitP|BigP].
    2:{ set (b1 := buffer.mk _ _ _ _).
        assert (X := put_bytes_no_room b1 n (get_buffer_contents component)).
        destruct (put_bytes b1 n (get_buffer_contents component))
          as [result b']. cbn [fst] in X. rewrite X.
        - reflexivity.
        - cbn. lia.
        - unfold content_length. cbn. lia. }
    rewrite (put_bytes_at_end _ n (get_buffer_contents component)
                              (pack_header h)
                              (skipn (Z.to_nat ENCODED_HEADER_SIZE)
                                     (buffer.data sector)));
      [|reflexivity|cbn; rewrite Hp; lia|unfold available_space; cbn; lia].
    unfold UDS_SUCCESS. rewrite status_eqb_refl. cbn [negb].
    unfold put_uint32_le_into_buffer.
    set (b2 := buffer.mk _ _ _ _).
    set (crc := update_crc32 _ _).
    assert (X := put_bytes_no_room b2 4 (le_bytes 4 crc)).
    destruct (put_bytes b2 4 (le_bytes 4 crc)) as [result b'].
    cbn [fst] in X. rewrite X.
    - reflexivity.
    - cbn. lia.
    - unfold content_length. cbn. lia. }
  rewrite E. split; [|auto]. split; [discriminate | lia].
Qed.
End super_block_round_trip.

Lemma encode_then_decode_super_block_witness :
  exists encoded decoded,
    encode_super_block 9 16 le_pack_header 0 byte_sum le_codec_to_encode
    = (UDS_SUCCESS, encoded)
    /\ decode_super_block
         9 16 le_unpack_header validate_header 0 byte_sum
         (super_block_codec.mk (buffer.mk (repeat 0 8) 0 0 8)
                               (super_block_codec.block_buffer encoded))
       = (VDO_SUCCESS, decoded)
    /\ buffer_content (super_block_codec.component_buffer decoded)
       = [1; 2; 3]
    /\ forallb is_byte
         (buffer.data (super_block_codec.block_buffer encoded)) = true.
Proof.
  destruct (encode_then_decode_super_block
              9 16 le_pack_header le_unpack_header validate_header
              0 byte_sum le_codec_to_encode (buffer.mk (repeat 0 8) 0 0 8))
    as (encoded & decoded & E & D & C).
  - lia.
  - reflexivity.
  - apply le_header_round_trip; vm_compute; split; congruence.
  - reflexivity.
  - intros bytes. unfold byte_sum. apply uint32_range.
  - unfold buffer_ok. simpl. lia.
  - simpl. lia.
  - reflexivity.
  - simpl. lia.
  - unfold content_length, CHECKSUM_SIZE. simpl. lia.
  - reflexivity.
  - reflexivity.
  - unfold content_length. simpl. lia.
  - exists encoded, decoded. split; [exact E|]. split; [exact D|].
    split; [rewrite C; reflexivity|].
    vm_compute in E. injection E as <-. reflexivity.
Defined.

Lemma encode_super_block_succeeds_iff_it_fits_witness :
  (fst (encode_super_block 9 4 small_pack_header 0 byte_sum
                           small_codec_to_encode) = UDS_SUCCESS
   <-> 4 + content_length
             (super_block_codec.component_buffer small_codec_to_encode)
       + CHECKSUM_SIZE
       <= buffer.length (super_block_codec.block_buffer small_codec_to_encode))
  /\ (fst (encode_super_block 9 4 small_pack_header 0 byte_sum
                              small_codec_to_encode) = UDS_SUCCESS
      \/ fst (encode_super_block 9 4 small_pack_header 0 byte_sum
                                 small_codec_to_encode) = UDS_BUFFER_ERROR).
Proof.
  apply (encode_super_block_succeeds_iff_it_fits
           9 4 small_pack_header 0 byte_sum small_codec_to_encode).
  - lia.
  - intros h. reflexivity.
  - unfold buffer_ok. simpl. lia.
  - simpl. lia.
  - simpl. lia.
  - reflexivity.
Defined.

(** ** The restore of the master index reads no further than it must *)

Section master_index_restore_more.
Variable master_index : Type.
Variable delta_list_save_info : Type.
Variable DELTA_LIST_MAX_BYTE_COUNT : Z.
Variable ALLOCATE : Z -> status.
Variable start_restoring_master_index :
  master_index -> nat -> status * master_index.
Variable restore_delta_list_to_master_index :
  master_index -> delta_list_save_info -> list byte -> status * master_index.
Variable is_restoring_master_index_done : master_index -> bool.
Variable abort_restoring_master_index : master_index -> master_index.

Abbreviation reader := (buffered_reader delta_list_save_info).
Abbreviation zone :=
  (restore_zone master_index delta_list_save_info
                restore_delta_list_to_master_index
                abort_restoring_master_index).
Abbreviation zones :=
  (restore_zones master_index delta_list_save_info
                 restore_delta_list_to_master_index
                 abort_restoring_master_index).
Abbreviation restore :=
  (restore_master_index
     master_index delta_list_save_info DELTA_LIST_MAX_BYTE_COUNT ALLOCATE
     start_restoring_master_index restore_delta_list_to_master_index
     is_restoring_master_index_done abort_restoring_master_index).

Lemma restore_zone_stops_at_end_of_file
      (pre : reader) dlsi dl_data (tail tail' : reader) :
  forall mi,
    zone (pre ++ (UDS_END_OF_FILE, dlsi, dl_data) :: tail) mi
    = zone (pre ++ (UDS_END_OF_FILE, dlsi, dl_data) :: tail') mi.
Proof.
  induction pre as [|[[result d] b] pre IH]; intros mi;
    cbn [app restore_zone].
  - rewrite status_eqb_refl. reflexivity.
  - destruct (status_eqb result UDS_END_OF_FILE); [reflexivity|].
    destruct (negb (status_eqb result UDS_SUCCESS)); [reflexivity|].
    destruct (restore_delta_list_to_master_index mi d b) as [r mi'].
    destruct (negb (status_eqb r UDS_SUCCESS)); [reflexivity | apply IH].
Qed.

Lemma restore_zones_app (readers1 readers2 : list reader) :
  forall mi,
    zones (readers1 ++ readers2) mi
    = match zones readers1 mi with
      | loop_break _ mi' => zones readers2 mi'
      | loop_return _ result mi' => loop_return _ result mi'
      end.
Proof.
  induction readers1 as [|r readers1 IH]; intros mi;
    cbn [app restore_zones]; [reflexivity|].
  destruct (zone r mi) as [mi'|result mi']; [apply IH | reflexivity].
Qed.

(** X16.  restore_master_index reads a zone only up to its end-of-file
    mark, and reads nothing at all once a zone has failed: the result
    and the index are the same whatever follows the first
    UDS_END_OF_FILE of a reader, and whatever the readers after a
    failing one hold. *)
Theorem restore_master_index_reads_no_further
        (readers1 readers2 readers2' : list reader)
        (pre tail tail' : reader) dlsi dl_data (mi : master_index) :
  restore_master_index
    master_index delta_list_save_info DELTA_LIST_MAX_BYTE_COUNT ALLOCATE
    start_restoring_master_index restore_delta_list_to_master_index
    is_restoring_master_index_done abort_restoring_master_index
    (readers1 ++ (pre ++ (UDS_END_OF_FILE, dlsi, dl_data) :: tail)
              :: readers2) mi
  = restore_master_index
      master_index delta_list_save_info DELTA_LIST_MAX_BYTE_COUNT ALLOCATE
      start_restoring_master_index restore_delta_list_to_master_index
      is_restoring_master_index_done abort_restoring_master_index
      (readers1 ++ (pre ++ (UDS_END_OF_FILE, dlsi, dl_data) :: tail')
                :: readers2) mi
  /\ (length readers2 = length readers2' ->
      (exists result mi',
          restore_zones
            master_index delta_list_save_info
            restore_delta_list_to_master_index abort_restoring_master_index
            readers1
            (snd (start_restoring_master_index
                    mi (length (readers1 ++ readers2))))
          = loop_return _ result mi') ->
      restore (readers1 ++ readers2) mi
      = restore (readers1 ++ readers2') mi).
Proof.
  split.
  - unfold restore_master_index, restore_master_index_body.
    destruct (negb (status_eqb (ALLOCATE _) UDS_SUCCESS)); [reflexivity|].
    rewrite !length_app. cbn [length].
    destruct (start_restoring_master_index mi _) as [result mi1].
    destruct (negb (status_eqb result UDS_SUCCESS)); [reflexivity|].
    rewrite !restore_zones_app. cbn [restore_zones].
    destruct (zones readers1 mi1) as [mi2|r mi2]; [|reflexivity].
    rewrite (restore_zone_stops_at_end_of_file pre dlsi dl_data tail tail').
    reflexivity.
  - intros L (result & mi' & F).
    unfold restore_master_index, restore_master_index_body.
    destruct (negb (status_eqb (ALLOCATE _) UDS_SUCCESS)); [reflexivity|].
    rewrite !length_app in *. rewrite <- L.
    destruct (start_restoring_master_index mi _) as [r mi1].
    cbn [snd] in F.
    destruct (negb (status_eqb r UDS_SUCCESS)); [reflexivity|].
    rewrite !restore_zones_app, F. reflexivity.
Qed.
End master_index_restore_more.

Lemma restore_master_index_reads_no_further_witness :
  restore_master_index nat Z 100 (fun _ => UDS_SUCCESS)
    counting_start counting_restore counting_done counting_abort
    ([[(error_code 7, 1, [])]] ++ [[(UDS_SUCCESS, 1, [])]]) 7%nat
  = restore_master_index nat Z 100 (fun _ => UDS_SUCCESS)
      counting_start counting_restore counting_done counting_abort
      ([[(error_code 7, 1, [])]] ++ [[(UDS_SUCCESS, 13, [])]]) 7%nat.
Proof.
  apply (restore_master_index_reads_no_further
           nat Z 100 (fun _ => UDS_SUCCESS) counting_start counting_restore
           counting_done counting_abort
           [[(error_code 7, 1, [])]] [[(UDS_SUCCESS, 1, [])]]
           [[(UDS_SUCCESS, 13, [])]] [] [] [] 0 [] 7%nat).
  - reflexivity.
  - exists (error_code 7), 0%nat. reflexivity.
Defined.

(** ** The index component *)

Section master_index_component_properties.
Variable master_index : Type.
Variable delta_list_save_info : Type.
Variable DELTA_LIST_MAX_BYTE_COUNT : Z.
Variable ALLOCATE : Z -> status.
Variable start_restoring_master_index :
  master_index -> nat -> status * master_index.
Variable restore_delta_list_to_master_index :
  master_index -> delta_list_save_info -> list byte -> status * master_index.
Variable is_restoring_master_index_done : master_index -> bool.
Variable abort_restoring_master_index : master_index -> master_index.
Variable MAX_ZONES : Z.
Variable UDS_BAD_STATE : status.
Variable get_buffered_reader_for_portal :
  nat -> status * buffered_reader delta_list_save_info.

Abbreviation readers_from :=
  (get_readers delta_list_save_info get_buffered_reader_for_portal).
Abbreviation read :=
  (read_master_index
     master_index delta_list_save_info DELTA_LIST_MAX_BYTE_COUNT ALLOCATE
     start_restoring_master_index restore_delta_list_to_master_index
     is_restoring_master_index_done abort_restoring_master_index
     MAX_ZONES UDS_BAD_STATE get_buffered_reader_for_portal).
Abbreviation restore :=
  (restore_master_index
     master_index delta_list_save_info DELTA_LIST_MAX_BYTE_COUNT ALLOCATE
     start_restoring_master_index restore_delta_list_to_master_index
     is_restoring_master_index_done abort_restoring_master_index).

Lemma get_readers_all (count : nat) :
  forall z,
    (forall i, (z <= i < z + count)%nat ->
               fst (get_buffered_reader_for_portal i) = UDS_SUCCESS) ->
    readers_from count z
    = inr (map (fun i => snd (get_buffered_reader_for_portal i))
               (seq z count)).
Proof.
  induction count as [|count IH]; intros z H; cbn [get_readers seq map];
    [reflexivity|].
  assert (G := H z). destruct (get_buffered_reader_for_portal z) as [r rd].
  cbn [fst snd] in *. rewrite G by lia. rewrite status_eqb_refl. cbn [negb].
  rewrite IH; [reflexivity|]. intros i Hi. apply H. lia.
Qed.

Lemma get_readers_first_failure (count : nat) :
  forall z bad,
    (z <= bad < z + count)%nat ->
    (forall i, (z <= i < bad)%nat ->
               fst (get_buffered_reader_for_portal i) = UDS_SUCCESS) ->
    fst (get_buffered_reader_for_portal bad) <> UDS_SUCCESS ->
    readers_from count z = inl (fst (get_buffered_reader_for_portal bad)).
Proof.
  induction count as [|count IH]; intros z bad B H F; [lia|].
  cbn [get_readers].
  destruct (Nat.eq_dec z bad) as [->|N].
  - destruct (get_buffered_reader_for_portal bad) as [r rd].
    cbn [fst] in *. apply status_eqb_neq in F. rewrite F. reflexivity.
  - assert (G := H z). destruct (get_buffered_reader_for_portal z) as [r rd].
    cbn [fst] in G. rewrite G by lia. rewrite status_eqb_refl. cbn [negb].
    rewrite (IH (S z) bad); [reflexivity | lia | | exact F].
    intros i Hi. apply H. lia.
Qed.

(** X17.  read_master_index leaves the index untouched unless every
    reader is there: with more than MAX_ZONES zones it returns
    UDS_BAD_STATE without asking for a reader; when the reader of a zone
    cannot be obtained it returns the error of the first such zone; and
    otherwise it is restore_master_index on the readers of the zones
    0 .. num_zones - 1, in that order. *)
Theorem read_master_index_needs_every_reader
        (num_zones : Z) (mi : master_index) :
  (MAX_ZONES < num_zones -> read num_zones mi = (UDS_BAD_STATE, mi))
  /\ (num_zones <= MAX_ZONES ->
      forall bad,
        (bad < Z.to_nat num_zones)%nat ->
        (forall i, (i < bad)%nat ->
                   fst (get_buffered_reader_for_portal i) = UDS_SUCCESS) ->
        fst (get_buffered_reader_for_portal bad) <> UDS_SUCCESS ->
        read num_zones mi = (fst (get_buffered_reader_for_portal bad), mi))
  /\ (num_zones <= MAX_ZONES ->
      (forall i, (i < Z.to_nat num_zones)%nat ->
                 fst (get_buffered_reader_for_portal i) = UDS_SUCCESS) ->
      read num_zones mi
      = restore (map (fun i => snd (get_buffered_reader_for_portal i))
                     (seq 0 (Z.to_nat num_zones))) mi).
Proof.
  unfold read_master_index. split; [|split].
  - intros H. apply Z.ltb_lt in H. rewrite H. reflexivity.
  - intros H bad B G F.
    assert ((MAX_ZONES <? num_zones) = false) as -> by (apply Z.ltb_ge; lia).
    rewrite (get_readers_first_failure (Z.to_nat num_zones) 0 bad);
      [reflexivity | lia | | exact F].
    intros i Hi. apply G. lia.
  - intros H G.
    assert ((MAX_ZONES <? num_zones) = false) as -> by (apply Z.ltb_ge; lia).
    rewrite get_readers_all; [reflexivity|].
    intros i Hi. apply G. lia.
Qed.

Variable uses_sparse : bool.
Variable compute_master_index_save_bytes005 : status * Z.
Variable compute_master_index_save_bytes006 : status * Z.
Variable SIZEOF_DELTA_LIST_SAVE_INFO : Z.

Abbreviation save_blocks :=
  (compute_master_index_save_blocks
     MAX_ZONES uses_sparse compute_master_index_save_bytes005
     compute_master_index_save_bytes006 SIZEOF_DELTA_LIST_SAVE_INFO).
Abbreviation save_bytes :=
  (if uses_sparse then compute_master_index_save_bytes006
   else compute_master_index_save_bytes005).

(** X18.  compute_master_index_save_blocks reserves, beside one block
    for each of the MAX_ZONES zones, the least number of blocks that
    hold the saved bytes of the index and one more delta list record
    (the guard): those blocks hold that many bytes, and one block less
    would not.  When the size computation fails, its error is returned
    and the block count is left as it was. *)
Theorem compute_master_index_save_blocks_suffice
        (block_size block_count : Z) :
  (fst save_bytes <> UDS_SUCCESS ->
   save_blocks block_size block_count = (fst save_bytes, block_count))
  /\ (fst save_bytes = UDS_SUCCESS ->
      0 < block_size ->
      0 <= snd save_bytes ->
      0 <= SIZEOF_DELTA_LIST_SAVE_INFO ->
      0 <= MAX_ZONES ->
      snd save_bytes + SIZEOF_DELTA_LIST_SAVE_INFO + block_size + MAX_ZONES
      < 2 ^ 64 ->
      exists blocks,
        save_blocks block_size block_count
        = (UDS_SUCCESS, blocks + MAX_ZONES)
        /\ (blocks - 1) * block_size
           < snd save_bytes + SIZEOF_DELTA_LIST_SAVE_INFO
           <= blocks * block_size).
Proof.
  unfold compute_master_index_save_blocks.
  destruct save_bytes as [result num_bytes]. cbn [fst snd]. split.
  - intros H. apply status_eqb_neq in H. rewrite H. reflexivity.
  - intros -> Hb Hn Hs Hz Hsmall. rewrite status_eqb_refl. cbn [negb].
    set (total := num_bytes + SIZEOF_DELTA_LIST_SAVE_INFO) in *.
    assert (uint64 total = total) as -> by (apply Z.mod_small; lia).
    assert (uint64 (total + block_size) = total + block_size) as ->
        by (apply Z.mod_small; lia).
    assert (uint64 (total + block_size - 1) = total + block_size - 1) as ->
        by (apply Z.mod_small; lia).
    set (blocks := (total + block_size - 1) / block_size).
    assert ((blocks - 1) * block_size < total <= blocks * block_size) as B.
    { subst blocks.
      assert (D := Z.div_mod (total + block_size - 1) block_size).
      assert (M := Z.mod_pos_bound (total + block_size - 1) block_size Hb).
      nia. }
    exists blocks. split; [|exact B].
    do 2 f_equal. apply Z.mod_small. nia.
Qed.
End master_index_component_properties.

Lemma read_master_index_needs_every_reader_witness :
  read_master_index nat Z 100 (fun _ => UDS_SUCCESS) counting_start
                    counting_restore counting_done counting_abort
                    4 (error_code 3) broken_portal 2 7%nat
  = (fst (broken_portal 1), 7%nat).
Proof.
  destruct (read_master_index_needs_every_reader
              nat Z 100 (fun _ => UDS_SUCCESS) counting_start
              counting_restore counting_done counting_abort
              4 (error_code 3) broken_portal 2 7%nat) as (_ & B & _).
  apply B.
  - lia.
  - simpl. lia.
  - intros i Hi. assert (i = 0%nat) as -> by lia. reflexivity.
  - simpl. discriminate.
Defined.

Lemma compute_master_index_save_blocks_suffice_witness :
  exists blocks,
    compute_master_index_save_blocks
      4 false (UDS_SUCCESS, 1000) (UDS_SUCCESS, 0) 24 512 0
    = (UDS_SUCCESS, blocks + 4)
    /\ (blocks - 1) * 512 < 1000 + 24 <= blocks * 512.
Proof.
  destruct (compute_master_index_save_blocks_suffice
              4 false (UDS_SUCCESS, 1000) (UDS_SUCCESS, 0) 24 512 0)
    as (_ & B).
  apply B; simpl; try lia. reflexivity.
Defined.

(** ** The read path of a data_vio *)

Section vio_read_properties.
Variable VIO_READ : Z.
Variable VIO_WRITE : Z.
Variable VIO_READ_WRITE_MASK : Z.

Abbreviation modify :=
  (modify_for_partial_write VIO_WRITE VIO_READ_WRITE_MASK).
Abbreviation read :=
  (read_block VIO_READ VIO_WRITE VIO_READ_WRITE_MASK).
Abbreviation is_read := (isReadVIO VIO_READ VIO_READ_WRITE_MASK).

(** X19.  modify_for_partial_write turns the operation of the vio into
    a write and keeps every other bit of it: when the write bits lie
    within VIO_READ_WRITE_MASK, the read/write bits of the operation
    are VIO_WRITE afterwards and the bits outside the mask are those of
    the operation before.  The vio is then no read any more, the
    data_vio is a partial write, and the partial write is applied
    before the write is launched.  After a failed read nothing of this
    happens: the data_vio is completed as it is. *)
Theorem modify_for_partial_write_keeps_the_flags (d : read_vio.t) :
  Z.land VIO_WRITE VIO_READ_WRITE_MASK = VIO_WRITE ->
  VIO_READ <> VIO_WRITE ->
  (read_vio.result d = VDO_SUCCESS ->
   Z.land (read_vio.operation (modify d)) VIO_READ_WRITE_MASK = VIO_WRITE
   /\ Z.land (read_vio.operation (modify d)) (Z.lnot VIO_READ_WRITE_MASK)
      = Z.land (read_vio.operation d) (Z.lnot VIO_READ_WRITE_MASK)
   /\ is_read (modify d) = false
   /\ read_vio.isPartialWrite (modify d) = true
   /\ read_vio.calls (modify d)
      = read_vio.calls d ++ [applyPartialWrite; launch_write_data_vio])
  /\ (read_vio.result d <> VDO_SUCCESS ->
      modify d = read_vio.call completeDataVIO d).
Proof.
  intros W N. unfold modify_for_partial_write. split.
  - intros ->. rewrite status_eqb_refl. cbn [negb].
    cbn [read_vio.operation read_vio.call read_vio.isPartialWrite
         read_vio.calls].
    assert (Z.land (Z.lor VIO_WRITE
                          (Z.land (read_vio.operation d)
                                  (Z.lnot VIO_READ_WRITE_MASK)))
                   VIO_READ_WRITE_MASK = VIO_WRITE) as A.
    { rewrite Z.land_lor_distr_l, W, <- Z.land_assoc.
      rewrite (Z.land_comm (Z.lnot _)), Z.land_lnot_diag, Z.land_0_r.
      apply Z.lor_0_r. }
    split; [exact A|]. split.
    { rewrite Z.land_lor_distr_l, <- W, <- !Z.land_assoc.
      rewrite Z.land_lnot_diag, Z.land_0_r, Z.land_diag.
      reflexivity. }
    split.
    { unfold isReadVIO. cbn [read_vio.operation read_vio.call]. rewrite A.
      apply Z.eqb_neq. congruence. }
    split; [reflexivity|]. rewrite <- app_assoc. reflexivity.
  - intros H. apply status_eqb_neq in H. rewrite H. reflexivity.
Qed.

(** X20.  read_block never reads the device for an unmapped block, nor
    after an error.  With the result of the mapping lookup an error it
    only completes the data_vio.  With a mapping to the zero block it
    zero-fills the data and runs the callback at once: a read is
    completed, and a partial write goes on through
    modify_for_partial_write to the launch of the write.  Otherwise it
    issues one read of the mapped block. *)
Theorem read_block_reads_mapped_blocks_only (d : read_vio.t) :
  (read_vio.result d <> VDO_SUCCESS ->
   read d = read_vio.call completeDataVIO d)
  /\ (read_vio.result d = VDO_SUCCESS ->
      read_vio.mapped_pbn d = ZERO_BLOCK ->
      read_vio.physical (read d) = read_vio.physical d
      /\ read_vio.calls (read d)
         = read_vio.calls d
           ++ zeroDataVIO
              :: (if is_read d then [completeDataVIO]
                  else [applyPartialWrite; launch_write_data_vio])
      /\ (is_read d = false ->
          read_vio.operation (read d)
          = Z.lor VIO_WRITE
                  (Z.land (read_vio.operation d)
                          (Z.lnot VIO_READ_WRITE_MASK))
          /\ read_vio.isPartialWrite (read d) = true))
  /\ (read_vio.result d = VDO_SUCCESS ->
      read_vio.mapped_pbn d <> ZERO_BLOCK ->
      read_vio.physical (read d) = read_vio.mapped_pbn d
      /\ read_vio.lastAsyncOperation (read d) = READ_DATA
      /\ read_vio.callback (read d)
         = (if is_read d then callback_completeDataVIO
            else callback_modify_for_partial_write)
      /\ read_vio.calls (read d) = read_vio.calls d ++ [readDataVIO]).
Proof.
  unfold read_block. split; [|split].
  - intros H. apply status_eqb_neq in H. rewrite H. reflexivity.
  - intros R M. rewrite R, status_eqb_refl. cbn [negb].
    cbn [read_vio.mapped_pbn read_vio.set_callback]. rewrite M.
    cbn [Z.eqb ZERO_BLOCK]. unfold invoke_callback.
    cbn [read_vio.callback read_vio.call read_vio.set_callback].
    destruct (is_read d) eqn:I.
    + cbn. rewrite <- app_assoc.
      split; [reflexivity|]. split; [reflexivity | discriminate].
    + unfold modify_for_partial_write.
      cbn [read_vio.result read_vio.call read_vio.set_callback].
      rewrite R, status_eqb_refl. cbn. rewrite <- !app_assoc.
      repeat split.
  - intros R M. rewrite R, status_eqb_refl. cbn [negb].
    cbn [read_vio.mapped_pbn read_vio.set_callback].
    apply Z.eqb_neq in M. rewrite M. cbn. repeat split.
Qed.

Abbreviation launch := launch_read_data_vio.
Abbreviation run := (run_callback VIO_READ VIO_WRITE VIO_READ_WRITE_MASK).

(** X21.  The read path from launch_read_data_vio on, each callback
    being run when the operation before it has finished.  The slot
    lookup is followed by the lookup of the mapping and that by the
    read of the block; the first operation that fails completes the
    data_vio and nothing further is started; and a read vio whose block
    is unmapped is completed with zeroes, without any read of the
    device. *)
Theorem read_path_stops_at_the_first_error
        (d : read_vio.t) (r1 r2 : status) (pbn : PhysicalBlockNumber) :
  let d1 := run (read_vio.finished r1 (launch d)) in
  let d2 := run (read_vio.mapped r2 pbn d1) in
  (r1 <> VDO_SUCCESS ->
   read_vio.calls d1
   = read_vio.calls d ++ [find_block_map_slot_async; completeDataVIO])
  /\ (r1 = VDO_SUCCESS ->
      read_vio.calls d1
      = read_vio.calls d ++ [find_block_map_slot_async;
                             get_mapped_block_async]
      /\ (r2 <> VDO_SUCCESS ->
          read_vio.calls d2
          = read_vio.calls d ++ [find_block_map_slot_async;
                                 get_mapped_block_async; completeDataVIO])
      /\ (r2 = VDO_SUCCESS -> pbn <> ZERO_BLOCK ->
          read_vio.calls d2
          = read_vio.calls d ++ [find_block_map_slot_async;
                                 get_mapped_block_async; readDataVIO]
          /\ read_vio.physical d2 = pbn)
      /\ (r2 = VDO_SUCCESS -> pbn = ZERO_BLOCK -> is_read d = true ->
          read_vio.calls d2
          = read_vio.calls d ++ [find_block_map_slot_async;
                                 get_mapped_block_async; zeroDataVIO;
                                 completeDataVIO])).
Proof.
  cbv zeta.
  set (x := read_vio.finished r1 (launch d)).
  assert (run x = read_block_mapping x) as -> by reflexivity.
  assert (read_vio.calls x = read_vio.calls d ++ [find_block_map_slot_async])
    as Cx by reflexivity.
  assert (read_vio.result x = r1) as Rx by reflexivity.
  unfold read_block_mapping. rewrite Rx. split.
  - intros H. apply status_eqb_neq in H. rewrite H. cbn [negb].
    cbn [read_vio.calls read_vio.call]. rewrite Cx, <- app_assoc.
    reflexivity.
  - intros ->. rewrite status_eqb_refl. cbn [negb].
    set (d1 := read_vio.call get_mapped_block_async _).
    assert (read_vio.calls d1
            = read_vio.calls d ++ [find_block_map_slot_async;
                                   get_mapped_block_async]) as C1.
    { subst d1. cbn [read_vio.calls read_vio.call read_vio.set_callback
                     read_vio.set_lastAsyncOperation].
      rewrite Cx, <- app_assoc. reflexivity. }
    split; [exact C1|].
    set (y := read_vio.mapped r2 pbn d1).
    assert (run y = read y) as -> by reflexivity.
    assert (read_vio.calls y = read_vio.calls d1) as Cy by reflexivity.
    assert (read_vio.result y = r2) as Ry by reflexivity.
    assert (read_vio.mapped_pbn y = pbn) as My by reflexivity.
    assert (is_read y = is_read d) as Iy by reflexivity.
    unfold read_block. cbv zeta. rewrite Ry, Iy.
    cbn [read_vio.mapped_pbn read_vio.set_callback]. rewrite !My.
    split; [|split].
    + intros H. apply status_eqb_neq in H. rewrite H. cbn [negb].
      cbn [read_vio.calls read_vio.call]. rewrite Cy, C1, <- app_assoc.
      reflexivity.
    + intros -> N. rewrite status_eqb_refl. cbn [negb].
      apply Z.eqb_neq in N. rewrite N.
      cbn [read_vio.calls read_vio.call read_vio.physical
           read_vio.mapped_pbn read_vio.set_callback].
      rewrite Cy, C1, <- app_assoc, ?My. split; reflexivity.
    + intros -> -> I. rewrite status_eqb_refl. cbn [negb].
      rewrite I. cbn [Z.eqb ZERO_BLOCK]. unfold invoke_callback.
      cbn [read_vio.callback read_vio.call read_vio.calls
           read_vio.set_callback].
      rewrite Cy, C1, <- !app_assoc. reflexivity.
Qed.
End vio_read_properties.

Lemma modify_for_partial_write_keeps_the_flags_witness :
  Z.land (read_vio.operation
            (modify_for_partial_write 2 3 partial_write_of_unmapped_block)) 3
  = 2.
Proof.
  destruct (modify_for_partial_write_keeps_the_flags
              1 2 3 partial_write_of_unmapped_block) as (A & _).
  - reflexivity.
  - discriminate.
  - apply A. reflexivity.
Defined.

Lemma read_block_reads_mapped_blocks_only_witness :
  read_vio.calls (read_block 1 2 3 partial_write_of_unmapped_block)
  = read_vio.calls partial_write_of_unmapped_block
    ++ zeroDataVIO
       :: (if isReadVIO 1 3 partial_write_of_unmapped_block
           then [completeDataVIO]
           else [applyPartialWrite; launch_write_data_vio]).
Proof.
  destruct (read_block_reads_mapped_blocks_only
              1 2 3 partial_write_of_unmapped_block) as (_ & A & _).
  apply A; reflexivity.
Defined.

Lemma read_path_stops_at_the_first_error_witness :
  read_vio.calls
    (run_callback 1 2 3
       (read_vio.mapped VDO_SUCCESS ZERO_BLOCK
          (run_callback 1 2 3
             (read_vio.finished VDO_SUCCESS
                                (launch_read_data_vio plain_read)))))
  = read_vio.calls plain_read
    ++ [find_block_map_slot_async; get_mapped_block_async; zeroDataVIO;
        completeDataVIO].
Proof.
  destruct (read_path_stops_at_the_first_error
              1 2 3 plain_read VDO_SUCCESS VDO_SUCCESS ZERO_BLOCK)
    as (_ & A).
  destruct (A eq_refl) as (_ & _ & _ & B).
  apply B; reflexivity.
Defined.

(** ** The lookups of the block map tree *)

Lemma completions_emit ev z :
  completions (emit ev z)
  = completions z + (if is_completion ev then 1 else 0).
Proof.
  unfold completions, emit. cbn [trace].
  rewrite filter_app, length_app. cbn [filter].
  destruct (is_completion ev); cbn [length]; lia.
Qed.

Lemma completions_same z z' : trace z' = trace z -> completions z' = completions z.
Proof. unfold completions. intros ->. reflexivity. Qed.

(** Steps that neither start nor complete a lookup keep the sum of the
    lookups counted and the lookups completed. *)
Lemma account_quiet z z' evs :
  active_lookups z' = active_lookups z ->
  trace z' = trace z ++ evs ->
  forallb (fun ev => negb (is_completion ev)) evs = true ->
  active_lookups z' + completions z' = active_lookups z + completions z.
Proof.
  intros A T F. rewrite A. f_equal. unfold completions. rewrite T.
  rewrite filter_app, length_app.
  replace (filter is_completion evs) with (@nil event);
    [cbn [length]; lia|].
  clear T. induction evs as [|ev evs IH]; [reflexivity|].
  cbn [forallb] in F. apply andb_true_iff in F. destruct F as [F1 F2].
  cbn [filter]. destruct (is_completion ev); [discriminate | auto].
Qed.

Lemma account_finish_lookup d r z :
  active_lookups (finish_lookup d r z) + completions (finish_lookup d r z)
  = active_lookups z + completions z.
Proof.
  unfold finish_lookup. cbv zeta. rewrite completions_emit.
  cbn [is_completion]. set (z1 := update_data_vio d _ z).
  change (active_lookups (emit _ (with_active_lookups
                                    (active_lookups z1 - 1) z1)))
    with (active_lookups z - 1).
  change (completions (with_active_lookups (active_lookups z1 - 1) z1))
    with (completions z).
  lia.
Qed.

Lemma account_enter_read_only r z :
  active_lookups (enter_zone_read_only_mode r z)
  + completions (enter_zone_read_only_mode r z)
  = active_lookups z + completions z.
Proof.
  apply (account_quiet
           _ _ [enter_read_only_mode r; check_for_drain_complete]);
    try reflexivity.
  unfold enter_zone_read_only_mode. cbn. rewrite <- app_assoc. reflexivity.
Qed.

Lemma account_enqueue_pool_waiter w z :
  active_lookups (snd (enqueue_pool_waiter w z))
  + completions (snd (enqueue_pool_waiter w z))
  = active_lookups z + completions z.
Proof.
  unfold enqueue_pool_waiter.
  destruct (negb (status_eqb (ASSERT _) VDO_SUCCESS)); reflexivity.
Qed.

Lemma account_acquire_vio_for_load d z :
  active_lookups (snd (acquire_vio_for_load d z))
  + completions (snd (acquire_vio_for_load d z))
  = active_lookups z + completions z.
Proof.
  unfold acquire_vio_for_load.
  destruct (vio_pool.available (vio_pool z)) as [|entry rest];
    [apply account_enqueue_pool_waiter|].
  apply (account_quiet _ _ [launchReadMetadataVIO entry d]); reflexivity.
Qed.

(** The write pipeline completes no lookup. *)
Lemma account_return_vio_to_pool n e z z' :
  return_vio_to_pool n e z = Some z' ->
  active_lookups z' + completions z' = active_lookups z + completions z.
Proof.
  intros E. revert E.
  apply (invariant_return_vio_to_pool
           (fun z0 => active_lookups z0 + completions z0
                      = active_lookups z + completions z));
    [| | | | | | |reflexivity].
  - intros r z0 <-. apply account_enter_read_only.
  - intros z0 <-. unfold attempt_increment.
    destruct (_ =? _); reflexivity.
  - intros f z0 H. exact H.
  - intros q z0 H. exact H.
  - intros pool z0 H. exact H.
  - intros ev z0 Q <-. apply (account_quiet _ _ [ev]); try reflexivity.
    cbn. rewrite Q. reflexivity.
  - intros p e0 z0 <-. unfold launch_page_write.
    destruct (mark_block_map_page_initialized _ true) as [changed page].
    destruct (negb changed); eapply (account_quiet _ _ [_]); reflexivity.
Qed.

Lemma return_vio_to_pool_total n e z :
  (tree_zone_measure z + 3 <= n)%nat ->
  exists z', return_vio_to_pool n e z = Some z'.
Proof.
  intros Hn. unfold return_vio_to_pool.
  destruct (vio_pool.waiting (vio_pool z)) as [|w rest] eqn:W;
    [eexists; reflexivity|].
  destruct w as [p|d]; [|eexists; reflexivity].
  destruct (write_pipeline_total n) as (Hw & _).
  destruct (Hw (with_vio_pool
                  (vio_pool.mk (vio_pool.available (vio_pool z)) rest
                               (vio_pool.busy_count (vio_pool z))) z) p e)
    as (z' & E & _).
  - unfold tree_zone_measure in *. rewrite W in Hn.
    cbn [vio_pool with_vio_pool vio_pool.waiting flusher length] in *. lia.
  - exists z'. exact E.
Qed.

(** *** The table of page locks *)

Lemma int_map_get_in m key h :
  int_map_get m key = Some h -> In (key, h) m.
Proof.
  induction m as [|[k v] rest IH]; cbn [int_map_get]; [discriminate|].
  destruct (Z.eqb_spec k key) as [->|N].
  - intros E. injection E as ->. left. reflexivity.
  - intros E. right. auto.
Qed.

Lemma int_map_get_none m key :
  int_map_get m key = None -> ~ In key (map fst m).
Proof.
  induction m as [|[k v] rest IH]; cbn [int_map_get map fst In];
    [tauto|].
  destruct (Z.eqb_spec k key) as [->|N]; [discriminate|].
  intros E [H|H]; [contradiction | exact (IH E H)].
Qed.

Lemma int_map_get_new m key v :
  int_map_get m key = None -> int_map_get (m ++ [(key, v)]) key = Some v.
Proof.
  induction m as [|[k w] rest IH]; cbn [int_map_get app].
  - rewrite Z.eqb_refl. reflexivity.
  - destruct (k =? key); [discriminate | exact IH].
Qed.

Lemma int_map_remove_in m key k v :
  In (k, v) (int_map_remove m key) -> In (k, v) m /\ k <> key.
Proof.
  induction m as [|[k0 v0] rest IH]; cbn [int_map_remove]; [tauto|].
  destruct (Z.eqb_spec k0 key) as [->|N].
  - intros H. destruct (IH H). split; [right|]; assumption.
  - intros [H|H].
    + injection H as -> ->. split; [left; reflexivity | exact N].
    + destruct (IH H). split; [right|]; assumption.
Qed.

Lemma int_map_remove_keys m key :
  NoDup (map fst m) -> NoDup (map fst (int_map_remove m key)).
Proof.
  induction m as [|[k0 v0] rest IH]; cbn [int_map_remove map fst];
    [auto|].
  intros H. inversion H as [|x l N D]; subst.
  destruct (k0 =? key); [auto|].
  cbn [map fst]. constructor; [|auto].
  intros I. apply N. apply in_map_iff in I.
  destruct I as ([k v] & <- & I). cbn [fst].
  apply int_map_remove_in in I. destruct I as [I _].
  apply in_map_iff. exists (k, v). auto.
Qed.

(** The table stays in order when the locks of its holders keep their
    key and stay locked. *)
Lemma lock_table_ok_same z z' :
  loading_pages z' = loading_pages z ->
  (forall k h,
      In (k, h) (loading_pages z) ->
      tree_lock.locked (data_vio.treeLock (data_vios z' h))
      = tree_lock.locked (data_vio.treeLock (data_vios z h))
      /\ tree_lock.key (data_vio.treeLock (data_vios z' h))
         = tree_lock.key (data_vio.treeLock (data_vios z h))) ->
  lock_table_ok z -> lock_table_ok z'.
Proof.
  intros L S [N H]. unfold lock_table_ok. rewrite L. split; [exact N|].
  intros k h I. destruct (S k h I) as [-> ->]. auto.
Qed.

(** A data_vio whose lock is not locked holds no key of the table. *)
Lemma unlocked_is_no_holder z d k h :
  lock_table_ok z ->
  tree_lock.locked (data_vio.treeLock (data_vios z d)) = false ->
  In (k, h) (loading_pages z) -> h <> d.
Proof.
  intros [_ H] U I ->. destruct (H k d I) as [L _]. congruence.
Qed.

Lemma data_vios_update_other d f z h :
  h <> d -> data_vios (update_data_vio d f z) h = data_vios z h.
Proof.
  intros N. unfold update_data_vio, upd. cbn [data_vios with_data_vios].
  apply Nat.eqb_neq in N. rewrite N. reflexivity.
Qed.

Lemma data_vios_update_same d f z :
  data_vios (update_data_vio d f z) d = f (data_vios z d).
Proof.
  unfold update_data_vio, upd. cbn [data_vios with_data_vios].
  rewrite Nat.eqb_refl. reflexivity.
Qed.

Lemma lock_table_ok_release d z :
  lock_table_ok z -> lock_table_ok (release_page_lock d z).
Proof.
  intros [N H]. unfold release_page_lock, lock_table_ok.
  set (key := tree_lock.key (data_vio.treeLock (data_vios z d))).
  cbn [loading_pages update_data_vio with_data_vios with_loading_pages].
  split; [apply int_map_remove_keys, N|].
  intros k h I. apply int_map_remove_in in I. destruct I as [I K].
  destruct (H k h I) as [L E].
  assert (h <> d) as Nd by (intros ->; subst key; congruence).
  change (data_vios (update_data_vio d _ (with_loading_pages _ z)) h)
    with (upd (data_vios z) d
              (update_tree_lock
                 (fun l => tree_lock.mk (tree_lock.height l)
                                        (tree_lock.key l) false
                                        (tree_lock.waiters l))
                 (data_vios z d)) h).
  unfold upd. apply Nat.eqb_neq in Nd. rewrite Nd. auto.
Qed.

(** *** The pool entries of the page loads *)

Lemma pool_step_then g z0 z z' :
  pool_step g z0 z -> pool_step [] z z' -> pool_step g z0 z'.
Proof.
  intros H1 H2. rewrite <- (app_nil_r g).
  exact (pool_step_trans g [] z0 z z' H1 H2).
Qed.

Lemma pool_step_acquire_vio_for_load d z :
  pool_step [] z (snd (acquire_vio_for_load d z)).
Proof.
  unfold acquire_vio_for_load.
  destruct (vio_pool.available (vio_pool z)) as [|entry rest] eqn:A.
  - unfold enqueue_pool_waiter.
    destruct (negb (status_eqb (ASSERT _) VDO_SUCCESS)); cbn [snd];
      [apply pool_step_refl|].
    exists []. cbn. rewrite !app_nil_r. auto.
  - cbn [snd]. exists [launchReadMetadataVIO entry d]. unfold load_page.
    cbn. rewrite A. split; [reflexivity|]. split.
    + apply Permutation_sym, Permutation_cons_append.
    + cbn [length]. lia.
Qed.

Lemma pool_step_return_vio_to_pool n e z z' :
  return_vio_to_pool n e z = Some z' -> pool_step [e] z z'.
Proof.
  unfold return_vio_to_pool.
  destruct (vio_pool.waiting (vio_pool z)) as [|w rest].
  - intros E. injection E as <-. exists []. cbn.
    rewrite !app_nil_r. split; [reflexivity|].
    split; [reflexivity | lia].
  - destruct w as [p|d].
    + intros E. destruct (pool_step_pipeline n) as (Hw & _).
      apply Hw in E. exact E.
    + intros E. injection E as <-.
      exists [launchReadMetadataVIO e d]. unfold load_page. cbn.
      split; [reflexivity|]. split; [|reflexivity].
      apply Permutation_sym, Permutation_cons_append.
Qed.

(** The write pipeline leaves the data_vios and the page locks alone. *)
Lemma lookups_return_vio_to_pool n e z z' :
  return_vio_to_pool n e z = Some z' ->
  data_vios z' = data_vios z /\ loading_pages z' = loading_pages z.
Proof.
  intros E. revert E.
  apply (invariant_return_vio_to_pool
           (fun z0 => data_vios z0 = data_vios z
                      /\ loading_pages z0 = loading_pages z));
    [| | | | | | |split; reflexivity].
  - intros r z0 H. exact H.
  - intros z0 H. unfold attempt_increment. destruct (_ =? _); exact H.
  - intros f z0 H. exact H.
  - intros q z0 H. exact H.
  - intros pool z0 H. exact H.
  - intros ev z0 _ H. exact H.
  - intros p e0 z0 H. unfold launch_page_write.
    destruct (mark_block_map_page_initialized _ true) as [changed page].
    destruct (negb changed); exact H.
Qed.

Section tree_lookup_properties.
Variable BLOCK_MAP_TREE_HEIGHT : Z.
Variable BLOCK_MAP_ENTRIES_PER_PAGE : Z.
Variable is_valid_location : data_location.t -> bool.
Variable is_physical_data_block : PhysicalBlockNumber -> bool.
Variable page_key : Z -> Z -> Z -> nat -> Z.
Variable int_map_grow : list (Z * data_vio_id) -> status.
Variable validate_block_map_page :
  block_map_page.t -> PhysicalBlockNumber -> block_map_page_validity.
Variable format_block_map_page :
  PhysicalBlockNumber -> bool -> block_map_page.t.
Variable is_draining : bool.
Variable flat_page_count : Z.
Variable root_count : Z.
Variable get_tree_page_by_index : Z -> Z -> Z -> page_id.
Variable rootIndex : data_vio_id -> Z.
Variable isWriteDataVIO : data_vio_id -> bool.
Variable isTrimDataVIO : data_vio_id -> bool.

Abbreviation attempt_lock :=
  (attempt_page_lock page_key int_map_grow rootIndex).
Abbreviation load :=
  (load_block_map_page page_key int_map_grow rootIndex).
Abbreviation allocate :=
  (allocate_block_map_page page_key int_map_grow rootIndex
                           isWriteDataVIO isTrimDataVIO).
Abbreviation continue :=
  (continue_with_loaded_page
     BLOCK_MAP_TREE_HEIGHT is_valid_location is_physical_data_block
     page_key int_map_grow rootIndex isWriteDataVIO isTrimDataVIO).
Abbreviation continue_waiter :=
  (continue_load_for_waiter
     BLOCK_MAP_TREE_HEIGHT is_valid_location is_physical_data_block
     page_key int_map_grow rootIndex isWriteDataVIO isTrimDataVIO).
Abbreviation notify_load_waiters :=
  (notify_all_load_waiters
     BLOCK_MAP_TREE_HEIGHT is_valid_location is_physical_data_block
     page_key int_map_grow rootIndex isWriteDataVIO isTrimDataVIO).
Abbreviation finish_load :=
  (finish_block_map_page_load
     BLOCK_MAP_TREE_HEIGHT is_valid_location is_physical_data_block
     page_key int_map_grow validate_block_map_page format_block_map_page
     get_tree_page_by_index rootIndex isWriteDataVIO isTrimDataVIO).
Abbreviation find_loaded :=
  (find_loaded_page BLOCK_MAP_ENTRIES_PER_PAGE get_tree_page_by_index
                    rootIndex).
Abbreviation lookup :=
  (lookup_block_map_pbn
     BLOCK_MAP_TREE_HEIGHT BLOCK_MAP_ENTRIES_PER_PAGE is_valid_location
     is_physical_data_block page_key int_map_grow is_draining
     flat_page_count root_count get_tree_page_by_index rootIndex
     isWriteDataVIO isTrimDataVIO).
Abbreviation invalid_entry :=
  (is_invalid_tree_entry BLOCK_MAP_TREE_HEIGHT is_valid_location
                         is_physical_data_block).

(** A property of the tree zone that the steps of a lookup keep is kept
    by the lookup, wherever it goes. *)
Section lookup_invariant.
Variable P : block_map_tree_zone -> Prop.

Hypothesis P_data_vios : forall dv z, P z -> P (with_data_vios dv z).
Hypothesis P_loading_pages :
  forall m z, P z -> P (with_loading_pages m z).
Hypothesis P_finish_lookup :
  forall d r z, P z -> P (finish_lookup d r z).
Hypothesis P_read_only :
  forall r z, P z -> P (enter_zone_read_only_mode r z).
Hypothesis P_acquire :
  forall d z, P z -> P (snd (acquire_vio_for_load d z)).

Lemma invariant_update_data_vio d f z : P z -> P (update_data_vio d f z).
Proof. intros H. unfold update_data_vio. auto. Qed.

Lemma invariant_release_page_lock d z : P z -> P (release_page_lock d z).
Proof.
  intros H. unfold release_page_lock.
  apply invariant_update_data_vio. auto.
Qed.

Lemma invariant_abort_waiters r waiters :
  forall z,
    P z ->
    P (fold_left (fun z w => abort_lookup_for_waiter w r z) waiters z).
Proof.
  induction waiters as [|w ws IH]; intros z H; cbn [fold_left].
  - exact H.
  - apply IH. unfold abort_lookup_for_waiter. auto.
Qed.

Lemma invariant_abort_lookup d r z : P z -> P (abort_lookup d r z).
Proof.
  intros H. unfold abort_lookup. apply P_finish_lookup.
  set (z1 := if negb (status_eqb r VDO_NO_SPACE) then _ else z).
  assert (P z1) as H1 by (subst z1; destruct (negb _); auto).
  destruct (tree_lock.locked _); [|exact H1].
  unfold notify_all_lock_waiters. apply invariant_abort_waiters.
  apply invariant_update_data_vio, invariant_release_page_lock, H1.
Qed.

Lemma invariant_enqueueDataVIO holder d z :
  P z -> P (snd (enqueueDataVIO holder d z)).
Proof.
  intros H. unfold enqueueDataVIO.
  destruct (negb (status_eqb (ASSERT _) VDO_SUCCESS)); cbn [snd];
    [exact H | apply invariant_update_data_vio, H].
Qed.

Lemma invariant_attempt_page_lock d s :
  P (tree_zone s) -> P (tree_zone (snd (attempt_lock d s))).
Proof.
  intros H. unfold attempt_page_lock, int_map_put. cbv zeta.
  set (z1 := update_data_vio d _ (tree_zone s)).
  assert (P z1) as H1 by (apply invariant_update_data_vio, H).
  destruct (int_map_get (loading_pages z1) _) as [holder|].
  - rewrite status_eqb_refl. cbn [negb].
    assert (H2 := invariant_enqueueDataVIO
                    holder d (with_loading_pages (loading_pages z1) z1)
                    (P_loading_pages _ _ H1)).
    destruct (enqueueDataVIO holder d _) as [result z2].
    exact H2.
  - destruct (negb (status_eqb (int_map_grow _) VDO_SUCCESS)) eqn:G.
    + rewrite G. exact H1.
    + rewrite status_eqb_refl. cbn [negb snd tree_zone with_tree_zone].
      apply invariant_update_data_vio. auto.
Qed.

Lemma invariant_abort_load d r s :
  P (tree_zone s) -> P (tree_zone (abort_load d r s)).
Proof. intros H. apply invariant_abort_lookup, H. Qed.

Lemma invariant_finish d r s :
  P (tree_zone s) -> P (tree_zone (finish d r s)).
Proof. intros H. apply P_finish_lookup, H. Qed.

Lemma invariant_load_block_map_page d s :
  P (tree_zone s) -> P (tree_zone (load d s)).
Proof.
  intros H. unfold load_block_map_page.
  assert (H1 := invariant_attempt_page_lock d s H).
  destruct (attempt_lock d s) as [result s1]. cbn [snd] in H1.
  destruct (negb (status_eqb result VDO_SUCCESS));
    [apply invariant_abort_load, H1|].
  destruct (tree_lock.locked _); [|exact H1].
  assert (H2 := P_acquire d _ H1).
  destruct (acquire_vio_for_load d _) as [result2 z2]. cbn [snd] in H2.
  destruct (negb (status_eqb result2 VDO_SUCCESS));
    [apply invariant_abort_load|]; exact H2.
Qed.

Lemma invariant_allocate_block_map_page d s :
  P (tree_zone s) -> P (tree_zone (allocate d s)).
Proof.
  intros H. unfold allocate_block_map_page.
  destruct (negb (isWriteDataVIO d) || isTrimDataVIO d);
    [apply invariant_finish, H|].
  assert (H1 := invariant_attempt_page_lock d s H).
  destruct (attempt_lock d s) as [result s1]. cbn [snd] in H1.
  destruct (negb (status_eqb result VDO_SUCCESS));
    [apply invariant_abort_lookup, H1|].
  destruct (negb (tree_lock.locked _)); exact H1.
Qed.

Lemma invariant_continue_with_loaded_page d page s :
  P (tree_zone s) -> P (tree_zone (continue d page s)).
Proof.
  intros H. unfold continue_with_loaded_page.
  destruct (invalid_entry _ _); [apply invariant_abort_load, H|].
  destruct (negb (is_mapped_location _));
    [apply invariant_allocate_block_map_page, H|].
  destruct (_ =? 1);
    [apply invariant_finish | apply invariant_load_block_map_page];
    exact H.
Qed.

Lemma invariant_continue_load_for_waiter page s w :
  P (tree_zone s) -> P (tree_zone (continue_waiter page s w)).
Proof.
  intros H. unfold continue_load_for_waiter.
  apply invariant_continue_with_loaded_page.
  apply invariant_update_data_vio, H.
Qed.

Lemma invariant_notify_all_load_waiters d page s :
  P (tree_zone s) -> P (tree_zone (notify_load_waiters d page s)).
Proof.
  intros H. unfold notify_all_load_waiters.
  set (s1 := with_tree_zone _ s).
  assert (P (tree_zone s1)) as H1
      by (apply invariant_update_data_vio, H).
  clearbody s1. revert s1 H1.
  induction (tree_lock.waiters (lock_of d s)) as [|w ws IH];
    intros s1 H1; cbn [fold_left]; [exact H1|].
  apply IH, invariant_continue_load_for_waiter, H1.
Qed.

Lemma invariant_find_loaded_page levels d :
  forall tree_slot page s,
    P (tree_zone s) ->
    P (tree_zone (snd (find_loaded levels d tree_slot page s))).
Proof.
  induction levels as [|levels IH]; intros tree_slot page s H;
    cbn [find_loaded_page]; [exact H|].
  cbv zeta. destruct (negb (_ =? ZERO_BLOCK)); [exact H|].
  apply IH. apply invariant_update_data_vio, H.
Qed.

(** lookup_block_map_pbn, once the lookup is counted. *)
Lemma invariant_lookup_block_map_pbn d s s' :
  P (with_active_lookups (active_lookups (tree_zone s) + 1)
                         (tree_zone s)) ->
  lookup d s = Some s' -> P (tree_zone s').
Proof.
  intros H. unfold lookup_block_map_pbn. cbv zeta.
  destruct is_draining.
  { intros E. injection E as <-. apply invariant_finish, H. }
  set (s1 := set_lock_height 1 d _).
  assert (P (tree_zone s1)) as H1
      by (apply invariant_update_data_vio, H).
  set (slot0 := block_map_tree_slot.mk _ _).
  assert (H2 := invariant_find_loaded_page
                  (Z.to_nat BLOCK_MAP_TREE_HEIGHT) d slot0 None s1 H1).
  destruct (find_loaded _ d slot0 None s1) as [[tree_slot page] s2].
  cbn [snd] in H2. destruct page as [page|]; [|discriminate].
  destruct (invalid_entry _ _).
  { intros E. injection E as <-. apply invariant_abort_load, H2. }
  destruct (negb (is_mapped_location _)).
  { intros E. injection E as <-.
    apply invariant_allocate_block_map_page, H2. }
  destruct (_ =? 1); intros E; injection E as <-;
    [apply invariant_finish | apply invariant_load_block_map_page];
    exact H2.
Qed.

(** finish_block_map_page_load, from the release of the lock on. *)
Lemma invariant_continue_after_load d page z s :
  P z ->
  P (tree_zone
       (continue d page
          (notify_load_waiters
             d page (with_tree_zone (release_page_lock d z) s)))).
Proof.
  intros H. apply invariant_continue_with_loaded_page.
  apply invariant_notify_all_load_waiters.
  apply invariant_release_page_lock, H.
Qed.
End lookup_invariant.
Lemma find_loaded_page_some levels d :
  forall tree_slot page s,
    levels <> O \/ page <> None ->
    snd (fst (find_loaded levels d tree_slot page s)) <> None.
Proof.
  induction levels as [|levels IH]; intros tree_slot page s H;
    cbn [find_loaded_page].
  - destruct H as [H|H]; [contradiction | exact H].
  - cbv zeta. destruct (negb (_ =? ZERO_BLOCK)); [discriminate|].
    apply IH. right. discriminate.
Qed.

Lemma lookup_block_map_pbn_total d s :
  0 < BLOCK_MAP_TREE_HEIGHT -> exists s', lookup d s = Some s'.
Proof.
  intros H. unfold lookup_block_map_pbn. cbv zeta.
  destruct is_draining; [eexists; reflexivity|].
  set (s1 := set_lock_height 1 d _).
  set (slot0 := block_map_tree_slot.mk _ _).
  assert (F := find_loaded_page_some
                 (Z.to_nat BLOCK_MAP_TREE_HEIGHT) d slot0 None s1).
  destruct (find_loaded _ d slot0 None s1) as [[tree_slot page] s2].
  cbn [fst snd] in F. destruct page as [page|].
  - destruct (invalid_entry _ _); [eexists; reflexivity|].
    destruct (negb (is_mapped_location _)); [eexists; reflexivity|].
    destruct (_ =? 1); eexists; reflexivity.
  - exfalso. apply F; [|reflexivity]. left. lia.
Qed.

(** X22.  Every lookup is counted in active_lookups from its start
    until its callback is launched.  lookup_block_map_pbn adds one to
    the sum of active_lookups and the callbacks launched so far, and
    the end of a page load, with or without an error, leaves the sum as
    it is: whatever the lookup and the lookups waiting for the page go
    on to do, each is counted out exactly when it completes. *)
Theorem lookups_are_counted_until_completed
        (d : data_vio_id) (entry : entry_id) (result : status) (n : nat)
        (s : lookup_zone) :
  0 < BLOCK_MAP_TREE_HEIGHT ->
  (tree_zone_measure (tree_zone s) + 3 <= n)%nat ->
  (exists s',
      lookup d s = Some s'
      /\ active_lookups (tree_zone s') + completions (tree_zone s')
         = active_lookups (tree_zone s) + completions (tree_zone s) + 1)
  /\ (exists s',
         finish_load n entry d s = Some s'
         /\ active_lookups (tree_zone s') + completions (tree_zone s')
            = active_lookups (tree_zone s) + completions (tree_zone s))
  /\ (exists s',
         handle_io_error n entry d result s = Some s'
         /\ active_lookups (tree_zone s') + completions (tree_zone s')
            = active_lookups (tree_zone s) + completions (tree_zone s)).
Proof.
  intros Hh Hn.
  assert (forall c,
             let P := fun z => active_lookups z + completions z = c in
             (forall dv z, P z -> P (with_data_vios dv z))
             /\ (forall m z, P z -> P (with_loading_pages m z))
             /\ (forall d r z, P z -> P (finish_lookup d r z))
             /\ (forall r z, P z -> P (enter_zone_read_only_mode r z))
             /\ (forall d z, P z -> P (snd (acquire_vio_for_load d z))))
    as Keep.
  { intros c P. subst P. cbv beta. repeat split.
    - intros dv z H. exact H.
    - intros m z H. exact H.
    - intros d0 r z <-. apply account_finish_lookup.
    - intros r z <-. apply account_enter_read_only.
    - intros d0 z <-. apply account_acquire_vio_for_load. }
  split; [|split].
  - destruct (lookup_block_map_pbn_total d s Hh) as (s' & E).
    exists s'. split; [exact E|].
    destruct (Keep (active_lookups (tree_zone s)
                    + completions (tree_zone s) + 1))
      as (K1 & K2 & K3 & K4 & K5).
    revert E.
    apply (invariant_lookup_block_map_pbn
             (fun z => active_lookups z + completions z
                       = active_lookups (tree_zone s)
                         + completions (tree_zone s) + 1)); auto.
    cbn [active_lookups with_active_lookups].
    rewrite (completions_same (tree_zone s)) by reflexivity. lia.
  - unfold finish_block_map_page_load. cbv zeta.
    set (s1 := set_lock_height _ d s).
    destruct (copy_valid_page _ _ _ _) as [valid page].
    set (z1 := update_page _ _ (tree_zone s1)).
    destruct (return_vio_to_pool_total n entry z1 Hn) as (z2 & E).
    rewrite E. eexists. split; [reflexivity|].
    destruct (Keep (active_lookups (tree_zone s)
                    + completions (tree_zone s)))
      as (K1 & K2 & K3 & K4 & K5).
    apply (invariant_continue_after_load
             (fun z => active_lookups z + completions z
                       = active_lookups (tree_zone s)
                         + completions (tree_zone s))); auto.
    rewrite (account_return_vio_to_pool _ _ _ _ E). reflexivity.
  - unfold handle_io_error.
    destruct (return_vio_to_pool_total n entry (tree_zone s) Hn) as (z2 & E).
    rewrite E. eexists. split; [reflexivity|].
    destruct (Keep (active_lookups (tree_zone s)
                    + completions (tree_zone s)))
      as (K1 & K2 & K3 & K4 & K5).
    apply (invariant_abort_load
             (fun z => active_lookups z + completions z
                       = active_lookups (tree_zone s)
                         + completions (tree_zone s))); auto.
    apply (account_return_vio_to_pool _ _ _ _ E).
Qed.
(** The key that attempt_page_lock computes, the zone once the key is
    in the lock, and the three ways on from there. *)
Lemma attempt_page_lock_cases (d : data_vio_id) (s : lookup_zone) :
  let lock := lock_of d s in
  let tree_slot := treeSlots s d (tree_lock.height lock) in
  let key :=
    page_key (rootIndex d) (tree_lock.height lock)
             (block_map_tree_slot.pageIndex tree_slot)
             (BlockMapSlot.slot
                (block_map_tree_slot.blockMapSlot tree_slot)) in
  let z1 :=
    update_data_vio d
      (update_tree_lock (fun l => tree_lock.mk (tree_lock.height l) key
                                               (tree_lock.locked l)
                                               (tree_lock.waiters l)))
      (tree_zone s) in
  (exists holder,
      int_map_get (loading_pages (tree_zone s)) key = Some holder
      /\ attempt_lock d s
         = (fst (enqueueDataVIO holder d z1),
            with_tree_zone (snd (enqueueDataVIO holder d z1)) s))
  \/ (int_map_get (loading_pages (tree_zone s)) key = None
      /\ int_map_grow (loading_pages (tree_zone s)) <> VDO_SUCCESS
      /\ attempt_lock d s
         = (int_map_grow (loading_pages (tree_zone s)),
            with_tree_zone z1 s))
  \/ (int_map_get (loading_pages (tree_zone s)) key = None
      /\ attempt_lock d s
         = (VDO_SUCCESS,
            with_tree_zone
              (update_data_vio d
                 (update_tree_lock
                    (fun l => tree_lock.mk (tree_lock.height l)
                                           (tree_lock.key l) true
                                           (tree_lock.waiters l)))
                 (with_loading_pages
                    (loading_pages (tree_zone s) ++ [(key, d)]) z1)) s)).
Proof.
  intros lock tree_slot key z1.
  unfold attempt_page_lock, int_map_put. cbv zeta.
  fold lock. fold tree_slot. fold key. fold z1.
  change (loading_pages z1) with (loading_pages (tree_zone s)).
  destruct (int_map_get (loading_pages (tree_zone s)) key)
    as [holder|] eqn:G.
  - left. exists holder. split; [reflexivity|].
    rewrite status_eqb_refl. cbn [negb].
    change (with_loading_pages (loading_pages (tree_zone s)) z1) with z1.
    destruct (enqueueDataVIO holder d z1) as [result z2]. reflexivity.
  - right.
    destruct (status_eqb (int_map_grow (loading_pages (tree_zone s)))
                         VDO_SUCCESS) eqn:Q; cbn [negb].
    + right. split; [reflexivity|]. rewrite status_eqb_refl. reflexivity.
    + left. split; [reflexivity|]. rewrite Q.
      apply status_eqb_neq in Q. split; [exact Q | reflexivity].
Qed.

(** X23.  At most one data_vio holds the lock of a page.  While every
    key of loading_pages has one holder whose lock is locked with that
    key, attempt_page_lock by a data_vio that holds no lock keeps it
    so; it gives the data_vio the lock only when no one holds the key
    of its page, and otherwise leaves the table alone and puts the
    data_vio last on the queue of the holder, or fails; and
    release_page_lock keeps the table in order as well. *)
Theorem attempt_page_lock_is_exclusive (d : data_vio_id) (s : lookup_zone) :
  lock_table_ok (tree_zone s) ->
  tree_lock.locked (lock_of d s) = false ->
  let result := fst (attempt_lock d s) in
  let s' := snd (attempt_lock d s) in
  let key := tree_lock.key (lock_of d s') in
  lock_table_ok (tree_zone s')
  /\ lock_table_ok (release_page_lock d (tree_zone s'))
  /\ match int_map_get (loading_pages (tree_zone s)) key with
     | None =>
         result = VDO_SUCCESS ->
         tree_lock.locked (lock_of d s') = true
         /\ int_map_get (loading_pages (tree_zone s')) key = Some d
     | Some holder =>
         holder <> d
         /\ tree_lock.locked (lock_of d s') = false
         /\ loading_pages (tree_zone s') = loading_pages (tree_zone s)
         /\ (result = VDO_SUCCESS ->
             tree_lock.waiters (lock_of holder s')
             = tree_lock.waiters (lock_of holder s) ++ [d])
     end
  /\ (result <> VDO_SUCCESS ->
      tree_lock.locked (lock_of d s') = false
      /\ loading_pages (tree_zone s') = loading_pages (tree_zone s)).
Proof.
  intros T U. cbv zeta.
  assert (forall z, lock_table_ok z ->
                    lock_table_ok z
                    /\ lock_table_ok (release_page_lock d z)) as R.
  { intros z H. split; [exact H | apply lock_table_ok_release, H]. }
  apply (proj1 (and_assoc _ _ _)).
  destruct (attempt_page_lock_cases d s) as [(holder & G & E)|[C|C]];
    cbv zeta in *.
  - (* the key has a holder *)
    set (key := page_key _ _ _ _) in *.
    set (z1 := update_data_vio d _ (tree_zone s)) in *.
    rewrite E. cbn [fst snd tree_zone with_tree_zone].
    assert (holder <> d) as Nh.
    { apply (unlocked_is_no_holder (tree_zone s) d key holder T U).
      apply int_map_get_in, G. }
    assert (lock_table_ok z1) as T1.
    { apply (lock_table_ok_same (tree_zone s)); [reflexivity| |exact T].
      intros k h I. subst z1. rewrite data_vios_update_other; [auto|].
      apply (unlocked_is_no_holder (tree_zone s) d k h T U I). }
    assert (data_vio.treeLock (data_vios z1 d)
            = tree_lock.mk (tree_lock.height (lock_of d s)) key false
                           (tree_lock.waiters (lock_of d s))) as D1.
    { subst z1. rewrite data_vios_update_same.
      unfold update_tree_lock, lock_of in *. cbn [data_vio.treeLock].
      rewrite U. reflexivity. }
    unfold enqueueDataVIO.
    destruct (negb (status_eqb (ASSERT _) VDO_SUCCESS)) eqn:W;
      cbn [fst snd].
    + (* the data_vio is on a queue already *)
      unfold lock_of. cbn [tree_zone with_tree_zone]. rewrite D1. cbn [tree_lock.key
        tree_lock.locked]. rewrite G.
      split; [apply R, T1|].
      split; [|auto].
      split; [exact Nh|]. split; [reflexivity|]. split; [reflexivity|].
      intros Q. rewrite Q, status_eqb_refl in W. discriminate.
    + set (z2 := update_data_vio holder _ z1).
      assert (data_vios z2 d = data_vios z1 d) as D2.
      { subst z2. apply data_vios_update_other. auto. }
      unfold lock_of. cbn [tree_zone with_tree_zone]. rewrite D2, D1.
      cbn [tree_lock.key tree_lock.locked]. rewrite G.
      split.
      { apply R. revert T1. apply lock_table_ok_same; [reflexivity|].
        intros k h I. subst z2. unfold update_data_vio, upd.
        cbn [data_vios with_data_vios].
        destruct (Nat.eqb h holder) eqn:Q; [|auto].
        apply Nat.eqb_eq in Q. subst h. auto. }
      split; [|intros Q; contradiction].
      split; [exact Nh|]. split; [reflexivity|]. split; [reflexivity|].
      intros _. subst z2. rewrite data_vios_update_same.
      subst z1. rewrite data_vios_update_other by exact Nh. reflexivity.
  - (* the map cannot take the key *)
    destruct C as (G & Q & E).
    set (key := page_key _ _ _ _) in *.
    set (z1 := update_data_vio d _ (tree_zone s)) in *.
    rewrite E. cbn [fst snd tree_zone with_tree_zone].
    assert (lock_table_ok z1) as T1.
    { apply (lock_table_ok_same (tree_zone s)); [reflexivity| |exact T].
      intros k h I. subst z1. rewrite data_vios_update_other; [auto|].
      apply (unlocked_is_no_holder (tree_zone s) d k h T U I). }
    assert (data_vio.treeLock (data_vios z1 d)
            = tree_lock.mk (tree_lock.height (lock_of d s)) key false
                           (tree_lock.waiters (lock_of d s))) as D1.
    { subst z1. rewrite data_vios_update_same.
      unfold update_tree_lock, lock_of in *. cbn [data_vio.treeLock].
      rewrite U. reflexivity. }
    unfold lock_of. cbn [tree_zone with_tree_zone]. rewrite D1.
    cbn [tree_lock.key tree_lock.locked]. rewrite G.
    split; [apply R, T1|]. split; [|auto]. intros Q1. contradiction.
  - (* the data_vio takes the lock *)
    destruct C as (G & E).
    set (key := page_key _ _ _ _) in *.
    set (z1 := update_data_vio d _ (tree_zone s)) in *.
    rewrite E. cbn [fst snd tree_zone with_tree_zone].
    set (z2 := update_data_vio d _ _).
    assert (data_vio.treeLock (data_vios z2 d)
            = tree_lock.mk (tree_lock.height (lock_of d s)) key true
                           (tree_lock.waiters (lock_of d s))) as D2.
    { subst z2. rewrite data_vios_update_same.
      change (data_vios (with_loading_pages _ z1) d)
        with (data_vios z1 d).
      subst z1. rewrite data_vios_update_same. reflexivity. }
    unfold lock_of. cbn [tree_zone with_tree_zone]. rewrite D2.
    cbn [tree_lock.key tree_lock.locked]. rewrite G.
    split.
    { apply R. destruct T as [N H]. split.
      - change (loading_pages z2)
          with (loading_pages (tree_zone s) ++ [(key, d)]).
        rewrite map_app. cbn [map fst].
        apply NoDup_app.
        + exact N.
        + constructor; [intros []|constructor].
        + intros k I [<-|[]]. exact (int_map_get_none _ _ G I).
      - change (loading_pages z2)
          with (loading_pages (tree_zone s) ++ [(key, d)]).
        intros k h I. apply in_app_or in I. destruct I as [I|[I|[]]].
        + assert (h <> d) as Nd
              by (apply (unlocked_is_no_holder
                           (tree_zone s) d k h (conj N H) U I)).
          subst z2. rewrite data_vios_update_other by exact Nd.
          change (data_vios (with_loading_pages _ z1) h)
            with (data_vios z1 h).
          subst z1. rewrite data_vios_update_other by exact Nd. auto.
        + injection I as <- <-. rewrite D2. split; reflexivity. }
    split; [|intros Q; contradiction].
    intros _. split; [reflexivity|].
    change (loading_pages z2)
      with (loading_pages (tree_zone s) ++ [(key, d)]).
    apply int_map_get_new, G.
Qed.
(** X24.  The pool entries are conserved by the lookups.  A lookup
    takes entries from the pool only to send them to the disk, and
    when a page load ends, with or without an error, its entry is free
    again or on its way to the disk for a page that waited; the count
    of busy entries follows. *)
Theorem lookups_conserve_pool_entries
        (d : data_vio_id) (entry : entry_id) (result : status) (n : nat)
        (s : lookup_zone) :
  0 < BLOCK_MAP_TREE_HEIGHT ->
  (tree_zone_measure (tree_zone s) + 3 <= n)%nat ->
  (exists s',
      lookup d s = Some s' /\ pool_step [] (tree_zone s) (tree_zone s'))
  /\ (exists s',
         finish_load n entry d s = Some s'
         /\ pool_step [entry] (tree_zone s) (tree_zone s'))
  /\ (exists s',
         handle_io_error n entry d result s = Some s'
         /\ pool_step [entry] (tree_zone s) (tree_zone s')).
Proof.
  intros Hh Hn.
  assert (forall g,
             let P := pool_step g (tree_zone s) in
             (forall dv z, P z -> P (with_data_vios dv z))
             /\ (forall m z, P z -> P (with_loading_pages m z))
             /\ (forall d r z, P z -> P (finish_lookup d r z))
             /\ (forall r z, P z -> P (enter_zone_read_only_mode r z))
             /\ (forall d z, P z -> P (snd (acquire_vio_for_load d z))))
    as Keep.
  { intros g P. subst P. cbv beta. repeat split.
    - intros dv z H. exact H.
    - intros m z H. exact H.
    - intros d0 r z H. apply (pool_step_then _ _ _ _ H).
      apply (pool_step_same _ _ [setCompletionResult d0 r]); reflexivity.
    - intros r z H. apply (pool_step_then _ _ _ _ H).
      apply pool_step_enter_read_only.
    - intros d0 z H. apply (pool_step_then _ _ _ _ H).
      apply pool_step_acquire_vio_for_load. }
  split; [|split].
  - destruct (lookup_block_map_pbn_total d s Hh) as (s' & E).
    exists s'. split; [exact E|].
    destruct (Keep []) as (K1 & K2 & K3 & K4 & K5).
    revert E.
    apply (invariant_lookup_block_map_pbn
             (pool_step [] (tree_zone s))); auto.
    apply (pool_step_same _ _ []); auto using app_nil_r.
  - unfold finish_block_map_page_load. cbv zeta.
    set (s1 := set_lock_height _ d s).
    destruct (copy_valid_page _ _ _ _) as [valid page].
    set (z1 := update_page _ _ (tree_zone s1)).
    destruct (return_vio_to_pool_total n entry z1 Hn) as (z2 & E).
    rewrite E. eexists. split; [reflexivity|].
    destruct (Keep [entry]) as (K1 & K2 & K3 & K4 & K5).
    apply (invariant_continue_after_load
             (pool_step [entry] (tree_zone s))); auto.
    apply (pool_step_trans [] [entry] _ z1);
      [|apply (pool_step_return_vio_to_pool _ _ _ _ E)].
    apply (pool_step_same _ _ []); auto using app_nil_r.
  - unfold handle_io_error.
    destruct (return_vio_to_pool_total n entry (tree_zone s) Hn) as (z2 & E).
    rewrite E. eexists. split; [reflexivity|].
    destruct (Keep [entry]) as (K1 & K2 & K3 & K4 & K5).
    apply (invariant_abort_load (pool_step [entry] (tree_zone s))); auto.
    apply (pool_step_return_vio_to_pool _ _ _ _ E).
Qed.

(** *** Who allocates *)

Lemma allocating_attempt_page_lock d s :
  allocating (snd (attempt_lock d s)) = allocating s.
Proof.
  destruct (attempt_page_lock_cases d s) as [(holder & _ & E)|[C|C]];
    cbv zeta in *.
  - rewrite E. reflexivity.
  - destruct C as (_ & _ & E). rewrite E. reflexivity.
  - destruct C as (_ & E). rewrite E. reflexivity.
Qed.

Lemma allocating_load_block_map_page d s :
  allocating (load d s) = allocating s.
Proof.
  unfold load_block_map_page.
  assert (A := allocating_attempt_page_lock d s).
  destruct (attempt_lock d s) as [result s1]. cbn [snd] in A.
  destruct (negb (status_eqb result VDO_SUCCESS)); [exact A|].
  destruct (tree_lock.locked _); [|exact A].
  destruct (acquire_vio_for_load d _) as [result2 z2].
  destruct (negb (status_eqb result2 VDO_SUCCESS)); exact A.
Qed.

Lemma allocating_find_loaded_page levels d :
  forall tree_slot page s,
    allocating (snd (find_loaded levels d tree_slot page s))
    = allocating s.
Proof.
  induction levels as [|levels IH]; intros tree_slot page s;
    cbn [find_loaded_page]; [reflexivity|].
  cbv zeta. destruct (negb (_ =? ZERO_BLOCK)); [reflexivity|].
  rewrite IH. reflexivity.
Qed.

Lemma allocate_block_map_page_allocates d s :
  allocating (allocate d s) = allocating s
  \/ allocating (allocate d s) = allocating s ++ [d]
     /\ isWriteDataVIO d = true /\ isTrimDataVIO d = false
     /\ tree_lock.locked (lock_of d (allocate d s)) = true.
Proof.
  unfold allocate_block_map_page.
  destruct (isWriteDataVIO d) eqn:W; cbn [negb orb]; [|left; reflexivity].
  destruct (isTrimDataVIO d) eqn:Tr; [left; reflexivity|].
  assert (A := allocating_attempt_page_lock d s).
  destruct (attempt_lock d s) as [result s1]. cbn [snd] in A.
  destruct (negb (status_eqb result VDO_SUCCESS)); [left; exact A|].
  destruct (tree_lock.locked (lock_of d s1)) eqn:L; cbn [negb];
    [|left; exact A].
  right. cbn [allocating]. rewrite A. repeat split. exact L.
Qed.

Lemma continue_with_loaded_page_allocates d page s :
  allocating (continue d page s) = allocating s
  \/ allocating (continue d page s) = allocating s ++ [d]
     /\ isWriteDataVIO d = true /\ isTrimDataVIO d = false
     /\ tree_lock.locked (lock_of d (continue d page s)) = true.
Proof.
  unfold continue_with_loaded_page.
  destruct (invalid_entry _ _); [left; reflexivity|].
  destruct (negb (is_mapped_location _));
    [apply allocate_block_map_page_allocates|].
  left. destruct (_ =? 1); [reflexivity|].
  rewrite allocating_load_block_map_page. reflexivity.
Qed.

Lemma notify_all_load_waiters_allocates page waiters :
  forall s,
    exists ds,
      allocating (fold_left (continue_waiter page) waiters s)
      = allocating s ++ ds
      /\ incl ds waiters
      /\ Forall (fun w => isWriteDataVIO w = true
                          /\ isTrimDataVIO w = false) ds.
Proof.
  induction waiters as [|w ws IH]; intros s; cbn [fold_left].
  - exists []. rewrite app_nil_r. repeat split; [apply incl_nil_l|].
    constructor.
  - set (s1 := continue_waiter page s w).
    destruct (IH s1) as (ds & A & I & F).
    assert (allocating s1 = allocating s
            \/ allocating s1 = allocating s ++ [w]
               /\ isWriteDataVIO w = true /\ isTrimDataVIO w = false)
      as C.
    { subst s1. unfold continue_load_for_waiter.
      destruct (continue_with_loaded_page_allocates
                  w page
                  (set_lock_height
                     (uint8 (tree_lock.height (lock_of w s) - 1)) w s))
        as [C|(C & Wr & Tr & _)]; [left | right]; rewrite C; auto. }
    destruct C as [C|(C & Wr & Tr)]; rewrite C in A.
    + exists ds. split; [exact A|]. split; [|exact F].
      apply incl_tl, I.
    + exists (w :: ds). rewrite <- app_assoc in A. split; [exact A|].
      split; [|constructor; auto].
      apply incl_cons; [left; reflexivity | apply incl_tl, I].
Qed.

(** X25.  Only writes allocate tree pages, and only under the lock of
    the page.  lookup_block_map_pbn calls allocate_data_block at most
    once, for its own data_vio, and then the data_vio is a write that
    is no trim and holds its page lock; a read or a trim that comes to
    an unallocated page never allocates.  When a page load ends, the
    allocations started are those of writes among the loader and the
    data_vios that waited for the page. *)
Theorem only_writes_allocate_tree_pages
        (d : data_vio_id) (entry : entry_id) (n : nat) (s : lookup_zone) :
  0 < BLOCK_MAP_TREE_HEIGHT ->
  (tree_zone_measure (tree_zone s) + 3 <= n)%nat ->
  (exists s',
      lookup d s = Some s'
      /\ (allocating s' = allocating s
          \/ allocating s' = allocating s ++ [d]
             /\ isWriteDataVIO d = true /\ isTrimDataVIO d = false
             /\ tree_lock.locked (lock_of d s') = true))
  /\ (exists s' ds,
         finish_load n entry d s = Some s'
         /\ allocating s' = allocating s ++ ds
         /\ incl ds (tree_lock.waiters (lock_of d s) ++ [d])
         /\ Forall (fun w => isWriteDataVIO w = true
                             /\ isTrimDataVIO w = false) ds).
Proof.
  intros Hh Hn. split.
  - destruct (lookup_block_map_pbn_total d s Hh) as (s' & E).
    exists s'. split; [exact E|]. revert E.
    unfold lookup_block_map_pbn. cbv zeta.
    destruct is_draining.
    { intros E. injection E as <-. left. reflexivity. }
    set (s1 := set_lock_height 1 d _).
    set (slot0 := block_map_tree_slot.mk _ _).
    assert (A := allocating_find_loaded_page
                   (Z.to_nat BLOCK_MAP_TREE_HEIGHT) d slot0 None s1).
    destruct (find_loaded _ d slot0 None s1) as [[tree_slot page] s2].
    cbn [snd] in A. change (allocating s1) with (allocating s) in A.
    rewrite <- A.
    destruct page as [page|]; [|discriminate].
    destruct (invalid_entry _ _).
    { intros E. injection E as <-. left. reflexivity. }
    destruct (negb (is_mapped_location _)).
    { intros E. injection E as <-.
      apply allocate_block_map_page_allocates. }
    destruct (_ =? 1); intros E; injection E as <-; left;
      [reflexivity|].
    rewrite allocating_load_block_map_page. reflexivity.
  - unfold finish_block_map_page_load. cbv zeta.
    set (s1 := set_lock_height _ d s).
    destruct (copy_valid_page _ _ _ _) as [valid page].
    set (z1 := update_page _ _ (tree_zone s1)).
    destruct (return_vio_to_pool_total n entry z1 Hn) as (z2 & E).
    rewrite E. destruct (lookups_return_vio_to_pool _ _ _ _ E) as (Dv & _).
    set (tree_page := get_tree_page _ _ d s1) in *.
    set (s3 := with_tree_zone (release_page_lock d z2) s1).
    assert (tree_lock.waiters (lock_of d s3)
            = tree_lock.waiters (lock_of d s)) as Ws.
    { subst s3. unfold lock_of, release_page_lock.
      cbn [tree_zone with_tree_zone]. rewrite data_vios_update_same.
      change (data_vios (with_loading_pages _ z2) d)
        with (data_vios z2 d).
      rewrite Dv. subst z1 s1. unfold set_lock_height, update_page.
      cbn [tree_zone with_tree_zone data_vios with_pages].
      rewrite data_vios_update_same. reflexivity. }
    unfold notify_all_load_waiters. rewrite Ws.
    set (s4 := with_tree_zone _ s3).
    destruct (notify_all_load_waiters_allocates
                tree_page (tree_lock.waiters (lock_of d s)) s4)
      as (ds & A & I & F).
    set (s5 := fold_left _ _ s4) in *.
    change (allocating s4) with (allocating s) in A.
    destruct (continue_with_loaded_page_allocates d tree_page s5)
      as [C|(C & Wr & Tr & _)].
    + eexists _, ds. split; [reflexivity|]. rewrite C.
      split; [exact A|]. split; [|exact F].
      apply incl_appl, I.
    + eexists _, (ds ++ [d]). split; [reflexivity|]. rewrite C, A.
      split; [symmetry; apply app_assoc|]. split.
      * apply incl_app; [apply incl_appl, I|].
        apply incl_appr, incl_refl.
      * apply Forall_app. split; [exact F|]. constructor; auto.
Qed.
(** *** The way down the tree *)

Lemma treeSlots_set_tree_slot d h slot s k :
  treeSlots (set_tree_slot d h slot s) d k
  = if k =? h then slot else treeSlots s d k.
Proof.
  unfold set_tree_slot, upd, updZ. cbn [treeSlots].
  rewrite Nat.eqb_refl. reflexivity.
Qed.

Lemma height_set_lock_height h d s :
  tree_lock.height (lock_of d (set_lock_height h d s)) = h.
Proof.
  unfold lock_of, set_lock_height. cbn [tree_zone with_tree_zone].
  rewrite data_vios_update_same. reflexivity.
Qed.

Lemma tree_slot_at_next page_index height :
  0 < BLOCK_MAP_ENTRIES_PER_PAGE -> 0 <= height ->
  block_map_tree_slot.mk
    (block_map_tree_slot.pageIndex
       (tree_slot_at BLOCK_MAP_ENTRIES_PER_PAGE page_index height)
     / BLOCK_MAP_ENTRIES_PER_PAGE)
    (BlockMapSlot.mk
       (BlockMapSlot.pbn
          (block_map_tree_slot.blockMapSlot
             (tree_slot_at BLOCK_MAP_ENTRIES_PER_PAGE page_index height)))
       (Z.to_nat
          (block_map_tree_slot.pageIndex
             (tree_slot_at BLOCK_MAP_ENTRIES_PER_PAGE page_index height)
           mod BLOCK_MAP_ENTRIES_PER_PAGE)))
  = tree_slot_at BLOCK_MAP_ENTRIES_PER_PAGE page_index (height + 1).
Proof.
  intros He Hh. unfold tree_slot_at.
  cbn [block_map_tree_slot.pageIndex block_map_tree_slot.blockMapSlot
       BlockMapSlot.pbn].
  replace (height + 1 - 1) with height by lia.
  rewrite Z.pow_add_r, Z.pow_1_r by lia.
  rewrite Z.div_div; [reflexivity | | lia].
  apply Z.pow_nonzero; lia.
Qed.

(** The loop of lookup_block_map_pbn from the height [h0] on, for the
    page index [index]: when the pages of the heights from [h0] below
    [h] are not loaded and the page of height [h] is, the loop stops at
    [h] with the tree slots of the heights passed filled in. *)
Lemma find_loaded_page_descends (index : Z) (d : data_vio_id) (levels : nat) :
  forall (h0 h : Z) (page0 : option page_id) (s : lookup_zone),
    0 < BLOCK_MAP_ENTRIES_PER_PAGE ->
    1 <= h0 <= h -> h < h0 + Z.of_nat levels -> h < 255 ->
    tree_lock.height (lock_of d s) = h0 ->
    (forall k, h0 <= k < h ->
               getBlockMapPagePBN
                 (tree_page.page_buffer
                    (pages (tree_zone s)
                           (get_tree_page_by_index
                              (rootIndex d) k
                              (index / BLOCK_MAP_ENTRIES_PER_PAGE ^ k))))
               = ZERO_BLOCK) ->
    getBlockMapPagePBN
      (tree_page.page_buffer
         (pages (tree_zone s)
                (get_tree_page_by_index
                   (rootIndex d) h
                   (index / BLOCK_MAP_ENTRIES_PER_PAGE ^ h))))
    <> ZERO_BLOCK ->
    let out :=
      find_loaded levels d
                  (tree_slot_at BLOCK_MAP_ENTRIES_PER_PAGE index h0)
                  page0 s in
    fst (fst out) = tree_slot_at BLOCK_MAP_ENTRIES_PER_PAGE index h
    /\ snd (fst out)
       = Some (get_tree_page_by_index
                 (rootIndex d) h
                 (index / BLOCK_MAP_ENTRIES_PER_PAGE ^ h))
    /\ tree_lock.height (lock_of d (snd out)) = h
    /\ (forall k, h0 <= k < h ->
                  treeSlots (snd out) d k
                  = tree_slot_at BLOCK_MAP_ENTRIES_PER_PAGE index k)
    /\ treeSlots (snd out) d h
       = block_map_tree_slot.set_pbn
           (getBlockMapPagePBN
              (tree_page.page_buffer
                 (pages (tree_zone s)
                        (get_tree_page_by_index
                           (rootIndex d) h
                           (index / BLOCK_MAP_ENTRIES_PER_PAGE ^ h)))))
           (tree_slot_at BLOCK_MAP_ENTRIES_PER_PAGE index h)
    /\ (forall k, k < h0 \/ h < k ->
                  treeSlots (snd out) d k = treeSlots s d k)
    /\ pages (tree_zone (snd out)) = pages (tree_zone s)
    /\ trace (tree_zone (snd out)) = trace (tree_zone s)
    /\ active_lookups (tree_zone (snd out)) = active_lookups (tree_zone s)
    /\ tree_lock.locked (lock_of d (snd out))
       = tree_lock.locked (lock_of d s).
Proof.
  induction levels as [|levels IH];
    intros h0 h page0 s He Hh Hl H255 Hs Below At; [lia|].
  cbn [find_loaded_page]. cbv zeta. rewrite Hs.
  set (s1 := set_tree_slot d h0 _ s).
  assert (get_tree_page get_tree_page_by_index rootIndex d s1
          = get_tree_page_by_index
              (rootIndex d) h0
              (index / BLOCK_MAP_ENTRIES_PER_PAGE ^ h0)) as G.
  { unfold get_tree_page.
    change (lock_of d s1) with (lock_of d s). rewrite Hs.
    subst s1. rewrite treeSlots_set_tree_slot, Z.eqb_refl. reflexivity. }
  rewrite G. change (tree_zone s1) with (tree_zone s).
  destruct (Z.eq_dec h0 h) as [->|Nh].
  - (* the page of this height is loaded *)
    apply Z.eqb_neq in At. rewrite At. cbn [negb fst snd].
    split; [reflexivity|]. split; [reflexivity|].
    split; [exact Hs|]. split; [intros k Hk; lia|].
    split.
    { rewrite treeSlots_set_tree_slot, Z.eqb_refl.
      subst s1. rewrite treeSlots_set_tree_slot, Z.eqb_refl.
      reflexivity. }
    split; [|repeat split].
    intros k Hk. rewrite treeSlots_set_tree_slot.
    destruct (Z.eqb_spec k h) as [->|_]; [lia|].
    subst s1. rewrite treeSlots_set_tree_slot.
    destruct (Z.eqb_spec k h) as [->|_]; [lia | reflexivity].
  - (* it is not: one height up *)
    rewrite (Below h0) by lia. cbn [Z.eqb ZERO_BLOCK negb].
    rewrite tree_slot_at_next by lia.
    assert (uint8 (h0 + 1) = h0 + 1) as U
        by (unfold uint8; apply Z.mod_small; lia).
    rewrite U. set (s2 := set_lock_height (h0 + 1) d s1).
    destruct (IH (h0 + 1) h
                 (Some (get_tree_page_by_index
                          (rootIndex d) h0
                          (index / BLOCK_MAP_ENTRIES_PER_PAGE ^ h0)))
                 s2 He)
      as (R1 & R2 & R3 & R4 & R5 & R6 & R7 & R8 & R9 & R10);
      try lia.
    + apply height_set_lock_height.
    + intros k Hk. apply Below. lia.
    + exact At.
    + cbv zeta in *.
      split; [exact R1|]. split; [exact R2|]. split; [exact R3|].
      split.
      { intros k Hk. destruct (Z.eq_dec k h0) as [->|Nk].
        - rewrite R6 by lia.
          change (treeSlots s2 d h0) with (treeSlots s1 d h0).
          subst s1. rewrite treeSlots_set_tree_slot, Z.eqb_refl.
          reflexivity.
        - apply R4. lia. }
      split; [exact R5|].
      split.
      { intros k Hk. rewrite R6 by lia.
        change (treeSlots s2 d k) with (treeSlots s1 d k).
        subst s1. rewrite treeSlots_set_tree_slot.
        destruct (Z.eqb_spec k h0) as [->|_]; [lia | reflexivity]. }
      split; [exact R7|]. split; [exact R8|]. split; [exact R9|].
      rewrite R10. unfold lock_of. subst s2.
      unfold set_lock_height. cbn [tree_zone with_tree_zone].
      rewrite data_vios_update_same. reflexivity.
Qed.
Lemma treeSlots_attempt_page_lock d s :
  treeSlots (snd (attempt_lock d s)) = treeSlots s.
Proof.
  destruct (attempt_page_lock_cases d s) as [(holder & _ & E)|[C|C]];
    cbv zeta in *.
  - rewrite E. reflexivity.
  - destruct C as (_ & _ & E). rewrite E. reflexivity.
  - destruct C as (_ & E). rewrite E. reflexivity.
Qed.

Lemma treeSlots_load_block_map_page d s :
  treeSlots (load d s) = treeSlots s.
Proof.
  unfold load_block_map_page.
  assert (A := treeSlots_attempt_page_lock d s).
  destruct (attempt_lock d s) as [result s1]. cbn [snd] in A.
  destruct (negb (status_eqb result VDO_SUCCESS)); [exact A|].
  destruct (tree_lock.locked _); [|exact A].
  destruct (acquire_vio_for_load d _) as [result2 z2].
  destruct (negb (status_eqb result2 VDO_SUCCESS)); exact A.
Qed.

Lemma treeSlots_allocate_block_map_page d s :
  treeSlots (allocate d s) = treeSlots s.
Proof.
  unfold allocate_block_map_page.
  destruct (negb (isWriteDataVIO d) || isTrimDataVIO d); [reflexivity|].
  assert (A := treeSlots_attempt_page_lock d s).
  destruct (attempt_lock d s) as [result s1]. cbn [snd] in A.
  destruct (negb (status_eqb result VDO_SUCCESS)); [exact A|].
  destruct (negb (tree_lock.locked _)); exact A.
Qed.

(** What abort_lookup leaves in the trace when the error is not
    VDO_NO_SPACE. *)
Lemma trace_abort_lookup d r z :
  r <> VDO_NO_SPACE ->
  exists evs,
    trace (abort_lookup d r z)
    = trace z ++ enter_read_only_mode r :: evs
              ++ [setCompletionResult d r].
Proof.
  intros N. unfold abort_lookup. apply status_eqb_neq in N. rewrite N.
  cbn [negb]. rewrite trace_finish_lookup.
  set (z1 := enter_zone_read_only_mode r z).
  assert (trace z1 = trace z ++ [enter_read_only_mode r;
                                 check_for_drain_complete]) as T1.
  { subst z1. unfold enter_zone_read_only_mode. cbn.
    rewrite <- app_assoc. reflexivity. }
  destruct (tree_lock.locked _).
  - unfold notify_all_lock_waiters. rewrite trace_notify_waiters.
    change (trace (update_data_vio d _ (release_page_lock d z1)))
      with (trace z1).
    rewrite T1. eexists (check_for_drain_complete :: _).
    rewrite <- !app_assoc. cbn [app]. reflexivity.
  - rewrite T1. exists [check_for_drain_complete].
    rewrite <- !app_assoc. reflexivity.
Qed.

(** X26.  lookup_block_map_pbn starts from the lowest page of the way
    down that is in memory.  With [index] the index of the leaf page
    in its tree, the page of height k on the way is page index / E^k
    of that height, E being the entries of a page, and the slot that
    leads on from it is digit k - 1 of index in base E; the lookup
    fills in these tree slots from height 1 up to the first height h
    whose page has a PBN, and the PBN of that page.  If the entry of
    that page is invalid the zone goes read-only and the data_vio is
    completed with VDO_BAD_MAPPING; if it is a valid mapping, its PBN
    becomes the PBN of the tree slot one height down, and at height 1
    the data_vio is completed with VDO_SUCCESS at once. *)
Theorem lookup_finds_the_lowest_loaded_page
        (d : data_vio_id) (s : lookup_zone) (h : Z) :
  let index :=
    uint32 (block_map_tree_slot.pageIndex (treeSlots s d 0)
            - flat_page_count)
    / root_count in
  let page_at := fun k =>
    get_tree_page_by_index
      (rootIndex d) k (index / BLOCK_MAP_ENTRIES_PER_PAGE ^ k) in
  let pbn_at := fun k =>
    getBlockMapPagePBN
      (tree_page.page_buffer (pages (tree_zone s) (page_at k))) in
  let mapping :=
    unpack_block_map_entry
      (tree_page.page_buffer (pages (tree_zone s) (page_at h)))
      (Z.to_nat ((index / BLOCK_MAP_ENTRIES_PER_PAGE ^ (h - 1))
                 mod BLOCK_MAP_ENTRIES_PER_PAGE)) in
  is_draining = false ->
  0 < BLOCK_MAP_ENTRIES_PER_PAGE ->
  1 <= h <= BLOCK_MAP_TREE_HEIGHT ->
  BLOCK_MAP_TREE_HEIGHT < 255 ->
  (forall k, 1 <= k < h -> pbn_at k = ZERO_BLOCK) ->
  pbn_at h <> ZERO_BLOCK ->
  exists s',
    lookup d s = Some s'
    /\ (forall k,
           1 <= k <= h ->
           block_map_tree_slot.pageIndex (treeSlots s' d k)
           = index / BLOCK_MAP_ENTRIES_PER_PAGE ^ k
           /\ BlockMapSlot.slot
                (block_map_tree_slot.blockMapSlot (treeSlots s' d k))
              = Z.to_nat ((index / BLOCK_MAP_ENTRIES_PER_PAGE ^ (k - 1))
                          mod BLOCK_MAP_ENTRIES_PER_PAGE))
    /\ BlockMapSlot.pbn
         (block_map_tree_slot.blockMapSlot (treeSlots s' d h))
       = pbn_at h
    /\ (invalid_entry mapping h = true ->
        exists evs,
          trace (tree_zone s')
          = trace (tree_zone s)
              ++ enter_read_only_mode VDO_BAD_MAPPING
                 :: evs ++ [setCompletionResult d VDO_BAD_MAPPING])
    /\ (invalid_entry mapping h = false ->
        is_mapped_location mapping = true ->
        BlockMapSlot.pbn
          (block_map_tree_slot.blockMapSlot (treeSlots s' d (h - 1)))
        = data_location.pbn mapping
        /\ (h = 1 ->
            trace (tree_zone s')
            = trace (tree_zone s) ++ [setCompletionResult d VDO_SUCCESS])).
Proof.
  intros index page_at pbn_at mapping Hd He Hh H255 Below At.
  unfold lookup_block_map_pbn. rewrite Hd. cbv zeta.
  set (s0 := with_tree_zone _ s).
  change (treeSlots s0 d 0) with (treeSlots s d 0). fold index.
  set (s1 := set_lock_height 1 d s0).
  assert (block_map_tree_slot.mk
            (index / BLOCK_MAP_ENTRIES_PER_PAGE)
            (BlockMapSlot.mk
               0 (Z.to_nat (index mod BLOCK_MAP_ENTRIES_PER_PAGE)))
          = tree_slot_at BLOCK_MAP_ENTRIES_PER_PAGE index 1) as E0.
  { unfold tree_slot_at. rewrite Z.pow_1_r. change (1 - 1) with 0.
    rewrite Z.pow_0_r, Z.div_1_r. reflexivity. }
  rewrite E0.
  destruct (find_loaded_page_descends
              index d (Z.to_nat BLOCK_MAP_TREE_HEIGHT) 1 h None s1 He)
    as (R1 & R2 & R3 & R4 & R5 & R6 & R7 & R8 & R9 & R10);
    try lia; try assumption.
  { apply height_set_lock_height. }
  cbv zeta in *.
  destruct (find_loaded _ d _ None s1) as [[tree_slot page] s2].
  cbn [fst snd] in *. subst tree_slot page. rewrite R3.
  change (pages (tree_zone s1)) with (pages (tree_zone s)) in *.
  change (trace (tree_zone s1)) with (trace (tree_zone s)) in *.
  rewrite R7. unfold tree_slot_at at 1.
  cbn [BlockMapSlot.slot block_map_tree_slot.blockMapSlot].
  change (unpack_block_map_entry _ _) with mapping.
  assert (forall s',
             treeSlots s' d h = treeSlots s2 d h ->
             (forall k, 1 <= k < h ->
                        block_map_tree_slot.pageIndex (treeSlots s' d k)
                        = block_map_tree_slot.pageIndex
                            (treeSlots s2 d k)
                        /\ BlockMapSlot.slot
                             (block_map_tree_slot.blockMapSlot
                                (treeSlots s' d k))
                           = BlockMapSlot.slot
                               (block_map_tree_slot.blockMapSlot
                                  (treeSlots s2 d k))) ->
             (forall k,
                 1 <= k <= h ->
                 block_map_tree_slot.pageIndex (treeSlots s' d k)
                 = index / BLOCK_MAP_ENTRIES_PER_PAGE ^ k
                 /\ BlockMapSlot.slot
                      (block_map_tree_slot.blockMapSlot (treeSlots s' d k))
                    = Z.to_nat
                        ((index / BLOCK_MAP_ENTRIES_PER_PAGE ^ (k - 1))
                         mod BLOCK_MAP_ENTRIES_PER_PAGE))
             /\ BlockMapSlot.pbn
                  (block_map_tree_slot.blockMapSlot (treeSlots s' d h))
                = pbn_at h) as Slots.
  { intros s' Sh Sk. split.
    - intros k Hk. destruct (Z.eq_dec k h) as [->|Nk].
      + rewrite Sh, R5. split; reflexivity.
      + destruct (Sk k) as [-> ->]; [lia|]. rewrite R4 by lia.
        split; reflexivity.
    - rewrite Sh, R5. reflexivity. }
  destruct (invalid_entry mapping h) eqn:Inv.
  { eexists. split; [reflexivity|].
    apply and_assoc. split; [apply Slots; auto|].
    split; [|discriminate]. intros _.
    destruct (trace_abort_lookup d VDO_BAD_MAPPING (tree_zone s2))
      as (evs & T); [discriminate|].
    exists evs. unfold abort_load. cbn [tree_zone with_tree_zone].
    rewrite T, R8. reflexivity. }
  destruct (is_mapped_location mapping) eqn:Mp; cbn [negb].
  2:{ eexists. split; [reflexivity|].
      apply and_assoc. split.
      - apply Slots.
        + rewrite treeSlots_allocate_block_map_page. reflexivity.
        + intros k Hk. rewrite treeSlots_allocate_block_map_page.
          split; reflexivity.
      - split; discriminate. }
  set (s3 := set_tree_slot d (h - 1) _ s2).
  assert (treeSlots s3 d h = treeSlots s2 d h) as S3h.
  { subst s3. rewrite treeSlots_set_tree_slot.
    destruct (Z.eqb_spec h (h - 1)); [lia | reflexivity]. }
  assert (forall k,
             1 <= k < h ->
             block_map_tree_slot.pageIndex (treeSlots s3 d k)
             = block_map_tree_slot.pageIndex (treeSlots s2 d k)
             /\ BlockMapSlot.slot
                  (block_map_tree_slot.blockMapSlot (treeSlots s3 d k))
                = BlockMapSlot.slot
                    (block_map_tree_slot.blockMapSlot (treeSlots s2 d k)))
    as S3k.
  { intros k Hk. subst s3. rewrite treeSlots_set_tree_slot.
    destruct (Z.eqb_spec k (h - 1)) as [->|_]; split; reflexivity. }
  assert (BlockMapSlot.pbn
            (block_map_tree_slot.blockMapSlot (treeSlots s3 d (h - 1)))
          = data_location.pbn mapping) as S3p.
  { subst s3. rewrite treeSlots_set_tree_slot, Z.eqb_refl. reflexivity. }
  destruct (Z.eqb_spec h 1) as [H1|H1].
  - eexists. split; [reflexivity|].
    apply and_assoc. split; [apply Slots; auto|].
    split; [discriminate|]. intros _ _. split; [exact S3p|].
    intros _. unfold finish. cbn [tree_zone with_tree_zone].
    rewrite trace_finish_lookup.
    change (trace (tree_zone s3)) with (trace (tree_zone s2)).
    rewrite R8. reflexivity.
  - eexists. split; [reflexivity|].
    apply and_assoc. split.
    + apply Slots; rewrite treeSlots_load_block_map_page; auto.
    + split; [discriminate|]. intros _ _.
      rewrite treeSlots_load_block_map_page.
      split; [exact S3p | contradiction].
Qed.
(** X27.  lookup_block_map_pbn and find_block_map_page_pbn agree on the
    PBN of a leaf page.  For a page number of the tree part of the map
    whose tree page of height 1 is in memory and initialized, the
    lookup looks at the entry that find_block_map_page_pbn looks at;
    when that entry is a mapping that the lookup accepts, the data_vio
    is completed with VDO_SUCCESS at once and the PBN left in tree slot
    0 is the PBN that find_block_map_page_pbn gives, which is not the
    zero block; and when find_block_map_page_pbn gives the zero block,
    the lookup leaves tree slot 0 as it was. *)
Theorem lookup_agrees_with_find_block_map_page_pbn
        (BLOCK_MAP_FLAT_PAGE_ORIGIN : Z) (map : block_map.t)
        (d : data_vio_id) (s : lookup_zone) (page_number : Z) :
  let found :=
    find_block_map_page_pbn
      BLOCK_MAP_FLAT_PAGE_ORIGIN BLOCK_MAP_ENTRIES_PER_PAGE
      is_valid_location map page_number in
  let page_index := (page_number - flat_page_count) / root_count in
  let page :=
    tree_page.page_buffer
      (block_map.forest map (rootIndex d) 1
                        (page_index / BLOCK_MAP_ENTRIES_PER_PAGE)) in
  let mapping :=
    unpack_block_map_entry
      page (Z.to_nat (page_index mod BLOCK_MAP_ENTRIES_PER_PAGE)) in
  is_draining = false ->
  0 < BLOCK_MAP_ENTRIES_PER_PAGE ->
  1 <= BLOCK_MAP_TREE_HEIGHT < 255 ->
  block_map.flat_page_count map = flat_page_count ->
  block_map.root_count map = root_count ->
  (forall root index,
      block_map.forest map root 1 index
      = pages (tree_zone s) (get_tree_page_by_index root 1 index)) ->
  block_map_tree_slot.pageIndex (treeSlots s d 0) = page_number ->
  rootIndex d = page_number mod root_count ->
  0 <= flat_page_count <= page_number ->
  page_number < 2 ^ 32 ->
  isBlockMapPageInitialized page = true ->
  getBlockMapPagePBN page <> ZERO_BLOCK ->
  exists s',
    lookup d s = Some s'
    /\ (invalid_entry mapping 1 = false ->
        is_mapped_location mapping = true ->
        found <> ZERO_BLOCK
        /\ treeSlots s' d 0
           = block_map_tree_slot.set_pbn found (treeSlots s d 0)
        /\ trace (tree_zone s')
           = trace (tree_zone s) ++ [setCompletionResult d VDO_SUCCESS])
    /\ (found = ZERO_BLOCK -> treeSlots s' d 0 = treeSlots s d 0).
Proof.
  intros found page_index page mapping Hd He Hh Hf Hr Forest H0 Root
         Hp H32 Init Loaded.
  assert (uint32 (block_map_tree_slot.pageIndex (treeSlots s d 0)
                  - flat_page_count) / root_count = page_index) as Ix.
  { rewrite H0. unfold uint32. rewrite Z.mod_small by lia. reflexivity. }
  assert (page_index / BLOCK_MAP_ENTRIES_PER_PAGE ^ 1
          = page_index / BLOCK_MAP_ENTRIES_PER_PAGE) as P1
      by (rewrite Z.pow_1_r; reflexivity).
  assert (found = if negb (is_valid_location mapping)
                     || is_compressed (data_location.state mapping)
                  then ZERO_BLOCK else data_location.pbn mapping) as F.
  { subst found. unfold find_block_map_page_pbn. rewrite Hf, Hr.
    destruct (Z.ltb_spec page_number flat_page_count) as [Lt|_]; [lia|].
    cbv zeta. rewrite <- Root. fold page_index. fold page.
    unfold isBlockMapPageInitialized in Init. rewrite Init.
    cbn [negb]. fold mapping. reflexivity. }
  unfold lookup_block_map_pbn. rewrite Hd. cbv zeta.
  set (s0 := with_tree_zone _ s).
  change (treeSlots s0 d 0) with (treeSlots s d 0). rewrite Ix.
  set (s1 := set_lock_height 1 d s0).
  assert (block_map_tree_slot.mk
            (page_index / BLOCK_MAP_ENTRIES_PER_PAGE)
            (BlockMapSlot.mk
               0 (Z.to_nat (page_index mod BLOCK_MAP_ENTRIES_PER_PAGE)))
          = tree_slot_at BLOCK_MAP_ENTRIES_PER_PAGE page_index 1) as E0.
  { unfold tree_slot_at. rewrite Z.pow_1_r. change (1 - 1) with 0.
    rewrite Z.pow_0_r, Z.div_1_r. reflexivity. }
  rewrite E0.
  destruct (find_loaded_page_descends
              page_index d (Z.to_nat BLOCK_MAP_TREE_HEIGHT) 1 1 None s1 He)
    as (R1 & R2 & R3 & _ & _ & R6 & R7 & R8 & _); try lia.
  { apply height_set_lock_height. }
  { change (pages (tree_zone s1)) with (pages (tree_zone s)).
    rewrite P1, <- Forest. exact Loaded. }
  cbv zeta in *.
  destruct (find_loaded _ d _ None s1) as [[tree_slot page1] s2].
  cbn [fst snd] in *. subst tree_slot page1. rewrite R3, R7.
  change (pages (tree_zone s1)) with (pages (tree_zone s)).
  rewrite P1, <- Forest. fold page. rewrite <- E0.
  cbn [BlockMapSlot.slot block_map_tree_slot.blockMapSlot].
  fold mapping. change (1 - 1) with 0. change (1 =? 1) with true.
  cbv iota.
  assert (treeSlots s2 d 0 = treeSlots s d 0) as S0
      by (rewrite R6 by lia; reflexivity).
  assert (trace (tree_zone s2) = trace (tree_zone s)) as T2
      by (rewrite R8; reflexivity).
  destruct (invalid_entry mapping 1) eqn:Inv.
  { eexists. split; [reflexivity|]. split; [discriminate|].
    intros _. exact S0. }
  destruct (is_mapped_location mapping) eqn:Mp; cbn [negb].
  2:{ eexists. split; [reflexivity|]. split; [discriminate|].
      intros _. rewrite treeSlots_allocate_block_map_page. exact S0. }
  unfold is_invalid_tree_entry in Inv.
  destruct (negb (is_valid_location mapping)
            || is_compressed (data_location.state mapping)) eqn:V;
    cbn [orb] in Inv.
  { discriminate. }
  rewrite Mp in Inv. cbn [andb] in Inv.
  destruct (Z.eqb_spec (data_location.pbn mapping) ZERO_BLOCK) as [Z0|Z0];
    [discriminate|].
  eexists. split; [reflexivity|]. split.
  - intros _ _. rewrite F. split; [exact Z0|]. split.
    + unfold finish. cbn [treeSlots with_tree_zone].
      rewrite treeSlots_set_tree_slot. change (0 =? 0) with true.
      cbv iota. rewrite S0. reflexivity.
    + unfold finish. cbn [tree_zone with_tree_zone].
      rewrite trace_finish_lookup.
      change (trace (tree_zone (set_tree_slot d 0 _ s2)))
        with (trace (tree_zone s2)).
      rewrite T2. reflexivity.
  - intros Fz. rewrite F in Fz. contradiction.
Qed.
End tree_lookup_properties.

Lemma lookups_are_counted_until_completed_witness :
  exists s',
    small_lookup 0%nat small_tree = Some s'
    /\ active_lookups (tree_zone s') + completions (tree_zone s') = 1.
Proof.
  destruct (lookups_are_counted_until_completed
              2 4 any_location_valid small_is_data_block small_page_key
              (fun _ => VDO_SUCCESS) small_validate small_format false 0 1
              small_tree_page (fun _ => 0) (fun d => Nat.eqb d 4)
              (fun _ => false) 0%nat 0%nat VDO_SUCCESS 10%nat small_tree)
    as ((s' & E & A) & _).
  - lia.
  - vm_compute. lia.
  - exists s'. split; [exact E | rewrite A; reflexivity].
Defined.

Lemma attempt_page_lock_is_exclusive_witness :
  lock_table_ok (tree_zone (snd (small_attempt_page_lock 0%nat small_tree)))
  /\ loading_pages
       (tree_zone (snd (small_attempt_page_lock 0%nat small_tree)))
     = [(0, 0%nat)].
Proof.
  destruct (attempt_page_lock_is_exclusive
              small_page_key (fun _ => VDO_SUCCESS) (fun _ => 0)
              0%nat small_tree) as (T & _).
  - split; [constructor | intros k h []].
  - reflexivity.
  - split; [exact T | reflexivity].
Defined.

Lemma lookups_conserve_pool_entries_witness :
  exists s',
    small_finish_load 10%nat 0%nat 0%nat small_tree = Some s'
    /\ pool_step [0%nat] (tree_zone small_tree) (tree_zone s').
Proof.
  destruct (lookups_conserve_pool_entries
              2 4 any_location_valid small_is_data_block small_page_key
              (fun _ => VDO_SUCCESS) small_validate small_format false 0 1
              small_tree_page (fun _ => 0) (fun d => Nat.eqb d 4)
              (fun _ => false) 0%nat 0%nat VDO_SUCCESS 10%nat small_tree)
    as (_ & F & _).
  - lia.
  - vm_compute. lia.
  - exact F.
Defined.

Lemma only_writes_allocate_tree_pages_witness :
  exists s',
    small_lookup 4%nat small_tree = Some s'
    /\ (allocating s' = []
        \/ allocating s' = [4%nat]
           /\ tree_lock.locked (lock_of 4%nat s') = true).
Proof.
  destruct (only_writes_allocate_tree_pages
              2 4 any_location_valid small_is_data_block small_page_key
              (fun _ => VDO_SUCCESS) small_validate small_format false 0 1
              small_tree_page (fun _ => 0) (fun d => Nat.eqb d 4)
              (fun _ => false) 4%nat 0%nat 10%nat small_tree)
    as ((s' & E & A) & _).
  - lia.
  - vm_compute. lia.
  - exists s'. split; [exact E|].
    destruct A as [A|(A & _ & _ & L)]; [left | right; split]; assumption.
Defined.

Lemma lookup_finds_the_lowest_loaded_page_witness :
  exists s',
    small_lookup 4%nat small_tree = Some s'
    /\ BlockMapSlot.pbn
         (block_map_tree_slot.blockMapSlot (treeSlots s' 4%nat 2)) = 100.
Proof.
  destruct (lookup_finds_the_lowest_loaded_page
              2 4 any_location_valid small_is_data_block small_page_key
              (fun _ => VDO_SUCCESS) false 0 1 small_tree_page
              (fun _ => 0) (fun d => Nat.eqb d 4) (fun _ => false)
              4%nat small_tree 2)
    as (s' & E & _ & P & _).
  - reflexivity.
  - lia.
  - lia.
  - lia.
  - intros k Hk. assert (k = 1) as -> by lia. reflexivity.
  - vm_compute. discriminate.
  - exists s'. split; [exact E | exact P].
Defined.

Lemma lookup_agrees_with_find_block_map_page_pbn_witness :
  exists s',
    small_lookup 0%nat small_tree_loaded = Some s'
    /\ treeSlots s' 0%nat 0
       = block_map_tree_slot.set_pbn
           (find_block_map_page_pbn 1 4 any_location_valid
                                    small_block_map 0)
           (treeSlots small_tree_loaded 0%nat 0)
    /\ find_block_map_page_pbn 1 4 any_location_valid small_block_map 0
       = 60.
Proof.
  destruct (lookup_agrees_with_find_block_map_page_pbn
              2 4 any_location_valid small_is_data_block small_page_key
              (fun _ => VDO_SUCCESS) false 0 1 small_tree_page
              (fun _ => 0) (fun d => Nat.eqb d 4) (fun _ => false)
              1 small_block_map 0%nat small_tree_loaded 0)
    as (s' & E & M & _).
  - reflexivity.
  - lia.
  - lia.
  - reflexivity.
  - reflexivity.
  - intros root index. reflexivity.
  - reflexivity.
  - reflexivity.
  - lia.
  - lia.
  - reflexivity.
  - vm_compute. discriminate.
  - exists s'. split; [exact E|].
    destruct M as (_ & S0 & _); [reflexivity | reflexivity |].
    split; [exact S0 | reflexivity].
Defined.
